(* ===== verification/_CoqProject ===== *)
-Q . S2P
Prelude.v
CppString.v
Buffer.v
Wire.v
Proto.v
Message.v
Codec.v
LegacyCodec.v
XRpcCodec.v
CodecFactory.v
Config.v
Application.v
LoadBalancer.v
ZookeeperClient.v
RouteManager.v
Server.v
ServerSpec.v
ServerCalls.v
ServerRun.v
Stages.v
Channel.v
ChannelSpec.v
Discovery.v
UserProto.v
UserService.v
LoginCall.v
ExampleClients.v
MiniServer.v
MiniReactor.v
MiniMains.v
Threads.v
Doubles.v
StdSort.v
OStream.v
RealBench.v
RcuBench.v
QpsMonitor.v
QpsStats.v
QpsBench.v
Logger.v
RuntimeStats.v
StatsReport.v
ClientMains.v
StatsBench.v
