(* ===== verification/Prelude.v ===== *)
(** * XRPC: a verification library of the RPC framework

    The program is an RPC framework in C++: a client ([RpcChannel]) finds a
    server in ZooKeeper, frames a protobuf request in one of two protocols,
    Legacy ([4B TotalLen | 4B HeaderLen | RpcHeader | Body]) or XRPC (a 16-byte
    fixed header, a protobuf variable header and a body), and a server
    ([RpcServer]) takes the frames out of a muduo connection's buffer, calls the
    service's method and frames the answer. Paths below are those of the
    repository; a definition has its source's name where Rocq allows it.

    ** The files and the code they model

    - [Prelude], [CppString]: bytes, machine integers with their wrap-around,
      byte order of the host and of the network, outcomes of calls ([outcome]:
      returned, [exit], uncaught exception, undefined behaviour, blocked), the
      parts of [std::string], [fgets] and [atoi] the code uses; shared lemmas,
      tactics and the hint databases [xrpc] and [xlen].
    - [Buffer]: [codec/noncontiguous_buffer.cc], the chained buffer of the codecs;
      class [ByteQueue] is what the codecs need of it.
    - [Wire], [Proto], [Message]: [codec/xrpc_codec.h] (constants, [FixedHeader]),
      [protocol/*.proto] (the header messages; protobuf's own code is the class
      [Proto] with the law that parsing undoes serialising), and
      [codec/protocol_message.*].
    - [Codec], [LegacyCodec], [XRpcCodec], [CodecFactory]: the codec interface
      ([codec/codec.h]) with the class [FrameCodec] of laws the server relies on,
      its two implementations and the protocol detection. All lengths are
      computed at their C++ widths.
    - [Config], [Application]: [common/config.cc], [common/application.cc].
    - [LoadBalancer], [ZookeeperClient], [RouteManager]: [registry/*.cc]. The
      ZooKeeper C client is the class [ZooApi] with the laws [ZooLaws] of a
      healthy session. [ZookeeperClient::Start]'s wait and the route table's
      readers and updaters are transition systems at the granularity of the
      mutex, condition-variable and [atomic_load]/[atomic_store] operations.
    - [Server], [ServerSpec], [ServerCalls], [ServerRun]: [rpc/server.cc]. muduo's
      buffer and the protobuf services are the classes [MuduoBuffer] and
      [ServiceApi]; what a handler does to the outside is a list of actions.
      [ServerSpec] has the abstract specification ([frames], [serve]) that
      [OnMessage] refines.
    - [Stages], [Channel], [ChannelSpec]: [rpc/channel.cc], [rpc/controller.cc], in a
      state monad with early return; the sockets are scripts of the results of system
      calls, and [timed] is a [ScopedTimer] of one of the [Stages].
    - [Discovery]: how [RpcServer::Run] and the channel's discovery meet in the
      registry.
    - [UserProto], [UserService], [LoginCall], [ExampleClients]: [example/user.proto],
      [example/callee/server.cc], a Login call through stub, channel, server and
      service, and the threads of [example/caller/client.cc] and [bench_client.cc].
    - [MiniServer], [MiniReactor], [MiniMains]: the servers of [tools/mini_server.cc]
      and [tools/mini_server_reactor.cc], their connections and their [main]s.
    - [Threads]: threads as lists of atomic actions on a shared state, interleaved; what
      every interleaving has in common (sums, and a permutation of the actions).
    - [Doubles], [StdSort], [OStream]: what the programs use of the language: IEEE 754
      doubles, [std::sort] (the class [StdSort]: any function that sorts), formatted
      output. The text of a double that is not in fixed notation is the class
      [GeneralFormat].
    - [RealBench]: [tools/real_benchmark.cc]. [RcuBench]: [tools/rcu_benchmark.cc], its
      three ways of sharing the route table as one transition system over locking,
      loading and storing.
    - [QpsMonitor], [QpsStats], [QpsBench]: the monitor thread that
      [tools/qps_benchmark.cc], [client.cc] and [bench_client.cc] share up to the
      differences of [tool], interleaved with the workers; their statistics and
      segments; and [qps_benchmark.cc] itself, over the draws of the class [Random].
    - [Logger]: [common/logger.h]. [RuntimeStats], [StatsReport]:
      [monitor/runtime_stats.*]; the threads in [Record] are a transition system over
      the atomic operations, the report is its lines of log.
    - [ClientMains]: the [main]s of [client.cc] and [bench_client.cc]. [StatsBench]:
      [tools/benchmark_stats.cc].

    ** What the theorems show

    - The buffer is a byte string under any sequence of operations; both codecs
      give back what they encoded, with any bytes following, and give exactly
      specified verdicts on any bytes; detection picks the codec of the client.
    - [OnMessage] implements the frame specification, how TCP cuts the stream does
      not matter, and a call goes from the client's bytes through the handler and
      the service to the client's decoded response, for both protocols: a Login of the
      example from stub to stub. The first two hold of every XRPC stream, and of the
      Legacy streams in which no complete frame has a [HeaderLen] above its
      [TotalLen] - 4 ([local_frames]); the decoder reads the header of such a frame
      from the bytes behind it, and then the segments do matter
      ([legacy_overlong_segments_matter]).
    - A client call over a connection returns what the server answered (Legacy), and
      every call that ends has reported its outcome and its total time.
    - The route table loses no update, its reads are atomic and do not wait for
      updates, and every run of its threads can be completed, in a number of steps
      known beforehand; [Start] has no lost wake-up; [Run] publishes every method where a client looks for it,
      and a client without an address dials the address the server listens on.
    - Configuration files of any content load without an exception, and give back
      the settings they were written from; round robin is fair.
    - [Record] counts a duration on its stage, in the bucket its limits leave, and
      nowhere else, or is undefined for one whose conversions do not fit; it loses no
      sample when threads record at once; the percentiles of recorded durations are the buckets of the ranks
      their definition names, and the report has a line for each stage recorded.
    - The reactor handles each ready descriptor once a round and deals its connections
      out evenly; a worker of [real_benchmark] and a connection of [mini_server] agree
      on every byte, and all calls succeed.
    - Under each scheme of [rcu_benchmark] no store meets another access, reads see
      whole tables, no write is lost, every run ends with all threads returned, and the
      three end with the same table.
    - The reports of the benchmarks account for every call, whatever the interleaving,
      down to the count that the channels' own timers give; the monitors never show more
      than has happened; [main] can always join; the segments of [qps_benchmark]
      partition its samples; the percentiles are those of the sorted samples, the
      conclusion names a scheme of the best ratio.
    - Where the code falls short of its purpose, the theorem says so: a header
      longer than its frame, a header of 64 KB, a one-way request's lost target, an
      XRPC call on a little-endian host, one codec for all connections, discovery
      that always takes the first node, an update overwritten by an older one,
      [GetData]'s unterminated array, requests that arrive in part, a controller that
      is not reset after a failure, trailing samples left out of the segments, no
      samples taken for a consistent throughput.

    ** Bounds and fuel

    The fuel of a loop is a bound its own theorem shows to be enough: the bytes of
    the buffer for [OnMessage_loop] (each frame takes at least one), the bytes of
    the file for [load_loop] (each [fgets] takes at least one), the size of the
    descriptor table for [scan]; for [handle_client] any fuel above the number of
    requests. Loops over a script of system calls recurse on the script, and a call
    that needs more than the script has blocks; the counted loops of the benchmarks
    recurse on their count. The monitors' clock stays less than [2^58] nanoseconds
    after the start ([uptime_ok], nine years), so that a time in seconds is an [int].

    ** What is not modelled

    The protobuf wire format and generated code, muduo, the ZooKeeper library, the
    kernel and the C library behind the classes and scripts above; allocation
    failure. What time the code takes: clock readings are parameters, and a sleep
    leaves the state as it is. The distributions of <random> (their draws are
    parameters) and [std::sort]'s algorithm (its result is). How lines of the monitor
    and of [main] mix on the standard output. [CallMethod] of a service runs its
    [done] closure before it returns or never, since the closure refers to the
    handler's own argument. The handlers of the server run one after the other: its
    four IO threads share [_serverCodec] without a lock ([rpc/server.cc:115]), and
    what they do at the same time on it is not studied. [atomic_load] and
    [atomic_store] of a [shared_ptr] are one step each; whether they lock inside is
    the C++ library's (on macOS they do, as [rcu_benchmark] says). [Peek] into memory
    smaller than what is asked for, which no caller does. The channel's discovery runs without other threads, so the
    threads of [client.cc] each have a route table of their own; the interleaving on
    the shared one is studied in [RouteManager]. The build files and the Python
    scripts. *)

From Stdlib Require Export ZArith Lia ZifyBool.
From Stdlib Require Import Strings.Byte.
From Stdlib Require Strings.String.
Export Strings.String.StringSyntax.
From stdpp Require Export prelude list gmap.

#[global] Open Scope Z_scope.

(** ** Bytes, strings and sizes *)

(** A C++ [char]/[uint8_t] in memory. A [std::string] and a char buffer are
    lists of bytes. *)
Abbreviation byte := Byte.byte.
Abbreviation bytes := (list Byte.byte).

(** [size()] of a container, a [size_t]. *)
Abbreviation zlen l := (Z.of_nat (length l)).

(** A string literal of the source. *)
Definition lit (s : String.string) : bytes := String.list_byte_of_string s.
Arguments lit s%_string_scope.

Definition byte_to_Z (b : byte) : Z := Z.of_N (Byte.to_N b).
Definition Z_to_byte (z : Z) : byte :=
  default Byte.x00 (Byte.of_N (Z.to_N (z mod 256))).

#[global] Instance byte_eq_dec : EqDecision byte := Byte.byte_eq_dec.
#[global] Program Instance byte_countable : Countable byte :=
  inj_countable Byte.to_N Byte.of_N Byte.of_to_N.

(** ** Machine integers: a value of the type after a conversion *)
Definition u8 (z : Z) : Z := z mod 2 ^ 8.
Definition u16 (z : Z) : Z := z mod 2 ^ 16.
Definition u32 (z : Z) : Z := z mod 2 ^ 32.
Definition u64 (z : Z) : Z := z mod 2 ^ 64.
Definition i32 (z : Z) : Z := (z + 2 ^ 31) mod 2 ^ 32 - 2 ^ 31.
Definition i64 (z : Z) : Z := (z + 2 ^ 63) mod 2 ^ 64 - 2 ^ 63.

(** ** Sub-ranges and memory *)

(** [n] bytes of [l] from offset [off]. *)
Definition slice {A} (l : list A) (off n : Z) : list A :=
  take (Z.to_nat n) (drop (Z.to_nat off) l).

(** [memcpy(dst, src, src.size())]: the first bytes of [dst] are replaced. *)
Definition overwrite {A} (dst src : list A) : list A :=
  src ++ drop (length src) dst.

(** [std::string(n, '\0')]. *)
Definition zeros (n : Z) : bytes := replicate (Z.to_nat n) Byte.x00.

(** [s.resize(n)]: truncates or pads with zero bytes. *)
Definition str_resize (s : bytes) (n : Z) : bytes :=
  take (Z.to_nat n) s ++ zeros (n - zlen s).

(** ** Byte order *)

(** The least significant byte first. *)
Fixpoint le_bytes (n : nat) (z : Z) : bytes :=
  match n with
  | O => []
  | S n' => Z_to_byte z :: le_bytes n' (z / 256)
  end.

Fixpoint le_load (bs : bytes) : Z :=
  match bs with
  | [] => 0
  | b :: bs' => byte_to_Z b + 256 * le_load bs'
  end.

(** Network byte order: the most significant byte first. *)
Definition be_bytes (n : nat) (z : Z) : bytes := rev (le_bytes n z).
Definition be_load (bs : bytes) : Z := le_load (rev bs).

(** The byte order of the machine the code runs on. *)
Inductive endian := Little | Big.
Class Host := host_endian : endian.

(** An unsigned integer of [n] bytes in the host's memory, and read back. *)
Definition store `{Host} (n : nat) (z : Z) : bytes :=
  match host_endian with Little => le_bytes n z | Big => be_bytes n z end.
Definition load `{Host} (bs : bytes) : Z :=
  match host_endian with Little => le_load bs | Big => be_load bs end.

(** [htons]/[ntohs] ([n = 2]) and [htonl]/[ntohl] ([n = 4]) of <arpa/inet.h>:
    the identity on a big-endian host, a byte swap on a little-endian one. *)
Definition bswap (n : nat) (z : Z) : Z := be_load (le_bytes n z).
Definition hton `{Host} (n : nat) (z : Z) : Z :=
  match host_endian with Little => bswap n z | Big => z end.
Definition htons `{Host} : Z -> Z := hton 2.
Definition ntohs `{Host} : Z -> Z := hton 2.
Definition htonl `{Host} : Z -> Z := hton 4.
Definition ntohl `{Host} : Z -> Z := hton 4.

(** ** Outcomes

    How a call ends when it may not return: [exit] with a status, an exception
    that nothing catches, undefined behaviour (a null dereference, a write past
    the end of an array), or waiting for an event that never comes. *)
Inductive outcome (A : Type) :=
| Returns (a : A)
| Exits (status : Z)
| Throws
| Undefined
| Blocks.
Arguments Returns {A} a.
Arguments Exits {A} status.
Arguments Throws {A}.
Arguments Undefined {A}.
Arguments Blocks {A}.

#[export] Instance outcome_ret : MRet outcome := fun A a => Returns a.
#[export] Instance outcome_bind : MBind outcome := fun A B f m =>
  match m with
  | Returns a => f a
  | Exits n => Exits n
  | Throws => Throws
  | Undefined => Undefined
  | Blocks => Blocks
  end.

(** The result of signed 64-bit arithmetic, whose overflow is undefined. *)
Definition in_llong (z : Z) : outcome Z :=
  if (- 2 ^ 63 <=? z) && (z <? 2 ^ 63) then Returns z else Undefined.

Definition in_int (z : Z) : outcome Z :=
  if (- 2 ^ 31 <=? z) && (z <? 2 ^ 31) then Returns z else Undefined.

(** [v[i]] of a vector: outside it, undefined. *)
Definition at_index {A} (v : list A) (i : Z) : outcome A :=
  if i <? 0 then Undefined
  else match v !! Z.to_nat i with Some a => mret a | None => Undefined end.

(** A range-based [for] over a sequence, with the state the body changes. *)
Fixpoint for_each {A S} (f : S -> A -> outcome S) (s : S) (l : list A) : outcome S :=
  match l with
  | [] => mret s
  | a :: l => s ← f s a; for_each f s l
  end.

(** [std::unordered_map::emplace] and [insert] of one pair: an entry that is
    there stays. *)
Definition emplace {A} (k : bytes) (v : A) (m : gmap bytes A) : gmap bytes A :=
  match m !! k with Some _ => m | None => <[k := v]> m end.

(** ** Tactics and hint databases *)

Create HintDb xrpc.
Create Rewrite HintDb xlen.

(** Case analysis on the first boolean condition of the goal. *)
Tactic Notation "case_if" "as" ident(E) :=
  match goal with |- context [ if ?b then _ else _ ] => destruct b eqn:E end.
Ltac case_if := let E := fresh "Hif" in case_if as E.

(** Turns boolean comparisons on [Z] in the context into propositions. *)
Ltac zbool :=
  rewrite ?Z.geb_leb, ?Z.gtb_ltb in * |-;
  rewrite ?andb_true_iff, ?andb_false_iff, ?orb_true_iff, ?orb_false_iff in * |-;
  rewrite ?Z.ltb_lt, ?Z.ltb_ge, ?Z.leb_le, ?Z.leb_gt, ?Z.eqb_eq, ?Z.eqb_neq in * |-.

(** Decides a comparison of the goal that the (linear) context settles. *)
Ltac decide_cmp :=
  repeat match goal with
  | |- context [ if ?b then _ else _ ] =>
      first [ replace b with true by lia | replace b with false by lia ]; cbv iota
  end.

(** ** Lemmas on bytes *)

Lemma byte_to_Z_bound b : 0 <= byte_to_Z b < 256.
Proof. unfold byte_to_Z. pose proof (Byte.to_N_bounded b). lia. Qed.

Lemma Z_to_byte_to_Z z : byte_to_Z (Z_to_byte z) = z mod 256.
Proof.
  unfold byte_to_Z, Z_to_byte. pose proof (Z.mod_pos_bound z 256 eq_refl) as Hb.
  destruct (Byte.of_N (Z.to_N (z mod 256))) as [b|] eqn:E; simpl.
  - apply Byte.to_of_N in E. rewrite E. lia.
  - apply Byte.of_N_None_iff in E. lia.
Qed.

Lemma byte_to_Z_to_byte b : Z_to_byte (byte_to_Z b) = b.
Proof.
  unfold Z_to_byte. rewrite Z.mod_small by apply byte_to_Z_bound.
  unfold byte_to_Z. by rewrite N2Z.id, Byte.of_to_N.
Qed.

Lemma Z_to_byte_mod z : Z_to_byte (z mod 256) = Z_to_byte z.
Proof. unfold Z_to_byte. by rewrite Zmod_mod. Qed.

(** ** Lemmas on byte order *)

Lemma pow256_succ n : 256 ^ Z.of_nat (S n) = 256 * 256 ^ Z.of_nat n.
Proof. rewrite Nat2Z.inj_succ. apply Z.pow_succ_r. lia. Qed.

Lemma length_le_bytes n z : length (le_bytes n z) = n.
Proof. revert z. induction n; intros; simpl; auto. Qed.

Lemma length_be_bytes n z : length (be_bytes n z) = n.
Proof. unfold be_bytes. by rewrite length_rev, length_le_bytes. Qed.

Lemma le_load_bound bs : 0 <= le_load bs < 256 ^ zlen bs.
Proof.
  induction bs as [|b bs IH]; simpl; [lia|].
  rewrite pow256_succ. pose proof (byte_to_Z_bound b). lia.
Qed.

Lemma be_load_bound bs : 0 <= be_load bs < 256 ^ zlen bs.
Proof. unfold be_load. rewrite <- (length_rev bs). apply le_load_bound. Qed.

Lemma le_load_le_bytes n z : le_load (le_bytes n z) = z mod 256 ^ Z.of_nat n.
Proof.
  revert z. induction n as [|n IH]; intros z; simpl.
  { by rewrite Z.mod_1_r. }
  rewrite IH, Z_to_byte_to_Z, pow256_succ.
  assert (0 < 256 ^ Z.of_nat n) by (apply Z.pow_pos_nonneg; lia).
  rewrite Z.rem_mul_r by lia. lia.
Qed.

Lemma le_bytes_le_load bs : le_bytes (length bs) (le_load bs) = bs.
Proof.
  induction bs as [|b bs IH]; simpl; [done|]. pose proof (byte_to_Z_bound b).
  rewrite Z.mul_comm, Z.div_add, Z.div_small, Z.add_0_l, IH by lia. f_equal.
  by rewrite <- Z_to_byte_mod, Z_mod_plus_full, Z_to_byte_mod, byte_to_Z_to_byte.
Qed.

Lemma be_load_be_bytes n z : be_load (be_bytes n z) = z mod 256 ^ Z.of_nat n.
Proof. unfold be_load, be_bytes. by rewrite rev_involutive, le_load_le_bytes. Qed.

Lemma be_load_be_bytes_id n z :
  0 <= z < 256 ^ Z.of_nat n -> be_load (be_bytes n z) = z.
Proof. intros. by rewrite be_load_be_bytes, Z.mod_small. Qed.

(** What a host puts on the wire after [hton] is big-endian, whatever its own
    byte order; what it reads from the wire and passes to [ntoh] is the
    big-endian value. *)
Lemma store_hton `{Host} n z : store n (hton n z) = be_bytes n z.
Proof.
  unfold store, hton. destruct host_endian; [|done].
  unfold bswap, be_load, be_bytes.
  rewrite <- (length_le_bytes n z), <- length_rev at 1. apply le_bytes_le_load.
Qed.

Lemma hton_load `{Host} n bs : length bs = n -> hton n (load bs) = be_load bs.
Proof.
  intros <-. unfold hton, load. destruct host_endian; [|done].
  unfold bswap. by rewrite le_bytes_le_load.
Qed.

Lemma length_store `{Host} n z : length (store n z) = n.
Proof.
  unfold store. destruct host_endian; [apply length_le_bytes|apply length_be_bytes].
Qed.

Lemma load_store `{Host} n z : load (store n z) = z mod 256 ^ Z.of_nat n.
Proof.
  unfold load, store.
  destruct host_endian; [apply le_load_le_bytes|apply be_load_be_bytes].
Qed.

Lemma load_bound `{Host} bs : 0 <= load bs < 256 ^ zlen bs.
Proof. unfold load. destruct host_endian; [apply le_load_bound|apply be_load_bound]. Qed.

Lemma hton_bound `{Host} n z :
  0 <= z < 256 ^ Z.of_nat n -> 0 <= hton n z < 256 ^ Z.of_nat n.
Proof.
  intros Hz. unfold hton, bswap. destruct host_endian; [|done].
  pose proof (be_load_bound (le_bytes n z)) as Hb. by rewrite length_le_bytes in Hb.
Qed.

Lemma hton_involutive `{Host} n z :
  0 <= z < 256 ^ Z.of_nat n -> hton n (hton n z) = z.
Proof.
  intros Hz. rewrite <- (Z.mod_small (hton n z) (256 ^ Z.of_nat n)).
  - rewrite <- load_store, hton_load by apply length_store.
    by rewrite store_hton, be_load_be_bytes_id.
  - by apply hton_bound.
Qed.

(** ** Lemmas on sub-ranges *)

Lemma length_zeros n : length (zeros n) = Z.to_nat n.
Proof. apply length_replicate. Qed.

Lemma length_slice {A} (l : list A) off n :
  0 <= off -> 0 <= n -> off + n <= zlen l -> length (slice l off n) = Z.to_nat n.
Proof. intros. unfold slice. rewrite length_take, length_drop. lia. Qed.

Lemma slice_app_l {A} (l k : list A) off n :
  0 <= off -> 0 <= n -> off + n <= zlen l -> slice (l ++ k) off n = slice l off n.
Proof.
  intros. unfold slice. rewrite drop_app_le by lia.
  rewrite take_app_le; [done|]. rewrite length_drop. lia.
Qed.

Lemma slice_app_r {A} (l k : list A) off n :
  zlen l <= off -> slice (l ++ k) off n = slice k (off - zlen l) n.
Proof.
  intros. unfold slice. rewrite drop_app_ge by lia. do 3 f_equal. lia.
Qed.

Lemma slice_all {A} (l : list A) off n : off = 0 -> zlen l <= n -> slice l off n = l.
Proof. intros -> ?. unfold slice. rewrite drop_0. apply take_ge. lia. Qed.

Lemma slice_head {A} (l k : list A) off n :
  off = 0 -> n = zlen l -> slice (l ++ k) off n = l.
Proof. intros -> ->. unfold slice. rewrite drop_0, Nat2Z.id. apply take_app_length. Qed.

Lemma slice_take {A} (l : list A) (n : nat) off k :
  0 <= off -> 0 <= k -> off + k <= Z.of_nat n -> slice (take n l) off k = slice l off k.
Proof.
  intros. unfold slice. rewrite take_drop_commute, take_take, take_drop_commute.
  do 2 f_equal. lia.
Qed.

Lemma slice_0 {A} (l : list A) off : slice l off 0 = [].
Proof. done. Qed.

Lemma slice_ge {A} (l : list A) off n : zlen l <= off -> slice l off n = [].
Proof. intros. unfold slice. rewrite drop_ge by lia. apply take_nil. Qed.

(** Reading [n] bytes and then [m] bytes is reading [n + m] bytes. *)
Lemma slice_split {A} (l : list A) off n m :
  0 <= off -> 0 <= n -> 0 <= m ->
  slice l off (n + m) = slice l off n ++ slice l (off + n) m.
Proof.
  intros. unfold slice. rewrite !Z2Nat.inj_add by lia.
  rewrite <- drop_drop. by rewrite take_take_drop.
Qed.

Lemma overwrite_all {A} (dst src : list A) :
  (length dst <= length src)%nat -> overwrite dst src = src.
Proof. intros. unfold overwrite. rewrite drop_ge by lia. apply app_nil_r. Qed.

Lemma length_overwrite {A} (dst src : list A) :
  (length src <= length dst)%nat -> length (overwrite dst src) = length dst.
Proof. intros. unfold overwrite. rewrite length_app, length_drop. lia. Qed.

Lemma length_str_resize s n : 0 <= n -> zlen (str_resize s n) = n.
Proof. intros. unfold str_resize. rewrite length_app, length_take, length_zeros. lia. Qed.

#[export] Hint Rewrite @length_app @length_nil @length_cons length_be_bytes
  length_le_bytes @length_store length_zeros @length_replicate @length_drop
  @length_take Nat2Z.inj_add Nat2Z.inj_succ : xlen.

(** Arithmetic over lengths. *)
Ltac xlen := autorewrite with xlen in *; simpl length in *; lia.

(** Reads at known offsets of a concatenation. *)
Ltac slices :=
  repeat first
    [ rewrite slice_head by xlen
    | rewrite slice_app_r by xlen
    | rewrite slice_app_l by xlen
    | rewrite slice_all by xlen ].

(** ** Lemmas on maps *)

Lemma lookup_emplace {A} k (v : A) m : emplace k v m !! k = Some (default v (m !! k)).
Proof. unfold emplace. case_match eqn:E; [by rewrite E|]. by rewrite lookup_insert_eq. Qed.

Lemma lookup_emplace_ne {A} k k' (v : A) m : k <> k' -> emplace k v m !! k' = m !! k'.
Proof. intros. unfold emplace. case_match; [done|]. by rewrite lookup_insert_ne. Qed.

Lemma lookup_emplace_Some {A} k k' (v w : A) m :
  m !! k' = Some w -> emplace k v m !! k' = Some w.
Proof.
  intros Hm. destruct (decide (k = k')) as [->|]; [|by rewrite lookup_emplace_ne].
  by rewrite lookup_emplace, Hm.
Qed.

(** ** Lemmas on loops *)

(** A loop whose body returns, keeps [P], moves the state along [R] and achieves
    [Q] for its element, which later rounds do not undo. *)
Lemma for_each_spec {A S} (f : S -> A -> outcome S) (P : S -> Prop) (R : relation S)
    `{!PreOrder R} (Q : A -> S -> Prop) l :
  (forall a s s', Q a s -> R s s' -> Q a s') ->
  (forall s a, a ∈ l -> P s -> exists s', f s a = Returns s' /\ P s' /\ R s s' /\ Q a s') ->
  forall s, P s ->
  exists s', for_each f s l = Returns s' /\ P s' /\ R s s' /\ (forall a, a ∈ l -> Q a s').
Proof.
  intros HQ. induction l as [|a l IH]; intros Hf s Hs; cbn [for_each].
  { exists s. split; [done|]. split; [done|]. split; [done|].
    intros a Ha. by apply elem_of_nil in Ha. }
  destruct (Hf s a (list_elem_of_here _ _) Hs) as (s1 & -> & Hs1 & HR & Hq). simpl.
  destruct (IH (fun s a Ha => Hf s a (list_elem_of_further _ _ _ Ha)) s1 Hs1)
    as (s2 & -> & Hs2 & HR2 & Hq2).
  exists s2. split; [done|]. split; [done|]. split; [by transitivity s1|].
  intros a' [->|Ha]%elem_of_cons; [by eapply HQ|by apply Hq2].
Qed.

(** ** Transition systems *)

(** What holds initially and is preserved by every step holds in every reachable
    state. *)
Lemma rtc_invariant {A} (R : relation A) (inv : A -> Prop) x y :
  inv x -> (forall a b, inv a -> R a b -> inv b) -> rtc R x y -> inv y.
Proof. intros Hx Hstep Hr. revert Hx. induction Hr; eauto. Qed.

Lemma at_index_ok {A} (l : list A) i :
  0 <= i < zlen l -> exists a, l !! Z.to_nat i = Some a /\ at_index l i = Returns a.
Proof.
  intros Hi. destruct (lookup_lt_is_Some_2 l (Z.to_nat i) ltac:(lia)) as [a Ha].
  exists a. unfold at_index. rewrite (proj2 (Z.ltb_ge _ _)), Ha by lia. done.
Qed.

Lemma in_llong_ok z : - 2 ^ 63 <= z < 2 ^ 63 -> in_llong z = Returns z.
Proof. intros. unfold in_llong. by rewrite (proj2 (Z.leb_le _ _)), (proj2 (Z.ltb_lt _ _)) by lia. Qed.
Lemma in_int_ok z : - 2 ^ 31 <= z < 2 ^ 31 -> in_int z = Returns z.
Proof. intros. unfold in_int. by rewrite (proj2 (Z.leb_le _ _)), (proj2 (Z.ltb_lt _ _)) by lia. Qed.

(** ** Sums over lists *)

Definition sum_by {A} (f : A -> Z) (l : list A) : Z := foldr (fun a acc => f a + acc) 0 l.

Lemma sum_by_cons {A} (f : A -> Z) a l : sum_by f (a :: l) = f a + sum_by f l.
Proof. done. Qed.

Lemma sum_by_app {A} (f : A -> Z) l l' : sum_by f (l ++ l') = sum_by f l + sum_by f l'.
Proof. induction l as [|a l IH]; simpl; [done|]. unfold sum_by in *. lia. Qed.

Lemma sum_by_insert {A} (f : A -> Z) l i a a' :
  l !! i = Some a -> sum_by f (<[i := a']> l) = sum_by f l - f a + f a'.
Proof.
  revert i. induction l as [|a0 l IH]; intros [|i] Hi; simplify_eq/=; [lia|].
  rewrite IH by done. lia.
Qed.

Lemma sum_by_fmap {A B} (f : B -> Z) (g : A -> B) l : sum_by f (g <$> l) = sum_by (fun a => f (g a)) l.
Proof. induction l as [|a l IH]; [done|]. cbn [fmap list_fmap]. by rewrite !sum_by_cons, IH. Qed.

Lemma sum_by_perm {A} (f : A -> Z) l l' : l ≡ₚ l' -> sum_by f l = sum_by f l'.
Proof. induction 1; rewrite ?sum_by_cons; try lia; done. Qed.

Lemma sum_by_concat {A} (f : A -> Z) ls : sum_by f (concat ls) = sum_by (sum_by f) ls.
Proof. induction ls as [|l ls IH]; simpl; [done|]. by rewrite sum_by_app, IH. Qed.

Lemma sum_by_ext {A} (f g : A -> Z) l : (forall a, a ∈ l -> f a = g a) -> sum_by f l = sum_by g l.
Proof.
  induction l as [|a l IH]; intros H; simpl; [done|].
  rewrite (H a), IH by set_solver. done.
Qed.

Lemma sum_by_const {A} (f : A -> Z) k l : Forall (fun a => f a = k) l -> sum_by f l = zlen l * k.
Proof. induction 1 as [|a l Ha _ IH]; simpl; [done|]. rewrite Ha, IH. lia. Qed.

Lemma sum_by_replicate {A} (f : A -> Z) n a : sum_by f (replicate n a) = Z.of_nat n * f a.
Proof. induction n as [|n IH]; [done|]. cbn [replicate]. rewrite sum_by_cons, IH. lia. Qed.

(** The sum over a list whose elements are known by their position. *)
Lemma sum_by_lookup {A} (f : A -> Z) (g : nat -> Z) l k :
  (forall i a, l !! i = Some a -> f a = g (k + i)%nat) -> sum_by f l = sum_by g (seq k (length l)).
Proof.
  revert k. induction l as [|a l IH]; intros k Hl; [done|]. cbn [length seq]. rewrite !sum_by_cons.
  rewrite (Hl 0%nat a eq_refl), Nat.add_0_r. f_equal. apply IH. intros i b Hi.
  by rewrite (Hl (S i) b Hi), Nat.add_succ_r.
Qed.

Lemma sum_by_plus {A} (f g h : A -> Z) l :
  (forall a, f a = g a + h a) -> sum_by f l = sum_by g l + sum_by h l.
Proof. intros H. induction l as [|a l IH]; simpl; [done|]. rewrite H, IH. lia. Qed.

Lemma sum_by_le {A} (f g : A -> Z) l :
  Forall (fun a => f a <= g a) l -> sum_by f l <= sum_by g l.
Proof. induction 1; simpl; lia. Qed.

Lemma length_bind_concat {A B} (f : A -> list B) ls :
  zlen (concat ls ≫= f) = sum_by (fun l => zlen (l ≫= f)) ls.
Proof. induction ls as [|l ls IH]; simpl; [done|]. rewrite bind_app, length_app. lia. Qed.

Lemma sum_by_nonneg {A} (f : A -> Z) l : Forall (fun a => 0 <= f a) l -> 0 <= sum_by f l.
Proof. induction 1; simpl; lia. Qed.

(** ** Lemmas on machine integers *)

Lemma u32_small z : 0 <= z < 2 ^ 32 -> u32 z = z.
Proof. apply Z.mod_small. Qed.
Lemma u16_small z : 0 <= z < 2 ^ 16 -> u16 z = z.
Proof. apply Z.mod_small. Qed.
Lemma u8_small z : 0 <= z < 2 ^ 8 -> u8 z = z.
Proof. apply Z.mod_small. Qed.
Lemma u64_small z : 0 <= z < 2 ^ 64 -> u64 z = z.
Proof. apply Z.mod_small. Qed.
Lemma u32_bound z : 0 <= u32 z < 2 ^ 32.
Proof. by apply Z.mod_pos_bound. Qed.
Lemma u16_bound z : 0 <= u16 z < 2 ^ 16.
Proof. by apply Z.mod_pos_bound. Qed.
Lemma u8_bound z : 0 <= u8 z < 2 ^ 8.
Proof. by apply Z.mod_pos_bound. Qed.
Lemma u64_bound z : 0 <= u64 z < 2 ^ 64.
Proof. by apply Z.mod_pos_bound. Qed.
Lemma i32_small z : - 2 ^ 31 <= z < 2 ^ 31 -> i32 z = z.
Proof. intros. unfold i32. rewrite Z.mod_small; lia. Qed.
Lemma i32_bound z : - 2 ^ 31 <= i32 z < 2 ^ 31.
Proof. unfold i32. pose proof (Z.mod_pos_bound (z + 2 ^ 31) (2 ^ 32) eq_refl). lia. Qed.
Definition i64_ok (z : Z) : Prop := - 2 ^ 63 <= z < 2 ^ 63.
Lemma i64_small z : i64_ok z -> i64 z = z.
Proof. unfold i64_ok, i64. intros. rewrite Z.mod_small; lia. Qed.
Lemma i64_ok_i64 z : i64_ok (i64 z).
Proof. unfold i64_ok, i64. pose proof (Z.mod_pos_bound (z + 2 ^ 63) (2 ^ 64) eq_refl). lia. Qed.
Lemma i64_add z k : i64 (i64 z + k) = i64 (z + k).
Proof.
  unfold i64.
  replace ((z + 2 ^ 63) mod 2 ^ 64 - 2 ^ 63 + k + 2 ^ 63)
    with ((z + 2 ^ 63) mod 2 ^ 64 + k) by lia.
  rewrite Zplus_mod_idemp_l. do 2 f_equal. lia.
Qed.

#[global] Arguments le_bytes : simpl never.
#[global] Arguments be_bytes : simpl never.
#[global] Arguments store : simpl never.
#[global] Arguments load : simpl never.
#[global] Arguments hton : simpl never.
#[global] Arguments slice : simpl never.
#[global] Arguments zeros : simpl never.
#[global] Arguments overwrite : simpl never.

#[export] Hint Resolve byte_to_Z_bound u8_bound u16_bound u32_bound u64_bound
  i32_bound : xrpc.
