(* ===== verification/CppString.v ===== *)
(** * CppString: the std::string, <cstdio> and <cstdlib> functions the code calls

    Positions are [size_t] values, [npos] is the largest of them; a conversion
    to [int] is [i32], which takes [npos] to -1. *)

From S2P Require Import Prelude.

Definition npos : Z := 2 ^ 64 - 1.

(** [s.find(c, pos)]. *)
Fixpoint find_at (c : byte) (s : bytes) (i : Z) : Z :=
  match s with
  | [] => npos
  | b :: s' => if bool_decide (b = c) then i else find_at c s' (i + 1)
  end.
Definition find (s : bytes) (c : byte) (pos : Z) : Z :=
  find_at c (drop (Z.to_nat pos) s) pos.

(** [s.find_first_not_of(c)] and [s.find_last_not_of(c)]. *)
Fixpoint find_first_not_of_at (c : byte) (s : bytes) (i : Z) : Z :=
  match s with
  | [] => npos
  | b :: s' => if bool_decide (b = c) then find_first_not_of_at c s' (i + 1) else i
  end.
Definition find_first_not_of (s : bytes) (c : byte) : Z := find_first_not_of_at c s 0.
Definition find_last_not_of (s : bytes) (c : byte) : Z :=
  let i := find_first_not_of (rev s) c in
  if i =? npos then npos else zlen s - 1 - i.

(** [s.substr(pos, n)] throws [std::out_of_range] when [pos > s.size()]; the
    arguments are converted to [size_t]. *)
Definition substr (s : bytes) (pos n : Z) : outcome bytes :=
  if u64 pos >? zlen s then Throws
  else Returns (slice s (u64 pos) (Z.min (u64 n) (zlen s - u64 pos))).

(** The string a [const char*] points to: up to the first NUL. *)
Fixpoint c_str (s : bytes) : bytes :=
  match s with
  | [] => []
  | b :: s' => if bool_decide (b = Byte.x00) then [] else b :: c_str s'
  end.

(** [fgets(buf, n, f)] on the unread contents of a file: at most [n - 1] bytes,
    up to and including a newline; nothing at the end of the file. *)
Fixpoint take_line (n : nat) (s : bytes) : bytes * bytes :=
  match n, s with
  | O, _ => ([], s)
  | _, [] => ([], [])
  | S n, b :: s =>
      if bool_decide (b = Byte.x0a) then ([b], s)
      else let '(l, r) := take_line n s in (b :: l, r)
  end.
Definition fgets (n : Z) (s : bytes) : option (bytes * bytes) :=
  match s with [] => None | _ => Some (take_line (Z.to_nat (n - 1)) s) end.

(** [atoi]: optional white space and sign, then digits; glibc computes it as
    [(int) strtol(s, NULL, 10)], which saturates at the range of [long]. *)
Definition is_digit (b : byte) : bool :=
  (0x30 <=? byte_to_Z b) && (byte_to_Z b <=? 0x39).
Definition is_space (b : byte) : bool :=
  (byte_to_Z b =? 0x20) || ((9 <=? byte_to_Z b) && (byte_to_Z b <=? 13)).
Fixpoint digits (acc : Z) (s : bytes) : Z :=
  match s with
  | [] => acc
  | b :: s' => if is_digit b then digits (10 * acc + (byte_to_Z b - 0x30)) s' else acc
  end.
Fixpoint skip_space (s : bytes) : bytes :=
  match s with
  | [] => []
  | b :: s' => if is_space b then skip_space s' else s
  end.
Definition strtol (s : bytes) : Z :=
  let z := match skip_space s with
    | Byte.x2d :: s' => - digits 0 s'
    | Byte.x2b :: s' => digits 0 s'
    | s' => digits 0 s'
    end in
  Z.max (- 2 ^ 63) (Z.min (2 ^ 63 - 1) z).
Definition atoi (s : bytes) : Z := i32 (strtol (c_str s)).

(** [printf]'s [%d] and [std::to_string(int)]. *)
Fixpoint dec_digits (fuel : nat) (z : Z) (acc : bytes) : bytes :=
  match fuel with
  | O => acc
  | S fuel =>
      let acc := Z_to_byte (0x30 + z mod 10) :: acc in
      if z <? 10 then acc else dec_digits fuel (z / 10) acc
  end.
(** Twenty digits are enough for 64-bit integers. *)
Definition to_string (z : Z) : bytes :=
  if z <? 0 then lit "-" ++ dec_digits 20 (- z) [] else dec_digits 20 z [].

(** ** Lemmas *)

Lemma find_at_app c s s' i : c ∉ s -> find_at c (s ++ c :: s') i = i + zlen s.
Proof.
  revert i. induction s as [|b s IH]; intros i Hc; simpl.
  { rewrite bool_decide_true by done. lia. }
  apply not_elem_of_cons in Hc as [? Hc]. rewrite bool_decide_false by done.
  rewrite IH by done. lia.
Qed.

Lemma find_at_none c s i : c ∉ s -> find_at c s i = npos.
Proof.
  revert i. induction s as [|b s IH]; intros i Hc; simpl; [done|].
  apply not_elem_of_cons in Hc as [? Hc]. rewrite bool_decide_false by done. auto.
Qed.

(** A position that is not [npos] is that of the first occurrence. *)
Lemma find_at_range c s i : find_at c s i = npos \/ i <= find_at c s i < i + zlen s.
Proof.
  revert i. induction s as [|b s IH]; intros i; simpl; [by left|].
  case_bool_decide; [right; lia|]. destruct (IH (i + 1)) as [|]; [by left|right; lia].
Qed.

Lemma first_not_of_spec c (k : nat) b s i :
  b <> c -> find_first_not_of_at c (replicate k c ++ b :: s) i = i + Z.of_nat k.
Proof.
  intros Hb. revert i. induction k as [|k IH]; intros i; simpl.
  - rewrite bool_decide_false by done. lia.
  - rewrite bool_decide_true by done. rewrite IH. lia.
Qed.

Lemma first_not_of_none c k i : find_first_not_of_at c (replicate k c) i = npos.
Proof.
  revert i. induction k as [|k IH]; intros i; simpl; [done|]. by rewrite bool_decide_true.
Qed.

(** A string is spaces, or spaces around something that neither starts nor ends
    with one. *)
Lemma split_spaces c (s : bytes) :
  (exists k, s = replicate k c) \/
  (exists k b r, s = replicate k c ++ b :: r /\ b <> c).
Proof.
  induction s as [|x s [[k ->]|(k & b & r & -> & Hb)]].
  - left. by exists O.
  - destruct (decide (x = c)) as [->|].
    + left. by exists (S k).
    + right. by exists O, x, (replicate k c).
  - destruct (decide (x = c)) as [->|].
    + right. by exists (S k), b, r.
    + right. by exists O, x, (replicate k c ++ b :: r).
Qed.

Lemma rev_replicate {A} k (c : A) : rev (replicate k c) = replicate k c.
Proof. rewrite rev_alt. apply reverse_replicate. Qed.

Lemma last_not_of_none c k : find_last_not_of (replicate k c) c = npos.
Proof.
  unfold find_last_not_of, find_first_not_of. by rewrite rev_replicate, first_not_of_none.
Qed.

Lemma last_not_of_spec c k b s :
  b <> c -> zlen s < 2 ^ 63 -> Z.of_nat k < 2 ^ 63 ->
  find_last_not_of (s ++ b :: replicate k c) c = zlen s.
Proof.
  intros Hb Hs Hk. unfold find_last_not_of, find_first_not_of, npos.
  rewrite rev_app_distr. simpl. rewrite <- app_assoc.
  rewrite rev_replicate. cbn [app]. rewrite first_not_of_spec by done. rewrite length_app. cbn [length].
  rewrite length_replicate. case_if; lia.
Qed.

Lemma take_line_spec n s : (take_line n s).1 ++ (take_line n s).2 = s.
Proof.
  revert s. induction n as [|n IH]; intros [|b s]; simpl; try done.
  case_bool_decide; [done|]. specialize (IH s).
  destruct (take_line n s). simpl in *. by f_equal.
Qed.

Lemma take_line_progress n s : s <> [] -> (length (take_line (S n) s).2 < length s)%nat.
Proof.
  destruct s as [|b s]; [done|]. intros _. simpl.
  case_bool_decide; simpl; [lia|]. pose proof (take_line_spec n s) as Hs.
  destruct (take_line n s) as [l r]. simpl in *. subst. rewrite length_app. lia.
Qed.

(** A line shorter than the buffer is read whole. *)
Lemma take_line_newline n s r :
  Byte.x0a ∉ s -> (length s < n)%nat -> take_line n (s ++ Byte.x0a :: r) = (s ++ [Byte.x0a], r).
Proof.
  revert n. induction s as [|b s IH]; intros [|n] Hs Hn; simpl in *; try lia.
  - done.
  - apply not_elem_of_cons in Hs as [? Hs]. rewrite bool_decide_false by done.
    by rewrite IH by (done || lia).
Qed.

Lemma c_str_id s : Byte.x00 ∉ s -> c_str s = s.
Proof.
  induction s as [|b s IH]; intros Hs; simpl; [done|].
  apply not_elem_of_cons in Hs as [? Hs]. rewrite bool_decide_false by done. by rewrite IH.
Qed.

Lemma length_c_str s : (length (c_str s) <= length s)%nat.
Proof. induction s as [|b s IH]; simpl; [done|]. case_bool_decide; simpl; lia. Qed.

Lemma substr_ok s pos n :
  0 <= pos <= zlen s -> zlen s < 2 ^ 64 -> 0 <= n <= zlen s - pos ->
  substr s pos n = Returns (slice s pos n).
Proof.
  intros. unfold substr. rewrite !u64_small by lia. decide_cmp. do 2 f_equal. lia.
Qed.

(** ** [atoi] undoes [std::to_string] *)

Definition all_digits (s : bytes) : Prop := Forall (fun b => is_digit b = true) s.

Lemma digit_byte z : 0 <= z < 10 ->
  byte_to_Z (Z_to_byte (0x30 + z)) = 0x30 + z /\ is_digit (Z_to_byte (0x30 + z)) = true.
Proof.
  intros. rewrite Z_to_byte_to_Z, Z.mod_small by lia. split; [done|].
  unfold is_digit. rewrite Z_to_byte_to_Z, Z.mod_small by lia. lia.
Qed.

Lemma dec_digits_spec fuel : forall z acc,
  0 <= z < 10 ^ Z.of_nat fuel -> fuel <> O ->
  exists ds, dec_digits fuel z acc = ds ++ acc /\ ds <> [] /\ all_digits ds /\
    forall a rest, digits a (ds ++ rest) = digits (a * 10 ^ zlen ds + z) rest.
Proof.
  induction fuel as [|fuel IH]; intros z acc Hz Hf; [done|].
  destruct (digit_byte (z mod 10)) as [Hb Hd]; [apply Z.mod_pos_bound; lia|].
  cbn [dec_digits]. set (b := Z_to_byte (0x30 + z mod 10)) in *.
  rewrite Nat2Z.inj_succ, Z.pow_succ_r in Hz by lia. destruct (z <? 10) eqn:E; zbool.
  - exists [b]. split; [done|]. split; [done|]. split; [by apply Forall_singleton|].
    intros a rest. cbn [app digits length]. rewrite Hd, Hb, Z.mod_small by lia.
    f_equal. change (10 ^ Z.of_nat 1) with 10. lia.
  - destruct (IH (z / 10) (b :: acc)) as (ds & -> & Hne & Hall & Hds).
    { split; [apply Z.div_pos; lia|apply Z.div_lt_upper_bound; lia]. }
    { intros ->. cbn in Hz. lia. }
    exists (ds ++ [b]). rewrite <- (assoc_L (++)). split; [done|]. split; [by destruct ds|].
    split; [by apply Forall_app_2; [|apply Forall_singleton]|].
    intros a rest. rewrite <- (assoc_L (++)), Hds. cbn [app digits]. rewrite Hd, Hb.
    rewrite length_app, Nat2Z.inj_add, Z.pow_add_r by lia.
    change (10 ^ Z.of_nat (length [b])) with 10.
    f_equal. pose proof (Z.div_mod z 10 ltac:(lia)). lia.
Qed.

Lemma to_string_digits z : 0 <= z < 2 ^ 64 ->
  to_string z <> [] /\ all_digits (to_string z) /\
  forall rest, digits 0 (to_string z ++ rest) = digits z rest.
Proof.
  intros Hz. unfold to_string. decide_cmp.
  destruct (dec_digits_spec 20 z []) as (ds & -> & Hne & Hall & Hds); [lia|done|].
  rewrite app_nil_r. split; [done|]. split; [done|]. intros rest. by rewrite Hds.
Qed.

Lemma digits_no (c : byte) s : all_digits s -> is_digit c = false -> c ∉ s.
Proof.
  intros Hs Hc Hin. eapply Forall_forall in Hs; [|exact Hin]. cbn in Hs. congruence.
Qed.

Lemma strtol_digits s : s <> [] -> all_digits s ->
  strtol s = Z.max (- 2 ^ 63) (Z.min (2 ^ 63 - 1) (digits 0 s)).
Proof.
  destruct s as [|b s]; [done|]. intros _ [Hb _]%Forall_cons. unfold strtol.
  assert (is_space b = false) as Hsp by (unfold is_digit, is_space in *; lia).
  cbn [skip_space]. rewrite Hsp. destruct b; (discriminate Hb || reflexivity).
Qed.

Lemma atoi_to_string z : 0 <= z < 2 ^ 31 -> atoi (to_string z) = z.
Proof.
  intros Hz. destruct (to_string_digits z) as (Hne & Hall & Hd); [lia|].
  unfold atoi. rewrite c_str_id by (by apply digits_no). rewrite strtol_digits by done.
  specialize (Hd []). rewrite app_nil_r in Hd. rewrite Hd. cbn [digits].
  rewrite i32_small; lia.
Qed.
