(* ===== verification/Buffer.v ===== *)
(** * NoncontiguousBuffer: the chained byte buffer of the codec layer

    [src/src/codec/noncontiguous_buffer.cc] and its header. A buffer is a
    deque of blocks, each with a read offset, and a cached byte count. The
    specification is a plain byte string, [contents]: [Append] adds at its
    end, [Skip] drops from its front, [Peek] reads a sub-range of it. *)

From S2P Require Import Prelude.

(** ** Data *)

Record Block := mk_Block {
  data : bytes;
  offset : Z  (** bytes of [data] already consumed *)
}.

Record NoncontiguousBuffer := mk_Buffer {
  blocks_ : list Block;
  readable_ : Z
}.

(** ** Operations *)

Definition empty_buffer : NoncontiguousBuffer := mk_Buffer [] 0.

Definition ReadableBytes (b : NoncontiguousBuffer) : Z := readable_ b.

(** The branch of [Append] that starts a new block. *)
Definition push_block (b : NoncontiguousBuffer) (ptr : bytes) : NoncontiguousBuffer :=
  mk_Buffer (blocks_ b ++ [mk_Block ptr 0]) (readable_ b + zlen ptr).

(** Small unread last blocks are extended in place (below 4096 bytes). *)
Definition Append (b : NoncontiguousBuffer) (ptr : bytes) : NoncontiguousBuffer :=
  if zlen ptr =? 0 then b
  else match last (blocks_ b) with
  | Some blk =>
      if (offset blk =? 0) && (zlen (data blk) <? 4096) then
        mk_Buffer (take (length (blocks_ b) - 1) (blocks_ b) ++
                   [mk_Block (data blk ++ ptr) (offset blk)])
                  (readable_ b + zlen ptr)
      else push_block b ptr
  | None => push_block b ptr
  end.

(** The constructors from contiguous memory and from a string. *)
Definition of_bytes (s : bytes) : NoncontiguousBuffer := Append empty_buffer s.

(** The copying loop of [Peek]: [copied] is what [dst] has received so far. *)
Fixpoint Peek_loop (blocks : list Block) (to_read skip : Z) (copied : bytes) : bytes :=
  match blocks with
  | [] => copied
  | block :: rest =>
      let block_size := zlen (data block) - offset block in
      if skip >=? block_size then Peek_loop rest to_read (skip - block_size) copied
      else
        let from_block := Z.min (to_read - zlen copied) (block_size - skip) in
        let copied := copied ++ slice (data block) (offset block + skip) from_block in
        if zlen copied >=? to_read then copied
        else Peek_loop rest to_read 0 copied
  end.

(** The bytes that [Peek(buf, len, offset)] copies; their number is its result. *)
Definition Peek_bytes (b : NoncontiguousBuffer) (len off : Z) : bytes :=
  if off >=? readable_ b then []
  else Peek_loop (blocks_ b) (Z.min len (readable_ b - off)) off [].

(** [Peek] with the destination memory: (new contents of [buf], bytes copied). The
    destination must have room for the bytes copied ([length buf] is at least their
    number), as it has in every call of the code: the [len] asked for is the size of
    the destination. In C++ a smaller one is overrun, which is not modelled here. *)
Definition Peek (b : NoncontiguousBuffer) (buf : bytes) (len off : Z) : bytes * Z :=
  let got := Peek_bytes b len off in (overwrite buf got, zlen got).

Fixpoint Skip_loop (blocks : list Block) (len : Z) : list Block :=
  match blocks with
  | [] => []
  | front :: rest =>
      if len >? 0 then
        let block_avail := zlen (data front) - offset front in
        if len >=? block_avail then Skip_loop rest (len - block_avail)
        else mk_Block (data front) (offset front + len) :: rest
      else blocks
  end.

Definition Skip (b : NoncontiguousBuffer) (len : Z) : NoncontiguousBuffer :=
  if len >=? readable_ b then empty_buffer
  else mk_Buffer (Skip_loop (blocks_ b) len) (readable_ b - len).

Definition ToString (b : NoncontiguousBuffer) : bytes :=
  (Peek b (zeros (readable_ b)) (readable_ b) 0).1.

(** ** Specification *)

(** The unread bytes of a block and of a buffer. *)
Definition unread (blk : Block) : bytes := drop (Z.to_nat (offset blk)) (data blk).
Definition blocks_contents (bs : list Block) : bytes := concat (unread <$> bs).
Definition contents (b : NoncontiguousBuffer) : bytes := blocks_contents (blocks_ b).

(** No block is exhausted, and the cached count is the number of unread bytes. *)
Definition block_wf (blk : Block) : Prop := 0 <= offset blk < zlen (data blk).
Definition buffer_wf (b : NoncontiguousBuffer) : Prop :=
  Forall block_wf (blocks_ b) /\ readable_ b = zlen (contents b).

(** What a byte queue promises to its clients. *)
Class ByteQueue (B : Type) := {
  bq_view : B -> bytes;
  bq_inv : B -> Prop;
  bq_new : bytes -> B;
  bq_size : B -> Z;
  bq_append : B -> bytes -> B;
  bq_skip : B -> Z -> B;
  bq_peek : B -> bytes -> Z -> Z -> bytes * Z
}.

Class ByteQueueLaws (B : Type) `{ByteQueue B} := {
  bq_new_inv s : bq_inv (bq_new s);
  bq_new_view s : bq_view (bq_new s) = s;
  bq_size_view b : bq_inv b -> bq_size b = zlen (bq_view b);
  bq_append_inv b s : bq_inv b -> bq_inv (bq_append b s);
  bq_append_view b s : bq_inv b -> bq_view (bq_append b s) = bq_view b ++ s;
  bq_skip_inv b n : bq_inv b -> 0 <= n -> bq_inv (bq_skip b n);
  bq_skip_view b n :
    bq_inv b -> 0 <= n -> bq_view (bq_skip b n) = drop (Z.to_nat n) (bq_view b);
  bq_peek_view b buf n off :
    bq_inv b -> 0 <= n -> 0 <= off ->
    bq_peek b buf n off =
      (overwrite buf (slice (bq_view b) off n), zlen (slice (bq_view b) off n))
}.

(** ** Lemmas on blocks *)

Lemma length_unread blk : block_wf blk -> zlen (unread blk) = zlen (data blk) - offset blk.
Proof. unfold block_wf, unread. rewrite length_drop. lia. Qed.

Lemma unread_slice blk off n :
  block_wf blk -> 0 <= off -> slice (data blk) (offset blk + off) n = slice (unread blk) off n.
Proof.
  unfold block_wf, unread, slice. intros. rewrite drop_drop. do 2 f_equal. lia.
Qed.

Lemma blocks_contents_cons blk bs :
  blocks_contents (blk :: bs) = unread blk ++ blocks_contents bs.
Proof. done. Qed.

Lemma blocks_contents_app bs bs' :
  blocks_contents (bs ++ bs') = blocks_contents bs ++ blocks_contents bs'.
Proof. unfold blocks_contents. by rewrite fmap_app, concat_app. Qed.

(** The loop of [Peek] copies a sub-range of the unread bytes. *)
Lemma Peek_loop_spec bs to_read skip copied :
  Forall block_wf bs -> 0 <= skip -> zlen copied < to_read ->
  Peek_loop bs to_read skip copied =
    copied ++ slice (blocks_contents bs) skip (to_read - zlen copied).
Proof.
  intros Hwf. revert skip copied.
  induction Hwf as [|blk bs Hblk _ IH]; intros skip copied Hskip Hlen; simpl.
  { rewrite slice_ge by (simpl; lia). by rewrite app_nil_r. }
  rewrite blocks_contents_cons. pose proof (length_unread _ Hblk) as Hu.
  destruct (skip >=? _) eqn:E; zbool.
  { rewrite IH, slice_app_r by lia. do 2 f_equal. lia. }
  rewrite unread_slice by done.
  destruct (Z.min_spec (to_read - zlen copied) (zlen (data blk) - offset blk - skip))
    as [[Hm ->]|[Hm ->]].
  - destruct (_ >=? _) eqn:E2; zbool; [by rewrite slice_app_l by lia|].
    rewrite length_app, length_slice in E2 by lia. lia.
  - assert (zlen (copied ++ slice (unread blk) skip
              (zlen (data blk) - offset blk - skip)) =
            zlen copied + (zlen (unread blk) - skip)) as Hc.
    { rewrite length_app, length_slice by lia. lia. }
    rewrite Hc. destruct (_ >=? _) eqn:E2; zbool.
    + rewrite slice_app_l by lia. do 2 f_equal. lia.
    + rewrite IH, Hc, <- app_assoc by lia. f_equal.
      set (k := zlen (unread blk) - skip) in *.
      transitivity (slice (unread blk ++ blocks_contents bs) skip
                      (k + (to_read - zlen copied - k))); [|f_equal; lia].
      rewrite slice_split, slice_app_l, slice_app_r by lia.
      do 2 f_equal; lia.
Qed.

Lemma Skip_loop_spec bs len :
  Forall block_wf bs -> 0 <= len ->
  Forall block_wf (Skip_loop bs len) /\
  blocks_contents (Skip_loop bs len) = drop (Z.to_nat len) (blocks_contents bs).
Proof.
  intros Hwf. revert len. induction Hwf as [|blk bs Hblk Hbs IH]; intros len Hlen; simpl.
  { split; [done|]. symmetry. apply drop_ge. simpl. lia. }
  rewrite blocks_contents_cons. pose proof (length_unread _ Hblk) as Hu.
  destruct (len >? 0) eqn:E0; zbool.
  - destruct (len >=? _) eqn:E; zbool.
    + destruct (IH (len - (zlen (data blk) - offset blk)) ltac:(lia)) as [? ->].
      split; [done|]. rewrite drop_app_ge by lia. f_equal. lia.
    + split.
      * constructor; [|done]. unfold block_wf in *. simpl. lia.
      * rewrite blocks_contents_cons, drop_app_le by lia. f_equal.
        unfold unread, block_wf in *. simpl. rewrite drop_drop. f_equal. lia.
  - replace len with 0 by lia. by split; [constructor|].
Qed.

(** ** The operations refine the byte string *)

Lemma empty_wf : buffer_wf empty_buffer.
Proof. by split. Qed.

Lemma ReadableBytes_contents b : buffer_wf b -> ReadableBytes b = zlen (contents b).
Proof. by intros [_ ?]. Qed.

Lemma push_block_spec b s :
  buffer_wf b -> 0 < zlen s ->
  buffer_wf (push_block b s) /\ contents (push_block b s) = contents b ++ s.
Proof.
  intros [Hb Hr] Hs. unfold push_block, buffer_wf, contents; simpl.
  rewrite blocks_contents_app, blocks_contents_cons. unfold unread; simpl.
  rewrite app_nil_r. split; [split|done].
  - apply Forall_app. split; [done|]. repeat constructor; simpl; lia.
  - unfold contents in Hr. xlen.
Qed.

Lemma last_split {A} (l : list A) x :
  last l = Some x -> l = take (length l - 1) l ++ [x].
Proof.
  intros H. apply last_Some in H as [l' ->]. rewrite length_app; simpl.
  by rewrite Nat.add_sub, take_app_length.
Qed.

Lemma Append_spec b s :
  buffer_wf b -> buffer_wf (Append b s) /\ contents (Append b s) = contents b ++ s.
Proof.
  intros Hb. unfold Append. destruct (zlen s =? 0) eqn:Es; zbool.
  { destruct s; [|simpl in Es; lia]. by rewrite app_nil_r. }
  assert (0 < zlen s) by lia.
  destruct (last (blocks_ b)) as [blk|] eqn:El; [|by apply push_block_spec].
  destruct (_ && _) eqn:Ec; [|by apply push_block_spec]. zbool. destruct Ec as [E0 _].
  apply last_split in El. destruct Hb as [Hb Hr]. unfold buffer_wf, contents in *.
  set (pre := take (length (blocks_ b) - 1) (blocks_ b)) in *. rewrite El in Hb, Hr |- *.
  apply Forall_app in Hb as [Hpre Hblk]. inversion Hblk as [|? ? Hw ?]; subst.
  unfold block_wf in Hw. simpl.
  rewrite !blocks_contents_app, !blocks_contents_cons in *.
  unfold unread in *. simpl in *. rewrite E0, drop_0, !app_nil_r in *.
  rewrite <- app_assoc. split; [split|done].
  - apply Forall_app. split; [done|]. repeat constructor; simpl; xlen.
  - rewrite Hr. xlen.
Qed.

Lemma Peek_bytes_spec b len off :
  buffer_wf b -> 0 <= len -> 0 <= off -> Peek_bytes b len off = slice (contents b) off len.
Proof.
  intros [Hb Hr] Hl Ho. unfold Peek_bytes. destruct (off >=? _) eqn:E; zbool.
  { rewrite slice_ge by lia. done. }
  destruct (decide (len = 0)) as [->|Hne].
  - rewrite Z.min_l by lia. rewrite slice_0.
    clear Hr E. induction (blocks_ b) as [|blk bs IH] in off, Ho, Hb |- *; [done|].
    inversion Hb as [|? ? Hw ?]; subst. unfold block_wf in Hw. simpl.
    destruct (off >=? _) eqn:E1; zbool; [by apply IH; [|lia]|].
    by rewrite Z.min_l, slice_0 by lia.
  - rewrite Peek_loop_spec; simpl; [|done|lia|lia].
    rewrite Z.sub_0_r. fold (contents b).
    destruct (Z.min_spec len (readable_ b - off)) as [[? ->]|[? ->]]; [done|].
    unfold slice. rewrite Hr. rewrite !take_ge; [done| |]; rewrite length_drop; lia.
Qed.

Lemma Skip_spec b len :
  buffer_wf b -> 0 <= len ->
  buffer_wf (Skip b len) /\ contents (Skip b len) = drop (Z.to_nat len) (contents b).
Proof.
  intros [Hb Hr] Hl. unfold Skip. destruct (len >=? _) eqn:E; zbool.
  { rewrite drop_ge by lia. by split. }
  destruct (Skip_loop_spec (blocks_ b) len Hb Hl) as [? Hc].
  unfold buffer_wf, contents in *; simpl. rewrite Hc. split; [split|done]; [done|].
  rewrite length_drop. lia.
Qed.

Lemma of_bytes_spec s : buffer_wf (of_bytes s) /\ contents (of_bytes s) = s.
Proof. apply (Append_spec empty_buffer s), empty_wf. Qed.

Lemma Append_wf b s : buffer_wf b -> buffer_wf (Append b s).
Proof. apply Append_spec. Qed.
Lemma Append_contents b s : buffer_wf b -> contents (Append b s) = contents b ++ s.
Proof. apply Append_spec. Qed.
Lemma Skip_wf b n : buffer_wf b -> 0 <= n -> buffer_wf (Skip b n).
Proof. apply Skip_spec. Qed.
Lemma Skip_contents b n :
  buffer_wf b -> 0 <= n -> contents (Skip b n) = drop (Z.to_nat n) (contents b).
Proof. apply Skip_spec. Qed.
Lemma of_bytes_wf s : buffer_wf (of_bytes s).
Proof. apply of_bytes_spec. Qed.
Lemma of_bytes_contents s : contents (of_bytes s) = s.
Proof. apply of_bytes_spec. Qed.

#[export] Hint Resolve empty_wf Append_wf Skip_wf of_bytes_wf : xrpc.

Lemma ToString_contents b : buffer_wf b -> ToString b = contents b.
Proof.
  intros Hb. unfold ToString, Peek. simpl.
  rewrite (ReadableBytes_contents b Hb : readable_ b = _), Peek_bytes_spec by (done || lia).
  rewrite slice_all by lia. apply overwrite_all. rewrite length_zeros. lia.
Qed.

(** Reading a range that the buffer has fully overwrites a destination of that
    size, whatever the destination held. *)
Lemma Peek_full b buf len off :
  buffer_wf b -> 0 <= len -> 0 <= off -> off + len <= zlen (contents b) ->
  zlen buf = len -> (Peek b buf len off).1 = slice (contents b) off len.
Proof.
  intros. unfold Peek; simpl. rewrite Peek_bytes_spec by done.
  apply overwrite_all. rewrite length_slice by lia. lia.
Qed.

(** Reading a 2- or 4-byte field in network order, and a string, from a buffer
    that has it. *)
Lemma Peek_ntoh `{Host} b buf n len off :
  buffer_wf b -> length buf = n -> len = Z.of_nat n -> 0 <= off ->
  off + len <= zlen (contents b) ->
  hton n (load (Peek b buf len off).1) = be_load (slice (contents b) off len).
Proof.
  intros ? <- ->. intros. rewrite Peek_full by (done || lia).
  apply hton_load. rewrite length_slice; lia.
Qed.

Lemma length_Peek b buf len off :
  buffer_wf b -> 0 <= len -> 0 <= off -> len <= zlen buf ->
  length (Peek b buf len off).1 = length buf.
Proof.
  intros. unfold Peek. cbn. rewrite Peek_bytes_spec by done. apply length_overwrite.
  unfold slice. rewrite length_take. lia.
Qed.

Lemma Peek_zeros b n off :
  buffer_wf b -> 0 <= n -> 0 <= off -> off + n <= zlen (contents b) ->
  (Peek b (zeros n) n off).1 = slice (contents b) off n.
Proof. intros. apply Peek_full; try done. rewrite length_zeros. lia. Qed.

Lemma str_resize_nil n : str_resize [] n = zeros n.
Proof. unfold str_resize. rewrite take_nil, Z.sub_0_r. done. Qed.

(** [if (!s.empty()) out.Append(s)]. *)
Lemma Append_nonempty b s :
  buffer_wf b ->
  let b' := if bool_decide (s = []) then b else Append b s in
  buffer_wf b' /\ contents b' = contents b ++ s.
Proof.
  intros Hb. case_bool_decide as Hs; [|by apply Append_spec].
  rewrite Hs, app_nil_r. done.
Qed.

#[global] Arguments Peek : simpl never.
#[global] Arguments Append : simpl never.
#[global] Arguments Skip : simpl never.
#[global] Arguments of_bytes : simpl never.
#[global] Arguments str_resize : simpl never.

#[export] Instance NoncontiguousBuffer_queue : ByteQueue NoncontiguousBuffer := {
  bq_view := contents;
  bq_inv := buffer_wf;
  bq_new := of_bytes;
  bq_size := ReadableBytes;
  bq_append := Append;
  bq_skip := Skip;
  bq_peek := Peek
}.

#[export] Instance NoncontiguousBuffer_laws : ByteQueueLaws NoncontiguousBuffer.
Proof.
  split; simpl; intros; auto using of_bytes_wf, of_bytes_contents,
    ReadableBytes_contents, Append_wf, Append_contents, Skip_wf, Skip_contents.
  unfold Peek. by rewrite Peek_bytes_spec.
Qed.

(** ** Runs of operations *)

(** The operations that change a buffer, and a run of them from the empty one. *)
Inductive buf_op := OpAppend (s : bytes) | OpSkip (n : Z).

Definition op_ok (o : buf_op) : Prop :=
  match o with OpAppend _ => True | OpSkip n => 0 <= n end.

Definition run_op (b : NoncontiguousBuffer) (o : buf_op) : NoncontiguousBuffer :=
  match o with OpAppend s => Append b s | OpSkip n => Skip b n end.

Definition spec_op (s : bytes) (o : buf_op) : bytes :=
  match o with OpAppend s' => s ++ s' | OpSkip n => drop (Z.to_nat n) s end.

Lemma run_ops_spec ops b :
  buffer_wf b -> Forall op_ok ops ->
  buffer_wf (fold_left run_op ops b) /\
  contents (fold_left run_op ops b) = fold_left spec_op ops (contents b).
Proof.
  intros Hb Hops. revert b Hb.
  induction Hops as [|[s|n] ops Ho Hops IH]; intros b Hb; simpl; [done| |].
  - destruct (IH (Append b s)) as [? ->]; auto with xrpc. by rewrite Append_contents.
  - destruct (IH (Skip b n)) as [? ->]; auto using Skip_wf. by rewrite Skip_contents.
Qed.

(** C10. After any sequence of [Append]s and [Skip]s on an empty buffer, the
    buffer is well formed and stands for the byte string that the same appends
    and drops build: [ReadableBytes] is its length, [ToString] returns it, and
    [Peek] at any offset copies exactly the bytes of that range which exist and
    returns their number, leaving the rest of the destination as it was. *)
Theorem buffer_refines_byte_string ops dst len off :
  Forall op_ok ops -> 0 <= len -> 0 <= off ->
  let b := fold_left run_op ops empty_buffer in
  let s := fold_left spec_op ops [] in
  buffer_wf b /\ ReadableBytes b = zlen s /\ ToString b = s /\
  Peek b dst len off = (overwrite dst (slice s off len), zlen (slice s off len)).
Proof.
  intros Hops Hl Ho b s.
  destruct (run_ops_spec ops empty_buffer empty_wf Hops) as [Hwf Hc].
  fold b in Hwf, Hc. change (contents b = s) in Hc. split; [done|].
  rewrite ReadableBytes_contents, ToString_contents, Hc by done.
  unfold Peek. by rewrite Peek_bytes_spec, Hc.
Qed.

Lemma buffer_refines_byte_string_witness :
  Peek (fold_left run_op [OpAppend (lit "abc"); OpSkip 1; OpAppend (lit "defg"); OpSkip 3]
          empty_buffer) (lit "....") 2 1 = (lit "fg..", 2).
Proof.
  destruct (buffer_refines_byte_string
    [OpAppend (lit "abc"); OpSkip 1; OpAppend (lit "defg"); OpSkip 3] (lit "....") 2 1)
    as (_ & _ & _ & H); [|lia|lia|exact H].
  repeat constructor; simpl; lia.
Defined.
