(* ===== verification/Wire.v ===== *)
(** * Wire: the XRPC fixed frame header

    [src/src/include/xrpc/codec/xrpc_codec.h]: the constants, the error codes,
    the enumerations and [FixedHeader], whose 16 packed bytes are the start of
    every XRPC frame. Enumerations with a fixed underlying type that the code
    casts from received integers ([ContentType], [ContentEncoding],
    [StreamType]) hold every value of that type and are integers here;
    [MessageType] is only ever one of its enumerators. *)

From S2P Require Import Prelude.

Definition kMagicNumber : Z := 0x4B52.

Definition kFixedHeaderSize : Z := 16.
Definition kMaxFrameSize : Z := 16 * 1024 * 1024.
Definition kMinFrameSize : Z := kFixedHeaderSize.

Definition kCodecOk : Z := 0.
Definition kCodecIncomplete : Z := 1.
Definition kCodecInvalidMagic : Z := -1.
Definition kCodecOversized : Z := -2.
Definition kCodecParseError : Z := -3.
Definition kCodecSerializeError : Z := -4.
Definition kCodecInternalError : Z := -5.

Inductive MessageType := kRequest | kResponse | kOneway.

(** [static_cast<uint8_t>] of a message type. *)
Definition MessageType_u8 (t : MessageType) : Z :=
  match t with kRequest => 0 | kResponse => 1 | kOneway => 2 end.

#[global] Instance MessageType_eq_dec : EqDecision MessageType.
Proof. solve_decision. Defined.

Abbreviation StreamType := Z.
Definition kUnary : StreamType := 0.
Definition kClientStream : StreamType := 1.
Definition kServerStream : StreamType := 2.
Definition kBidiStream : StreamType := 3.

Abbreviation ContentType := Z.
Definition kProtobuf : ContentType := 0.
Definition kJson : ContentType := 1.
Definition kFlatBuffers : ContentType := 2.

Abbreviation ContentEncoding := Z.
Definition kNone : ContentEncoding := 0.
Definition kGzip : ContentEncoding := 1.
Definition kSnappy : ContentEncoding := 2.
Definition kLZ4 : ContentEncoding := 3.

Record FixedHeader := mk_FixedHeader {
  magic : Z;
  type : Z;
  stream_type : Z;
  total_size : Z;
  header_size : Z;
  stream_id : Z;
  reserved : Z
}.

(** The default member initialisers. *)
Definition FixedHeader_default : FixedHeader := mk_FixedHeader 0 0 0 0 0 0 0.

Definition HToN `{Host} (h : FixedHeader) : FixedHeader :=
  {| h with
     magic := htons (magic h);
     total_size := htonl (total_size h);
     header_size := htons (header_size h);
     stream_id := htonl (stream_id h) |}.

Definition NToH `{Host} (h : FixedHeader) : FixedHeader :=
  {| h with
     magic := ntohs (magic h);
     total_size := ntohl (total_size h);
     header_size := ntohs (header_size h);
     stream_id := ntohl (stream_id h) |}.

Definition IsValid (h : FixedHeader) : bool := magic h =? kMagicNumber.

Definition BodySize (h : FixedHeader) : Z :=
  if total_size h <? kFixedHeaderSize + header_size h then 0
  else u64 (total_size h - kFixedHeaderSize - header_size h).

(** The object representation of the packed struct, in the host's byte order:
    what [Append(&fh, 16)] and [memcpy(.., &fh, 16)] copy ... *)
Definition FixedHeader_mem `{Host} (h : FixedHeader) : bytes :=
  store 2 (magic h) ++ store 1 (type h) ++ store 1 (stream_type h) ++
  store 4 (total_size h) ++ store 2 (header_size h) ++
  store 4 (stream_id h) ++ store 2 (reserved h).

(** ... and what [recv_exact(fd, (char* )&fh, 16)] leaves in it. *)
Definition FixedHeader_of_mem `{Host} (m : bytes) : FixedHeader :=
  mk_FixedHeader (load (slice m 0 2)) (load (slice m 2 1)) (load (slice m 3 1))
    (load (slice m 4 4)) (load (slice m 8 2)) (load (slice m 10 4)) (load (slice m 14 2)).

(** ** Specification: the wire format (every multi-byte field big-endian) *)

Definition wire_header (h : FixedHeader) : bytes :=
  be_bytes 2 (magic h) ++ be_bytes 1 (type h) ++ be_bytes 1 (stream_type h) ++
  be_bytes 4 (total_size h) ++ be_bytes 2 (header_size h) ++
  be_bytes 4 (stream_id h) ++ be_bytes 2 (reserved h).

(** Every field is in the range of its type. *)
Definition header_wf (h : FixedHeader) : Prop :=
  0 <= magic h < 2 ^ 16 /\ 0 <= type h < 2 ^ 8 /\ 0 <= stream_type h < 2 ^ 8 /\
  0 <= total_size h < 2 ^ 32 /\ 0 <= header_size h < 2 ^ 16 /\
  0 <= stream_id h < 2 ^ 32 /\ 0 <= reserved h < 2 ^ 16.

(** ** Lemmas *)

Lemma store_1 `{Host} z : store 1 z = be_bytes 1 z.
Proof. unfold store. by destruct host_endian. Qed.

Lemma load_1 `{Host} m : length m = 1%nat -> load m = be_load m.
Proof. destruct m as [|? [|]]; try done. intros _. unfold load. by destruct host_endian. Qed.

Lemma length_FixedHeader_mem `{Host} h : zlen (FixedHeader_mem h) = 16.
Proof. unfold FixedHeader_mem. xlen. Qed.

Lemma length_wire_header h : zlen (wire_header h) = 16.
Proof. unfold wire_header. xlen. Qed.

#[export] Hint Rewrite @length_FixedHeader_mem length_wire_header : xlen.

(** A header converted with [HToN] and copied to the wire has the big-endian
    format on every host (its reserved field is not converted: it is 0). *)
Lemma HToN_mem `{Host} h : reserved h = 0 -> FixedHeader_mem (HToN h) = wire_header h.
Proof.
  intros Hr. unfold FixedHeader_mem, wire_header, HToN, htons, htonl; simpl.
  rewrite !store_hton, !store_1, Hr. do 6 f_equal.
  unfold store. by destruct host_endian.
Qed.

Lemma HToN_NToH `{Host} h : header_wf h -> NToH (HToN h) = h.
Proof.
  intros (?&?&?&?&?&?&?). unfold NToH, HToN, ntohs, ntohl, htons, htonl; simpl.
  rewrite !hton_involutive by done. by destruct h.
Qed.

Lemma FixedHeader_of_to_mem `{Host} h : header_wf h -> FixedHeader_of_mem (FixedHeader_mem h) = h.
Proof.
  intros (?&?&?&?&?&?&?). unfold FixedHeader_of_mem, FixedHeader_mem.
  destruct h; simpl in *. f_equal; slices; rewrite load_store; by apply Z.mod_small.
Qed.

Lemma HToN_wf `{Host} h : header_wf h -> header_wf (HToN h).
Proof.
  intros (?&?&?&?&?&?&?). unfold header_wf, HToN, htons, htonl; cbn.
  repeat (split; [done || by apply (hton_bound 2) || by apply (hton_bound 4)|]). done.
Qed.

(** Reading a header off the wire into the struct and converting it. *)
Lemma wire_NToH `{Host} h :
  header_wf h -> reserved h = 0 -> NToH (FixedHeader_of_mem (wire_header h)) = h.
Proof.
  intros Hw Hr. rewrite <- HToN_mem, FixedHeader_of_to_mem by auto using HToN_wf.
  by apply HToN_NToH.
Qed.

Lemma BodySize_spec h :
  header_wf h -> kFixedHeaderSize + header_size h <= total_size h ->
  BodySize h = total_size h - kFixedHeaderSize - header_size h.
Proof.
  intros (?&?&?&?&?&?&?) ?. unfold BodySize, kFixedHeaderSize in *.
  decide_cmp. apply u64_small. lia.
Qed.
