(* ===== verification/Proto.v ===== *)
(** * Proto: the protobuf messages of the protocol headers

    [src/src/protocol/*.proto] declare the variable headers of both protocols.
    The records below have the declared fields; their wire format is code that
    protoc generates, so serialising and parsing are operations of an
    interface, [Proto], whose one law is protobuf's documented behaviour: a
    message of in-range integers and UTF-8 strings parses back from the bytes
    it serialised to. *)

From S2P Require Import Prelude.

Record RpcHeader := mk_RpcHeader {
  h_service_name : bytes;
  h_method_name : bytes;
  h_args_size : Z
}.

Record RequestProtocol := mk_RequestProtocol {
  rq_request_id : Z;
  rq_timeout : Z;
  rq_caller : bytes;
  rq_callee : bytes;
  rq_func_name : bytes;
  rq_content_type : Z;
  rq_content_encoding : Z;
  rq_trans_info : gmap bytes bytes;
  rq_caller_app : bytes;
  rq_message_type : Z
}.

Record ResponseProtocol := mk_ResponseProtocol {
  rs_request_id : Z;
  rs_ret_code : Z;
  rs_error_msg : bytes;
  rs_content_type : Z;
  rs_content_encoding : Z;
  rs_trans_info : gmap bytes bytes
}.

(** ** The generated code's interface *)

Class Proto (T : Type) := {
  SerializeToString : T -> option bytes;
  ParseFromString : bytes -> option T
}.

(** Well-formed UTF-8 (RFC 3629), which proto3 requires of [string] fields. *)
Definition utf8_cont (lo hi : Z) (b : byte) : bool :=
  (lo <=? byte_to_Z b) && (byte_to_Z b <=? hi).

Fixpoint utf8_valid (s : bytes) : bool :=
  match s with
  | [] => true
  | b0 :: s1 =>
      let c := byte_to_Z b0 in
      if c <? 0x80 then utf8_valid s1
      else match s1 with
      | [] => false
      | b1 :: s2 =>
          if (0xC2 <=? c) && (c <=? 0xDF) then utf8_cont 0x80 0xBF b1 && utf8_valid s2
          else match s2 with
          | [] => false
          | b2 :: s3 =>
              if (0xE0 <=? c) && (c <=? 0xEF) then
                utf8_cont (if c =? 0xE0 then 0xA0 else 0x80)
                          (if c =? 0xED then 0x9F else 0xBF) b1 &&
                utf8_cont 0x80 0xBF b2 && utf8_valid s3
              else match s3 with
              | [] => false
              | b3 :: s4 =>
                  (0xF0 <=? c) && (c <=? 0xF4) &&
                  utf8_cont (if c =? 0xF0 then 0x90 else 0x80)
                            (if c =? 0xF4 then 0x8F else 0xBF) b1 &&
                  utf8_cont 0x80 0xBF b2 && utf8_cont 0x80 0xBF b3 && utf8_valid s4
              end
          end
      end
  end.

Definition utf8_map (m : gmap bytes bytes) : Prop :=
  map_Forall (fun k v => utf8_valid k = true /\ utf8_valid v = true) m.

(** [bytes] fields take any bytes. *)
Definition RpcHeader_valid (h : RpcHeader) : Prop := 0 <= h_args_size h < 2 ^ 32.

Definition RequestProtocol_valid (m : RequestProtocol) : Prop :=
  0 <= rq_request_id m < 2 ^ 64 /\ 0 <= rq_timeout m < 2 ^ 32 /\
  utf8_valid (rq_caller m) = true /\ utf8_valid (rq_callee m) = true /\
  utf8_valid (rq_func_name m) = true /\ utf8_valid (rq_caller_app m) = true /\
  - 2 ^ 31 <= rq_content_type m < 2 ^ 31 /\
  - 2 ^ 31 <= rq_content_encoding m < 2 ^ 31 /\
  - 2 ^ 31 <= rq_message_type m < 2 ^ 31 /\
  utf8_map (rq_trans_info m).

Definition ResponseProtocol_valid (m : ResponseProtocol) : Prop :=
  0 <= rs_request_id m < 2 ^ 64 /\ - 2 ^ 31 <= rs_ret_code m < 2 ^ 31 /\
  utf8_valid (rs_error_msg m) = true /\
  - 2 ^ 31 <= rs_content_type m < 2 ^ 31 /\
  - 2 ^ 31 <= rs_content_encoding m < 2 ^ 31 /\
  utf8_map (rs_trans_info m).

(** What a class of messages carries as its validity. *)
Class ProtoValid (T : Type) := proto_valid : T -> Prop.
#[export] Instance RpcHeader_validity : ProtoValid RpcHeader := RpcHeader_valid.
#[export] Instance RequestProtocol_validity : ProtoValid RequestProtocol :=
  RequestProtocol_valid.
#[export] Instance ResponseProtocol_validity : ProtoValid ResponseProtocol :=
  ResponseProtocol_valid.

Class ProtoLaws (T : Type) `{Proto T, ProtoValid T} := {
  parse_serialize m bs :
    proto_valid m -> SerializeToString m = Some bs -> ParseFromString bs = Some m
}.

(** ** A concrete instance

    A self-delimiting format that satisfies the law: integers as eight bytes,
    strings and maps with their lengths first. It is not protobuf's format; it
    shows that the interface's law can hold and lets examples compute. *)

Module Demo.

Definition put_int (z : Z) : bytes := be_bytes 8 (u64 z).
Definition put_str (s : bytes) : bytes := put_int (zlen s) ++ s.
Fixpoint put_pairs (l : list (bytes * bytes)) : bytes :=
  match l with
  | [] => []
  | (k, v) :: l => put_str k ++ put_str v ++ put_pairs l
  end.
Definition put_map (m : gmap bytes bytes) : bytes :=
  put_int (zlen (map_to_list m)) ++ put_pairs (map_to_list m).

Definition get_int (s : bytes) : option (Z * bytes) :=
  if zlen s <? 8 then None else Some (be_load (take 8 s), drop 8 s).
Definition get_str (s : bytes) : option (bytes * bytes) :=
  '(n, s) ← get_int s;
  if zlen s <? n then None else Some (take (Z.to_nat n) s, drop (Z.to_nat n) s).
Fixpoint get_pairs (n : nat) (s : bytes) : option (list (bytes * bytes) * bytes) :=
  match n with
  | O => Some ([], s)
  | S n => '(k, s) ← get_str s; '(v, s) ← get_str s;
           '(l, s) ← get_pairs n s; Some ((k, v) :: l, s)
  end.
Definition get_map (s : bytes) : option (gmap bytes bytes * bytes) :=
  '(n, s) ← get_int s;
  if zlen s <? n then None
  else '(l, s) ← get_pairs (Z.to_nat n) s; Some (list_to_map l, s).

Definition get_i32 (s : bytes) : option (Z * bytes) :=
  '(z, s) ← get_int s; Some (i32 z, s).

(** Like protobuf, refuses messages of 2 GB or more. *)
Definition bounded (s : bytes) : option bytes :=
  if zlen s <? 2 ^ 31 then Some s else None.

Definition RpcHeader_demo : Proto RpcHeader := {|
  SerializeToString h :=
    bounded (put_str (h_service_name h) ++ put_str (h_method_name h) ++ put_int (h_args_size h));
  ParseFromString s :=
    '(sn, s) ← get_str s; '(mn, s) ← get_str s; '(a, s) ← get_int s;
    match s with [] => Some (mk_RpcHeader sn mn a) | _ => None end |}.

Definition RequestProtocol_demo : Proto RequestProtocol := {|
  SerializeToString m := bounded (
    put_int (rq_request_id m) ++ put_int (rq_timeout m) ++ put_str (rq_caller m) ++
    put_str (rq_callee m) ++ put_str (rq_func_name m) ++ put_int (rq_content_type m) ++
    put_int (rq_content_encoding m) ++ put_map (rq_trans_info m) ++
    put_str (rq_caller_app m) ++ put_int (rq_message_type m));
  ParseFromString s :=
    '(id, s) ← get_int s; '(tm, s) ← get_int s; '(cr, s) ← get_str s;
    '(ce, s) ← get_str s; '(fn, s) ← get_str s; '(ct, s) ← get_i32 s;
    '(en, s) ← get_i32 s; '(ti, s) ← get_map s; '(ca, s) ← get_str s;
    '(mt, s) ← get_i32 s;
    match s with
    | [] => Some (mk_RequestProtocol id tm cr ce fn ct en ti ca mt)
    | _ => None
    end |}.

Definition ResponseProtocol_demo : Proto ResponseProtocol := {|
  SerializeToString m := bounded (
    put_int (rs_request_id m) ++ put_int (rs_ret_code m) ++ put_str (rs_error_msg m) ++
    put_int (rs_content_type m) ++ put_int (rs_content_encoding m) ++
    put_map (rs_trans_info m));
  ParseFromString s :=
    '(id, s) ← get_int s; '(rc, s) ← get_i32 s; '(em, s) ← get_str s;
    '(ct, s) ← get_i32 s; '(en, s) ← get_i32 s; '(ti, s) ← get_map s;
    match s with
    | [] => Some (mk_ResponseProtocol id rc em ct en ti)
    | _ => None
    end |}.

Lemma length_put_int z : length (put_int z) = 8%nat.
Proof. apply length_be_bytes. Qed.

#[local] Hint Rewrite length_put_int : xlen.
#[local] Arguments put_int : simpl never.
#[local] Arguments put_str : simpl never.

Lemma get_put_int z s : get_int (put_int z ++ s) = Some (u64 z, s).
Proof.
  unfold get_int. rewrite length_app, length_put_int. decide_cmp.
  rewrite take_app_length', drop_app_length' by (by rewrite length_put_int).
  unfold put_int. rewrite be_load_be_bytes_id; [done|]. apply u64_bound.
Qed.

Lemma get_put_i32 z s :
  - 2 ^ 31 <= z < 2 ^ 31 -> get_i32 (put_int z ++ s) = Some (z, s).
Proof.
  intros. unfold get_i32. rewrite get_put_int. simpl. do 2 f_equal.
  unfold i32, u64. rewrite <- Zplus_mod_idemp_l.
  replace (2 ^ 64) with (2 ^ 32 * 2 ^ 32) by done.
  rewrite Z.mod_mod_divide by (by exists (2 ^ 32)).
  rewrite Zplus_mod_idemp_l. apply i32_small. done.
Qed.

Lemma get_put_str f s : zlen f < 2 ^ 64 -> get_str (put_str f ++ s) = Some (f, s).
Proof.
  intros. unfold get_str, put_str. rewrite <- app_assoc, get_put_int. simpl.
  rewrite u64_small, length_app by lia. decide_cmp. rewrite Nat2Z.id.
  by rewrite take_app_length, drop_app_length.
Qed.

Lemma length_put_str f : zlen (put_str f) = 8 + zlen f.
Proof. unfold put_str. xlen. Qed.

Lemma get_put_pairs l s :
  zlen (put_pairs l) < 2 ^ 31 ->
  zlen l <= zlen (put_pairs l) /\
  get_pairs (length l) (put_pairs l ++ s) = Some (l, s).
Proof.
  induction l as [|[k v] l IH]; cbn [put_pairs get_pairs length]; intros Hl; [done|].
  rewrite !length_app, !Nat2Z.inj_add, !length_put_str in *.
  destruct IH as [Hle IH]; [lia|]. split; [lia|].
  rewrite <- !app_assoc, get_put_str by lia. cbn.
  rewrite get_put_str by lia. cbn. by rewrite IH.
Qed.

Lemma get_put_map m s : zlen (put_map m) < 2 ^ 31 -> get_map (put_map m ++ s) = Some (m, s).
Proof.
  intros Hl. unfold get_map, put_map in *. rewrite length_app, length_put_int in Hl.
  rewrite <- app_assoc, get_put_int. simpl.
  destruct (get_put_pairs (map_to_list m) s) as [Hle Hg]; [lia|].
  rewrite u64_small by lia. rewrite length_app. decide_cmp.
  rewrite Nat2Z.id, Hg. simpl. by rewrite list_to_map_to_list.
Qed.


Lemma bounded_Some s bs : bounded s = Some bs -> s = bs /\ zlen bs < 2 ^ 31.
Proof. unfold bounded. case_match; [|done]. intros; simplify_eq. split; [done|lia]. Qed.

(** The lengths of the parts of a serialised message are below the bound. *)
Ltac part_bounds H :=
  rewrite !length_app, !Nat2Z.inj_add, ?length_put_str, ?length_put_int in H.

(** Reads the fields back one by one, in the order they were written. *)
Ltac read_fields :=
  repeat first
    [ rewrite get_put_int; cbn
    | rewrite get_put_i32 by lia; cbn
    | rewrite get_put_str by lia; cbn
    | rewrite get_put_map by lia; cbn ].

#[local] Arguments put_int : simpl never.
#[local] Arguments put_str : simpl never.
#[local] Arguments put_map : simpl never.

#[export] Instance RpcHeader_demo_laws : @ProtoLaws RpcHeader RpcHeader_demo _.
Proof.
  split. intros [sn mn a] bs Hv [<- Hl]%bounded_Some. unfold proto_valid, RpcHeader_validity,
    RpcHeader_valid in Hv. cbn in *. part_bounds Hl. read_fields.
  rewrite <- (app_nil_r (put_int a)). read_fields. by rewrite u64_small by lia.
Qed.

#[export] Instance RequestProtocol_demo_laws : @ProtoLaws RequestProtocol RequestProtocol_demo _.
Proof.
  split. intros m bs Hv [<- Hl]%bounded_Some.
  destruct Hv as (?&?&_&_&_&_&?&?&?&_). destruct m. cbn in *. part_bounds Hl.
  read_fields. rewrite <- (app_nil_r (put_int rq_message_type0)). read_fields.
  by rewrite !u64_small by lia.
Qed.

#[export] Instance ResponseProtocol_demo_laws :
  @ProtoLaws ResponseProtocol ResponseProtocol_demo _.
Proof.
  split. intros m bs Hv [<- Hl]%bounded_Some.
  destruct Hv as (?&?&_&?&?&_). destruct m. cbn in *. part_bounds Hl. read_fields.
  rewrite <- (app_nil_r (put_map rs_trans_info0)). read_fields.
  by rewrite !u64_small by lia.
Qed.

End Demo.
