(* ===== verification/Message.v ===== *)
(** * Message: the protocol-independent message of the codec layer

    [src/src/include/xrpc/codec/protocol_message.h], [protocol_message.cc] and
    the [ClientContext] of [connection_ptr.h]. *)

From S2P Require Import Prelude Wire.

Inductive ProtocolVersion := kLegacy | kXRpc.

Record ProtocolMessage := mk_ProtocolMessage {
  version : ProtocolVersion;
  (* both protocols *)
  request_id : Z;
  content_type : ContentType;
  content_encoding : ContentEncoding;
  body : bytes;
  (* Legacy *)
  service_name : bytes;
  method_name : bytes;
  args_size : Z;
  (* XRpc *)
  message_type : MessageType;
  stream_type : StreamType;
  stream_id : Z;
  timeout : Z;
  caller : bytes;
  callee : bytes;
  func_name : bytes;
  caller_app : bytes;
  (* responses *)
  ret_code : Z;
  error_msg : bytes;
  trans_info : gmap bytes bytes
}.

(** The default member initialisers. *)
Definition ProtocolMessage_default : ProtocolMessage :=
  mk_ProtocolMessage kXRpc 0 kProtobuf kNone [] [] [] 0
    kRequest kUnary 0 1000 [] [] [] [] 0 [] ∅.

(** [Reset] assigns every field. *)
Definition Reset (m : ProtocolMessage) : ProtocolMessage :=
  {|
     version := kXRpc;
     request_id := 0;
     content_type := kProtobuf;
     content_encoding := kNone;
     body := [];
     service_name := [];
     method_name := [];
     args_size := 0;
     message_type := kRequest;
     stream_type := kUnary;
     stream_id := 0;
     timeout := 1000;
     caller := [];
     callee := [];
     func_name := [];
     caller_app := [];
     ret_code := 0;
     error_msg := [];
     trans_info := ∅ |}.

Definition IsRequest (m : ProtocolMessage) : bool :=
  bool_decide (message_type m = kRequest).
Definition IsResponse (m : ProtocolMessage) : bool :=
  bool_decide (message_type m = kResponse).
Definition IsOneway (m : ProtocolMessage) : bool :=
  bool_decide (message_type m = kOneway).

Record ClientContext := mk_ClientContext {
  ctx_service_name : bytes;
  ctx_method_name : bytes;
  ctx_caller : bytes;
  ctx_caller_app : bytes;
  ctx_timeout_ms : Z
}.

Definition ClientContext_default : ClientContext := mk_ClientContext [] [] [] [] 1000.

(** ** Lemmas *)

(** A decoded message holds nothing of what the object held before. *)
Lemma Reset_default m : Reset m = ProtocolMessage_default.
Proof. by destruct m. Qed.


