(* ===== verification/Codec.v ===== *)
(** * Codec: the codec interfaces

    [src/src/include/xrpc/codec/codec.h]. The two abstract classes are records
    of operations; the connection, context and metadata parameters that no
    implementation reads are left out. An operation returns its [int] code and
    the new values of the objects it takes by reference.

    [FrameCodec] states what the server's receive loop relies on, over the
    bytes a buffer stands for: a verdict on a prefix of the stream stays the
    verdict when more bytes arrive, a positive verdict is the length of a
    complete frame, and decoding a frame depends on that frame's bytes only and
    consumes exactly them. *)

From S2P Require Import Prelude Buffer Wire Message.

Record ServerCodec := mk_ServerCodec {
  CheckAndPick : NoncontiguousBuffer -> Z;
  ZeroCopyDecode : NoncontiguousBuffer -> ProtocolMessage ->
    Z * NoncontiguousBuffer * ProtocolMessage;
  ZeroCopyEncode : ProtocolMessage -> NoncontiguousBuffer ->
    Z * ProtocolMessage * NoncontiguousBuffer
}.

Record ClientCodec := mk_ClientCodec {
  ClientEncode : ClientContext -> ProtocolMessage -> NoncontiguousBuffer ->
    Z * ProtocolMessage * NoncontiguousBuffer;
  ClientDecode : NoncontiguousBuffer -> ProtocolMessage ->
    Z * NoncontiguousBuffer * ProtocolMessage
}.

(** The frame that a positive verdict [n] names, decoded on its own. *)
Definition decode_frame (c : ServerCodec) (frame : bytes) : Z * ProtocolMessage :=
  let '(ret, _, msg) := ZeroCopyDecode c (of_bytes frame) ProtocolMessage_default in
  (ret, msg).

(** [frame_ok]: the frames for which decoding is local. *)
Class FrameCodec (c : ServerCodec) (frame_ok : bytes -> Prop) := {
  check_contents b b' :
    buffer_wf b -> buffer_wf b' -> contents b = contents b' ->
    CheckAndPick c b = CheckAndPick c b';
  check_le b : buffer_wf b -> CheckAndPick c b <= zlen (contents b);
  check_nil : CheckAndPick c (of_bytes []) = 0;
  check_stable s rest :
    CheckAndPick c (of_bytes s) <> 0 ->
    CheckAndPick c (of_bytes (s ++ rest)) = CheckAndPick c (of_bytes s);
  decode_local b msg :
    buffer_wf b -> 0 < CheckAndPick c b ->
    frame_ok (take (Z.to_nat (CheckAndPick c b)) (contents b)) ->
    let n := Z.to_nat (CheckAndPick c b) in
    exists b', ZeroCopyDecode c b msg =
      ((decode_frame c (take n (contents b))).1, b',
       (decode_frame c (take n (contents b))).2) /\
      buffer_wf b' /\
      ((decode_frame c (take n (contents b))).1 = kCodecOk ->
       contents b' = drop n (contents b))
}.
