(* ===== verification/LegacyCodec.v ===== *)
(** * LegacyCodec: the Legacy protocol codec

    [src/src/codec/legacy_codec.cc]. Requests are
    [4B TotalLen | 4B HeaderLen | RpcHeader | Body], responses
    [4B TotalLen | Body], lengths big-endian and TotalLen not counting itself.
    All length arithmetic is in [uint32_t] and wraps. *)

From S2P Require Import Prelude Buffer Wire Proto Message Codec.

Section Legacy.

Context `{Host} `{Proto RpcHeader}.

(** ** LegacyServerCodec *)

Definition Legacy_CheckAndPick (inb : NoncontiguousBuffer) : Z :=
  if ReadableBytes inb <? 4 then 0
  else
    let total_len_be := load (Peek inb (store 4 0) 4 0).1 in
    let total_len_be := ntohl total_len_be in
    if total_len_be >? kMaxFrameSize then kCodecOversized
    else if total_len_be <? 4 then kCodecParseError
    else if ReadableBytes inb <? u32 (4 + total_len_be) then 0
    else i32 (u32 (4 + total_len_be)).

Definition Legacy_ZeroCopyDecode (inb : NoncontiguousBuffer) (msg : ProtocolMessage) :
    Z * NoncontiguousBuffer * ProtocolMessage :=
  let msg := Reset msg in
  let msg := {| msg with version := kLegacy |} in
  (* 1. TotalLen *)
  let total_len_be := load (Peek inb (store 4 0) 4 0).1 in
  let total_len := ntohl total_len_be in
  (* 2. HeaderLen *)
  let header_len_be := load (Peek inb (store 4 0) 4 4).1 in
  let header_len := ntohl header_len_be in
  (* 3. Header *)
  let header_bytes := (Peek inb (zeros header_len) header_len 8).1 in
  match ParseFromString header_bytes with
  | None => (kCodecParseError, inb, msg)
  | Some rpc_header =>
      let msg := {| msg with
        service_name := h_service_name rpc_header;
        method_name := h_method_name rpc_header;
        args_size := h_args_size rpc_header |} in
      (* 4. Body *)
      let body_len := u32 (u32 (total_len - 4) - header_len) in
      let msg :=
        if body_len >? 0 then
          {| msg with body :=
               (Peek inb (str_resize (body msg) body_len) body_len
                  (u32 (8 + header_len))).1 |}
        else msg in
      (* 5. consume the frame *)
      (kCodecOk, Skip inb (u32 (4 + total_len)), msg)
  end.

Definition Legacy_ZeroCopyEncode (msg : ProtocolMessage) (out : NoncontiguousBuffer) :
    Z * ProtocolMessage * NoncontiguousBuffer :=
  let body_len := u32 (zlen (body msg)) in
  let total_len := body_len in
  let net_total := htonl total_len in
  let out := Append out (store 4 net_total) in
  let out := if body_len >? 0 then Append out (slice (body msg) 0 body_len) else out in
  (kCodecOk, msg, out).

Definition LegacyServerCodec : ServerCodec :=
  mk_ServerCodec Legacy_CheckAndPick Legacy_ZeroCopyDecode Legacy_ZeroCopyEncode.

(** ** LegacyClientCodec *)

Definition Legacy_ClientEncode (ctx : ClientContext) (msg : ProtocolMessage)
    (out : NoncontiguousBuffer) : Z * ProtocolMessage * NoncontiguousBuffer :=
  let msg := {| msg with version := kLegacy |} in
  (* 1. RpcHeader *)
  let rpc_header := mk_RpcHeader
    (if bool_decide (service_name msg = []) then ctx_service_name ctx
     else service_name msg)
    (if bool_decide (method_name msg = []) then ctx_method_name ctx
     else method_name msg)
    (u32 (zlen (body msg))) in
  match SerializeToString rpc_header with
  | None => (kCodecSerializeError, msg, out)
  | Some header_str =>
      (* 2. lengths *)
      let header_len := u32 (zlen header_str) in
      let total_len := u32 (4 + header_len + zlen (body msg)) in
      let net_total := htonl total_len in
      let net_header := htonl header_len in
      let out := Append out (store 4 net_total) in
      let out := Append out (store 4 net_header) in
      let out := Append out header_str in
      let out := if bool_decide (body msg = []) then out else Append out (body msg) in
      (kCodecOk, msg, out)
  end.

Definition Legacy_ClientDecode (inb : NoncontiguousBuffer) (msg : ProtocolMessage) :
    Z * NoncontiguousBuffer * ProtocolMessage :=
  let msg := Reset msg in
  let msg := {| msg with version := kLegacy |} in
  if ReadableBytes inb <? 4 then (kCodecIncomplete, inb, msg)
  else
    let total_len_be := load (Peek inb (store 4 0) 4 0).1 in
    let total_len := ntohl total_len_be in
    if total_len >? kMaxFrameSize then (kCodecOversized, inb, msg)
    else if ReadableBytes inb <? u32 (4 + total_len) then (kCodecIncomplete, inb, msg)
    else
      let msg := {| msg with
        body := (Peek inb (str_resize (body msg) total_len) total_len 4).1;
        message_type := kResponse |} in
      (kCodecOk, Skip inb (u32 (4 + total_len)), msg).

Definition LegacyClientCodec : ClientCodec :=
  mk_ClientCodec Legacy_ClientEncode Legacy_ClientDecode.

End Legacy.

(** ** The codec over the bytes of its buffer *)

Section LegacySpec.

Context `{Host} `{Proto RpcHeader}.

(** The two length fields of a byte string. *)
Definition total_field (s : bytes) : Z := be_load (slice s 0 4).
Definition header_field (s : bytes) : Z := be_load (slice s 4 4).

(** A frame whose header lies within it. *)
Definition legacy_frame_ok (s : bytes) : Prop := header_field s <= total_field s - 4.

Lemma be_load_slice_bound s off :
  0 <= off -> off + 4 <= zlen s -> 0 <= be_load (slice s off 4) < 2 ^ 32.
Proof.
  intros. pose proof (be_load_bound (slice s off 4)) as Hb.
  by rewrite length_slice in Hb by lia.
Qed.

Lemma Legacy_check_spec b :
  buffer_wf b ->
  Legacy_CheckAndPick b =
    (let s := contents b in
     if zlen s <? 4 then 0
     else if total_field s >? kMaxFrameSize then kCodecOversized
     else if total_field s <? 4 then kCodecParseError
     else if zlen s <? 4 + total_field s then 0
     else 4 + total_field s).
Proof.
  intros Hb. unfold Legacy_CheckAndPick. rewrite ReadableBytes_contents by done. cbv zeta.
  case_if; [done|].
  pose proof (be_load_slice_bound (contents b) 0) as Hr. unfold total_field, ntohl in *.
  rewrite (Peek_ntoh b _ 4) by (rewrite ?length_store; done || lia).
  case_if; [done|]. case_if; [done|].
  unfold kMaxFrameSize in *. rewrite !u32_small by lia.
  case_if; [done|]. apply i32_small. lia.
Qed.

(** What the decoder makes of a parsed header and a body. *)
Definition legacy_message (h : RpcHeader) (b : bytes) : ProtocolMessage :=
  {| ProtocolMessage_default with
     version := kLegacy; service_name := h_service_name h;
     method_name := h_method_name h; args_size := h_args_size h; body := b |}.

Lemma Legacy_decode_spec b msg :
  let s := contents b in
  buffer_wf b -> 8 <= zlen s -> legacy_frame_ok s -> 4 + total_field s <= zlen s ->
  total_field s <= kMaxFrameSize ->
  Legacy_ZeroCopyDecode b msg =
    match ParseFromString (slice s 8 (header_field s)) with
    | None => (kCodecParseError, b, {| ProtocolMessage_default with version := kLegacy |})
    | Some h => (kCodecOk, Skip b (4 + total_field s),
        legacy_message h (slice s (8 + header_field s) (total_field s - 4 - header_field s)))
    end.
Proof.
  intros s Hb H8 Hok Hle Hmax. unfold legacy_frame_ok, kMaxFrameSize in *.
  pose proof (be_load_slice_bound s 0 ltac:(lia) ltac:(lia)) as Ht.
  pose proof (be_load_slice_bound s 4 ltac:(lia) ltac:(lia)) as Hh.
  fold (total_field s) in Ht. fold (header_field s) in Hh.
  unfold Legacy_ZeroCopyDecode, ntohl.
  rewrite !(Peek_ntoh b _ 4) by (rewrite ?length_store; done || (fold s; lia)). fold s.
  fold (total_field s) (header_field s).
  rewrite Reset_default, Peek_zeros by (done || (fold s; lia)). fold s.
  destruct (ParseFromString _) as [h|]; [|done].
  rewrite (u32_small (4 + _)), (u32_small (8 + _)), (u32_small (total_field s - 4)),
    (u32_small (total_field s - 4 - _)) by lia.
  unfold legacy_message. case_if; cbn.
  - rewrite str_resize_nil, Peek_zeros by (done || (fold s; lia)). done.
  - replace (total_field s - 4 - header_field s) with 0 by lia. done.
Qed.

Lemma Legacy_response_decode_spec b msg :
  let s := contents b in
  buffer_wf b -> 4 <= zlen s -> 4 + total_field s <= zlen s ->
  total_field s <= kMaxFrameSize ->
  Legacy_ClientDecode b msg =
    (kCodecOk, Skip b (4 + total_field s),
     {| ProtocolMessage_default with
        version := kLegacy; message_type := kResponse;
        body := slice s 4 (total_field s) |}).
Proof.
  intros s Hb H4 Hle Hmax. unfold Legacy_ClientDecode, ntohl, kMaxFrameSize in *.
  pose proof (be_load_slice_bound s 0 ltac:(lia) ltac:(lia)) as Ht.
  fold (total_field s) in Ht. rewrite ReadableBytes_contents by done.
  rewrite (Peek_ntoh b _ 4) by (rewrite ?length_store; done || (fold s; lia)). fold s.
  fold (total_field s). rewrite u32_small by lia. decide_cmp.
  rewrite Reset_default. cbn. rewrite str_resize_nil, Peek_zeros by (done || (fold s; lia)).
  done.
Qed.

Lemma total_field_take s n :
  4 <= Z.of_nat n -> total_field (take n s) = total_field s.
Proof. intros. unfold total_field. by rewrite slice_take by lia. Qed.

Lemma header_field_take s n :
  8 <= Z.of_nat n -> header_field (take n s) = header_field s.
Proof. intros. unfold header_field. by rewrite slice_take by lia. Qed.

Lemma total_field_app s r : 4 <= zlen s -> total_field (s ++ r) = total_field s.
Proof. intros. unfold total_field. by rewrite slice_app_l by lia. Qed.

(** A positive verdict is [4 + TotalLen], with the whole frame in the buffer. *)
Lemma Legacy_check_pos b :
  buffer_wf b -> 0 < Legacy_CheckAndPick b ->
  let s := contents b in
  Legacy_CheckAndPick b = 4 + total_field s /\
  4 <= total_field s <= kMaxFrameSize /\ 4 + total_field s <= zlen s.
Proof.
  intros Hb. rewrite Legacy_check_spec by done. cbv zeta.
  unfold kCodecOversized, kCodecParseError. repeat (case_if; [lia|]). lia.
Qed.

#[export] Instance Legacy_frames : FrameCodec LegacyServerCodec legacy_frame_ok.
Proof.
  split; cbn -[legacy_frame_ok].
  - intros b b' Hb Hb' Heq. by rewrite !Legacy_check_spec, Heq by done.
  - intros b Hb. destruct (Z.lt_ge_cases 0 (Legacy_CheckAndPick b)) as [Hp|]; [|lia].
    destruct (Legacy_check_pos b Hb Hp) as (-> & _ & ?). lia.
  - done.
  - intros s rest. rewrite !Legacy_check_spec, !of_bytes_contents by apply of_bytes_wf.
    cbv zeta. case_if as E; [done|]. rewrite total_field_app, length_app by lia.
    replace (Z.of_nat (length s + length rest) <? 4) with false by lia.
    case_if; [done|]. case_if; [done|]. case_if; [done|]. by decide_cmp.
  - intros b msg Hb Hp Hok. destruct (Legacy_check_pos b Hb Hp) as (Hn & Ht & Hle).
    rewrite Hn in *. set (s := contents b) in *.
    set (n := Z.to_nat (4 + total_field s)) in *. set (f := take n s) in *.
    assert (total_field f = total_field s) as Htf by (apply total_field_take; lia).
    assert (header_field f = header_field s) as Hhf by (apply header_field_take; lia).
    assert (zlen f = 4 + total_field s) as Hlf by (unfold f; rewrite length_take; lia).
    assert (header_field s <= total_field s - 4) as Hok'
      by (rewrite <- Hhf, <- Htf; apply Hok).
    pose proof (be_load_slice_bound s 4) as Hh. fold (header_field s) in Hh.
    unfold decode_frame. cbn -[legacy_frame_ok].
    rewrite (Legacy_decode_spec b), (Legacy_decode_spec (of_bytes f));
      rewrite ?of_bytes_contents; try done; try apply of_bytes_wf;
      fold s; try lia.
    rewrite Htf, Hhf. unfold f. rewrite !slice_take by lia. fold s.
    destruct (ParseFromString _); eexists; (split; [reflexivity|]).
    + split; [apply Skip_wf; [done|lia]|]. intros _. by rewrite Skip_contents by (done || lia).
    + done.
Qed.

End LegacySpec.

(** ** Properties *)

Section LegacyProperties.

Context `{Host} `{Proto RpcHeader} `{!ProtoLaws RpcHeader}.

(** The header the client codec builds. *)
Definition legacy_header (ctx : ClientContext) (msg : ProtocolMessage) : RpcHeader :=
  mk_RpcHeader
    (if bool_decide (service_name msg = []) then ctx_service_name ctx
     else service_name msg)
    (if bool_decide (method_name msg = []) then ctx_method_name ctx
     else method_name msg)
    (u32 (zlen (body msg))).

Definition legacy_request (hs b : bytes) : bytes :=
  be_bytes 4 (4 + zlen hs + zlen b) ++ be_bytes 4 (zlen hs) ++ hs ++ b.
Definition legacy_response (b : bytes) : bytes := be_bytes 4 (zlen b) ++ b.

Lemma Legacy_ClientEncode_raw ctx msg out hs :
  buffer_wf out -> SerializeToString (legacy_header ctx msg) = Some hs ->
  exists out', Legacy_ClientEncode ctx msg out =
    (kCodecOk, {| msg with version := kLegacy |}, out') /\ buffer_wf out' /\
    contents out' = contents out ++ be_bytes 4 (u32 (4 + u32 (zlen hs) + zlen (body msg))) ++
      be_bytes 4 (u32 (zlen hs)) ++ hs ++ body msg.
Proof.
  intros Hout Hs. unfold Legacy_ClientEncode, htonl. cbv zeta.
  unfold legacy_header in Hs. cbn in *. rewrite Hs, !store_hton.
  eexists. split; [reflexivity|].
  match goal with |- buffer_wf (if _ then ?o else _) /\ _ =>
    destruct (Append_nonempty o (body msg)) as [? Hc]; [auto with xrpc|] end.
  split; [done|]. rewrite Hc, !Append_contents by auto with xrpc.
  by rewrite <- !app_assoc.
Qed.

Lemma Legacy_ClientEncode_spec ctx msg out hs :
  buffer_wf out -> SerializeToString (legacy_header ctx msg) = Some hs ->
  4 + zlen hs + zlen (body msg) < 2 ^ 32 ->
  exists out', Legacy_ClientEncode ctx msg out =
    (kCodecOk, {| msg with version := kLegacy |}, out') /\ buffer_wf out' /\
    contents out' = contents out ++ legacy_request hs (body msg).
Proof.
  intros Hout Hs Hlen. destruct (Legacy_ClientEncode_raw ctx msg out hs) as (out' & -> & Hwf & Hc);
    [done..|].
  rewrite (u32_small (zlen hs)), u32_small in Hc by lia. by eexists.
Qed.

Lemma Legacy_ServerEncode_spec msg out :
  buffer_wf out -> zlen (body msg) < 2 ^ 32 ->
  exists out', Legacy_ZeroCopyEncode msg out = (kCodecOk, msg, out') /\ buffer_wf out' /\
    contents out' = contents out ++ legacy_response (body msg).
Proof.
  intros Hout Hlen. unfold Legacy_ZeroCopyEncode, legacy_response, htonl.
  rewrite u32_small, store_hton by lia. eexists. split; [reflexivity|].
  case_if; (split; [auto with xrpc|]).
  - rewrite !Append_contents, slice_all, <- app_assoc by (auto with xrpc; lia). done.
  - rewrite Append_contents by done. destruct (body msg); [by rewrite app_nil_r|].
    simpl in *. lia.
Qed.

Lemma legacy_request_fields hs b rest :
  4 + zlen hs + zlen b < 2 ^ 32 ->
  let s := legacy_request hs b ++ rest in
  total_field s = 4 + zlen hs + zlen b /\ header_field s = zlen hs.
Proof.
  intros Hl s. unfold total_field, header_field, s, legacy_request.
  rewrite <- !app_assoc. split; slices; apply be_load_be_bytes_id; simpl Z.of_nat; lia.
Qed.

Lemma length_legacy_request hs b : zlen (legacy_request hs b) = 8 + zlen hs + zlen b.
Proof. unfold legacy_request. xlen. Qed.

(** The server's codec on a request followed by anything. *)
Lemma Legacy_request_spec h hs b rest inb m0 :
  RpcHeader_valid h -> SerializeToString h = Some hs ->
  4 + zlen hs + zlen b <= kMaxFrameSize ->
  buffer_wf inb -> contents inb = legacy_request hs b ++ rest ->
  Legacy_CheckAndPick inb = zlen (legacy_request hs b) /\
  exists inb', Legacy_ZeroCopyDecode inb m0 = (kCodecOk, inb', legacy_message h b) /\
    buffer_wf inb' /\ contents inb' = rest.
Proof.
  intros Hv Hs Hlen Hwf Hin. unfold kMaxFrameSize in Hlen.
  destruct (legacy_request_fields hs b rest ltac:(lia)) as [Ht Hh].
  rewrite <- Hin in Ht, Hh. pose proof (length_legacy_request hs b) as Hl.
  assert (zlen (contents inb) = 8 + zlen hs + zlen b + zlen rest) as Hli
    by (rewrite Hin, length_app; lia).
  split.
  { rewrite Legacy_check_spec by done. cbv zeta. rewrite Ht, Hl. unfold kMaxFrameSize.
    decide_cmp. lia. }
  rewrite Legacy_decode_spec; unfold legacy_frame_ok, kMaxFrameSize; try done; try lia.
  rewrite Ht, Hh, Hin. unfold legacy_request. rewrite <- !app_assoc.
  slices. rewrite (parse_serialize h) by done.
  eexists. split; [reflexivity|].
  rewrite Skip_contents, Hin by (done || lia). split; [apply Skip_wf; [done|lia]|].
  apply drop_app_length'. lia.
Qed.

(** The client's codec on a response followed by anything. *)
Lemma Legacy_response_spec b rest inb m0 :
  zlen b <= kMaxFrameSize -> buffer_wf inb -> contents inb = legacy_response b ++ rest ->
  exists inb' msg', Legacy_ClientDecode inb m0 = (kCodecOk, inb', msg') /\
    body msg' = b /\ message_type msg' = kResponse /\ buffer_wf inb' /\ contents inb' = rest.
Proof.
  intros Hlen Hwf Hin. unfold kMaxFrameSize in Hlen.
  assert (total_field (contents inb) = zlen b) as Ht.
  { rewrite Hin. unfold total_field, legacy_response. rewrite <- app_assoc. slices.
    apply be_load_be_bytes_id. simpl Z.of_nat. lia. }
  assert (zlen (contents inb) = 4 + zlen b + zlen rest) as Hli
    by (rewrite Hin; unfold legacy_response; xlen).
  rewrite Legacy_response_decode_spec; unfold kMaxFrameSize; try done; try lia.
  rewrite Ht. do 2 eexists. split; [reflexivity|]. cbn.
  rewrite Skip_contents, Hin by (done || lia). unfold legacy_response. rewrite <- app_assoc.
  split; [slices; done|]. split; [done|]. split; [apply Skip_wf; [done|lia]|].
  rewrite app_assoc. apply drop_app_length'. xlen.
Qed.

(** C16. What the Legacy client encodes for a call, the Legacy server takes apart:
    with any bytes following it in the stream, [CheckAndPick] names exactly the
    encoded frame, and [ZeroCopyDecode] returns [kCodecOk], the service and
    method (from the message, or from the context where the message leaves them
    empty) and the body, and leaves exactly the following bytes. *)
Theorem legacy_request_roundtrip ctx msg m0 hs rest inb :
  SerializeToString (legacy_header ctx msg) = Some hs ->
  4 + zlen hs + zlen (body msg) <= kMaxFrameSize ->
  buffer_wf inb ->
  contents inb = contents (Legacy_ClientEncode ctx msg empty_buffer).2 ++ rest ->
  (Legacy_ClientEncode ctx msg empty_buffer).1.1 = kCodecOk /\
  Legacy_CheckAndPick inb = zlen (contents (Legacy_ClientEncode ctx msg empty_buffer).2) /\
  exists inb', Legacy_ZeroCopyDecode inb m0 =
    (kCodecOk, inb', legacy_message (legacy_header ctx msg) (body msg)) /\
    buffer_wf inb' /\ contents inb' = rest.
Proof.
  intros Hs Hlen Hwf.
  destruct (Legacy_ClientEncode_spec ctx msg empty_buffer hs) as (out & -> & _ & Hout);
    [apply empty_wf|done|unfold kMaxFrameSize in *; lia|].
  cbn [fst snd]. change (contents out = legacy_request hs (body msg)) in Hout. rewrite Hout.
  intros Hin. split; [done|]. apply Legacy_request_spec with (hs := hs); try done.
  apply u32_bound.
Qed.

(** What the Legacy server encodes as a response of at most 16 MB, the Legacy
    client decodes: [kCodecOk], the same body, message type [kResponse], and the
    bytes after the frame untouched. *)
Theorem legacy_response_roundtrip msg m0 rest inb :
  zlen (body msg) <= kMaxFrameSize ->
  buffer_wf inb ->
  contents inb = contents (Legacy_ZeroCopyEncode msg empty_buffer).2 ++ rest ->
  (Legacy_ZeroCopyEncode msg empty_buffer).1.1 = kCodecOk /\
  exists inb' msg', Legacy_ClientDecode inb m0 = (kCodecOk, inb', msg') /\
    body msg' = body msg /\ message_type msg' = kResponse /\
    buffer_wf inb' /\ contents inb' = rest.
Proof.
  intros Hlen Hwf.
  destruct (Legacy_ServerEncode_spec msg empty_buffer) as (out & -> & _ & Hout);
    [apply empty_wf|unfold kMaxFrameSize in *; lia|].
  cbn [fst snd]. change (contents out = legacy_response (body msg)) in Hout. rewrite Hout.
  intros Hin. split; [done|]. by apply Legacy_response_spec.
Qed.

End LegacyProperties.

(** C19. On any buffer the Legacy [CheckAndPick] gives one of four verdicts: 0 when
    fewer bytes than the announced frame are there, [kCodecOversized] exactly for
    an announced length above 16 MB, [kCodecParseError] exactly for one below 4,
    and otherwise the frame's size, which is between 8 and 16 MB + 4 and never
    more than the bytes received. *)
Theorem legacy_verdict `{Host} b :
  buffer_wf b ->
  let s := contents b in let r := Legacy_CheckAndPick b in
  (r = kCodecOversized <-> 4 <= zlen s /\ kMaxFrameSize < total_field s) /\
  (r = kCodecParseError <-> 4 <= zlen s /\ total_field s < 4) /\
  (r = 0 <-> zlen s < 4 \/ 4 <= total_field s <= kMaxFrameSize /\ zlen s < 4 + total_field s) /\
  (0 < r -> r = 4 + total_field s /\ 8 <= r <= 4 + kMaxFrameSize /\ r <= zlen s).
Proof.
  intros Hb s r. unfold r. rewrite Legacy_check_spec by done. fold s. cbv zeta.
  unfold kCodecOversized, kCodecParseError, kMaxFrameSize. repeat (case_if; [lia|]). lia.
Qed.

(** C36. The Legacy decoder does not check HeaderLen against TotalLen. When a frame
    that [CheckAndPick] accepts announces a header longer than the frame, the
    header is read from the bytes of the following frames, and if they parse, the
    unsigned body length wraps around: decoding succeeds with a body of
    [2^32 - (HeaderLen - (TotalLen - 4))] bytes, almost 4 GB. *)
Theorem legacy_decode_header_overrun `{Host} `{Proto RpcHeader} b msg h :
  let s := contents b in
  buffer_wf b -> 0 < Legacy_CheckAndPick b ->
  total_field s - 4 < header_field s -> 8 + header_field s <= zlen s ->
  ParseFromString (slice s 8 (header_field s)) = Some h ->
  exists b' msg', Legacy_ZeroCopyDecode b msg = (kCodecOk, b', msg') /\
    zlen (body msg') = 2 ^ 32 - (header_field s - (total_field s - 4)).
Proof.
  intros s Hb Hp Hbad Hle Hparse. destruct (Legacy_check_pos b Hb Hp) as (_ & Ht & _).
  fold s in Ht. unfold kMaxFrameSize in Ht.
  pose proof (be_load_slice_bound s 4 ltac:(lia) ltac:(lia)) as Hh.
  fold (header_field s) in Hh. unfold Legacy_ZeroCopyDecode, ntohl.
  rewrite !(Peek_ntoh b _ 4) by (rewrite ?length_store; done || (fold s; lia)). fold s.
  fold (total_field s) (header_field s).
  rewrite Peek_zeros by (done || (fold s; lia)). fold s. rewrite Hparse.
  rewrite (u32_small (total_field s - 4)) by lia.
  assert (u32 (total_field s - 4 - header_field s) =
          2 ^ 32 - (header_field s - (total_field s - 4))) as ->.
  { unfold u32. rewrite <- (Z_mod_plus_full _ 1), Z.mod_small; lia. }
  decide_cmp. do 2 eexists. split; [reflexivity|]. rewrite Reset_default. cbn.
  rewrite str_resize_nil. unfold Peek. cbn.
  assert (0 <= u32 (8 + header_field s)) as Ho by apply u32_bound.
  rewrite Peek_bytes_spec by (done || lia).
  rewrite length_overwrite, length_zeros; [lia|].
  rewrite length_zeros. unfold slice. rewrite length_take. lia.
Qed.

(** ** Witnesses *)

Section LegacyWitnesses.

Import Demo.
#[local] Existing Instance RpcHeader_demo.
#[local] Instance little : Host := Little.

Definition demo_call : ProtocolMessage :=
  {| ProtocolMessage_default with
     service_name := lit "UserServiceRpc"; method_name := lit "Login"; body := lit "zhangsan" |}.

Definition demo_header : bytes :=
  default [] (SerializeToString (legacy_header ClientContext_default demo_call)).

Lemma legacy_request_roundtrip_witness :
  exists inb', Legacy_ZeroCopyDecode
    (of_bytes (ToString (Legacy_ClientEncode ClientContext_default demo_call empty_buffer).2
               ++ lit "next")) ProtocolMessage_default =
    (kCodecOk, inb', legacy_message (legacy_header ClientContext_default demo_call)
                       (body demo_call)) /\ buffer_wf inb' /\ contents inb' = lit "next".
Proof.
  destruct (legacy_request_roundtrip ClientContext_default demo_call ProtocolMessage_default
    demo_header (lit "next") (of_bytes (ToString (Legacy_ClientEncode ClientContext_default
      demo_call empty_buffer).2 ++ lit "next"))) as (_ & _ & H);
    [reflexivity|vm_compute; discriminate|apply of_bytes_wf| |exact H].
  rewrite of_bytes_contents. reflexivity.
Defined.

Lemma legacy_response_roundtrip_witness :
  exists inb' msg', Legacy_ClientDecode
    (of_bytes (ToString (Legacy_ZeroCopyEncode demo_call empty_buffer).2 ++ lit "x"))
    ProtocolMessage_default = (kCodecOk, inb', msg') /\
    body msg' = lit "zhangsan" /\ message_type msg' = kResponse /\
    buffer_wf inb' /\ contents inb' = lit "x".
Proof.
  apply (legacy_response_roundtrip demo_call);
    [vm_compute; discriminate|apply of_bytes_wf|].
  rewrite of_bytes_contents. reflexivity.
Defined.

Lemma legacy_verdict_witness : Legacy_CheckAndPick (of_bytes (be_bytes 4 3)) = kCodecParseError.
Proof.
  apply (legacy_verdict (of_bytes (be_bytes 4 3)) (of_bytes_wf _)).
  rewrite of_bytes_contents. vm_compute. split; [discriminate|reflexivity].
Defined.

(** A frame of TotalLen 4 that announces the next bytes as its header. *)
Definition overrun_header : bytes := put_str (lit "S") ++ put_str (lit "M") ++ put_int 0.
Definition overrun : bytes := be_bytes 4 4 ++ be_bytes 4 (zlen overrun_header) ++ overrun_header.

Lemma legacy_decode_header_overrun_witness :
  exists b' msg', Legacy_ZeroCopyDecode (of_bytes overrun) ProtocolMessage_default =
    (kCodecOk, b', msg') /\ zlen (body msg') = 2 ^ 32 - 26.
Proof.
  destruct (legacy_decode_header_overrun (of_bytes overrun) ProtocolMessage_default
              (mk_RpcHeader (lit "S") (lit "M") 0)) as (b' & msg' & H & Hl);
    [apply of_bytes_wf| | | | |exists b', msg'; split; [exact H|rewrite Hl]];
    rewrite ?of_bytes_contents; vm_compute; (reflexivity || discriminate).
Defined.

End LegacyWitnesses.
