(* ===== verification/XRpcCodec.v ===== *)
(** * XRpcCodec: the XRPC protocol codec

    [src/src/codec/xrpc_codec.cc]. A frame is a 16-byte fixed header, a
    protobuf variable header ([RequestProtocol] or [ResponseProtocol]) and the
    body. [Wire.stream_type] and [Wire.stream_id] are the fixed header's
    fields, the unqualified names the message's. *)

From S2P Require Import Prelude Buffer Wire Proto Message Codec.

Section XRpc.

Context `{Host} `{Proto RequestProtocol} `{Proto ResponseProtocol}.

(** The position of the last occurrence of a byte: [rfind] ([None] is [npos]). *)
Fixpoint rfind (c : byte) (s : bytes) : option nat :=
  match s with
  | [] => None
  | b :: s' =>
      match rfind c s' with
      | Some i => Some (S i)
      | None => if bool_decide (b = c) then Some O else None
      end
  end.

(** Reads the fixed header without consuming it: the code and the fields. The
    locals start indeterminate; every byte of them is written before it is read
    (zero stands for their initial value). *)
Definition PeekFixedHeader (inb : NoncontiguousBuffer) (fh : FixedHeader) : Z * FixedHeader :=
  if ReadableBytes inb <? kFixedHeaderSize then (kCodecIncomplete, fh)
  else
    let buf16 := (Peek inb (store 2 0) 2 0).1 in
    let fh := {| fh with magic := ntohs (load buf16) |} in
    let fh := {| fh with type := load (Peek inb (store 1 (type fh)) 1 2).1 |} in
    let fh := {| fh with
      Wire.stream_type := load (Peek inb (store 1 (Wire.stream_type fh)) 1 3).1 |} in
    let buf32 := (Peek inb (store 4 0) 4 4).1 in
    let fh := {| fh with total_size := ntohl (load buf32) |} in
    let buf16 := (Peek inb buf16 2 8).1 in
    let fh := {| fh with header_size := ntohs (load buf16) |} in
    let buf32 := (Peek inb buf32 4 10).1 in
    let fh := {| fh with Wire.stream_id := ntohl (load buf32) |} in
    let fh := {| fh with reserved := load (Peek inb (store 2 (reserved fh)) 2 14).1 |} in
    (kCodecOk, fh).

(** ** XRpcServerCodec *)

Definition XRpc_CheckAndPick (inb : NoncontiguousBuffer) : Z :=
  if ReadableBytes inb <? kFixedHeaderSize then 0
  else
    let '(ret, fh) := PeekFixedHeader inb FixedHeader_default in
    if negb (ret =? kCodecOk) then 0
    else if negb (IsValid fh) then kCodecInvalidMagic
    else if (total_size fh >? kMaxFrameSize) || (total_size fh <? kFixedHeaderSize)
    then kCodecOversized
    else if header_size fh >? total_size fh - kFixedHeaderSize then kCodecParseError
    else if ReadableBytes inb <? total_size fh then 0
    else i32 (total_size fh).

(** Reading the variable header and the body of the frame of [fh]. *)
Definition read_header_bytes (inb : NoncontiguousBuffer) (fh : FixedHeader) : bytes :=
  (Peek inb (zeros (header_size fh)) (header_size fh) kFixedHeaderSize).1.

Definition read_body (inb : NoncontiguousBuffer) (fh : FixedHeader) (msg : ProtocolMessage) :
    ProtocolMessage :=
  let body_len := BodySize fh in
  if body_len >? 0 then
    {| msg with body :=
         (Peek inb (str_resize (body msg) body_len) body_len
            (kFixedHeaderSize + header_size fh)).1 |}
  else msg.

(** [for (kv : src) dst[kv.first] = kv.second]. *)
Definition copy_trans_info (src dst : gmap bytes bytes) : gmap bytes bytes := src ∪ dst.

(** Filling the message from a parsed request header. *)
Definition set_request (req : RequestProtocol) (msg : ProtocolMessage) : ProtocolMessage :=
  let msg := {| msg with
    message_type := kRequest;
    request_id := rq_request_id req;
    timeout := rq_timeout req;
    caller := rq_caller req;
    callee := rq_callee req;
    func_name := rq_func_name req;
    content_type := rq_content_type req;
    content_encoding := rq_content_encoding req;
    caller_app := rq_caller_app req;
    trans_info := copy_trans_info (rq_trans_info req) (trans_info msg) |} in
  match rfind Byte.x2f (func_name msg) with
  | Some slash => {| msg with
      service_name := take slash (func_name msg);
      method_name := drop (slash + 1) (func_name msg) |}
  | None => msg
  end.

(** Filling the message from a parsed response header. *)
Definition set_response (resp : ResponseProtocol) (msg : ProtocolMessage) : ProtocolMessage :=
  {| msg with
     request_id := rs_request_id resp;
     ret_code := rs_ret_code resp;
     error_msg := rs_error_msg resp;
     content_type := rs_content_type resp;
     content_encoding := rs_content_encoding resp;
     trans_info := copy_trans_info (rs_trans_info resp) (trans_info msg) |}.

Definition XRpc_ZeroCopyDecode (inb : NoncontiguousBuffer) (msg : ProtocolMessage) :
    Z * NoncontiguousBuffer * ProtocolMessage :=
  let msg := Reset msg in
  let msg := {| msg with version := kXRpc |} in
  let '(ret, fh) := PeekFixedHeader inb FixedHeader_default in
  if negb (ret =? kCodecOk) then (kCodecIncomplete, inb, msg)
  else if negb (IsValid fh) then (kCodecInvalidMagic, inb, msg)
  else
    let header_bytes := read_header_bytes inb fh in
    let msg := read_body inb fh msg in
    let parsed :=
      if type fh =? MessageType_u8 kRequest then
        match ParseFromString header_bytes with
        | None => None
        | Some req => Some (set_request req msg)
        end
      else if type fh =? MessageType_u8 kResponse then
        match ParseFromString header_bytes with
        | None => None
        | Some resp => Some (set_response resp {| msg with message_type := kResponse |})
        end
      else if type fh =? MessageType_u8 kOneway then
        Some {| msg with message_type := kOneway |}
      else Some msg in
    match parsed with
    | None => (kCodecParseError, inb, msg)
    | Some msg =>
        let msg := {| msg with
          stream_type := Wire.stream_type fh;
          stream_id := Wire.stream_id fh |} in
        (kCodecOk, Skip inb (total_size fh), msg)
    end.

(** Writing a frame: the fixed header (already in network order), the variable
    header and the body. *)
Definition write_frame (fh : FixedHeader) (header_str : bytes) (msg : ProtocolMessage)
    (out : NoncontiguousBuffer) : NoncontiguousBuffer :=
  let out := Append out (FixedHeader_mem (HToN fh)) in
  let out := Append out header_str in
  if bool_decide (body msg = []) then out else Append out (body msg).

Definition XRpc_ZeroCopyEncode (msg : ProtocolMessage) (out : NoncontiguousBuffer) :
    Z * ProtocolMessage * NoncontiguousBuffer :=
  let resp := mk_ResponseProtocol (request_id msg) (ret_code msg) (error_msg msg)
    (content_type msg) (content_encoding msg) (copy_trans_info (trans_info msg) ∅) in
  match SerializeToString resp with
  | None => (kCodecSerializeError, msg, out)
  | Some header_str =>
      let fh := {|
        magic := kMagicNumber;
        type := MessageType_u8 kResponse;
        Wire.stream_type := u8 (stream_type msg);
        header_size := u16 (zlen header_str);
        Wire.stream_id := stream_id msg;
        total_size := u32 (kFixedHeaderSize + zlen header_str + zlen (body msg));
        reserved := 0 |} in
      if total_size fh >? kMaxFrameSize then (kCodecOversized, msg, out)
      else (kCodecOk, msg, write_frame fh header_str msg out)
  end.

(** ** XRpcClientCodec *)

(** The variable header of a request. *)
Definition request_header (ctx : ClientContext) (msg : ProtocolMessage) : RequestProtocol :=
  mk_RequestProtocol
    (request_id msg)
    (if timeout msg >? 0 then timeout msg else ctx_timeout_ms ctx)
    (if bool_decide (caller msg = []) then ctx_caller ctx else caller msg)
    (callee msg)
    (if bool_decide (func_name msg = [])
     then service_name msg ++ lit "/" ++ method_name msg else func_name msg)
    (content_type msg)
    (content_encoding msg)
    (copy_trans_info (trans_info msg) ∅)
    (if bool_decide (caller_app msg = []) then ctx_caller_app ctx else caller_app msg)
    (if bool_decide (message_type msg = kOneway) then 2 else 0).

Definition XRpc_ClientEncode (ctx : ClientContext) (msg : ProtocolMessage)
    (out : NoncontiguousBuffer) : Z * ProtocolMessage * NoncontiguousBuffer :=
  match SerializeToString (request_header ctx msg) with
  | None => (kCodecSerializeError, msg, out)
  | Some header_str =>
      let fh := {|
        magic := kMagicNumber;
        type := MessageType_u8 (message_type msg);
        Wire.stream_type := u8 (stream_type msg);
        header_size := u16 (zlen header_str);
        Wire.stream_id := stream_id msg;
        total_size := u32 (kFixedHeaderSize + zlen header_str + zlen (body msg));
        reserved := 0 |} in
      if total_size fh >? kMaxFrameSize then (kCodecOversized, msg, out)
      else (kCodecOk, msg, write_frame fh header_str msg out)
  end.

Definition XRpc_ClientDecode (inb : NoncontiguousBuffer) (msg : ProtocolMessage) :
    Z * NoncontiguousBuffer * ProtocolMessage :=
  let msg := Reset msg in
  let msg := {| msg with version := kXRpc; message_type := kResponse |} in
  if ReadableBytes inb <? kFixedHeaderSize then (kCodecIncomplete, inb, msg)
  else
    let '(ret, fh) := PeekFixedHeader inb FixedHeader_default in
    if negb (ret =? kCodecOk) then (kCodecIncomplete, inb, msg)
    else if negb (IsValid fh) then (kCodecInvalidMagic, inb, msg)
    else if total_size fh >? kMaxFrameSize then (kCodecOversized, inb, msg)
    else if ReadableBytes inb <? total_size fh then (kCodecIncomplete, inb, msg)
    else
      let header_bytes := read_header_bytes inb fh in
      let msg := read_body inb fh msg in
      match ParseFromString header_bytes with
      | None => (kCodecParseError, inb, msg)
      | Some resp =>
          let msg := set_response resp msg in
          let msg := {| msg with
            stream_type := Wire.stream_type fh;
            stream_id := Wire.stream_id fh |} in
          (kCodecOk, Skip inb (total_size fh), msg)
      end.

Definition XRpcServerCodec : ServerCodec :=
  mk_ServerCodec XRpc_CheckAndPick XRpc_ZeroCopyDecode XRpc_ZeroCopyEncode.
Definition XRpcClientCodec : ClientCodec :=
  mk_ClientCodec XRpc_ClientEncode XRpc_ClientDecode.

(** The factory helpers. *)
Definition CreateXRpcServerCodec : ServerCodec := XRpcServerCodec.
Definition CreateXRpcClientCodec : ClientCodec := XRpcClientCodec.

End XRpc.

(** ** The codec over the bytes of its buffer *)

Section XRpcSpec.

Context `{Host} `{Proto RequestProtocol} `{Proto ResponseProtocol}.

(** The fixed header at the start of a byte string, in host integers. *)
Definition wire_fixed (s : bytes) : FixedHeader :=
  mk_FixedHeader (be_load (slice s 0 2)) (be_load (slice s 2 1)) (be_load (slice s 3 1))
    (be_load (slice s 4 4)) (be_load (slice s 8 2)) (be_load (slice s 10 4))
    (load (slice s 14 2)).

Lemma be_load_slice_range s off n :
  0 <= off -> 0 <= n -> off + n <= zlen s -> 0 <= be_load (slice s off n) < 256 ^ n.
Proof.
  intros. pose proof (be_load_bound (slice s off n)) as Hb.
  rewrite length_slice in Hb by lia. by rewrite Z2Nat.id in Hb by lia.
Qed.

Lemma wire_fixed_wf s : 16 <= zlen s -> header_wf (wire_fixed s).
Proof.
  intros. unfold header_wf, wire_fixed; cbn.
  repeat split; try (apply (be_load_slice_range s); lia).
  all: pose proof (load_bound (slice s 14 2)) as Hb;
    rewrite length_slice in Hb by lia; apply Hb.
Qed.

Lemma PeekFixedHeader_spec b fh :
  buffer_wf b -> 16 <= zlen (contents b) ->
  PeekFixedHeader b fh = (kCodecOk, wire_fixed (contents b)).
Proof.
  intros Hb Hl. cbv delta [PeekFixedHeader] beta.
  assert ((ReadableBytes b <? kFixedHeaderSize) = false) as ->
    by (rewrite ReadableBytes_contents by done; unfold kFixedHeaderSize; lia).
  cbn. unfold ntohs, ntohl, wire_fixed. f_equal.
  f_equal; rewrite ?(Peek_ntoh b _ 2), ?(Peek_ntoh b _ 4);
    rewrite ?length_Peek; rewrite ?length_store; try done; try lia.
  all: rewrite Peek_full; rewrite ?length_store; try done; try lia.
  all: apply load_1; rewrite length_slice by lia; done.
Qed.

Lemma wire_fixed_app s r : 16 <= zlen s -> wire_fixed (s ++ r) = wire_fixed s.
Proof. intros. unfold wire_fixed. by rewrite !slice_app_l by lia. Qed.

Lemma wire_fixed_take s n : (16 <= n)%nat -> wire_fixed (take n s) = wire_fixed s.
Proof. intros. unfold wire_fixed. by rewrite !slice_take by lia. Qed.

(** A fixed header whose sizes are consistent with each other. *)
Definition fixed_ok (fh : FixedHeader) : Prop :=
  magic fh = kMagicNumber /\ total_size fh <= kMaxFrameSize /\
  kFixedHeaderSize + header_size fh <= total_size fh.

Lemma XRpc_check_spec b :
  buffer_wf b ->
  XRpc_CheckAndPick b =
    (let s := contents b in let fh := wire_fixed s in
     if zlen s <? 16 then 0
     else if negb (magic fh =? kMagicNumber) then kCodecInvalidMagic
     else if (total_size fh >? kMaxFrameSize) || (total_size fh <? 16) then kCodecOversized
     else if header_size fh >? total_size fh - 16 then kCodecParseError
     else if zlen s <? total_size fh then 0
     else total_size fh).
Proof.
  intros Hb. unfold XRpc_CheckAndPick, kFixedHeaderSize, IsValid.
  rewrite ReadableBytes_contents by done. cbv zeta. case_if as E; [done|].
  rewrite PeekFixedHeader_spec by (done || lia). change (negb (kCodecOk =? kCodecOk)) with false.
  cbv iota. repeat (case_if; [done|]). unfold kMaxFrameSize in *. apply i32_small. lia.
Qed.

Lemma XRpc_check_pos b :
  buffer_wf b -> 0 < XRpc_CheckAndPick b ->
  let s := contents b in let fh := wire_fixed s in
  XRpc_CheckAndPick b = total_size fh /\ fixed_ok fh /\ 16 <= total_size fh <= zlen s.
Proof.
  intros Hb. rewrite XRpc_check_spec by done. cbv zeta. unfold fixed_ok, kFixedHeaderSize.
  unfold kCodecInvalidMagic, kCodecOversized, kCodecParseError.
  repeat (case_if; [lia|]). lia.
Qed.

(** The stream fields of the fixed header. *)
Definition with_stream (fh : FixedHeader) (msg : ProtocolMessage) : ProtocolMessage :=
  {| msg with stream_type := Wire.stream_type fh; stream_id := Wire.stream_id fh |}.

(** What the server decoder makes of a fixed header, a variable header and a body. *)
Definition xrpc_message (fh : FixedHeader) (hb b : bytes) : option ProtocolMessage :=
  let msg := {| ProtocolMessage_default with body := b |} in
  let finish := with_stream fh in
  if type fh =? 0 then (fun req => finish (set_request req msg)) <$> ParseFromString hb
  else if type fh =? 1 then
    (fun resp => finish (set_response resp {| msg with message_type := kResponse |})) <$>
      ParseFromString hb
  else if type fh =? 2 then Some (finish {| msg with message_type := kOneway |})
  else Some (finish msg).

Lemma read_body_spec b fh msg :
  let s := contents b in
  buffer_wf b -> header_wf fh -> kFixedHeaderSize + header_size fh <= total_size fh ->
  total_size fh <= zlen s -> body msg = [] ->
  read_body b fh msg =
    {| msg with body := slice s (16 + header_size fh) (total_size fh - 16 - header_size fh) |}.
Proof.
  intros s Hb Hwf Hok Hle Hnil. unfold read_body. rewrite BodySize_spec by done.
  unfold kFixedHeaderSize in *. destruct Hwf as (_&_&_&_&?&_).
  case_if.
  - rewrite Hnil, str_resize_nil, Peek_zeros by (done || (fold s; lia)). done.
  - replace (total_size fh - 16 - header_size fh) with 0 by lia. rewrite slice_0.
    destruct msg; simpl in *. by subst.
Qed.

Lemma XRpc_decode_spec b msg :
  let s := contents b in let fh := wire_fixed s in
  buffer_wf b -> 16 <= zlen s -> fixed_ok fh -> total_size fh <= zlen s ->
  let hb := slice s 16 (header_size fh) in
  let body := slice s (16 + header_size fh) (total_size fh - 16 - header_size fh) in
  XRpc_ZeroCopyDecode b msg =
    match xrpc_message fh hb body with
    | None => (kCodecParseError, b, {| ProtocolMessage_default with body := body |})
    | Some m => (kCodecOk, Skip b (total_size fh), m)
    end.
Proof.
  intros s fh Hb H16 (Hm & Hmax & Hok) Hle hb body. unfold XRpc_ZeroCopyDecode.
  pose proof (wire_fixed_wf s H16) as Hwf. fold fh in Hwf.
  rewrite PeekFixedHeader_spec by done. fold s. fold fh.
  change (negb (kCodecOk =? kCodecOk)) with false. cbv iota.
  unfold IsValid. rewrite Hm. change (negb (kMagicNumber =? kMagicNumber)) with false. cbv iota.
  rewrite Reset_default, read_body_spec by done. fold s. fold body. cbn -[slice].
  unfold read_header_bytes, kFixedHeaderSize in *. destruct Hwf as (_&_&_&_&?&_).
  rewrite Peek_zeros by (done || (fold s; lia)). fold s. fold hb. unfold xrpc_message.
  cbn. repeat case_if; cbn; try done; by destruct (ParseFromString hb).
Qed.

#[export] Instance XRpc_frames : FrameCodec XRpcServerCodec (fun _ => True).
Proof.
  split; cbn.
  - intros b b' Hb Hb' Heq. by rewrite !XRpc_check_spec, Heq by done.
  - intros b Hb. destruct (Z.lt_ge_cases 0 (XRpc_CheckAndPick b)) as [Hp|]; [|lia].
    destruct (XRpc_check_pos b Hb Hp) as (-> & _ & ?). lia.
  - done.
  - intros s rest. rewrite !XRpc_check_spec, !of_bytes_contents by apply of_bytes_wf.
    cbv zeta. case_if as E; [done|]. rewrite wire_fixed_app, length_app by lia.
    replace (Z.of_nat (length s + length rest) <? 16) with false by lia.
    repeat (case_if; [done|]). by decide_cmp.
  - intros b msg Hb Hp _. destruct (XRpc_check_pos b Hb Hp) as (Hn & Hok & Hle).
    rewrite Hn in *. set (s := contents b) in *. set (fh := wire_fixed s) in *.
    set (n := Z.to_nat (total_size fh)) in *. set (f := take n s) in *.
    pose proof Hok as (_ & _ & Hh). unfold kFixedHeaderSize in Hh.
    pose proof (wire_fixed_wf s ltac:(lia)) as (_&_&_&_&Hhs&_). fold fh in Hhs.
    assert (wire_fixed f = fh) as Hf by (apply wire_fixed_take; lia).
    assert (zlen f = total_size fh) as Hlf by (unfold f; rewrite length_take; lia).
    unfold decode_frame. cbn.
    rewrite (XRpc_decode_spec b), (XRpc_decode_spec (of_bytes f));
      rewrite ?of_bytes_contents, ?Hf; fold s; fold fh; try done; try apply of_bytes_wf;
      try lia.
    unfold f. rewrite !slice_take by lia.
    destruct (xrpc_message _ _ _); eexists; (split; [reflexivity|]).
    + split; [apply Skip_wf; [done|lia]|]. intros _. by rewrite Skip_contents by (done || lia).
    + done.
Qed.

(** ** The encoders *)

Definition frame_header (t : MessageType) (msg : ProtocolMessage) (hs : bytes) : FixedHeader :=
  mk_FixedHeader kMagicNumber (MessageType_u8 t) (u8 (stream_type msg))
    (u32 (kFixedHeaderSize + zlen hs + zlen (body msg))) (u16 (zlen hs)) (stream_id msg) 0.

Definition xrpc_frame (t : MessageType) (msg : ProtocolMessage) (hs : bytes) : bytes :=
  wire_header (frame_header t msg hs) ++ hs ++ body msg.

Lemma write_frame_spec fh hs msg out :
  buffer_wf out -> reserved fh = 0 ->
  buffer_wf (write_frame fh hs msg out) /\
  contents (write_frame fh hs msg out) = contents out ++ wire_header fh ++ hs ++ body msg.
Proof.
  intros Hout Hr. unfold write_frame. rewrite HToN_mem by done.
  match goal with |- buffer_wf (if _ then ?o else _) /\ _ =>
    destruct (Append_nonempty o (body msg)) as [? Hc]; [auto with xrpc|] end.
  split; [done|]. rewrite Hc, !Append_contents by auto with xrpc.
  by rewrite <- !app_assoc.
Qed.

Lemma XRpc_ClientEncode_spec ctx msg out hs :
  buffer_wf out -> SerializeToString (request_header ctx msg) = Some hs ->
  u32 (kFixedHeaderSize + zlen hs + zlen (body msg)) <= kMaxFrameSize ->
  exists out', XRpc_ClientEncode ctx msg out = (kCodecOk, msg, out') /\ buffer_wf out' /\
    contents out' = contents out ++ xrpc_frame (message_type msg) msg hs.
Proof.
  intros Hout Hs Hlen. unfold XRpc_ClientEncode. rewrite Hs. cbn. decide_cmp.
  eexists. split; [reflexivity|]. by apply write_frame_spec.
Qed.

(** What an encoding that succeeded wrote. *)
Lemma XRpc_ClientEncode_ok ctx msg out m out' :
  buffer_wf out -> XRpc_ClientEncode ctx msg out = (kCodecOk, m, out') ->
  exists hs, SerializeToString (request_header ctx msg) = Some hs /\ m = msg /\
    buffer_wf out' /\ contents out' = contents out ++ xrpc_frame (message_type msg) msg hs.
Proof.
  intros Hout. unfold XRpc_ClientEncode.
  destruct (SerializeToString (request_header ctx msg)) as [hs|]; [|done].
  case_if; [done|]. intros Heq. exists hs. split; [done|].
  injection Heq as <- <-. split; [done|]. by apply write_frame_spec.
Qed.

(** The variable header of a response. *)
Definition response_header (msg : ProtocolMessage) : ResponseProtocol :=
  mk_ResponseProtocol (request_id msg) (ret_code msg) (error_msg msg)
    (content_type msg) (content_encoding msg) (copy_trans_info (trans_info msg) ∅).

Lemma XRpc_ServerEncode_spec msg out hs :
  buffer_wf out -> SerializeToString (response_header msg) = Some hs ->
  u32 (kFixedHeaderSize + zlen hs + zlen (body msg)) <= kMaxFrameSize ->
  exists out', XRpc_ZeroCopyEncode msg out = (kCodecOk, msg, out') /\ buffer_wf out' /\
    contents out' = contents out ++ xrpc_frame kResponse msg hs.
Proof.
  intros Hout Hs Hlen. unfold XRpc_ZeroCopyEncode. unfold response_header in Hs.
  rewrite Hs. cbn. decide_cmp.
  eexists. split; [reflexivity|]. by apply write_frame_spec.
Qed.

Lemma wire_fixed_header fh rest :
  header_wf fh -> reserved fh = 0 -> wire_fixed (wire_header fh ++ rest) = fh.
Proof.
  intros (?&?&?&?&?&?&?) Hr. unfold wire_fixed, wire_header. rewrite <- !app_assoc.
  destruct fh as [m t st ts hs si r]. cbn in *. subst r.
  f_equal; slices; try (apply be_load_be_bytes_id; done).
  unfold load. by destruct host_endian.
Qed.

Lemma frame_header_wf t msg hs :
  0 <= stream_id msg < 2 ^ 32 -> header_wf (frame_header t msg hs).
Proof.
  intros. unfold header_wf, frame_header; cbn. pose proof (u8_bound (stream_type msg)).
  pose proof (u32_bound (kFixedHeaderSize + zlen hs + zlen (body msg))).
  pose proof (u16_bound (zlen hs)). unfold kMagicNumber. destruct t; cbn; lia.
Qed.

Lemma rfind_none c b : c ∉ b -> rfind c b = None.
Proof.
  intros Hb. induction b as [|x b IH]; [done|]. apply not_elem_of_cons in Hb as [Hx Hb]. simpl.
  rewrite IH by done. by rewrite bool_decide_false by congruence.
Qed.

Lemma rfind_app c a b : c ∉ b -> rfind c (a ++ c :: b) = Some (length a).
Proof.
  intros Hb%rfind_none. induction a as [|x a IH]; simpl; [|by rewrite IH].
  by rewrite Hb, bool_decide_true.
Qed.

Lemma set_request_body req msg : body (set_request req msg) = body msg.
Proof. unfold set_request. by case_match. Qed.

Lemma set_request_func_name req msg : func_name (set_request req msg) = rq_func_name req.
Proof. unfold set_request. by case_match. Qed.

(** The last slash separates the service from the method. *)
Lemma set_request_split req msg s m :
  rq_func_name req = s ++ lit "/" ++ m -> Byte.x2f ∉ m ->
  service_name (set_request req msg) = s /\ method_name (set_request req msg) = m.
Proof.
  intros Hf Hm. unfold set_request. cbn -[rfind]. rewrite Hf.
  change (lit "/" ++ m) with (Byte.x2f :: m). rewrite rfind_app by done. cbn.
  by rewrite take_app_length, drop_app_add.
Qed.

(** Without a slash they stay as they were. *)
Lemma set_request_no_split req msg :
  Byte.x2f ∉ rq_func_name req ->
  service_name (set_request req msg) = service_name msg /\
  method_name (set_request req msg) = method_name msg.
Proof. intros Hf. unfold set_request. cbn -[rfind]. by rewrite rfind_none. Qed.

(** The fields that are copied from the header, and those that are left. *)
Lemma set_request_copies req msg :
  let m := set_request req msg in
  message_type m = kRequest /\ request_id m = rq_request_id req /\
  timeout m = rq_timeout req /\ caller m = rq_caller req /\ callee m = rq_callee req /\
  content_type m = rq_content_type req /\ content_encoding m = rq_content_encoding req /\
  caller_app m = rq_caller_app req /\
  trans_info m = copy_trans_info (rq_trans_info req) (trans_info msg) /\
  version m = version msg /\ ret_code m = ret_code msg /\ error_msg m = error_msg msg /\
  args_size m = args_size msg.
Proof. unfold set_request. by case_match. Qed.

End XRpcSpec.

(** ** Properties *)

Section XRpcProperties.

Context `{Host} `{Proto RequestProtocol} `{!ProtoLaws RequestProtocol}
  `{Proto ResponseProtocol} `{!ProtoLaws ResponseProtocol}.

(** A message that fits a frame: the fields of the fixed header are wide enough. *)
Definition fits (msg : ProtocolMessage) (hs : bytes) : Prop :=
  zlen hs < 2 ^ 16 /\ kFixedHeaderSize + zlen hs + zlen (body msg) <= kMaxFrameSize /\
  0 <= stream_id msg < 2 ^ 32 /\ 0 <= stream_type msg < 2 ^ 8.

(** The fixed header, the variable header and the body of an encoded frame, read
    back from the stream it starts. *)
Lemma xrpc_frame_fields t msg hs rest :
  fits msg hs ->
  let s := xrpc_frame t msg hs ++ rest in let fh := wire_fixed s in
  fh = frame_header t msg hs /\ fixed_ok fh /\
  total_size fh = zlen (xrpc_frame t msg hs) /\
  slice s 16 (header_size fh) = hs /\
  slice s (16 + header_size fh) (total_size fh - 16 - header_size fh) = body msg /\
  drop (Z.to_nat (total_size fh)) s = rest.
Proof.
  intros (Hhs & Hlen & Hid & Hst) s fh. unfold kFixedHeaderSize, kMaxFrameSize in *.
  assert (fh = frame_header t msg hs) as Hfh.
  { unfold fh, s, xrpc_frame. rewrite <- app_assoc. apply wire_fixed_header; [|done].
    by apply frame_header_wf. }
  assert (header_size fh = zlen hs) as Hh by (rewrite Hfh; apply u16_small; lia).
  assert (total_size fh = 16 + zlen hs + zlen (body msg)) as Ht
    by (rewrite Hfh; apply u32_small; lia).
  assert (zlen (xrpc_frame t msg hs) = total_size fh) as Hl
    by (rewrite Ht; unfold xrpc_frame; xlen).
  split; [done|]. split; [|split; [done|]].
  { unfold fixed_ok, kFixedHeaderSize, kMaxFrameSize. split; [by rewrite Hfh|lia]. }
  rewrite Hh, Ht. unfold s, xrpc_frame. rewrite <- !app_assoc.
  split; [slices; done|]. split; [slices; done|].
  rewrite !app_assoc. apply drop_app_length'. xlen.
Qed.

Lemma wire_fixed_header_frame t msg hs rest :
  0 <= stream_id msg < 2 ^ 32 -> wire_fixed (xrpc_frame t msg hs ++ rest) = frame_header t msg hs.
Proof.
  intros. unfold xrpc_frame. rewrite <- app_assoc. apply wire_fixed_header; [|done].
  by apply frame_header_wf.
Qed.

Lemma XRpc_check_frame t msg hs rest inb :
  fits msg hs -> buffer_wf inb -> contents inb = xrpc_frame t msg hs ++ rest ->
  XRpc_CheckAndPick inb = zlen (xrpc_frame t msg hs).
Proof.
  intros Hf Hwf Hin. destruct (xrpc_frame_fields t msg hs rest Hf)
    as (Hfh & (Hm & Hmax & Hok) & Ht & _). rewrite <- Hin in *.
  rewrite XRpc_check_spec by done. cbv zeta. rewrite Hm, <- Ht.
  change (negb (kMagicNumber =? kMagicNumber)) with false.
  assert (0 <= header_size (wire_fixed (contents inb)))
    by (rewrite Hfh; apply u16_bound).
  assert (zlen (contents inb) = zlen (xrpc_frame t msg hs) + zlen rest)
    by (rewrite Hin, length_app; lia).
  unfold kFixedHeaderSize, kMaxFrameSize in *. decide_cmp. done.
Qed.

(** The server's decoder on a frame followed by anything. *)
Lemma XRpc_decode_frame t msg hs rest inb m0 m :
  fits msg hs -> buffer_wf inb -> contents inb = xrpc_frame t msg hs ++ rest ->
  xrpc_message (frame_header t msg hs) hs (body msg) = Some m ->
  exists inb', XRpc_ZeroCopyDecode inb m0 = (kCodecOk, inb', m) /\
    buffer_wf inb' /\ contents inb' = rest.
Proof.
  intros Hf Hwf Hin Hm. pose proof Hf as (Hhs & Hlen & _ & Hst).
  destruct (xrpc_frame_fields t msg hs rest Hf) as (Hfh & Hok & Htot & Hhb & Hbody & Hrest).
  rewrite <- Hin in Hfh, Hok, Htot, Hhb, Hbody, Hrest.
  assert (zlen (contents inb) = zlen (xrpc_frame t msg hs) + zlen rest) as Hl
    by (rewrite Hin, length_app; lia).
  assert (16 <= zlen (xrpc_frame t msg hs)) by (unfold xrpc_frame; xlen).
  rewrite XRpc_decode_spec by (done || lia). cbv zeta. rewrite Hhb, Hbody, Hfh, Hm, <- Hfh.
  eexists. split; [reflexivity|]. split; [apply Skip_wf; [done|lia]|].
  by rewrite Skip_contents by (done || lia).
Qed.

(** C4. What the XRPC client encodes for a request that fits a frame (its variable
    header is valid protobuf, serialises to [hs] and is shorter than 64 KB, the stream
    fields are in the ranges of their types, and the frame has at most 16 MB), the XRPC server takes apart: with any bytes following
    it, [CheckAndPick] names exactly the encoded frame, and [ZeroCopyDecode] returns
    [kCodecOk] and leaves exactly the following bytes. Of the message that was
    encoded, the request id, the callee, the content type and encoding, the
    transparent data, the stream type and id and the body come back; the timeout,
    the caller and its application come back too, or else what the context has for
    them where the message leaves one empty (for the timeout: not positive). The
    function name is the message's, or else its service and method names joined by
    a slash; the service and method names that come back are the parts of the
    function name before and after its last slash, and empty without a slash. The
    return code, the error message and [args_size] have their defaults. *)
Theorem xrpc_request_roundtrip ctx msg m0 hs rest inb :
  message_type msg = kRequest ->
  RequestProtocol_valid (request_header ctx msg) ->
  SerializeToString (request_header ctx msg) = Some hs -> fits msg hs ->
  buffer_wf inb ->
  contents inb = contents (XRpc_ClientEncode ctx msg empty_buffer).2 ++ rest ->
  (XRpc_ClientEncode ctx msg empty_buffer).1.1 = kCodecOk /\
  XRpc_CheckAndPick inb = zlen (contents (XRpc_ClientEncode ctx msg empty_buffer).2) /\
  exists inb' m, XRpc_ZeroCopyDecode inb m0 = (kCodecOk, inb', m) /\
    buffer_wf inb' /\ contents inb' = rest /\
    version m = kXRpc /\ message_type m = kRequest /\
    request_id m = request_id msg /\ callee m = callee msg /\
    content_type m = content_type msg /\ content_encoding m = content_encoding msg /\
    trans_info m = trans_info msg /\
    stream_type m = stream_type msg /\ stream_id m = stream_id msg /\ body m = body msg /\
    timeout m = (if 0 <? timeout msg then timeout msg else ctx_timeout_ms ctx) /\
    caller m = (if decide (caller msg = []) then ctx_caller ctx else caller msg) /\
    caller_app m = (if decide (caller_app msg = []) then ctx_caller_app ctx else caller_app msg) /\
    func_name m = (if decide (func_name msg = [])
                   then service_name msg ++ lit "/" ++ method_name msg else func_name msg) /\
    (forall service method, func_name m = service ++ lit "/" ++ method -> Byte.x2f ∉ method ->
       service_name m = service /\ method_name m = method) /\
    (Byte.x2f ∉ func_name m -> service_name m = [] /\ method_name m = []) /\
    ret_code m = 0 /\ error_msg m = [] /\ args_size m = 0.
Proof.
  intros Ht Hv Hs Hf Hwf. pose proof Hf as (Hhs & Hlen & _ & Hst).
  destruct (XRpc_ClientEncode_spec ctx msg empty_buffer hs) as (out & Henc & _ & Hout);
    [apply empty_wf|done|unfold kFixedHeaderSize, kMaxFrameSize in *;
     rewrite u32_small; lia|].
  rewrite Henc. cbn [fst snd]. change (contents out = xrpc_frame (message_type msg) msg hs) in Hout.
  rewrite Hout, Ht. intros Hin.
  split; [done|]. split; [by apply (XRpc_check_frame _ _ _ rest)|].
  set (base := {| ProtocolMessage_default with body := body msg |}).
  set (req := request_header ctx msg) in *.
  destruct (XRpc_decode_frame kRequest msg hs rest inb m0 (with_stream
      (frame_header kRequest msg hs) (set_request req base))) as (inb' & -> & ? & ?); try done.
  { unfold xrpc_message. change (type (frame_header kRequest msg hs) =? 0) with true.
    cbv iota. by rewrite (parse_serialize _ _ Hv Hs). }
  do 2 eexists. split; [reflexivity|]. split; [done|]. split; [done|].
  destruct (set_request_copies req base)
    as (E1 & E2 & E3 & E4 & E5 & E6 & E7 & E8 & E9 & E10 & E11 & E12 & E13).
  cbn -[set_request]. rewrite set_request_body, set_request_func_name, u8_small by done.
  rewrite E1, E2, E3, E4, E5, E6, E7, E8, E9, E10, E11, E12, E13. unfold req.
  cbn -[set_request]. unfold copy_trans_info.
  rewrite Z.gtb_ltb, !decide_bool_decide, !(right_id_L ∅ (∪)).
  repeat (split; [done|]).
  split; [|split; [|done]].
  - intros s x Hfn Hx. apply set_request_split; [|done]. exact Hfn.
  - intros Hx. apply set_request_no_split. done.
Qed.

(** The client's decoder on a frame followed by anything. *)
Lemma XRpc_client_decode_frame t msg hs rest inb m0 resp :
  fits msg hs -> buffer_wf inb -> contents inb = xrpc_frame t msg hs ++ rest ->
  ParseFromString hs = Some resp ->
  exists inb', XRpc_ClientDecode inb m0 =
      (kCodecOk, inb', with_stream (frame_header t msg hs) (set_response resp
         {| ProtocolMessage_default with body := body msg; message_type := kResponse |})) /\
    buffer_wf inb' /\ contents inb' = rest.
Proof.
  intros Hf Hwf Hin Hp. pose proof Hf as (Hhs & Hlen & _ & Hst).
  destruct (xrpc_frame_fields t msg hs rest Hf)
    as (Hfh & (Hm & Hmax & Hok) & Htot & Hhb & Hbody & Hrest).
  rewrite <- Hin in Hfh, Hm, Hmax, Hok, Htot, Hhb, Hbody, Hrest.
  assert (zlen (contents inb) = zlen (xrpc_frame t msg hs) + zlen rest) as Hl
    by (rewrite Hin, length_app; lia).
  assert (16 <= zlen (xrpc_frame t msg hs)) as H16 by (unfold xrpc_frame; xlen).
  pose proof (wire_fixed_wf (contents inb) ltac:(lia)) as Hfwf.
  unfold XRpc_ClientDecode. rewrite PeekFixedHeader_spec by (done || lia).
  unfold IsValid. rewrite Hm, !ReadableBytes_contents, Reset_default by done.
  change (negb (kMagicNumber =? kMagicNumber)) with false.
  change (negb (kCodecOk =? kCodecOk)) with false. cbv iota.
  unfold kFixedHeaderSize in *. decide_cmp.
  rewrite read_body_spec by (done || (unfold kFixedHeaderSize; lia)).
  unfold read_header_bytes, kFixedHeaderSize. pose proof Hfwf as (_&_&_&_&?&_).
  rewrite Peek_zeros by (done || lia). rewrite Hhb, Hbody, Hp.
  exists (Skip inb (total_size (wire_fixed (contents inb)))).
  split; [by rewrite Hfh|]. split; [apply Skip_wf; [done|lia]|].
  by rewrite Skip_contents by (done || lia).
Qed.

(** What the XRPC server encodes as a response that fits a frame, the XRPC
    client takes apart, with any bytes following it: [kCodecOk], message type
    [kResponse], and the request id, the return code, the error message, the
    content fields, the transparent data, the stream fields and the body that the
    server's message had, leaving exactly the following bytes. *)
Theorem xrpc_response_roundtrip msg m0 hs rest inb :
  ResponseProtocol_valid (response_header msg) ->
  SerializeToString (response_header msg) = Some hs -> fits msg hs ->
  buffer_wf inb ->
  contents inb = contents (XRpc_ZeroCopyEncode msg empty_buffer).2 ++ rest ->
  (XRpc_ZeroCopyEncode msg empty_buffer).1.1 = kCodecOk /\
  exists inb' m, XRpc_ClientDecode inb m0 = (kCodecOk, inb', m) /\
    version m = kXRpc /\ message_type m = kResponse /\
    request_id m = request_id msg /\ ret_code m = ret_code msg /\
    error_msg m = error_msg msg /\ content_type m = content_type msg /\
    content_encoding m = content_encoding msg /\ trans_info m = trans_info msg /\
    stream_type m = stream_type msg /\ stream_id m = stream_id msg /\
    body m = body msg /\ buffer_wf inb' /\ contents inb' = rest.
Proof.
  intros Hv Hs Hf Hwf. pose proof Hf as (Hhs & Hlen & _ & Hst).
  destruct (XRpc_ServerEncode_spec msg empty_buffer hs) as (out & Henc & _ & Hout);
    [apply empty_wf|done|unfold kFixedHeaderSize, kMaxFrameSize in *;
     rewrite u32_small; lia|].
  rewrite Henc. cbn [fst snd]. change (contents out = xrpc_frame kResponse msg hs) in Hout.
  rewrite Hout. intros Hin. split; [done|].
  destruct (XRpc_client_decode_frame kResponse msg hs rest inb m0 (response_header msg))
    as (inb' & -> & ?); try done.
  { apply (parse_serialize _ _ Hv Hs). }
  do 2 eexists. split; [reflexivity|]. cbn. rewrite u8_small by done.
  unfold copy_trans_info. rewrite !(right_id_L ∅ (∪)). repeat (split; [done|]). done.
Qed.

(** C37. The encoders store the variable header's length in a 16-bit field. A header
    of 64 KB or more is not refused: as long as the frame is within 16 MB, the
    server encodes the response and returns [kCodecOk], but the header length
    that the client reads off that frame is not the length of the header, so the
    body boundaries it uses are wrong. *)
Theorem xrpc_header_size_truncated msg hs :
  SerializeToString (response_header msg) = Some hs ->
  2 ^ 16 <= zlen hs -> kFixedHeaderSize + zlen hs + zlen (body msg) <= kMaxFrameSize ->
  0 <= stream_id msg < 2 ^ 32 ->
  exists out, XRpc_ZeroCopyEncode msg empty_buffer = (kCodecOk, msg, out) /\
    exists fh, PeekFixedHeader out FixedHeader_default = (kCodecOk, fh) /\
      total_size fh = zlen (contents out) /\
      header_size fh = zlen hs mod 2 ^ 16 /\ header_size fh < zlen hs /\
      zlen (body msg) < BodySize fh.
Proof.
  intros Hs Hbig Hlen Hid. unfold kFixedHeaderSize, kMaxFrameSize in *.
  destruct (XRpc_ServerEncode_spec msg empty_buffer hs) as (out & -> & Hwf & Hout);
    [apply empty_wf|done|unfold kFixedHeaderSize, kMaxFrameSize; rewrite u32_small; lia|].
  change (contents out = xrpc_frame kResponse msg hs) in Hout.
  assert (zlen (contents out) = 16 + zlen hs + zlen (body msg)) as Hl
    by (rewrite Hout; unfold xrpc_frame; xlen).
  exists out. split; [done|]. eexists. rewrite PeekFixedHeader_spec by (done || lia).
  split; [reflexivity|]. rewrite Hl, Hout. unfold xrpc_frame.
  pose proof (frame_header_wf kResponse msg hs Hid) as Hfwf.
  rewrite wire_fixed_header by done.
  pose proof (u16_bound (zlen hs)).
  assert (total_size (frame_header kResponse msg hs) = 16 + zlen hs + zlen (body msg)) as Ht
    by (apply u32_small; lia).
  assert (header_size (frame_header kResponse msg hs) = u16 (zlen hs)) as Hh by done.
  rewrite BodySize_spec by (done || (unfold kFixedHeaderSize; lia)).
  rewrite Ht, Hh. unfold kFixedHeaderSize.
  split; [lia|]. split; [done|]. lia.
Qed.

(** A one-way request is encoded with its variable header, but the server's
    decoder does not read that header for message type [kOneway]: the decoded
    message has the body and the stream fields, and no service or method name, so
    no service can be found for it. *)
Theorem xrpc_oneway_loses_target ctx msg m0 hs rest inb :
  message_type msg = kOneway ->
  SerializeToString (request_header ctx msg) = Some hs -> fits msg hs ->
  buffer_wf inb ->
  contents inb = contents (XRpc_ClientEncode ctx msg empty_buffer).2 ++ rest ->
  exists inb' m, XRpc_ZeroCopyDecode inb m0 = (kCodecOk, inb', m) /\
    message_type m = kOneway /\ body m = body msg /\ stream_id m = stream_id msg /\
    service_name m = [] /\ method_name m = [] /\ func_name m = [] /\ contents inb' = rest.
Proof.
  intros Ht Hs Hf Hwf. pose proof Hf as (Hhs & Hlen & _ & Hst).
  destruct (XRpc_ClientEncode_spec ctx msg empty_buffer hs) as (out & Henc & _ & Hout);
    [apply empty_wf|done|unfold kFixedHeaderSize, kMaxFrameSize in *;
     rewrite u32_small; lia|].
  rewrite Henc. cbn [fst snd]. change (contents out = xrpc_frame (message_type msg) msg hs) in Hout.
  rewrite Hout, Ht. intros Hin.
  destruct (XRpc_decode_frame kOneway msg hs rest inb m0 (with_stream
      (frame_header kOneway msg hs)
      {| ProtocolMessage_default with body := body msg; message_type := kOneway |}))
    as (inb' & -> & ? & ?); try done.
  do 2 eexists. split; [reflexivity|]. by repeat (split; [done|]).
Qed.

End XRpcProperties.

(** C18. On any buffer the XRPC [CheckAndPick] gives one of five verdicts: 0 when
    fewer bytes than a fixed header, or than the announced frame, are there;
    [kCodecInvalidMagic] exactly for another magic number; [kCodecOversized] for
    a total size above 16 MB or below 16; [kCodecParseError] for a header longer
    than the frame; otherwise the frame's size, within these bounds and never
    more than the bytes received. *)
Theorem xrpc_verdict `{Host} b :
  buffer_wf b ->
  let s := contents b in let fh := wire_fixed s in let r := XRpc_CheckAndPick b in
  let sized := kFixedHeaderSize <= total_size fh <= kMaxFrameSize in
  (zlen s < 16 -> r = 0) /\
  (16 <= zlen s ->
   (r = kCodecInvalidMagic <-> magic fh <> kMagicNumber) /\
   (r = kCodecOversized <-> magic fh = kMagicNumber /\ ~ sized) /\
   (r = kCodecParseError <->
      magic fh = kMagicNumber /\ sized /\ total_size fh < 16 + header_size fh) /\
   (r = 0 <-> magic fh = kMagicNumber /\ sized /\ 16 + header_size fh <= total_size fh /\
              zlen s < total_size fh)) /\
  (0 < r -> r = total_size fh /\ magic fh = kMagicNumber /\ sized /\
            16 + header_size fh <= r <= zlen s).
Proof.
  intros Hb s fh r sized. unfold r. rewrite XRpc_check_spec by done. fold s.
  cbv zeta. fold fh. clearbody fh. unfold sized, kCodecInvalidMagic, kCodecOversized, kCodecParseError,
    kMaxFrameSize, kFixedHeaderSize. repeat (case_if; [lia|]). lia.
Qed.

(** ** Witnesses *)

Section XRpcWitnesses.

Import Demo.
#[local] Existing Instances RequestProtocol_demo ResponseProtocol_demo.
#[local] Instance little : Host := Little.

Definition demo_request : ProtocolMessage :=
  {| ProtocolMessage_default with
     request_id := 7; service_name := lit "UserServiceRpc"; method_name := lit "Login";
     stream_id := 3; body := lit "zhangsan";
     trans_info := {[ lit "trace" := lit "on" ]} |}.

Definition demo_request_header : bytes :=
  default [] (SerializeToString (request_header ClientContext_default demo_request)).
Definition demo_response_header : bytes :=
  default [] (SerializeToString (response_header demo_request)).

Lemma demo_fits : fits demo_request demo_request_header /\ fits demo_request demo_response_header.
Proof. split; vm_compute; intuition discriminate. Qed.

Lemma demo_valid :
  RequestProtocol_valid (request_header ClientContext_default demo_request) /\
  ResponseProtocol_valid (response_header demo_request).
Proof.
  assert (utf8_map (copy_trans_info (trans_info demo_request) ∅)) as Hm.
  { unfold copy_trans_info. rewrite (right_id_L ∅ (∪)). by apply map_Forall_singleton. }
  repeat split; solve [by edestruct Hm; [eassumption|] | vm_compute; (reflexivity || discriminate)].
Qed.

Lemma xrpc_request_roundtrip_witness :
  exists inb' m, XRpc_ZeroCopyDecode
    (of_bytes (ToString (XRpc_ClientEncode ClientContext_default demo_request empty_buffer).2
               ++ lit "next")) ProtocolMessage_default = (kCodecOk, inb', m) /\
    request_id m = 7 /\ timeout m = 1000 /\
    service_name m = lit "UserServiceRpc" /\ method_name m = lit "Login" /\
    contents inb' = lit "next".
Proof.
  destruct (xrpc_request_roundtrip ClientContext_default demo_request ProtocolMessage_default
    demo_request_header (lit "next") (of_bytes (ToString (XRpc_ClientEncode
      ClientContext_default demo_request empty_buffer).2 ++ lit "next")))
    as (_ & _ & inb' & m & H & _ & Hc & _ & _ & Hid & _ & _ & _ & _ & _ & _ & _ & Htm & _ & _ &
        Hfn & Hn & _);
    [reflexivity| |reflexivity|apply demo_fits|apply of_bytes_wf| |].
  - apply demo_valid.
  - rewrite of_bytes_contents. reflexivity.
  - destruct (Hn (lit "UserServiceRpc") (lit "Login")) as [Hsn Hmn];
      [rewrite Hfn; reflexivity|by apply (bool_decide_unpack _)|].
    exists inb', m. rewrite Hid, Htm. auto 10.
Defined.

Lemma xrpc_response_roundtrip_witness :
  exists inb' m, XRpc_ClientDecode
    (of_bytes (ToString (XRpc_ZeroCopyEncode demo_request empty_buffer).2 ++ lit "x"))
    ProtocolMessage_default = (kCodecOk, inb', m) /\
    body m = lit "zhangsan" /\ contents inb' = lit "x".
Proof.
  destruct (xrpc_response_roundtrip demo_request ProtocolMessage_default
    demo_response_header (lit "x") (of_bytes (ToString (XRpc_ZeroCopyEncode demo_request
      empty_buffer).2 ++ lit "x")))
    as (_ & inb' & m & H & _ & _ & _ & _ & _ & _ & _ & _ & _ & _ & Hbd & _ & Hc);
    [apply demo_valid|reflexivity|apply demo_fits|apply of_bytes_wf| |
     exists inb', m; auto].
  - rewrite of_bytes_contents. reflexivity.
Defined.

Lemma xrpc_oneway_loses_target_witness :
  let msg := {| demo_request with message_type := kOneway |} in
  exists inb' m, XRpc_ZeroCopyDecode
    (of_bytes (ToString (XRpc_ClientEncode ClientContext_default msg empty_buffer).2))
    ProtocolMessage_default = (kCodecOk, inb', m) /\
    service_name m = [] /\ body m = lit "zhangsan".
Proof.
  intros msg.
  destruct (xrpc_oneway_loses_target ClientContext_default msg ProtocolMessage_default
    (default [] (SerializeToString (request_header ClientContext_default msg))) []
    (of_bytes (ToString (XRpc_ClientEncode ClientContext_default msg empty_buffer).2)))
    as (inb' & m & H & _ & Hbd & _ & Hs & _);
    [reflexivity|reflexivity| |apply of_bytes_wf| |exists inb', m; auto].
  - vm_compute. intuition discriminate.
  - rewrite of_bytes_contents, app_nil_r. reflexivity.
Defined.

(** A response whose error message makes its header longer than 64 KB. *)
Definition demo_text : bytes := replicate (Z.to_nat (2 ^ 16)) Byte.x65.
Definition demo_error (text : bytes) : ProtocolMessage :=
  {| ProtocolMessage_default with error_msg := text; body := lit "partial result" |}.

Lemma demo_error_header text :
  zlen text < 2 ^ 30 ->
  exists hs, SerializeToString (response_header (demo_error text)) = Some hs /\
    zlen hs = 48 + zlen text.
Proof.
  intros Ht. cbn. unfold copy_trans_info. rewrite (left_id_L ∅ (∪)).
  unfold put_map. rewrite map_to_list_empty. cbn [put_pairs length].
  match goal with |- exists hs, bounded ?b = Some hs /\ _ =>
    assert (zlen b = 48 + zlen text) as Hl by
      (rewrite !length_app, !Nat2Z.inj_add, !length_put_int, length_put_str; cbn; lia);
    exists b; unfold bounded; rewrite Hl end.
  decide_cmp. done.
Qed.

Lemma xrpc_header_size_truncated_witness :
  exists out fh, XRpc_ZeroCopyEncode (demo_error demo_text) empty_buffer =
      (kCodecOk, demo_error demo_text, out) /\
    PeekFixedHeader out FixedHeader_default = (kCodecOk, fh) /\ 14 < BodySize fh.
Proof.
  assert (zlen demo_text = 2 ^ 16) as Ht
    by (unfold demo_text; rewrite length_replicate, Z2Nat.id by lia; reflexivity).
  generalize dependent demo_text. intros text Ht.
  destruct (demo_error_header text) as (hs & Hs & Hl); [lia|].
  destruct (xrpc_header_size_truncated (demo_error text) hs Hs)
    as (out & H & fh & Hp & _ & _ & _ & Hb);
    [lia|cbn; unfold kFixedHeaderSize, kMaxFrameSize; lia|cbn; lia|].
  exists out, fh. auto.
Defined.

Lemma xrpc_verdict_witness :
  XRpc_CheckAndPick (of_bytes (lit "GET / HTTP/1.1  ")) = kCodecInvalidMagic.
Proof.
  apply (xrpc_verdict (of_bytes (lit "GET / HTTP/1.1  ")) (of_bytes_wf _));
    rewrite of_bytes_contents; vm_compute; discriminate.
Defined.

End XRpcWitnesses.
