(* ===== verification/CodecFactory.v ===== *)
(** * CodecFactory: choosing the codec

    [src/src/codec/codec_factory.cc]. The overloads of [CreateServerCodec] have
    a suffix each; the result is the dynamic type behind the returned pointer. *)

From S2P Require Import Prelude Buffer Wire Proto Message Codec LegacyCodec XRpcCodec.

Section CodecFactory.

Context `{Host} `{Proto RpcHeader} `{Proto RequestProtocol} `{Proto ResponseProtocol}.

(** [CreateServerCodec(const NoncontiguousBuffer&)]: by the first two bytes. *)
Definition CreateServerCodec_in (inb : NoncontiguousBuffer) : ServerCodec :=
  if ReadableBytes inb >=? 2 then
    let magic_be := (Peek inb (store 2 0) 2 0).1 in
    let magic := ntohs (load magic_be) in
    if magic =? kMagicNumber then CreateXRpcServerCodec else LegacyServerCodec
  else LegacyServerCodec.

(** [CreateServerCodec(bool)]. *)
Definition CreateServerCodec (useXrpc : bool) : ServerCodec :=
  if useXrpc then CreateXRpcServerCodec else LegacyServerCodec.

Definition CreateClientCodec (useXrpc : bool) : ClientCodec :=
  if useXrpc then CreateXRpcClientCodec else LegacyClientCodec.

(** ** Lemmas *)

Lemma detect_spec b :
  buffer_wf b ->
  CreateServerCodec_in b =
    (if (2 <=? zlen (contents b)) && (be_load (slice (contents b) 0 2) =? kMagicNumber)
     then XRpcServerCodec else LegacyServerCodec).
Proof.
  intros Hb. unfold CreateServerCodec_in. rewrite ReadableBytes_contents, Z.geb_leb by done.
  destruct (2 <=? zlen (contents b)) eqn:E; [|done]. unfold ntohs.
  rewrite (Peek_ntoh b _ 2) by (rewrite ?length_store; done || lia). done.
Qed.

(** The first two bytes of what a Legacy client encodes are the high half of a
    length of at most 16 MB, so never the magic number. *)
Lemma legacy_not_magic (n : Z) s :
  0 <= n <= kMaxFrameSize -> be_load (slice (be_bytes 4 n ++ s) 0 2) <> kMagicNumber.
Proof.
  unfold kMaxFrameSize, kMagicNumber. intros Hn.
  rewrite slice_app_l by xlen.
  assert (be_bytes 4 n = [Z_to_byte (n / 256 / 256 / 256); Z_to_byte (n / 256 / 256);
                          Z_to_byte (n / 256); Z_to_byte n]) as -> by done.
  change (be_load [Z_to_byte (n / 256 / 256 / 256); Z_to_byte (n / 256 / 256)] <> 0x4B52).
  unfold be_load. cbn. rewrite !Z_to_byte_to_Z, !Z.div_div by lia.
  Z.to_euclidean_division_equations. lia.
Qed.

(** A frame starts with the magic number. *)
Lemma xrpc_magic t msg hs rest :
  be_load (slice (xrpc_frame t msg hs ++ rest) 0 2) = kMagicNumber.
Proof.
  unfold xrpc_frame, wire_header. rewrite <- !app_assoc. rewrite slice_head by xlen. done.
Qed.

End CodecFactory.

(** ** Properties *)

Section CodecFactoryProperties.

Context `{Host} `{Proto RpcHeader} `{Proto RequestProtocol} `{Proto ResponseProtocol}.

(** C27. Detection picks the right codec for either kind of client. Let a client's
    codec have encoded a request (any, into [out], of at most 16 MB) at the start of
    a stream, with anything behind it, and let the buffer hold what has arrived of
    the stream. As soon as that is two bytes, of the encoded request or beyond it,
    the factory creates the XRPC server codec for an XRPC client and the Legacy
    server codec for a Legacy client. *)
Theorem codec_detection (useXrpc : bool) ctx msg msg' out later b to_come :
  ClientEncode (CreateClientCodec useXrpc) ctx msg empty_buffer = (kCodecOk, msg', out) ->
  zlen (contents out) <= kMaxFrameSize ->
  buffer_wf b -> 2 <= zlen (contents b) ->
  contents b ++ to_come = contents out ++ later ->
  CreateServerCodec_in b = CreateServerCodec useXrpc.
Proof.
  intros Henc Hlen Hb Htwo Hc. rewrite detect_spec, (proj2 (Z.leb_le _ _)) by done.
  assert (slice (contents b) 0 2 = slice (contents out ++ later) 0 2) as ->
    by (by rewrite <- Hc, slice_app_l by lia).
  destruct useXrpc; cbn in Henc.
  - apply XRpc_ClientEncode_ok in Henc as (hs & _ & _ & _ & ->); [|apply empty_wf].
    change (contents empty_buffer) with (@nil byte). cbn [app]. by rewrite xrpc_magic.
  - destruct (SerializeToString (legacy_header ctx msg)) as [hs|] eqn:Hs.
    2:{ unfold Legacy_ClientEncode in Henc. unfold legacy_header in Hs. cbn in Henc, Hs.
        by rewrite Hs in Henc. }
    destruct (Legacy_ClientEncode_raw ctx msg empty_buffer hs) as (out' & Henc' & _ & Hout);
      [apply empty_wf|done|]. rewrite Henc in Henc'. simplify_eq.
    change (contents empty_buffer) with (@nil byte) in Hout. rewrite Hout in *.
    rewrite !length_app, !length_be_bytes in Hlen. unfold kMaxFrameSize in Hlen.
    cbn [app]. rewrite <- app_assoc, (u32_small (zlen hs)), u32_small by lia.
    rewrite (proj2 (Z.eqb_neq _ _)); [done|].
    apply legacy_not_magic. unfold kMaxFrameSize. lia.
Qed.

End CodecFactoryProperties.

(** The choice is made on whatever has arrived: when the first segment of an
    XRPC client's stream is a single byte, the factory falls back to the Legacy
    codec. *)
Theorem codec_detection_short `{Host} `{Proto RpcHeader} `{Proto RequestProtocol}
    `{Proto ResponseProtocol} b :
  buffer_wf b -> zlen (contents b) < 2 -> CreateServerCodec_in b = LegacyServerCodec.
Proof. intros Hb Hl. rewrite detect_spec by done. by rewrite (proj2 (Z.leb_gt _ _)). Qed.

(** ** Witnesses *)

Section CodecFactoryWitnesses.

Import Demo.
#[local] Existing Instances RpcHeader_demo RequestProtocol_demo ResponseProtocol_demo.
#[local] Instance little : Host := Little.

(** Two bytes of a request, and a request and more, from either kind of client. *)
Definition demo_encoded (useXrpc : bool) : Z * ProtocolMessage * NoncontiguousBuffer :=
  ClientEncode (CreateClientCodec useXrpc) ClientContext_default demo_request empty_buffer.

Lemma codec_detection_witness :
  CreateServerCodec_in (of_bytes (take 2 (contents (demo_encoded true).2))) =
    XRpcServerCodec /\
  CreateServerCodec_in (of_bytes (contents (demo_encoded true).2 ++ lit "tail")) =
    XRpcServerCodec /\
  CreateServerCodec_in (of_bytes (take 2 (contents (demo_encoded false).2))) =
    LegacyServerCodec /\
  CreateServerCodec_in (of_bytes (contents (demo_encoded false).2 ++ lit "tail")) =
    LegacyServerCodec.
Proof.
  assert (forall u s r later,
    (demo_encoded u).1.1 = kCodecOk /\ zlen (contents (demo_encoded u).2) <= kMaxFrameSize ->
    2 <= zlen s -> s ++ r = contents (demo_encoded u).2 ++ later ->
    CreateServerCodec_in (of_bytes s) = CreateServerCodec u) as Hdet.
  { intros u s r later [Hok Hlen] Htwo Hs.
    apply (codec_detection u ClientContext_default demo_request (demo_encoded u).1.2
      (demo_encoded u).2 later (of_bytes s) r).
    - change (demo_encoded u = (kCodecOk, (demo_encoded u).1.2, (demo_encoded u).2)).
      rewrite <- Hok. by destruct (demo_encoded u) as [[? ?] ?].
    - exact Hlen.
    - apply of_bytes_wf.
    - by rewrite of_bytes_contents.
    - by rewrite of_bytes_contents. }
  split; [|split; [|split]].
  - apply (Hdet true _ (drop 2 (contents (demo_encoded true).2)) []);
      [by vm_compute|by vm_compute|by rewrite take_drop, app_nil_r].
  - apply (Hdet true _ [] (lit "tail")); [by vm_compute|by vm_compute|by rewrite app_nil_r].
  - apply (Hdet false _ (drop 2 (contents (demo_encoded false).2)) []);
      [by vm_compute|by vm_compute|by rewrite take_drop, app_nil_r].
  - apply (Hdet false _ [] (lit "tail")); [by vm_compute|by vm_compute|by rewrite app_nil_r].
Defined.

Lemma codec_detection_short_witness :
  CreateServerCodec_in (of_bytes [Byte.x4b]) = LegacyServerCodec.
Proof.
  apply codec_detection_short; [apply of_bytes_wf|rewrite of_bytes_contents; reflexivity].
Defined.

End CodecFactoryWitnesses.
