(* ===== verification/Config.v ===== *)
(** * Config: the key-value configuration

    [src/src/common/config.cc], [config.h]. A file is the bytes [fopen] finds;
    [exit] and the exceptions of [substr] are outcomes. *)

From S2P Require Import Prelude CppString.

Abbreviation Config := (gmap bytes bytes).

Definition space : byte := Byte.x20.

Definition Trim (read_buf : bytes) : outcome bytes :=
  let index := i32 (find_first_not_of read_buf space) in
  read_buf ← (if negb (index =? -1)
              then substr read_buf index (zlen read_buf - index) else mret read_buf);
  let index := i32 (find_last_not_of read_buf space) in
  if negb (index =? -1) then substr read_buf 0 (index + 1) else mret read_buf.

(** The body of the loop of [LoadConfigFile] on one [fgets] of the file. *)
Definition load_line (config_map : Config) (buf : bytes) : outcome Config :=
  read_buf ← Trim (c_str buf);
  if bool_decide (head read_buf = Some Byte.x23) || bool_decide (read_buf = [])
  then mret config_map
  else
    let index := i32 (find read_buf Byte.x3d 0) in
    if index =? -1 then mret config_map
    else
      key ← substr read_buf 0 index;
      key ← Trim key;
      let endindex := i32 (find read_buf Byte.x0a index) in
      value ← substr read_buf (index + 1) (endindex - index - 1);
      value ← Trim value;
      mret (emplace key value config_map).

(** The loop: every [fgets] that succeeds reads at least one byte. *)
Fixpoint load_loop (fuel : nat) (config_map : Config) (file : bytes) : outcome Config :=
  match fuel with
  | O => mret config_map
  | S fuel =>
      match fgets 1024 file with
      | None => mret config_map
      | Some (buf, file) =>
          config_map ← load_line config_map buf; load_loop fuel config_map file
      end
  end.

Definition EXIT_FAILURE : Z := 1.

Definition LoadConfigFile (fopen : bytes -> option bytes) (config_map : Config)
    (config_file : bytes) : outcome Config :=
  match fopen config_file with
  | None => Exits EXIT_FAILURE
  | Some file => load_loop (S (length file)) config_map file
  end.

Definition Load (config_map : Config) (key : bytes) : bytes :=
  match config_map !! key with None => [] | Some v => v end.

Definition Write (config_map : Config) (key value : bytes) : Config :=
  <[key := value]> config_map.

(** ** Trimming *)

(** Neither the first nor the last character is a space. *)
Definition trimmed (s : bytes) : Prop := head s <> Some space /\ last s <> Some space.

Definition spaces (k : nat) : bytes := replicate k space.

Lemma Trim_spaces k :
  Z.of_nat k < 2 ^ 31 -> Trim (spaces k) = Returns (spaces k).
Proof.
  intros Hk. unfold Trim, find_first_not_of, spaces. rewrite first_not_of_none.
  change (i32 npos =? -1) with true. cbn [negb mbind outcome_bind mret outcome_ret].
  by rewrite last_not_of_none.
Qed.

Lemma Trim_around j k s :
  zlen (spaces j ++ s ++ spaces k) < 2 ^ 31 -> s <> [] -> trimmed s ->
  Trim (spaces j ++ s ++ spaces k) = Returns s.
Proof.
  intros Hl Hs [Hh Ht]. unfold Trim, find_first_not_of, spaces in *.
  rewrite !length_app, !length_replicate in Hl.
  destruct s as [|b s]; [done|]. clear Hs. simpl in Hh. cbn [length] in Hl.
  cbn [app]. rewrite first_not_of_spec by congruence.
  rewrite i32_small by lia. rewrite (proj2 (Z.eqb_neq _ _)) by lia. cbn [negb].
  rewrite substr_ok; [|rewrite !length_app, ?length_replicate; cbn [length]; rewrite ?length_app,
    ?length_replicate; lia..].
  cbn [mbind outcome_bind].
  replace (slice _ _ _) with (b :: s ++ replicate k space).
  2:{ rewrite slice_app_r by xlen. rewrite slice_all; [done|xlen..]. }
  destruct (exists_last (l := b :: s) ltac:(done)) as (s' & e & He).
  rewrite He in Ht. rewrite last_snoc in Ht.
  replace (b :: s ++ replicate k space) with (s' ++ e :: replicate k space)
    by (rewrite app_comm_cons, He, <- app_assoc; done).
  assert (S (length s) = S (length s')) as Hlen
    by (apply (f_equal length) in He; rewrite length_app in He; simpl in He; lia).
  simpl in Hl. rewrite last_not_of_spec by (congruence || lia).
  rewrite i32_small by lia. rewrite (proj2 (Z.eqb_neq _ _)) by lia. cbn [negb].
  rewrite substr_ok; [|rewrite !length_app; cbn [length]; rewrite ?length_replicate; lia..].
  f_equal. rewrite He. change (e :: replicate k space) with ([e] ++ replicate k space).
  rewrite app_assoc. apply slice_head; [done|xlen].
Qed.

(** Every string is of one of the two forms. *)
Lemma trim_cases s :
  (exists k, s = spaces k) \/
  (exists j t k, s = spaces j ++ t ++ spaces k /\ t <> [] /\ trimmed t).
Proof.
  destruct (split_spaces space s) as [[k ->]|(j & b & r & -> & Hb)]; [left; by exists k|].
  right. destruct (split_spaces space (rev (b :: r))) as [[k Hk]|(k & e & q & Hq & He)].
  - apply (f_equal (@rev _)) in Hk. rewrite rev_involutive, rev_replicate in Hk. destruct k; simpl in Hk; [done|]. by injection Hk.
  - exists j, (rev (e :: q)), k. apply (f_equal (@rev _)) in Hq.
    rewrite rev_involutive, rev_app_distr, rev_replicate in Hq. rewrite Hq. split; [done|].
    split; [simpl; by destruct (rev q)|]. split.
    + destruct (rev (e :: q)) as [|x t] eqn:E; [simpl in E; by destruct (rev q)|].
      simpl in *. congruence.
    + simpl. rewrite last_snoc. congruence.
Qed.

Lemma Trim_total s : zlen s < 2 ^ 31 -> exists t, Trim s = Returns t /\ zlen t <= zlen s.
Proof.
  destruct (trim_cases s) as [[k ->]|(j & t & k & -> & Ht & Htr)]; intros Hl.
  - eexists. rewrite Trim_spaces; [done|]. unfold spaces in Hl. by rewrite length_replicate in Hl.
  - exists t. rewrite Trim_around by done. split; [done|]. rewrite !length_app. lia.
Qed.

(** ** Lines *)

(** Every line that [fgets] can read is processed without an exception. *)
Lemma load_line_total m buf : zlen buf < 2 ^ 31 -> exists m', load_line m buf = Returns m'.
Proof.
  intros Hl. unfold load_line. pose proof (length_c_str buf).
  destruct (Trim_total (c_str buf)) as (s & -> & Hs); [lia|]. cbn [mbind outcome_bind].
  case_if as E; [by eexists|].
  assert (find s Byte.x3d 0 = find_at Byte.x3d s 0) as -> by (unfold find; by rewrite drop_0).
  destruct (find_at_range Byte.x3d s 0) as [Hn|Hi]; [by rewrite Hn; eexists|].
  set (i := find_at Byte.x3d s 0) in *. rewrite i32_small by lia.
  rewrite (proj2 (Z.eqb_neq _ _)) by lia. rewrite (substr_ok s 0 i) by lia. cbn [mbind outcome_bind].
  destruct (Trim_total (slice s 0 i)) as (k & -> & _);
    [rewrite length_slice by lia; lia|]. cbn [mbind outcome_bind].
  match goal with |- context [ substr s (i + 1) ?n ] => set (len := n) end.
  assert (exists v, substr s (i + 1) len = Returns v /\ zlen v <= zlen s) as (v & -> & Hv).
  { unfold substr. rewrite (u64_small (i + 1)) by lia. decide_cmp. eexists. split; [done|].
    unfold slice. rewrite length_take, length_drop. lia. }
  cbn [mbind outcome_bind]. destruct (Trim_total v) as (v' & -> & _); [lia|]. by eexists.
Qed.

Lemma fgets_progress s buf r :
  fgets 1024 s = Some (buf, r) -> (length r < length s)%nat /\ zlen buf <= zlen s.
Proof.
  unfold fgets. destruct s as [|b s]; [done|]. intros [= Heq].
  pose proof (take_line_progress 1022 (b :: s) ltac:(done)) as Hp.
  pose proof (f_equal length (take_line_spec 1023 (b :: s))) as Hsp.
  change (take_line 1023 (b :: s) = (buf, r)) in Heq.
  rewrite length_app in Hsp. rewrite Heq in Hp, Hsp. cbn [fst snd] in *. lia.
Qed.

Lemma load_loop_fuel n n' m file :
  (length file < n)%nat -> (length file < n')%nat -> load_loop n m file = load_loop n' m file.
Proof.
  revert n' m file. induction n as [|n IH]; intros [|n'] m file Hn Hn'; try lia. cbn.
  destruct (fgets 1024 file) as [[buf r]|] eqn:E; [|done].
  apply fgets_progress in E as [? _]. destruct (load_line m buf); cbn; [|done..].
  apply IH; lia.
Qed.

Lemma load_loop_total n m file :
  zlen file < 2 ^ 31 -> exists m', load_loop n m file = Returns m'.
Proof.
  revert m file. induction n as [|n IH]; intros m file Hl; cbn; [by eexists|].
  destruct (fgets 1024 file) as [[buf r]|] eqn:E; [|by eexists].
  apply fgets_progress in E as [? ?].
  destruct (load_line_total m buf) as [m' ->]; [lia|]. cbn. apply IH. lia.
Qed.

(** ** Well-formed files *)

(** A line of a configuration file: a setting with any spacing around its key and
    value, a comment, or a line without a setting. *)
Inductive item :=
| Setting (a b c d : nat) (key value : bytes)
| Comment (a : nat) (text : bytes)
| Other (text : bytes).

Definition line_text (it : item) : bytes :=
  match it with
  | Setting a b c d k v =>
      spaces a ++ k ++ spaces b ++ lit "=" ++ spaces c ++ v ++ spaces d
  | Comment a t => spaces a ++ lit "#" ++ t
  | Other t => t
  end.

Definition item_ok (it : item) : Prop :=
  (Byte.x00 ∉ line_text it) /\ (Byte.x0a ∉ line_text it) /\ zlen (line_text it) < 1023 /\
  match it with
  | Setting _ _ _ _ k v =>
      k <> [] /\ trimmed k /\ (Byte.x3d ∉ k) /\ head k <> Some Byte.x23 /\ v <> [] /\ trimmed v
  | Comment _ _ => True
  | Other t => Byte.x3d ∉ t
  end.

Definition render (items : list item) : bytes :=
  concat ((fun it => line_text it ++ [Byte.x0a]) <$> items).

(** The first value given to a key. *)
Fixpoint first_value (key : bytes) (items : list item) : option bytes :=
  match items with
  | [] => None
  | Setting _ _ _ _ k v :: items =>
      if bool_decide (k = key) then Some v else first_value key items
  | _ :: items => first_value key items
  end.

Definition item_effect (m : Config) (it : item) : Config :=
  match it with Setting _ _ _ _ k v => emplace k v m | _ => m end.

Lemma not_in_app (c : byte) s t : c ∉ (s ++ t) <-> (c ∉ s) /\ (c ∉ t).
Proof. rewrite elem_of_app. tauto. Qed.

Lemma not_in_snoc (c b : byte) s : c ∉ s -> c <> b -> c ∉ (s ++ [b]).
Proof. intros. rewrite elem_of_app, list_elem_of_singleton. tauto. Qed.

Lemma not_in_spaces c k : c <> space -> c ∉ spaces k.
Proof. intros Hc Hin. apply elem_of_replicate in Hin as [-> _]. done. Qed.

(** A line stripped of its leading spaces; the newline keeps the trailing ones. *)
Lemma Trim_line a s :
  zlen (spaces a ++ s) < 2 ^ 30 -> head (s ++ [Byte.x0a]) <> Some space ->
  Trim (spaces a ++ s ++ [Byte.x0a]) = Returns (s ++ [Byte.x0a]).
Proof.
  intros Hl Hh. pose proof (Trim_around a 0 (s ++ [Byte.x0a])) as H.
  cbn [spaces replicate] in H. rewrite app_nil_r in H. apply H.
  - rewrite !length_app in *. cbn [length]. lia.
  - by destruct s.
  - split; [done|]. by rewrite last_snoc.
Qed.

Lemma load_comment m a t :
  item_ok (Comment a t) -> load_line m (line_text (Comment a t) ++ [Byte.x0a]) = Returns m.
Proof.
  intros (H0 & Hn & Hl & _). unfold load_line.
  rewrite c_str_id by by apply not_in_snoc.
  cbn [line_text] in *. rewrite <- app_assoc, Trim_line by (done || lia). done.
Qed.

Lemma load_other m t :
  item_ok (Other t) -> load_line m (line_text (Other t) ++ [Byte.x0a]) = Returns m.
Proof.
  intros (H0 & Hn & Hl & He). unfold load_line. cbn [line_text] in *.
  rewrite c_str_id by by apply not_in_snoc.
  destruct (trim_cases (t ++ [Byte.x0a])) as [[k Hk]|(j & u & k & Hk & Hu & Htr)].
  - exfalso. apply (not_in_spaces Byte.x0a k); [done|].
    rewrite <- Hk, elem_of_app, list_elem_of_singleton. by right.
  - rewrite Hk, Trim_around; [|by rewrite <- Hk, length_app; cbn [length]; lia|done..].
    cbn [mbind outcome_bind]. case_if; [done|].
    unfold find. rewrite drop_0, find_at_none; [done|].
    intros Hin. assert (Byte.x3d ∈ t ++ [Byte.x0a]) as Hin'
      by (rewrite Hk, !elem_of_app; auto).
    apply elem_of_app in Hin' as [|Hin']; [done|]. by apply list_elem_of_singleton in Hin'.
Qed.

Lemma load_setting m a b c d k v :
  item_ok (Setting a b c d k v) ->
  load_line m (line_text (Setting a b c d k v) ++ [Byte.x0a]) = Returns (emplace k v m).
Proof.
  intros (H0 & Hn & Hl & Hk & Htk & Hek & Hck & Hv & Htv). unfold load_line.
  rewrite c_str_id by by apply not_in_snoc.
  cbn [line_text] in *. set (tail := spaces b ++ lit "=" ++ spaces c ++ v ++ spaces d) in *.
  destruct Htk as [Hhk Hlk]. destruct k as [|x k]; [done|]. clear Hk.
  rewrite <- app_assoc, Trim_line by (done || lia). cbn [mbind outcome_bind].
  rewrite bool_decide_false, bool_decide_false by done. cbn [orb].
  assert (((x :: k) ++ tail) ++ [Byte.x0a] =
    ((x :: k) ++ spaces b) ++ Byte.x3d :: (spaces c ++ v ++ spaces d) ++ [Byte.x0a]) as ->
    by (unfold tail; rewrite <- !app_assoc; done).
  assert (Byte.x3d ∉ (x :: k) ++ spaces b) as Hns
    by (rewrite not_in_app; split; [done|by apply not_in_spaces]).
  set (kb := (x :: k) ++ spaces b) in *. set (vd := spaces c ++ v ++ spaces d) in *.
  assert (zlen kb + 1 + zlen vd < 1023) as Hlen.
  { unfold kb, tail in *. rewrite !length_app in *.
    change (length (lit "=")) with 1%nat in Hl. lia. }
  assert (Byte.x0a ∉ (Byte.x3d :: vd)) as Hnl.
  { unfold tail in Hn. rewrite !not_in_app in Hn. destruct Hn as (_ & _ & _ & _ & Hvd).
    by apply not_elem_of_cons. }
  set (l := kb ++ Byte.x3d :: vd ++ [Byte.x0a]).
  assert (zlen l = zlen kb + 2 + zlen vd) as Hll
    by (unfold l; rewrite length_app; cbn [length]; rewrite length_app; cbn [length]; lia).
  assert (find l Byte.x3d 0 = zlen kb) as ->
    by (unfold find; rewrite drop_0; unfold l; rewrite find_at_app by done; lia).
  rewrite i32_small by lia. rewrite (proj2 (Z.eqb_neq _ _)) by lia.
  rewrite (substr_ok l 0) by lia.
  cbn [mbind outcome_bind]. replace (slice l 0 (zlen kb)) with kb
    by (unfold l; by rewrite slice_head).
  assert (Trim kb = Returns (x :: k)) as ->.
  { apply (Trim_around 0 b (x :: k)); [change (zlen kb < 2 ^ 31); lia|done..]. }
  cbn [mbind outcome_bind].
  assert (find l Byte.x0a (zlen kb) = zlen kb + 1 + zlen vd) as ->.
  { unfold find, l. rewrite Nat2Z.id, drop_app_length, app_comm_cons, find_at_app by done.
    cbn [length]. lia. }
  rewrite i32_small by lia. replace (_ - zlen kb - 1) with (zlen vd) by lia.
  rewrite substr_ok by lia. cbn [mbind outcome_bind].
  replace (slice l (zlen kb + 1) (zlen vd)) with vd.
  2:{ unfold l. change (Byte.x3d :: vd ++ [Byte.x0a]) with ([Byte.x3d] ++ vd ++ [Byte.x0a]).
      by slices. }
  unfold vd. rewrite Trim_around; [done|fold vd; lia|done|done].
Qed.

Lemma load_item m it :
  item_ok it -> load_line m (line_text it ++ [Byte.x0a]) = Returns (item_effect m it).
Proof. destruct it; [apply load_setting|apply load_comment|apply load_other]. Qed.

Lemma load_items n m items :
  Forall item_ok items -> (length (render items) < n)%nat ->
  load_loop n m (render items) = Returns (fold_left item_effect items m).
Proof.
  intros Hok. revert n m. induction Hok as [|it items Hit _ IH]; intros [|n] m Hn; try lia; [done|].
  cbn [load_loop]. change (render (it :: items)) with ((line_text it ++ [Byte.x0a]) ++ render items) in *.
  rewrite <- app_assoc in *. cbn [app] in *. pose proof Hit as (_ & Hnl & Hl & _).
  rewrite length_app in Hn. cbn [length] in Hn.
  assert (fgets 1024 (line_text it ++ Byte.x0a :: render items) =
          Some (line_text it ++ [Byte.x0a], render items)) as ->.
  { unfold fgets. destruct (line_text it ++ _) eqn:E; [by destruct (line_text it)|].
    rewrite <- E, take_line_newline by (done || lia). done. }
  rewrite load_item by done. cbn [mbind outcome_bind]. apply IH. lia.
Qed.

Lemma lookup_items items m key :
  fold_left item_effect items m !! key =
    match m !! key with Some v => Some v | None => first_value key items end.
Proof.
  revert m. induction items as [|[a b c d k v|a t|t] items IH]; intros m;
    cbn [fold_left item_effect first_value];
    [by destruct (m !! key)|..]; rewrite IH; [|done..].
  case_bool_decide as E.
  - subst. rewrite lookup_emplace. by destruct (m !! key).
  - by rewrite lookup_emplace_ne.
Qed.

(** ** Properties *)

(** C32. Loading any configuration file that can be opened (of less than 2 GB)
    returns: no line makes [substr] throw, and the reading loop ends, whatever
    bytes the file holds. A file that cannot be opened ends the process with
    [EXIT_FAILURE]. *)
Theorem config_load_total fopen config_map config_file :
  match fopen config_file with
  | None => LoadConfigFile fopen config_map config_file = Exits EXIT_FAILURE
  | Some file => zlen file < 2 ^ 31 ->
      (exists m, LoadConfigFile fopen config_map config_file = Returns m) /\
      forall fuel, (length file < fuel)%nat ->
        load_loop fuel config_map file = LoadConfigFile fopen config_map config_file
  end.
Proof.
  unfold LoadConfigFile. destruct (fopen config_file) as [file|]; [|done].
  intros Hl. split; [by apply load_loop_total|]. intros. apply load_loop_fuel; lia.
Qed.

(** C15. Reading a file of settings (with any spacing around keys and values),
    comments and other lines, each within the line buffer, gives back the
    settings: looking a key up afterwards gives the first value the file gives
    it, or the empty string. *)
Theorem config_roundtrip fopen config_file items :
  fopen config_file = Some (render items) -> Forall item_ok items ->
  exists m, LoadConfigFile fopen ∅ config_file = Returns m /\
    forall key, Load m key = default [] (first_value key items).
Proof.
  intros Hf Hok. unfold LoadConfigFile. rewrite Hf, load_items by (done || lia).
  eexists. split; [done|]. intros key. unfold Load. rewrite lookup_items, lookup_empty.
  by destruct (first_value key items).
Qed.

(** ** Witnesses *)

Definition demo_items : list item :=
  [Comment 0 (lit " registry"); Setting 0 0 0 0 (lit "zookeeperip") (lit "127.0.0.1");
   Other []; Setting 2 1 1 3 (lit "rpcserverport") (lit "8000");
   Setting 0 0 0 0 (lit "rpcserverport") (lit "9000")].

Lemma demo_items_ok : Forall item_ok demo_items.
Proof.
  repeat apply Forall_cons_2; [..|apply Forall_nil_2].
  all: unfold item_ok, trimmed; repeat split; try done; try (by apply (bool_decide_unpack _)).
Qed.

Definition demo_fopen (name : bytes) : option bytes :=
  if bool_decide (name = lit "test.conf") then Some (render demo_items) else None.

Lemma config_roundtrip_witness :
  exists m, LoadConfigFile demo_fopen ∅ (lit "test.conf") = Returns m /\
    Load m (lit "rpcserverport") = lit "8000".
Proof.
  destruct (config_roundtrip demo_fopen (lit "test.conf") demo_items) as (m & H & Hm);
    [by vm_compute|apply demo_items_ok|].
  exists m. split; [exact H|]. rewrite Hm. by vm_compute.
Defined.

Lemma config_load_total_witness :
  LoadConfigFile demo_fopen ∅ (lit "missing.conf") = Exits EXIT_FAILURE /\
  exists m, LoadConfigFile demo_fopen ∅ (lit "test.conf") = Returns m.
Proof.
  split.
  - exact (config_load_total demo_fopen ∅ (lit "missing.conf")).
  - apply (config_load_total demo_fopen ∅ (lit "test.conf")). by vm_compute.
Defined.
