(* ===== verification/Application.v ===== *)
(** * Application: initialisation from the command line

    [src/src/common/application.cc]. The global configuration [m_config] is
    passed explicitly. [getopt] is POSIX: its successive results on [argv] are
    a list of option characters with their arguments. *)

From S2P Require Import Prelude CppString Config.

(** The locals of [Init]. *)
Record Options := mk_Options {
  config_file : bytes;
  ip_override : bytes;
  port_override : bytes
}.

(** One iteration of the option loop. *)
Definition parse_option (opts : Options) (r : byte * bytes) : outcome Options :=
  let '(o, optarg) := r in
  if bool_decide (o = Byte.x69) (* 'i' *) then mret {| opts with config_file := c_str optarg |}
  else if bool_decide (o = Byte.x61) (* 'a' *) then
    mret {| opts with ip_override := c_str optarg |}
  else if bool_decide (o = Byte.x70) (* 'p' *) then
    mret {| opts with port_override := c_str optarg |}
  else if bool_decide (o = Byte.x3f) (* '?' *) then Exits EXIT_FAILURE
  else if bool_decide (o = Byte.x3a) (* ':' *) then Exits EXIT_FAILURE
  else mret opts.

Fixpoint parse_options (opts : Options) (rs : list (byte * bytes)) : outcome Options :=
  match rs with
  | [] => mret opts
  | r :: rs => opts ← parse_option opts r; parse_options opts rs
  end.

Section Init.

Context (getopt : list bytes -> list (byte * bytes)) (fopen : bytes -> option bytes).

Definition Init (m_config : Config) (argv : list bytes) : outcome Config :=
  if zlen argv <? 2 then Exits EXIT_FAILURE
  else
    opts ← parse_options (mk_Options [] [] []) (getopt argv);
    (* 1. the configuration file *)
    m_config ← LoadConfigFile fopen m_config (c_str (config_file opts));
    (* 2. the command line overrides it *)
    let m_config := if bool_decide (ip_override opts = []) then m_config
                    else Write m_config (lit "rpcserverip") (ip_override opts) in
    let m_config := if bool_decide (port_override opts = []) then m_config
                    else Write m_config (lit "rpcserverport") (port_override opts) in
    mret m_config.

(** ** Lemmas *)

(** The last argument an option is given. *)
Fixpoint last_arg (o : byte) (rs : list (byte * bytes)) (dflt : bytes) : bytes :=
  match rs with
  | [] => dflt
  | (o', arg) :: rs => last_arg o rs (if bool_decide (o' = o) then c_str arg else dflt)
  end.

Lemma parse_options_known rs opts :
  Forall (fun r => r.1 = Byte.x69 \/ r.1 = Byte.x61 \/ r.1 = Byte.x70) rs ->
  parse_options opts rs = Returns (mk_Options (last_arg Byte.x69 rs (config_file opts))
    (last_arg Byte.x61 rs (ip_override opts)) (last_arg Byte.x70 rs (port_override opts))).
Proof.
  intros Hrs. revert opts. induction Hrs as [|[o a] rs Ho _ IH]; intros [i ip p]; [done|].
  cbn [fst] in Ho. destruct Ho as [-> | [-> | ->]].
  - exact (IH (mk_Options (c_str a) ip p)).
  - exact (IH (mk_Options i (c_str a) p)).
  - exact (IH (mk_Options i ip (c_str a))).
Qed.

Lemma Load_Write m k v k' : Load (Write m k v) k' = if bool_decide (k = k') then v else Load m k'.
Proof.
  unfold Load, Write. case_bool_decide as E; [subst; by rewrite lookup_insert_eq|].
  by rewrite lookup_insert_ne.
Qed.

(** The command line takes precedence: when its options are the known ones and
    the configuration file loads, a non-empty [-a] or [-p] argument (the last one
    given) is what looking up [rpcserverip] or [rpcserverport] yields, and every
    other key has the file's value. *)
Theorem init_overrides argv items :
  2 <= zlen argv ->
  Forall (fun r => r.1 = Byte.x69 \/ r.1 = Byte.x61 \/ r.1 = Byte.x70) (getopt argv) ->
  fopen (c_str (last_arg Byte.x69 (getopt argv) [])) = Some (render items) ->
  Forall item_ok items ->
  let arg o := last_arg o (getopt argv) [] in
  let from_file key := default [] (first_value key items) in
  let or_file v key := if bool_decide (v = []) then from_file key else v in
  exists m, Init ∅ argv = Returns m /\
    Load m (lit "rpcserverip") = or_file (arg Byte.x61) (lit "rpcserverip") /\
    Load m (lit "rpcserverport") = or_file (arg Byte.x70) (lit "rpcserverport") /\
    forall key, key <> lit "rpcserverip" -> key <> lit "rpcserverport" ->
      Load m key = from_file key.
Proof.
  intros Hargc Hopts Hf Hok arg from_file or_file. unfold Init.
  rewrite (proj2 (Z.ltb_ge _ _)) by done. rewrite parse_options_known by done.
  cbn [mbind outcome_bind config_file ip_override port_override].
  unfold LoadConfigFile. rewrite Hf, load_items by (done || lia).
  cbn [mbind outcome_bind]. eexists. split; [reflexivity|].
  fold (arg Byte.x61) (arg Byte.x70).
  assert (forall key, Load (fold_left item_effect items ∅) key = from_file key) as Hload.
  { intros key. unfold Load. rewrite lookup_items, lookup_empty.
    unfold from_file. by destruct (first_value key items). }
  unfold or_file. rewrite <- !Hload.
  repeat split; intros; repeat case_bool_decide; rewrite ?Load_Write, ?bool_decide_false by done;
    rewrite ?bool_decide_true by done; done.
Qed.

End Init.

(** An option that is not one of [-i], [-a], [-p] ends the process with
    [EXIT_FAILURE] before any file is read: no configuration is loaded, wherever
    the option comes on the command line. *)
Theorem init_unknown_option getopt fopen m_config argv :
  (exists arg, (Byte.x3f, arg) ∈ getopt argv) ->
  Init getopt fopen m_config argv = Exits EXIT_FAILURE.
Proof.
  intros [arg Hin]. unfold Init. case_if; [done|].
  assert (forall opts, parse_options opts (getopt argv) = Exits EXIT_FAILURE) as Hp.
  { induction (getopt argv) as [|[o a] rs IH]; intros opts; [by apply elem_of_nil in Hin|].
    apply elem_of_cons in Hin as [[= <- <-]|Hin]; [done|]. cbn [parse_options].
    unfold parse_option. repeat case_match; cbn; auto. }
  by rewrite Hp.
Qed.

(** ** Witnesses *)

Definition demo_getopt (argv : list bytes) : list (byte * bytes) :=
  match argv with
  | [_; i; file; a; ip] => [(nth 1 i Byte.x3f, file); (nth 1 a Byte.x3f, ip)]
  | _ => []
  end.

Lemma init_overrides_witness :
  exists m, Init demo_getopt demo_fopen ∅
      [lit "server"; lit "-i"; lit "test.conf"; lit "-a"; lit "10.0.0.7"] = Returns m /\
    Load m (lit "rpcserverip") = lit "10.0.0.7" /\ Load m (lit "rpcserverport") = lit "8000".
Proof.
  unshelve epose proof (init_overrides demo_getopt demo_fopen
    [lit "server"; lit "-i"; lit "test.conf"; lit "-a"; lit "10.0.0.7"] demo_items
    _ _ _ demo_items_ok) as H;
    [by vm_compute|apply Forall_cons_2; [auto|apply Forall_singleton; auto]|by vm_compute|].
  destruct H as (m & H & Hip & Hport & _). exists m. split; [exact H|]. rewrite Hip, Hport.
  split; vm_compute; reflexivity.
Defined.

Lemma init_unknown_option_witness :
  Init demo_getopt demo_fopen ∅
    [lit "server"; lit "-i"; lit "test.conf"; lit "-?"; lit "x"] = Exits EXIT_FAILURE.
Proof.
  apply init_unknown_option. exists (lit "x"). vm_compute. right. left.
Defined.
