(* ===== verification/LoadBalancer.v ===== *)
(** * LoadBalancer: choosing a node

    [src/src/registry/load_balancer.cc], [load_balancer.h]. The abstract class is
    a typeclass over the balancer's state; [Select] returns the node and the new
    state. *)

From S2P Require Import Prelude.

Class LoadBalancer (B : Type) := Select : B -> list bytes -> bytes * B.

(** What a caller relies on: a node of the list, or the empty string when there is
    none. *)
Class LoadBalancerLaws (B : Type) `{LoadBalancer B} := {
  select_nil b : (Select b []).1 = [];
  select_in b nodes : nodes <> [] -> (Select b nodes).1 ∈ nodes
}.

(** ** RoundRobinLoadBalancer *)

(** [std::atomic<size_t> _index{0}]. *)
Record RoundRobinLoadBalancer := mk_RoundRobin { _index : Z }.
Definition RoundRobin_new : RoundRobinLoadBalancer := mk_RoundRobin 0.

(** [_index.fetch_add(1)]: the old value, and the counter modulo [2^64]. *)
Definition fetch_add_index (b : RoundRobinLoadBalancer) : Z * RoundRobinLoadBalancer :=
  (_index b, mk_RoundRobin (u64 (_index b + 1))).

#[export] Instance RoundRobin_Select : LoadBalancer RoundRobinLoadBalancer := fun b nodes =>
  match nodes with
  | [] => ([], b)
  | _ =>
      let '(old, b) := fetch_add_index b in
      let index := old mod zlen nodes in
      (nth (Z.to_nat index) nodes [], b)
  end.

(** ** RandomLoadBalancer *)

(** The thread's generator: [distribution(generator)] over [0 .. hi] is a
    parameter of the model. *)
Class Generator (G : Type) := draw : G -> Z -> Z * G.
Class GeneratorLaws (G : Type) `{Generator G} :=
  draw_range g hi : 0 <= hi -> 0 <= (draw g hi).1 <= hi.

Record RandomLoadBalancer (G : Type) := mk_Random { generator : G }.
Arguments mk_Random {G}.
Arguments generator {G}.

#[export] Instance Random_Select `{Generator G} : LoadBalancer (RandomLoadBalancer G) :=
  fun b nodes =>
  match nodes with
  | [] => ([], b)
  | _ =>
      let '(i, g) := draw (generator b) (zlen nodes - 1) in
      (nth (Z.to_nat i) nodes [], mk_Random g)
  end.

(** ** Both implement the interface *)

Lemma nth_in_range (nodes : list bytes) i :
  0 <= i < zlen nodes -> nth (Z.to_nat i) nodes [] ∈ nodes.
Proof. intros. apply list_elem_of_In, nth_In. lia. Qed.

#[export] Instance RoundRobin_laws : LoadBalancerLaws RoundRobinLoadBalancer.
Proof.
  split; [done|]. intros b [|n nodes] Hn; [done|].
  apply nth_in_range. apply Z.mod_pos_bound. cbn [length]. lia.
Qed.

#[export] Instance Random_laws `{GeneratorLaws G} : LoadBalancerLaws (RandomLoadBalancer G).
Proof.
  split; [done|]. intros b [|n nodes] Hn; [done|]. unfold Select, Random_Select.
  pose proof (draw_range (generator b) (zlen (n :: nodes) - 1) ltac:(cbn [length]; lia)).
  destruct (draw _ _) as [i g]. cbn [fst] in *. apply nth_in_range. lia.
Qed.

(** ** Rounds *)

(** [k] successive selections. Every selection is one atomic step on the counter,
    so this is also what threads sharing the balancer select between them, in the
    order of their [fetch_add]. *)
Fixpoint selections {B} `{LoadBalancer B} (k : nat) (b : B) (nodes : list bytes) :
    list bytes * B :=
  match k with
  | O => ([], b)
  | S k => let '(n, b) := Select b nodes in
           let '(l, b) := selections k b nodes in (n :: l, b)
  end.

(** The node of a counter value. *)
Definition node_at (nodes : list bytes) (i : Z) : bytes := nth (Z.to_nat (i mod zlen nodes)) nodes [].

Lemma selections_rr k i nodes :
  nodes <> [] ->
  (selections k (mk_RoundRobin i) nodes).1 =
    match k with
    | O => []
    | S k => node_at nodes i :: ((fun t => node_at nodes (u64 (i + Z.of_nat t))) <$> seq 1 k)
    end.
Proof.
  intros Hn. revert i. induction k as [|k IH]; intros i; [done|]. cbn [selections].
  assert (Select (mk_RoundRobin i) nodes = (node_at nodes i, mk_RoundRobin (u64 (i + 1)))) as ->
    by (destruct nodes; done).
  specialize (IH (u64 (i + 1))).
  destruct (selections k (mk_RoundRobin (u64 (i + 1))) nodes) as [l b].
  cbn [fst] in *. subst l. f_equal. destruct k as [|k]; [done|].
  cbn [seq]. rewrite fmap_cons. f_equal. rewrite <- (fmap_S_seq 1), <- list_fmap_compose.
  apply list_fmap_ext. intros _ t _. unfold compose, u64. f_equal.
  rewrite Zplus_mod_idemp_l. f_equal. lia.
Qed.

(** One round from any starting point is a rotation of the list. *)
Lemma round_rotation nodes i :
  nodes <> [] ->
  (fun t => node_at nodes (i + Z.of_nat t)) <$> seq 0 (length nodes) =
    drop (Z.to_nat (i mod zlen nodes)) nodes ++ take (Z.to_nat (i mod zlen nodes)) nodes.
Proof.
  intros Hn. assert (0 < zlen nodes) by (destruct nodes; [done|cbn [length]; lia]).
  pose proof (Z.mod_pos_bound i (zlen nodes) ltac:(lia)) as Hr.
  set (r := i mod zlen nodes) in *. apply list_eq_same_length with (n := length nodes).
  { rewrite length_app, length_drop, length_take. lia. }
  { by rewrite length_fmap, length_seq. }
  intros t x y Ht. rewrite list_lookup_fmap, lookup_seq_lt by done. cbn [fmap option_fmap option_map].
  intros [= <-]. unfold node_at. rewrite <- Zplus_mod_idemp_l. fold r.
  destruct (decide (r + Z.of_nat (0 + t) < zlen nodes)) as [Hlt|Hge].
  - rewrite Z.mod_small, lookup_app_l, lookup_drop by (rewrite ?length_drop; lia).
    intros Hy. erewrite nth_lookup_Some; [done|]. rewrite <- Hy. f_equal. lia.
  - rewrite lookup_app_r, length_drop, lookup_take_lt by (rewrite ?length_drop; lia).
    intros Hy. erewrite nth_lookup_Some; [done|]. rewrite <- Hy. f_equal.
    replace (_ mod _) with (r + Z.of_nat (0 + t) - zlen nodes); [lia|].
    apply Z.mod_unique with 1; lia.
Qed.

Lemma round_permutation nodes i :
  nodes <> [] ->
  (fun t => node_at nodes (i + Z.of_nat t)) <$> seq 0 (length nodes) ≡ₚ nodes.
Proof.
  intros Hn. rewrite round_rotation by done. rewrite (comm (++)). by rewrite take_drop.
Qed.

Lemma rounds_permutation k nodes i :
  nodes <> [] ->
  (fun t => node_at nodes (i + Z.of_nat t)) <$> seq 0 (k * length nodes) ≡ₚ
    concat (replicate k nodes).
Proof.
  intros Hn. revert i. induction k as [|k IH]; intros i; [done|].
  cbn [Nat.mul replicate concat]. rewrite seq_app, fmap_app, round_permutation by done.
  f_equiv. rewrite <- (IH (i + zlen nodes)). rewrite <- (Nat.add_0_r (length nodes)) at 1.
  rewrite Nat.add_0_l, <- fmap_add_seq, <- list_fmap_compose. apply reflexive_eq.
  apply list_fmap_ext. intros _ t _. unfold compose. f_equal. lia.
Qed.

(** ** Properties *)

(** Round robin is fair: over any fixed list of nodes, [k] full rounds of
    selections (by any threads sharing the balancer, as every selection takes one
    counter value) return every node of the list exactly [k] times, wherever the
    counter starts, as long as it does not wrap around on the way. *)
Theorem round_robin_fair k b nodes :
  nodes <> [] -> 0 <= _index b -> _index b + Z.of_nat (k * length nodes) <= 2 ^ 64 ->
  (selections (k * length nodes) b nodes).1 ≡ₚ concat (replicate k nodes).
Proof.
  intros Hn Hi Hk. rewrite <- (rounds_permutation k nodes (_index b)) by done.
  destruct b as [i]. cbn [_index] in *. rewrite selections_rr by done. apply reflexive_eq.
  destruct (k * length nodes)%nat as [|m]; [done|]. cbn [seq]. rewrite fmap_cons.
  f_equal; [f_equal; lia|]. apply list_fmap_ext. intros j t [-> Ht]%lookup_seq.
  f_equal. apply u64_small. lia.
Qed.

(** A balancer that implements the interface always picks a node of a non-empty
    list, and nothing from an empty one, over any number of selections. *)
Theorem selections_from_nodes `{LoadBalancerLaws B} k (b : B) nodes :
  Forall (fun n => n ∈ nodes \/ nodes = [] /\ n = []) (selections k b nodes).1.
Proof.
  revert b. induction k as [|k IH]; intros b; cbn; [constructor|].
  pose proof (select_in b nodes) as Hin. pose proof (select_nil b) as Hnil.
  destruct (Select b nodes) as [n b'] eqn:E. specialize (IH b').
  destruct (selections k b' nodes). cbn [fst] in *. constructor; [|done].
  destruct (decide (nodes = [])) as [->|]; [right|left; auto].
  by rewrite E in Hnil.
Qed.

(** ** Witnesses *)

Lemma round_robin_fair_witness :
  (selections 6 RoundRobin_new [lit "a"; lit "b"; lit "c"]).1 ≡ₚ
    [lit "a"; lit "b"; lit "c"; lit "a"; lit "b"; lit "c"].
Proof. apply (round_robin_fair 2 RoundRobin_new [lit "a"; lit "b"; lit "c"]); cbn; lia || done. Defined.

(** A generator that always draws the upper bound. *)
#[local] Instance demo_generator : Generator unit := fun g hi => (hi, g).
#[local] Instance demo_generator_laws : GeneratorLaws unit.
Proof. intros g hi. cbn. lia. Qed.

Lemma selections_from_nodes_witness :
  Forall (fun n => n ∈ [lit "a"; lit "b"] \/ [lit "a"; lit "b"] = [] /\ n = [])
    (selections 3 (mk_Random tt) [lit "a"; lit "b"]).1.
Proof. apply (selections_from_nodes 3 (mk_Random tt) [lit "a"; lit "b"]). Defined.
