(* ===== verification/ZookeeperClient.v ===== *)
(** * ZookeeperClient: the registry client

    [src/src/registry/zookeeper_client.cc]. The ZooKeeper C client is a library:
    the calls used are an interface over the state of the session and the
    service ([ZooApi]), with the documented behaviour of a healthy session as
    laws ([ZooLaws]). [Start]'s waiting for the session is a small protocol
    between the starting thread and the library's event thread, modelled as a
    transition system at the granularity of the mutex and condition-variable
    operations. *)

From S2P Require Import Prelude CppString Config.

(** ** The library *)

(** A path is one parent's path, a slash and a name without slashes. *)
Class ZooApi (Zk : Type) := {
  ZOK : Z;
  ZNONODE : Z;
  ZOO_EPHEMERAL : Z;
  zookeeper_init : bytes -> option Zk;
  zoo_exists : Zk -> bytes -> Z * Zk;
  zoo_create : Zk -> bytes -> option bytes -> Z -> Z * Zk;
  zoo_get : Zk -> bytes -> Z -> Z * bytes * Zk;
  zoo_get_children : Zk -> bytes -> bool -> Z * list bytes * Zk
}.

(** What is stored at a path: the data and the creation flags. *)
Abbreviation znodes := (gmap bytes (option bytes * Z)).

(** The path of the parent node: [None] for a child of the root. *)
Definition parent_ok (ephemeral : Z) (t : znodes) (path : bytes) : Prop :=
  (exists name, path = lit "/" ++ name /\ name <> [] /\ (Byte.x2f ∉ name)) \/
  (exists p name d f, path = p ++ lit "/" ++ name /\ name <> [] /\ (Byte.x2f ∉ name) /\
     t !! p = Some (d, f) /\ f <> ephemeral).

Definition children_of (t : znodes) (path : bytes) (c : bytes) : Prop :=
  (Byte.x2f ∉ c) /\ is_Some (t !! (path ++ lit "/" ++ c)).

Class ZooLaws (Zk : Type) `{ZooApi Zk} := {
  (** the nodes of the service, while the session is healthy *)
  nodes_of : Zk -> znodes;
  zok_znonode : ZOK (Zk := Zk) <> ZNONODE (Zk := Zk);
  zok_ephemeral : ZOO_EPHEMERAL (Zk := Zk) <> 0;
  zoo_exists_spec zk path :
    (zoo_exists zk path).1 =
      (if decide (is_Some (nodes_of zk !! path)) then ZOK (Zk := Zk) else ZNONODE (Zk := Zk)) /\
    nodes_of (zoo_exists zk path).2 = nodes_of zk;
  zoo_create_spec zk path data flags :
    nodes_of zk !! path = None -> parent_ok (ZOO_EPHEMERAL (Zk := Zk)) (nodes_of zk) path ->
    (zoo_create zk path data flags).1 = ZOK (Zk := Zk) /\
    nodes_of (zoo_create zk path data flags).2 = <[path := (data, flags)]> (nodes_of zk);
  zoo_get_children_spec zk path watch :
    is_Some (nodes_of zk !! path) ->
    (zoo_get_children zk path watch).1.1 = ZOK (Zk := Zk) /\
    (forall c, c ∈ (zoo_get_children zk path watch).1.2 <-> children_of (nodes_of zk) path c) /\
    nodes_of (zoo_get_children zk path watch).2 = nodes_of zk
}.

Section ZookeeperClient.

Context `{ZooApi Zk}.

(** ** The operations *)

(** [Create]: the paths and the data are C strings, [datalen] their length. *)
Definition Create (zk : Zk) (path : bytes) (data : option bytes) (state : Z) : outcome Zk :=
  let '(flag, zk) := zoo_exists zk path in
  if flag =? ZNONODE (Zk := Zk) then
    let '(flag, zk) := zoo_create zk path data state in
    if flag =? ZOK (Zk := Zk) then Returns zk else Exits EXIT_FAILURE
  else Returns zk.

(** [GetData]: [zoo_get] copies at most 64 bytes and does not terminate them;
    [return buf] reads up to a NUL, which is beyond the array when there is none
    in it. [garbage] is the initial content of the array. *)
Definition GetData (garbage : bytes) (zk : Zk) (path : bytes) : outcome bytes * Zk :=
  let '(flag, data, zk) := zoo_get zk path 64 in
  if negb (flag =? ZOK (Zk := Zk)) then (Returns [], zk)
  else
    let buf := overwrite garbage data in
    (if bool_decide (Byte.x00 ∈ buf) then Returns (c_str buf) else Undefined, zk).

Definition GetChildren (zk : Zk) (path : bytes) (watch : bool) : list bytes * Zk :=
  let '(flag, children, zk) := zoo_get_children zk path watch in
  if negb (flag =? ZOK (Zk := Zk)) then ([], zk) else (children, zk).

(** [Start] up to the wait: the connection string is [host:port]. *)
Definition Start (m_config : Config) : outcome Zk :=
  let host := Load m_config (lit "zookeeperip") in
  let port := Load m_config (lit "zookeeperport") in
  let connstr := host ++ lit ":" ++ port in
  match zookeeper_init (c_str connstr) with
  | None => Exits EXIT_FAILURE
  | Some zk => Returns zk
  end.

End ZookeeperClient.

(** ** Waiting for the session *)

(** The starting thread: [unique_lock lock(cv_mutex)], then the loop of
    [cv.wait(lock, pred)]: test the predicate, otherwise release the mutex and
    block in one step, and take the mutex again after a wake-up. *)
Inductive start_pc := SLock | STest | SBlocked | SRelock | SDone.

(** The event thread in [global_watcher] for the connected event: lock, set the
    flag, notify, unlock. *)
Inductive watch_pc := WLock | WSet | WNotify | WUnlock | WDone.

Inductive holder := Free | HeldByStart | HeldByWatcher.

Record WaitState := mk_Wait {
  s_pc : start_pc;
  w_pc : watch_pc;
  cv_mutex : holder;
  is_connected : bool
}.





(** The mutex is held by the thread that is in its critical section, and a thread
    that is blocked will still be notified. *)
Definition wait_inv (s : WaitState) : Prop :=
  (cv_mutex s = HeldByStart <-> s_pc s = STest) /\
  (cv_mutex s = HeldByWatcher <-> w_pc s ∈ [WSet; WNotify; WUnlock]) /\
  (is_connected s = true <-> w_pc s ∈ [WNotify; WUnlock; WDone]) /\
  (s_pc s = SBlocked -> w_pc s ∈ [WLock; WSet; WNotify]) /\
  (s_pc s = SDone -> is_connected s = true).

#[local] Instance start_pc_dec : EqDecision start_pc.
Proof. solve_decision. Defined.
#[local] Instance watch_pc_dec : EqDecision watch_pc.
Proof. solve_decision. Defined.
#[local] Instance holder_dec : EqDecision holder.
Proof. solve_decision. Defined.

#[local] Instance wait_inv_dec s : Decision (wait_inv s).
Proof. unfold wait_inv. apply _. Defined.




(** ** Creating nodes *)

Section Create.

Context `{ZooLaws Zk}.

(** [Create] makes sure that the node is there: an existing node is left alone, a
    missing one whose parent can have children is created with the given data. *)
Lemma Create_spec zk path data state :
  is_Some (nodes_of zk !! path) \/ parent_ok (ZOO_EPHEMERAL (Zk := Zk)) (nodes_of zk) path ->
  exists zk', Create zk path data state = Returns zk' /\
    nodes_of zk' = (if decide (is_Some (nodes_of zk !! path)) then nodes_of zk
                    else <[path := (data, state)]> (nodes_of zk)).
Proof.
  intros Hp. unfold Create. destruct (zoo_exists_spec zk path) as [Hf Hn].
  destruct (zoo_exists zk path) as [flag zk1]. cbn [fst snd] in *. subst flag.
  destruct (decide (is_Some (nodes_of zk !! path))) as [Hs|Hs].
  { rewrite (proj2 (Z.eqb_neq _ _)) by apply zok_znonode. by exists zk1. }
  rewrite Z.eqb_refl. destruct Hp as [|Hp]; [done|].
  rewrite <- Hn in Hs, Hp. apply eq_None_not_Some in Hs.
  destruct (zoo_create_spec zk1 path data state Hs Hp) as [Hf Hn'].
  destruct (zoo_create zk1 path data state) as [flag zk2]. cbn [fst snd] in *. subst flag.
  rewrite Z.eqb_refl. exists zk2. by rewrite Hn', Hn.
Qed.

End Create.

(** ** Reading data *)

Lemma elem_of_overwrite (c : byte) dst src :
  c ∈ overwrite dst src <-> c ∈ src \/ c ∈ drop (length src) dst.
Proof. apply elem_of_app. Qed.

Lemma c_str_app_nul s t : (Byte.x00 ∉ s) -> c_str (s ++ Byte.x00 :: t) = s.
Proof.
  induction s as [|b s IH]; intros Hs; [done|]. apply not_elem_of_cons in Hs as [? Hs].
  cbn. rewrite bool_decide_false by done. by rewrite IH.
Qed.

Lemma length_c_str_nul s n :
  (Byte.x00 ∈ s) -> length (c_str s) = n -> s !! n = Some Byte.x00.
Proof.
  revert n. induction s as [|b s IH]; intros n Hin Hn; [by apply elem_of_nil in Hin|].
  cbn in Hn. case_bool_decide as Hb; [by subst|]. subst n. cbn.
  apply IH; [|done]. apply elem_of_cons in Hin as [|]; [congruence|done].
Qed.

(** [GetData] returns a node's data of fewer than 64 bytes exactly when the byte
    of its uninitialised array after the data happens to be NUL, and for 64 bytes
    of data without a NUL it reads past the end of the array. *)
Theorem get_data_unterminated `{ZooApi Zk} garbage zk path data zk' :
  zoo_get zk path 64 = (ZOK (Zk := Zk), data, zk') ->
  length garbage = 64%nat -> (length data <= 64)%nat -> (Byte.x00 ∉ data) ->
  ((GetData garbage zk path).1 = Returns data <->
     garbage !! length data = Some Byte.x00) /\
  (length data = 64%nat -> (GetData garbage zk path).1 = Undefined).
Proof.
  intros Hget Hg Hd Hn. unfold GetData. rewrite Hget, Z.eqb_refl. cbn [negb fst].
  split; [|intros Hl].
  - split.
    + case_bool_decide as Hin; [|done]. intros [= Hc].
      apply (length_c_str_nul _ (length data)) in Hin; [|by rewrite Hc].
      unfold overwrite in Hin. rewrite lookup_app_r, lookup_drop in Hin by lia.
      rewrite <- Hin. f_equal. lia.
    + intros Hnul. rewrite bool_decide_true.
      * f_equal. unfold overwrite. rewrite (drop_S _ _ _ Hnul). by apply c_str_app_nul.
      * rewrite elem_of_overwrite. right. apply list_elem_of_lookup_2 with O.
        rewrite lookup_drop. rewrite <- Hnul. f_equal. lia.
  - rewrite bool_decide_false; [done|]. rewrite elem_of_overwrite, drop_ge by lia.
    intros [|Hin]; [done|by apply elem_of_nil in Hin].
Qed.

(** ** A concrete registry

    The node tree itself, with every call succeeding when its path allows it. *)

Module DemoZk.

Fixpoint strip_prefix (p s : bytes) : option bytes :=
  match p, s with
  | [], s => Some s
  | b :: p, c :: s => if bool_decide (b = c) then strip_prefix p s else None
  | _ :: _, [] => None
  end.

Definition children (t : znodes) (path : bytes) : list bytes :=
  omap (fun kv => c ← strip_prefix (path ++ lit "/") kv.1;
                  if bool_decide (Byte.x2f ∈ c) then None else Some c) (map_to_list t).

Definition tree : ZooApi znodes := {|
  ZOK := 0;
  ZNONODE := -101;
  ZOO_EPHEMERAL := 1;
  zookeeper_init _ := Some ∅;
  zoo_exists t path := (if decide (is_Some (t !! path)) then 0 else -101, t);
  zoo_create t path data flags := (0, <[path := (data, flags)]> t);
  zoo_get t path n :=
    match t !! path with
    | Some (Some d, _) => (0, take (Z.to_nat n) d, t)
    | Some (None, _) => (0, [], t)
    | None => (-101, [], t)
    end;
  zoo_get_children t path _ :=
    if decide (is_Some (t !! path)) then (0, children t path, t) else (-101, [], t) |}.

Lemma strip_prefix_Some p s r : strip_prefix p s = Some r <-> s = p ++ r.
Proof.
  revert s. induction p as [|b p IH]; intros [|c s]; cbn; try (split; congruence).
  case_bool_decide; [subst; rewrite IH; split; congruence|split; congruence].
Qed.

#[export] Instance tree_laws : @ZooLaws znodes tree.
Proof.
  refine {| nodes_of := fun t => t |}; cbn; try done.
  intros t path _ Hs. rewrite decide_True by done. split; [done|]. split; [|done].
  intros c. unfold children, children_of. cbn. rewrite list_elem_of_omap. split.
  - intros ([k v] & Hk & Hc). apply elem_of_map_to_list in Hk. cbn in Hc.
    destruct (strip_prefix _ k) as [r|] eqn:E; [|done]. cbn in Hc.
    case_bool_decide; [done|]. simplify_eq. apply strip_prefix_Some in E. subst k.
    rewrite <- app_assoc in Hk. split; [done|by eexists].
  - intros [Hc [v Hv]]. exists (path ++ lit "/" ++ c, v).
    rewrite elem_of_map_to_list. split; [done|]. cbn.
    rewrite (proj2 (strip_prefix_Some (path ++ lit "/") _ c)) by by rewrite <- app_assoc.
    cbn. by rewrite bool_decide_false.
Defined.

End DemoZk.

(** ** Witnesses *)


Lemma get_data_unterminated_witness :
  (@GetData _ DemoZk.tree (repeat Byte.x2a 64)
     {[ lit "/n" := (Some (repeat Byte.x61 70), 0) ]} (lit "/n")).1 = Undefined.
Proof.
  set (t := {[ lit "/n" := (Some (repeat Byte.x61 70), 0) ]} : znodes).
  assert (@zoo_get _ DemoZk.tree t (lit "/n") 64 =
          (@ZOK _ DemoZk.tree, repeat Byte.x61 64, t)) as Hget.
  { cbn [zoo_get ZOK DemoZk.tree]. unfold t at 1. by rewrite lookup_singleton_eq. }
  destruct (@get_data_unterminated _ DemoZk.tree (repeat Byte.x2a 64) t (lit "/n")
    (repeat Byte.x61 64) t Hget) as [_ H];
    [reflexivity|cbn; lia|by apply (bool_decide_unpack _)|].
  exact (H eq_refl).
Defined.
