(* ===== verification/RouteManager.v ===== *)
(** * RouteManager: the local route table

    [src/src/registry/route_manager.cc], [route_manager.h] and the child event of
    [global_watcher]. The first part has the operations as one thread runs them;
    the second interleaves threads at the granularity of the code's atomic
    operations: [atomic_load] and [atomic_store] of the table pointer, the
    request to the registry, and the mutex. A published table is never modified,
    so a pointer to one is its value. *)

From S2P Require Import Prelude CppString ZookeeperClient.

Abbreviation RouteTable := (gmap bytes (list bytes)).

Definition GetRouteNodes (_curRouteTable : RouteTable) (path : bytes) : list bytes :=
  match _curRouteTable !! path with Some nodes => nodes | None => [] end.

Definition UpdateRouteTable `{ZooApi Zk} (_curRouteTable : RouteTable) (path : bytes)
    (client : option Zk) (watch : bool) : RouteTable * option Zk :=
  match client with
  | None => (_curRouteTable, None)
  | Some zk =>
      let '(newNodes, zk) := GetChildren zk (c_str path) watch in
      let newTable := <[path := newNodes]> _curRouteTable in
      (newTable, Some zk)
  end.

(** The events [global_watcher] distinguishes. *)
Inductive zk_event :=
| SessionEvent (connected expired : bool)
| ChildEvent (path : option bytes)
| OtherEvent.

(** [global_watcher]: what it does to the client's connected flag and to the table.
    An expired session is only logged ([LOG(FATAL)] is the project's own stub). *)
Definition global_watcher `{ZooApi Zk} (e : zk_event) (client : option Zk)
    (connected : bool) (table : RouteTable) : bool * RouteTable * option Zk :=
  match e with
  | SessionEvent true _ =>
      (match client with Some _ => true | None => connected end, table, client)
  | SessionEvent false _ => (connected, table, client)
  | ChildEvent (Some path) =>
      let '(table, client) := UpdateRouteTable table path client true in
      (connected, table, client)
  | ChildEvent None | OtherEvent => (connected, table, client)
  end.

(** ** Threads *)

(** Where a thread is in [GetRouteNodes]: before the load, holding a snapshot, or
    returned. *)
Inductive reader_pc := RLoad | RFind (local_table : RouteTable) | RDone (nodes : list bytes).

(** Where a thread is in [UpdateRouteTable]: before [GetChildren], before the lock,
    before the load, before the store, before the unlock, or returned. *)
Inductive updater_pc :=
| UFetch
| ULock (newNodes : list bytes)
| ULoad (newNodes : list bytes)
| UStore (newNodes : list bytes) (oldTable : RouteTable)
| UUnlock
| UDone.

Inductive thread :=
| Reader (path : bytes) (pc : reader_pc)
| Updater (path : bytes) (pc : updater_pc).

Record Shared := mk_Shared {
  _curRouteTable : RouteTable;
  _writeMutex : option nat;
  registry : gmap bytes (list bytes)
}.

Inductive event :=
| ELoaded (i : nat)
| EReturned (i : nat) (path : bytes) (nodes : list bytes)
| EFetched (i : nat) (path : bytes) (nodes : list bytes)
| EStored (i : nat) (path : bytes) (nodes : list bytes)
| EInternal (i : nat)
| ERegistry (path : bytes) (nodes : list bytes).

Definition reader_step (i : nat) (sh : Shared) (path : bytes) (pc : reader_pc) :
    option (event * Shared * reader_pc) :=
  match pc with
  | RLoad => Some (ELoaded i, sh, RFind (_curRouteTable sh))
  | RFind local_table =>
      let nodes := GetRouteNodes local_table path in
      Some (EReturned i path nodes, sh, RDone nodes)
  | RDone _ => None
  end.

Definition updater_step (i : nat) (sh : Shared) (path : bytes) (pc : updater_pc) :
    option (event * Shared * updater_pc) :=
  match pc with
  | UFetch =>
      let nodes := default [] (registry sh !! path) in
      Some (EFetched i path nodes, sh, ULock nodes)
  | ULock nodes =>
      match _writeMutex sh with
      | None => Some (EInternal i, {| sh with _writeMutex := Some i |}, ULoad nodes)
      | Some _ => None
      end
  | ULoad nodes => Some (EInternal i, sh, UStore nodes (_curRouteTable sh))
  | UStore nodes oldTable =>
      Some (EStored i path nodes,
            {| sh with _curRouteTable := <[path := nodes]> oldTable |}, UUnlock)
  | UUnlock => Some (EInternal i, {| sh with _writeMutex := None |}, UDone)
  | UDone => None
  end.

Definition thread_step (i : nat) (sh : Shared) (t : thread) : option (event * Shared * thread) :=
  match t with
  | Reader path pc => '(e, sh, pc) ← reader_step i sh path pc; Some (e, sh, Reader path pc)
  | Updater path pc => '(e, sh, pc) ← updater_step i sh path pc; Some (e, sh, Updater path pc)
  end.

Definition Sys : Type := Shared * list thread.

(** One step of some thread, or a change of a node's children in the registry. *)
Inductive sys_step : Sys -> event -> Sys -> Prop :=
| thread_steps sh ts i t e sh' t' :
    ts !! i = Some t -> thread_step i sh t = Some (e, sh', t') ->
    sys_step (sh, ts) e (sh', <[i := t']> ts)
| registry_steps sh ts path nodes :
    sys_step (sh, ts) (ERegistry path nodes)
      ({| sh with registry := <[path := nodes]> (registry sh) |}, ts).

(** Executions with the events so far. *)
Inductive run (s : Sys) : list event -> Sys -> Prop :=
| run_nil : run s [] s
| run_snoc tr s1 e s2 : run s tr s1 -> sys_step s1 e s2 -> run s (tr ++ [e]) s2.

(** Threads that have not started, on an empty table and a free mutex. *)
Definition fresh (t : thread) : Prop :=
  match t with
  | Reader _ RLoad | Updater _ UFetch => True
  | _ => False
  end.
Definition initial (s : Sys) : Prop :=
  _curRouteTable s.1 = ∅ /\ _writeMutex s.1 = None /\ Forall fresh s.2.

(** ** The abstract table: the stores applied one after the other *)

Definition apply_event (t : RouteTable) (e : event) : RouteTable :=
  match e with EStored _ path nodes => <[path := nodes]> t | _ => t end.
Definition table_of (tr : list event) : RouteTable := fold_left apply_event tr ∅.

Lemma table_of_snoc tr e : table_of (tr ++ [e]) = apply_event (table_of tr) e.
Proof. apply fold_left_app. Qed.

(** The value of a path after some events: that of the last store to it. *)
Fixpoint last_stored (path : bytes) (tr : list event) : option (list bytes) :=
  match tr with
  | [] => None
  | EStored _ p nodes :: tr =>
      match last_stored path tr with
      | Some n => Some n
      | None => if bool_decide (p = path) then Some nodes else None
      end
  | _ :: tr => last_stored path tr
  end.

Lemma fold_lookup tr t path :
  fold_left apply_event tr t !! path =
    match last_stored path tr with Some n => Some n | None => t !! path end.
Proof.
  revert t. induction tr as [|e tr IH]; intros t; [done|]. cbn [fold_left].
  rewrite IH. destruct e; cbn [apply_event last_stored]; try done.
  destruct (last_stored path tr); [done|].
  case_bool_decide; [subst; by rewrite lookup_insert_eq|by rewrite lookup_insert_ne].
Qed.

Lemma table_of_lookup tr path : table_of tr !! path = last_stored path tr.
Proof.
  unfold table_of. rewrite fold_lookup, lookup_empty. by destruct (last_stored path tr).
Qed.

(** ** The invariant *)

(** In the critical section of [UpdateRouteTable]. *)
Definition critical (t : thread) : Prop :=
  match t with
  | Updater _ (ULoad _ | UStore _ _ | UUnlock) => True
  | _ => False
  end.

(** What a thread has seen, given the events so far. *)
Definition thread_inv (cur : RouteTable) (tr : list event) (i : nat) (t : thread) : Prop :=
  match t with
  | Reader _ (RFind snap) =>
      exists tr1 tr2, tr = tr1 ++ ELoaded i :: tr2 /\ snap = table_of tr1
  | Updater _ (UStore _ old) => old = cur
  | _ => True
  end.

Record route_inv (tr : list event) (s : Sys) : Prop := {
  inv_table : _curRouteTable s.1 = table_of tr;
  inv_mutex i : _writeMutex s.1 = Some i <-> exists t, s.2 !! i = Some t /\ critical t;
  inv_threads i t : s.2 !! i = Some t -> thread_inv (_curRouteTable s.1) tr i t
}.

Lemma thread_inv_mono cur tr e i t :
  thread_inv cur tr i t -> thread_inv cur (tr ++ [e]) i t.
Proof.
  destruct t as [p []|p []]; cbn; try done.
  intros (tr1 & tr2 & -> & ->). exists tr1, (tr2 ++ [e]). by rewrite <- app_assoc.
Qed.

(** A thread outside the critical section does not depend on the current table. *)
Lemma thread_inv_outside cur cur' tr i t :
  ~ critical t -> thread_inv cur tr i t -> thread_inv cur' tr i t.
Proof. destruct t as [p []|p []]; cbn; tauto. Qed.

Lemma critical_unique tr s i j t t' :
  route_inv tr s -> s.2 !! i = Some t -> critical t -> s.2 !! j = Some t' -> critical t' -> i = j.
Proof.
  intros Hinv Hi Hc Hj Hc'.
  assert (_writeMutex s.1 = Some i) as H1 by (apply (inv_mutex tr s Hinv); eauto).
  assert (_writeMutex s.1 = Some j) as H2 by (apply (inv_mutex tr s Hinv); eauto).
  congruence.
Qed.

Lemma initial_inv s : initial s -> route_inv [] s.
Proof.
  intros (Ht & Hm & Hf). split; [done| |].
  - intros i. rewrite Hm. split; [done|]. intros (t & Hi & Hc).
    eapply Forall_lookup_1 in Hf; [|done]. by destruct t as [p []|p []].
  - intros i t Hi. eapply Forall_lookup_1 in Hf; [|done]. by destruct t as [p []|p []].
Qed.

(** A step that changes neither the table nor who is in the critical section. *)
Lemma inv_quiet tr sh ts i t e t' :
  route_inv tr (sh, ts) -> ts !! i = Some t -> (critical t <-> critical t') ->
  apply_event (table_of tr) e = table_of tr ->
  thread_inv (_curRouteTable sh) (tr ++ [e]) i t' ->
  route_inv (tr ++ [e]) (sh, <[i := t']> ts).
Proof.
  intros [Ht Hm Hth] Hi Hc He Hnew. cbn in *. split; cbn.
  - by rewrite table_of_snoc, He.
  - intros j. rewrite Hm. destruct (decide (i = j)) as [<-|].
    + rewrite list_lookup_insert_eq by by apply lookup_lt_Some in Hi.
      split; intros (u & Hu & Hcu); simplify_eq; eauto; eexists; (split; [done|tauto]).
    + by rewrite list_lookup_insert_ne.
  - intros j u. rewrite list_lookup_insert_Some. intros [(<- & <- & _)|(? & Hu)]; [done|].
    apply thread_inv_mono. eauto.
Qed.

(** A step of the thread that takes, holds or releases the mutex. *)
Lemma inv_exclusive tr sh ts i t e sh' t' :
  route_inv tr (sh, ts) -> ts !! i = Some t ->
  (critical t \/ _writeMutex sh = None) ->
  (critical t' /\ _writeMutex sh' = Some i \/ ~ critical t' /\ _writeMutex sh' = None) ->
  _curRouteTable sh' = apply_event (table_of tr) e ->
  thread_inv (_curRouteTable sh') (tr ++ [e]) i t' ->
  route_inv (tr ++ [e]) (sh', <[i := t']> ts).
Proof.
  intros Hinv Hi Hex Hnew Hcur Ht'.
  assert (forall j u, ts !! j = Some u -> critical u -> i = j) as Honly.
  { intros j u Hj Hc. destruct Hex as [Hct|Hfree].
    - by apply (critical_unique tr (sh, ts) i j t u).
    - assert (_writeMutex sh = Some j) by (apply (inv_mutex tr _ Hinv); eauto). congruence. }
  pose proof (lookup_lt_Some _ _ _ Hi) as Hlt. destruct Hinv as [Htab Hm Hth]. split; cbn in *.
  - by rewrite table_of_snoc.
  - intros j. destruct (decide (i = j)) as [<-|Hij].
    + rewrite list_lookup_insert_eq by done.
      destruct Hnew as [[Hc ->]|[Hc ->]]; split; try done; try (by eexists).
      intros (u & [= <-] & Hu). done.
    + rewrite list_lookup_insert_ne by done. split.
      * destruct Hnew as [[_ ->]|[_ ->]]; congruence.
      * intros (u & Hu & Hcu). by apply Honly in Hu.
  - intros j u. rewrite list_lookup_insert_Some. intros [(<- & <- & _)|(Hne & Hu)]; [done|].
    apply thread_inv_mono, (thread_inv_outside (_curRouteTable sh)); [|eauto].
    intros Hc. by apply Honly in Hu.
Qed.

Lemma route_inv_step tr s e s' : route_inv tr s -> sys_step s e s' -> route_inv (tr ++ [e]) s'.
Proof.
  intros Hinv Hstep. destruct Hstep as [sh ts i t e sh' t' Hi Hst|sh ts path nodes].
  - pose proof (inv_table _ _ Hinv) as Htab. pose proof (inv_threads _ _ Hinv i t Hi) as Ht.
    assert (critical t -> _writeMutex sh = Some i) as Hown
      by (intros; apply (inv_mutex _ _ Hinv); eauto).
    destruct t as [p pc|p pc], pc; cbn in Hst, Hown;
      try (destruct (_writeMutex sh) eqn:Hfree; cbn in Hst); simplify_eq.
    all: first
      [ eapply inv_quiet; [done|done|done|done|]
      | eapply inv_exclusive; [done|done|cbn; tauto|cbn; tauto|cbn in *; congruence|] ];
      cbn in *; try done.
    all: exists tr, []; by rewrite Htab.
  - destruct Hinv as [Ht Hm Hth]. split; cbn in *.
    + by rewrite table_of_snoc.
    + done.
    + intros i t Hi. apply thread_inv_mono. eauto.
Qed.

Lemma run_inv s tr s' : initial s -> run s tr s' -> route_inv tr s'.
Proof. intros Hs Hr. induction Hr; [by apply initial_inv|by eapply route_inv_step]. Qed.

(** ** Properties *)

(** C6. No update is lost: in every state that readers and updaters reach, however
    their steps interleave, the published table has for each path the nodes of the
    last update stored for it, and no other path. *)
Theorem route_updates_not_lost s tr s' path :
  initial s -> run s tr s' -> _curRouteTable s'.1 !! path = last_stored path tr.
Proof.
  intros Hs Hr. rewrite (inv_table _ _ (run_inv s tr s' Hs Hr)). apply table_of_lookup.
Qed.

(** A read is atomic: what [GetRouteNodes] returns for its path is what the
    table published at its load said, that is the last update stored for the path
    before the load, whatever updates run before it returns. *)
Theorem route_read_atomic s tr s' i path nodes :
  initial s -> run s (tr ++ [EReturned i path nodes]) s' ->
  exists tr1 tr2, tr = tr1 ++ ELoaded i :: tr2 /\ nodes = default [] (last_stored path tr1).
Proof.
  intros Hs Hr. inversion Hr as [Heq|tr0 s1 e s2 Hr' Hstep Heq]; [by destruct tr|].
  apply app_inj_tail in Heq as [-> ->]. pose proof (run_inv _ _ _ Hs Hr') as Hinv.
  inversion Hstep as [sh ts j t e' sh' t' Hj Hst|]; subst.
  pose proof (inv_threads _ _ Hinv j t Hj) as Ht.
  destruct t as [p pc|p pc], pc; cbn in Hst; repeat case_match; simplify_eq.
  destruct Ht as (tr1 & tr2 & -> & ->). exists tr1, tr2. split; [done|].
  unfold GetRouteNodes. by rewrite table_of_lookup; destruct (last_stored path tr1).
Qed.

(** ** Termination *)

Definition returned (t : thread) : Prop :=
  match t with Reader _ (RDone _) | Updater _ UDone => True | _ => False end.

#[export] Instance returned_dec t : Decision (returned t).
Proof. destruct t as [p []|p []]; apply _. Defined.

(** The steps a thread has before it. *)
Definition steps_left (t : thread) : Z :=
  match t with
  | Reader _ RLoad => 2 | Reader _ (RFind _) => 1 | Reader _ (RDone _) => 0
  | Updater _ UFetch => 5 | Updater _ (ULock _) => 4 | Updater _ (ULoad _) => 3
  | Updater _ (UStore _ _) => 2 | Updater _ UUnlock => 1 | Updater _ UDone => 0
  end.

(** The threads' steps among the events: all but the registry's changes. *)
Definition thread_events (tr : list event) : Z :=
  sum_by (fun e => match e with ERegistry _ _ => 0 | _ => 1 end) tr.

Definition is_reader (t : thread) : Z := match t with Reader _ _ => 1 | _ => 0 end.
Definition is_updater (t : thread) : Z := match t with Updater _ _ => 1 | _ => 0 end.

Lemma steps_left_fresh ts :
  Forall fresh ts -> sum_by steps_left ts = 2 * sum_by is_reader ts + 5 * sum_by is_updater ts.
Proof.
  induction 1 as [|t ts Ht _ IH]; [done|]. rewrite !sum_by_cons, IH.
  destruct t as [p []|p []]; cbn in *; done || lia.
Qed.

Lemma steps_left_returned ts : Forall returned ts -> sum_by steps_left ts = 0.
Proof.
  induction 1 as [|t ts Ht _ IH]; [done|]. rewrite sum_by_cons, IH.
  by destruct t as [p []|p []].
Qed.

Lemma thread_step_left i sh t e sh' t' :
  thread_step i sh t = Some (e, sh', t') ->
  steps_left t' = steps_left t - 1 /\ forall p nodes, e <> ERegistry p nodes.
Proof.
  destruct t as [p []|p []]; cbn; try case_match; cbn; try done;
    intros [= <- <- <-]; (split; [done|discriminate]).
Qed.

(** Every step of a thread is one of those it had before it. *)
Lemma run_steps s tr s' :
  run s tr s' -> thread_events tr + sum_by steps_left s'.2 = sum_by steps_left s.2.
Proof.
  unfold thread_events. induction 1 as [|tr s1 e s2 _ IH Hstep]; [cbn; lia|].
  rewrite sum_by_app, <- IH. destruct Hstep as [sh ts i t e sh' t' Hi Hst|]; [|cbn; lia].
  apply thread_step_left in Hst as [Hl He]. cbn [snd] in *.
  rewrite (sum_by_insert steps_left _ _ _ _ Hi), Hl. destruct e; cbn; try lia.
  by destruct (He path nodes).
Qed.

(** Some thread that has not returned has a next step. *)
Lemma some_thread_steps tr s :
  route_inv tr s -> ~ Forall returned s.2 ->
  exists i t e sh' t', s.2 !! i = Some t /\ thread_step i s.1 t = Some (e, sh', t').
Proof.
  intros Hinv Hn.
  assert (forall j t, s.2 !! j = Some t -> is_Some (thread_step j s.1 t) ->
    exists i t e sh' t', s.2 !! i = Some t /\ thread_step i s.1 t = Some (e, sh', t')) as Hsome.
  { intros j t Hj [[[e sh'] t'] Ht]. by exists j, t, e, sh', t'. }
  destruct (_writeMutex s.1) as [j|] eqn:Hm.
  - apply (inv_mutex _ _ Hinv) in Hm as (t & Hj & Hc). apply (Hsome j t Hj).
    by destruct t as [|p []]; try done; eexists.
  - apply not_Forall_Exists in Hn; [|apply _].
    apply Exists_exists in Hn as (t & [j Hj]%list_elem_of_lookup_1 & Hr). apply (Hsome j t Hj).
    destruct t as [p []|p []]; cbn in *; rewrite ?Hm; done || by eexists.
Qed.

(** A run can be continued, without changes of the registry, until all have returned. *)
Lemma can_finish s : initial s -> forall n tr s', sum_by steps_left s'.2 = Z.of_nat n ->
  run s tr s' -> exists tr2 s2, run s (tr ++ tr2) s2 /\ Forall returned s2.2 /\
    thread_events tr2 = zlen tr2.
Proof.
  intros Hs. induction n as [|n IH]; intros tr s' Hn Hr.
  - exists [], s'. rewrite app_nil_r. split; [done|]. split; [|done].
    destruct (decide (Forall returned s'.2)) as [|Hnr]; [done|].
    apply some_thread_steps with (tr := tr) in Hnr as (i & t & e & sh & t' & Hi & Ht);
      [|by apply (run_inv s)].
    apply thread_step_left in Ht as [Hl _].
    pose proof (sum_by_insert steps_left _ _ _ t' Hi) as Hins.
    assert (0 <= sum_by steps_left (<[i:=t']> s'.2)); [|lia].
    apply sum_by_nonneg, Forall_true. by intros [? []|? []].
  - destruct (decide (Forall returned s'.2)) as [Hret|Hnr].
    { apply steps_left_returned in Hret. lia. }
    apply some_thread_steps with (tr := tr) in Hnr as (i & t & e & sh & t' & Hi & Ht);
      [|by apply (run_inv s)].
    pose proof (thread_step_left _ _ _ _ _ _ Ht) as [Hl He]. destruct s' as [sh0 ts]. cbn [fst snd] in *.
    destruct (IH (tr ++ [e]) (sh, <[i:=t']> ts)) as (tr2 & s2 & Hr2 & Hret & Hev).
    + cbn [snd]. pose proof (sum_by_insert steps_left _ _ _ t' Hi). lia.
    + eapply run_snoc; [exact Hr|]. by eapply thread_steps.
    + exists (e :: tr2), s2. rewrite <- app_assoc in Hr2. split; [exact Hr2|]. split; [done|].
      unfold thread_events in *. rewrite sum_by_cons, Hev. destruct e; cbn; try lia.
      by destruct (He path nodes).
Qed.

(** C25. The threads on the route table end. Take any number of readers and updaters,
    with [atomic_load] and [atomic_store] of the table's pointer, the registry's answer
    and each operation of the write mutex as one step each. However the steps
    interleave, and whatever the registry changes meanwhile, the threads together never
    make more than two steps for each reader and five for each updater, and exactly as
    many when all have returned; the run can always be continued until all have
    returned (there is no deadlock), and whenever they have,
    the mutex is free. A reader does not wait for updaters: from any state of the run
    it can return by its own steps alone, whoever holds the mutex, and what it
    returns, if it had not loaded the table yet, are the nodes that the table then
    has for its path. *)
Theorem route_progress s tr s' :
  initial s -> run s tr s' ->
  thread_events tr <= 2 * sum_by is_reader s.2 + 5 * sum_by is_updater s.2 /\
  (Forall returned s'.2 ->
   thread_events tr = 2 * sum_by is_reader s.2 + 5 * sum_by is_updater s.2 /\
   _writeMutex s'.1 = None) /\
  (exists tr2 s2, run s (tr ++ tr2) s2 /\ Forall returned s2.2) /\
  (forall i path pc, s'.2 !! i = Some (Reader path pc) ->
   exists tr2 nodes, run s (tr ++ tr2) (s'.1, <[i := Reader path (RDone nodes)]> s'.2) /\
     zlen tr2 <= 2 /\ (pc = RLoad -> nodes = GetRouteNodes (_curRouteTable s'.1) path)).
Proof.
  intros Hs Hr. pose proof (run_steps _ _ _ Hr) as Hsteps.
  pose proof (run_inv _ _ _ Hs Hr) as Hinv.
  rewrite (steps_left_fresh s.2) in Hsteps by apply Hs.
  assert (0 <= sum_by steps_left s'.2) as H0
    by (apply sum_by_nonneg, Forall_true; by intros [? []|? []]).
  split; [lia|]. split; [|split].
  - intros Hret. rewrite (steps_left_returned _ Hret) in Hsteps. split; [lia|].
    destruct (_writeMutex s'.1) as [j|] eqn:Hm; [|done].
    apply (inv_mutex _ _ Hinv) in Hm as (t & Hj & Hc).
    eapply Forall_lookup_1 in Hret; [|exact Hj]. by destruct t as [|p []].
  - destruct (can_finish s Hs (Z.to_nat (sum_by steps_left s'.2)) tr s' ltac:(lia) Hr)
      as (tr2 & s2 & ? & ? & _). by exists tr2, s2.
  - intros i path pc Hi. destruct s' as [sh ts]. cbn [fst snd] in *.
    assert (forall tr1 snap, run s tr1 (sh, <[i := Reader path (RFind snap)]> ts) ->
      exists e, run s (tr1 ++ [e])
        (sh, <[i := Reader path (RDone (GetRouteNodes snap path))]> ts)) as Hfind.
    { intros tr1 snap Hr1. eexists. eapply run_snoc; [exact Hr1|].
      rewrite <- (list_insert_insert_eq ts i (Reader path (RDone _)) (Reader path (RFind snap))).
      apply (thread_steps _ _ i (Reader path (RFind snap)));
        [|reflexivity]. apply list_lookup_insert_eq. by eapply lookup_lt_Some. }
    destruct pc as [|snap|nodes].
    + destruct (Hfind (tr ++ [ELoaded i]) (_curRouteTable sh)) as [e He].
      { eapply run_snoc; [exact Hr|]. by eapply thread_steps. }
      exists [ELoaded i; e]. eexists. rewrite <- app_assoc in He. by split; [exact He|].
    + destruct (Hfind tr snap) as [e He]; [by rewrite list_insert_id|].
      exists [e]. eexists. by split; [exact He|].
    + exists [], nodes. rewrite app_nil_r, list_insert_id by done. by split.
Qed.

(** ** Executing a schedule *)

(** Run a step of a thread, or change a node's children. *)
Inductive choice := Run (i : nat) | Change (path : bytes) (nodes : list bytes).

Definition choose (s : Sys) (c : choice) : option (event * Sys) :=
  let '(sh, ts) := s in
  match c with
  | Run i =>
      t ← ts !! i; '(e, sh, t) ← thread_step i sh t; Some (e, (sh, <[i := t]> ts))
  | Change path nodes =>
      Some (ERegistry path nodes, ({| sh with registry := <[path := nodes]> (registry sh) |}, ts))
  end.

Fixpoint exec (s : Sys) (tr : list event) (cs : list choice) : option (list event * Sys) :=
  match cs with
  | [] => Some (tr, s)
  | c :: cs => '(e, s) ← choose s c; exec s (tr ++ [e]) cs
  end.

Lemma choose_step s c e s' : choose s c = Some (e, s') -> sys_step s e s'.
Proof.
  destruct s as [sh ts]. destruct c as [i|path nodes]; cbn.
  - destruct (ts !! i) as [t|] eqn:Hi; [|done]. cbn.
    destruct (thread_step i sh t) as [[[e1 sh1] t1]|] eqn:Ht; [|done]. cbn.
    intros [= <- <-]. by econstructor.
  - intros [= <- <-]. constructor.
Qed.

Lemma exec_run s0 tr s cs tr' s' :
  run s0 tr s -> exec s tr cs = Some (tr', s') -> run s0 tr' s'.
Proof.
  revert tr s. induction cs as [|c cs IH]; intros tr s Hr; cbn; [by intros [= <- <-]|].
  destruct (choose s c) as [[e s1]|] eqn:Hc; [|done]. cbn. apply IH.
  econstructor; [done|]. by eapply choose_step.
Qed.

(** The registry is queried before the write mutex is taken, so updates can be
    stored in the opposite order of their queries: there is an execution of a
    first update and a watch-triggered second one after which the table has the
    nodes from before the registry's last change, with no update left to run. *)
Theorem route_stale_overwrite path old new :
  exists s tr s',
    initial s /\ run s tr s' /\ old = default [] (registry s.1 !! path) /\
    registry s'.1 !! path = Some new /\ _curRouteTable s'.1 !! path = Some old /\
    Forall (fun t => t = Updater path UDone) s'.2.
Proof.
  (* 0 queries; the children change; 1 queries and stores; 0 stores *)
  set (schedule := [Run 0; Change path new; Run 1; Run 1; Run 1; Run 1; Run 1;
                    Run 0; Run 0; Run 0; Run 0]).
  set (s := (mk_Shared ∅ None {[ path := old ]}, [Updater path UFetch; Updater path UFetch]) : Sys).
  destruct (exec s [] schedule) as [[tr s']|] eqn:He; [|discriminate].
  exists s, tr, s'. split; [by repeat constructor|].
  split; [by eapply exec_run; [apply run_nil|]|].
  cbn in He. injection He as <- <-. cbn. unfold GetRouteNodes.
  rewrite !lookup_singleton_eq, !lookup_insert_eq. repeat split; repeat constructor.
Qed.

(** ** The threads run the operations *)

(** A thread that runs alone computes what the sequential operation does, with the
    registry's children as the answer of [GetChildren]. *)
Theorem route_thread_alone sh path :
  _writeMutex sh = None ->
  (forall tr, exists tr', exec (sh, [Reader path RLoad]) tr [Run 0; Run 0] =
     Some (tr', (sh, [Reader path (RDone (GetRouteNodes (_curRouteTable sh) path))]))) /\
  (forall `{ZooApi Zk} (zk zk' : Zk) tr watch,
     GetChildren zk (c_str path) watch = (default [] (registry sh !! path), zk') ->
     exists tr', exec (sh, [Updater path UFetch]) tr (Run <$> replicate 5 O) =
       Some (tr', ({| sh with _curRouteTable :=
                        (UpdateRouteTable (_curRouteTable sh) path (Some zk) watch).1 |},
                   [Updater path UDone]))).
Proof.
  intros Hm. destruct sh as [cur m reg]. cbn in Hm. subst m. split; [by eexists|].
  intros Zk api zk zk' tr watch Hc. unfold UpdateRouteTable. cbn in *. rewrite Hc. by eexists.
Qed.

(** ** Witnesses *)

(** An update of a path, and a read of it before the mutex is released. *)
Section RouteWitnesses.

Definition demo_sys (path : bytes) (nodes : list bytes) : Sys :=
  (mk_Shared ∅ None {[ path := nodes ]}, [Updater path UFetch; Reader path RLoad]).
Definition demo_trace (path : bytes) (nodes : list bytes) : list event :=
  [EFetched 0 path nodes; EInternal 0; EInternal 0; EStored 0 path nodes; ELoaded 1].
Definition demo_final (path : bytes) (nodes : list bytes) : Sys :=
  (mk_Shared {[ path := nodes ]} (Some O) {[ path := nodes ]},
   [Updater path UUnlock; Reader path (RDone nodes)]).

Lemma demo_run path nodes :
  initial (demo_sys path nodes) /\
  run (demo_sys path nodes) (demo_trace path nodes ++ [EReturned 1 path nodes])
    (demo_final path nodes).
Proof.
  split; [by repeat constructor|].
  apply (exec_run _ [] (demo_sys path nodes) [Run 0; Run 0; Run 0; Run 0; Run 1; Run 1]);
    [apply run_nil|].
  unfold demo_sys. cbn. unfold GetRouteNodes. by rewrite lookup_singleton_eq, lookup_insert_eq.
Qed.

Lemma route_updates_not_lost_witness :
  _curRouteTable (demo_final (lit "/s/m") [lit "10.0.0.7:8000"]).1 !! lit "/s/m" =
    Some [lit "10.0.0.7:8000"].
Proof.
  destruct (demo_run (lit "/s/m") [lit "10.0.0.7:8000"]) as [Hi Hr].
  etrans; [exact (route_updates_not_lost _ _ _ (lit "/s/m") Hi Hr)|]. reflexivity.
Defined.

Lemma route_read_atomic_witness :
  exists tr1 tr2, demo_trace (lit "/s/m") [lit "10.0.0.7:8000"] = tr1 ++ ELoaded 1 :: tr2 /\
    [lit "10.0.0.7:8000"] = default [] (last_stored (lit "/s/m") tr1).
Proof.
  destruct (demo_run (lit "/s/m") [lit "10.0.0.7:8000"]) as [Hi Hr].
  exact (route_read_atomic _ _ _ _ _ _ Hi Hr).
Defined.

(** From the state in which the updater still holds the mutex. *)
Lemma route_progress_witness :
  let s := demo_sys (lit "/s/m") [lit "10.0.0.7:8000"] in
  let tr := demo_trace (lit "/s/m") [lit "10.0.0.7:8000"] ++
            [EReturned 1 (lit "/s/m") [lit "10.0.0.7:8000"]] in
  thread_events tr <= 7 /\ exists tr2 s2, run s (tr ++ tr2) s2 /\ Forall returned s2.2.
Proof.
  destruct (demo_run (lit "/s/m") [lit "10.0.0.7:8000"]) as [Hi Hr].
  destruct (route_progress _ _ _ Hi Hr) as (Hb & _ & Hend & _). split; [exact Hb|exact Hend].
Defined.

End RouteWitnesses.
