(* ===== verification/Server.v ===== *)
(** * Server: the RPC server

    [src/src/rpc/server.cc], [server.h]. muduo's [Buffer] and the protobuf
    services are code outside the project: interfaces, with the documented
    behaviour of the buffer as laws. What the handlers do to the outside is a
    list of actions. [CallMethod] of a service runs the user's method; the model
    has it run the [done] closure before it returns, or not at all: the closure
    holds [OnMessage]'s own connection parameter by reference, so that it cannot
    be run later. The handlers run one after the other here; the server has four IO
    threads, whose handlers share [_serverCodec] without a lock, and what they do at
    the same time is not modelled. *)

From S2P Require Import Prelude CppString Buffer Wire Proto Message Codec LegacyCodec XRpcCodec CodecFactory Config ZookeeperClient.

(** ** Outside code *)

(** [muduo::net::Buffer]: the readable bytes ([peek()], [readableBytes()]). *)
Class MuduoBuffer (B : Type) := {
  peek : B -> bytes;
  readableBytes : B -> Z;
  retrieve : B -> Z -> B;
  append : B -> bytes -> B
}.
Class MuduoBufferLaws (B : Type) `{MuduoBuffer B} := {
  readable_peek b : readableBytes b = zlen (peek b);
  peek_retrieve b n : 0 <= n <= zlen (peek b) -> peek (retrieve b n) = drop (Z.to_nat n) (peek b);
  peek_append b s : peek (append b s) = peek b ++ s
}.

(** [google::protobuf::Service] and its descriptors: the generated and the user's
    code. [CallMethod] returns the state of the user's world, and the response
    message with which [done] was run, if it was. *)
Class ServiceApi := {
  Service : Type;
  MethodDescriptor : Type;
  PbMessage : Type;
  World : Type;
  service_desc_name : Service -> bytes;
  service_methods : Service -> list MethodDescriptor;
  method_desc_name : MethodDescriptor -> bytes;
  ParseRequest : Service -> MethodDescriptor -> bytes -> option PbMessage;
  SerializeMessage : PbMessage -> option bytes;
  CallMethod : Service -> MethodDescriptor -> PbMessage -> World -> World * option PbMessage
}.

(** ** State and actions *)

Section Server.

Context `{Host} `{Proto RpcHeader} `{Proto RequestProtocol} `{Proto ResponseProtocol}
  `{api : ServiceApi}.

Record ServiceInfo := mk_ServiceInfo {
  service : Service;
  method_map : gmap bytes MethodDescriptor
}.

Record RpcServer := mk_RpcServer {
  service_map : gmap bytes ServiceInfo;
  _serverCodec : option ServerCodec
}.

Definition RpcServer_new : RpcServer := mk_RpcServer ∅ None.

(** What a handler does: on a connection (its number), to the user's code, or to
    the standard output. *)
Inductive action :=
| ASend (conn : nat) (data : bytes)
| AShutdown (conn : nat)
| ACodecCreated
| AInvalidFrame (code : Z)
| ADecodeFailed (code : Z)
| ANoService (service_name : bytes)
| ANoMethod (service_name method_name : bytes)
| ARequestParseError
| ACalled (service_name method_name : bytes)
| ASerializeError
| AEncodeError (code : Z).

#[global] Instance action_eq_dec : EqDecision action.
Proof. solve_decision. Defined.

(** ** Registration *)

Definition NotifyService (srv : RpcServer) (s : Service) : RpcServer :=
  let method_map := fold_left (fun m pmd => emplace (method_desc_name pmd) pmd m)
    (service_methods s) ∅ in
  {| srv with service_map :=
       emplace (service_desc_name s) (mk_ServiceInfo s method_map) (service_map srv) |}.

(** ** Connections and messages *)

Definition OnConnection (conn : nat) (connected : bool) : list action :=
  if negb connected then [AShutdown conn] else [].

(** [_serverCodec] is dereferenced without a check. *)
Definition SendRpcResponse (srv : RpcServer) (conn : nat) (response : PbMessage) :
    outcome (list action) :=
  match SerializeMessage response with
  | None => Returns [ASerializeError]
  | Some response_str =>
      let resp_msg := {| ProtocolMessage_default with
        body := response_str; message_type := kResponse |} in
      match _serverCodec srv with
      | None => Undefined
      | Some codec =>
          let '(ret, _, out) := ZeroCopyEncode codec resp_msg empty_buffer in
          if negb (ret =? kCodecOk) then Returns [AEncodeError ret]
          else Returns [ASend conn (ToString out)]
      end
  end.

(** Step 4 of [OnMessage]: the dispatch of one decoded message. *)
Definition dispatch (srv : RpcServer) (conn : nat) (msg : ProtocolMessage) (w : World) :
    outcome (World * list action) :=
  match service_map srv !! service_name msg with
  | None => Returns (w, [ANoService (service_name msg)])
  | Some info =>
      match method_map info !! method_name msg with
      | None => Returns (w, [ANoMethod (service_name msg) (method_name msg)])
      | Some method =>
          match ParseRequest (service info) method (body msg) with
          | None => Returns (w, [ARequestParseError])
          | Some request =>
              let '(w, done) := CallMethod (service info) method request w in
              match done with
              | None => Returns (w, [ACalled (service_name msg) (method_name msg)])
              | Some response =>
                  acts ← SendRpcResponse srv conn response;
                  mret (w, ACalled (service_name msg) (method_name msg) :: acts)
              end
          end
      end
  end.

(** Step 3 of [OnMessage]: the loop over the frames in the buffer. *)
Fixpoint OnMessage_loop `{MuduoBuffer B} (fuel : nat) (srv : RpcServer) (codec : ServerCodec)
    (conn : nat) (buffer : B) (w : World) : outcome (B * World * list action) :=
  match fuel with
  | O => Returns (buffer, w, [])
  | S fuel =>
      if readableBytes buffer >? 0 then
        let nbuf := of_bytes (peek buffer) in
        let frame_size := CheckAndPick codec nbuf in
        if frame_size =? 0 then Returns (buffer, w, [])
        else if frame_size <? 0 then
          Returns (buffer, w, [AInvalidFrame frame_size; AShutdown conn])
        else
          let '(decode_ret, nbuf, msg) := ZeroCopyDecode codec nbuf ProtocolMessage_default in
          if negb (decode_ret =? kCodecOk) then
            Returns (buffer, w, [ADecodeFailed decode_ret; AShutdown conn])
          else
            let buffer := retrieve buffer frame_size in
            '(w, acts) ← dispatch srv conn msg w;
            '(buffer, w, acts') ← OnMessage_loop fuel srv codec conn buffer w;
            mret (buffer, w, acts ++ acts')
      else Returns (buffer, w, [])
  end.

(** The loop consumes at least a byte per round, so the buffer's size is enough
    fuel. *)
Definition OnMessage `{MuduoBuffer B} (srv : RpcServer) (conn : nat) (buffer : B) (w : World) :
    outcome (RpcServer * B * World * list action) :=
  let '(srv, acts) :=
    match _serverCodec srv with
    | None =>
        let probe := of_bytes (peek buffer) in
        ({| srv with _serverCodec := Some (CreateServerCodec_in probe) |}, [ACodecCreated])
    | Some _ => (srv, [])
    end in
  match _serverCodec srv with
  | None => Undefined
  | Some codec =>
      '(buffer, w, acts') ← OnMessage_loop (S (length (peek buffer))) srv codec conn buffer w;
      mret (srv, buffer, w, acts ++ acts')
  end.

End Server.

(** ** Concrete instances of the outside code *)

Module DemoServer.

(** A buffer that is its readable bytes. *)
#[export] Instance bytes_buffer : MuduoBuffer bytes := {|
  peek b := b;
  readableBytes b := zlen b;
  retrieve b n := drop (Z.to_nat n) b;
  append b s := b ++ s |}.
#[export] Instance bytes_buffer_laws : MuduoBufferLaws bytes.
Proof. by split. Qed.

(** Services with a name and method names; every method answers with its request
    and counts its calls. *)
#[export] Instance echo : ServiceApi := {|
  Service := bytes * list bytes;
  MethodDescriptor := bytes;
  PbMessage := bytes;
  World := nat;
  service_desc_name s := s.1;
  service_methods s := s.2;
  method_desc_name m := m;
  ParseRequest _ _ b := Some b;
  SerializeMessage b := Some b;
  CallMethod _ _ request calls := (S calls, Some request) |}.

Definition user_service : bytes * list bytes :=
  (lit "UserServiceRpc", [lit "Login"; lit "Register"]).

End DemoServer.
