(* ===== verification/ServerSpec.v ===== *)
(** * ServerSpec: the server against an abstract specification

    The specification cuts a byte stream into frames with the codec's verdicts
    and serves the frames one by one. The receive loop is shown to implement it,
    whatever the chunks in which the stream arrives. *)

From S2P Require Import Prelude CppString Buffer Wire Proto Message Codec LegacyCodec XRpcCodec CodecFactory Server.

(** ** Frames of a stream *)

Section Frames.

Context (codec : ServerCodec) (ok : bytes -> Prop) `{!FrameCodec codec ok}.

Definition verdict (s : bytes) : Z := CheckAndPick codec (of_bytes s).

Fixpoint split_frames (fuel : nat) (s : bytes) : list bytes * bytes :=
  match fuel with
  | O => ([], s)
  | S fuel =>
      if verdict s <=? 0 then ([], s)
      else
        let n := Z.to_nat (verdict s) in
        let '(fs, rest) := split_frames fuel (drop n s) in (take n s :: fs, rest)
  end.

(** The complete frames at the start of a stream, and what follows them. *)
Definition frames (s : bytes) : list bytes * bytes := split_frames (length s) s.

Lemma verdict_le s : verdict s <= zlen s.
Proof. pose proof (check_le (of_bytes s) (of_bytes_wf s)) as H. by rewrite of_bytes_contents in H. Qed.

Lemma split_frames_fuel n n' s :
  (length s <= n)%nat -> (length s <= n')%nat -> split_frames n s = split_frames n' s.
Proof.
  revert n' s. pose proof verdict_le as Hle. induction n as [|n IH]; intros n' s Hn Hn'.
  - destruct s; [|cbn in *; lia]. destruct n'; [done|]. cbn. specialize (Hle []). cbn in Hle.
    by rewrite (proj2 (Z.leb_le _ _)).
  - destruct n' as [|n'].
    + destruct s; [|cbn in *; lia]. cbn. specialize (Hle []). cbn in Hle.
      by rewrite (proj2 (Z.leb_le _ _)).
    + cbn. case_if; [done|]. rewrite (IH n'); [done|rewrite length_drop; lia..].
Qed.

Lemma frames_stop s : verdict s <= 0 -> frames s = ([], s).
Proof.
  intros Hv. unfold frames. destruct (length s); [done|]. cbn.
  by rewrite (proj2 (Z.leb_le _ _)).
Qed.

Lemma frames_cons s :
  0 < verdict s ->
  let n := Z.to_nat (verdict s) in
  frames s = (take n s :: (frames (drop n s)).1, (frames (drop n s)).2).
Proof.
  intros Hv n. pose proof (verdict_le s). unfold frames at 1.
  destruct s as [|b s]; [cbn in *; lia|]. cbn [length split_frames].
  rewrite (proj2 (Z.leb_gt _ _)) by done. fold n.
  rewrite (split_frames_fuel _ (length (drop n (b :: s))));
    [|rewrite length_drop; cbn [length]; lia|done].
  fold (frames (drop n (b :: s))). by destruct (frames (drop n (b :: s))).
Qed.

(** Induction over the frames of a stream. *)
Lemma stream_ind (P : bytes -> Prop) :
  (forall s, verdict s <= 0 -> P s) ->
  (forall s, 0 < verdict s -> P (drop (Z.to_nat (verdict s)) s) -> P s) ->
  forall s, P s.
Proof.
  intros Hstop Hcons s. remember (length s) as n eqn:Hn. revert s Hn.
  induction (lt_wf n) as [n _ IH]. intros s ->.
  destruct (Z.lt_ge_cases 0 (verdict s)) as [Hv|]; [|by apply Hstop].
  apply Hcons; [done|]. pose proof (verdict_le s).
  apply (IH (length (drop (Z.to_nat (verdict s)) s))); [|done]. rewrite length_drop. lia.
Qed.

Lemma frames_concat s : concat (frames s).1 ++ (frames s).2 = s.
Proof.
  induction s as [s Hv|s Hv IH] using stream_ind; [by rewrite frames_stop|].
  rewrite frames_cons by done. cbn [fst snd concat]. rewrite <- app_assoc, IH. apply take_drop.
Qed.

Lemma frames_rest s : verdict (frames s).2 <= 0.
Proof.
  induction s as [s Hv|s Hv IH] using stream_ind; [by rewrite frames_stop|].
  by rewrite frames_cons.
Qed.

(** More bytes do not change the frames that are complete. *)
Lemma frames_app x y :
  frames (x ++ y) =
    (if verdict (frames x).2 =? 0
     then ((frames x).1 ++ (frames ((frames x).2 ++ y)).1, (frames ((frames x).2 ++ y)).2)
     else ((frames x).1, (frames x).2 ++ y)).
Proof.
  induction x as [x Hv|x Hv IH] using stream_ind.
  - rewrite (frames_stop x) by done. cbn [fst snd app]. case_if as E.
    + by destruct (frames (x ++ y)).
    + rewrite frames_stop; [done|]. unfold verdict in *. rewrite check_stable; lia.
  - assert (verdict (x ++ y) = verdict x) as Hs by (unfold verdict in *; rewrite check_stable; lia).
    pose proof (verdict_le x). rewrite (frames_cons (x ++ y)), (frames_cons x) by lia.
    rewrite Hs, take_app_le, drop_app_le, IH by lia. cbn [fst snd]. by case_if.
Qed.

End Frames.

(** ** Serving frames *)

Section Serve.

Context `{Host} `{Proto RpcHeader} `{Proto RequestProtocol} `{Proto ResponseProtocol}
  `{api : ServiceApi} `{MuduoBufferLaws B}.
Context (codec : ServerCodec) (ok : bytes -> Prop) `{!FrameCodec codec ok}.
Context (srv : RpcServer) (Hcodec : _serverCodec srv = Some codec) (conn : nat).

(** Decode and dispatch frame after frame; a frame that does not decode, and those
    after it, are left. *)
Fixpoint serve_frames (fs : list bytes) (w : World) : outcome (list bytes * World * list action) :=
  match fs with
  | [] => mret ([], w, [])
  | f :: fs' =>
      let '(ret, msg) := decode_frame codec f in
      if ret =? kCodecOk then
        '(w, a) ← dispatch srv conn msg w;
        '(todo, w, a') ← serve_frames fs' w;
        mret (todo, w, a ++ a')
      else mret (fs, w, [ADecodeFailed ret; AShutdown conn])
  end.

(** The specification of the receive loop: the bytes left, and the actions. *)
Definition serve (s : bytes) (w : World) : outcome (bytes * World * list action) :=
  let '(fs, rest) := frames codec s in
  '(todo, w, a) ← serve_frames fs w;
  let v := verdict codec rest in
  mret (concat todo ++ rest, w,
        a ++ if bool_decide (todo = []) && (v <? 0) then [AInvalidFrame v; AShutdown conn] else []).

Definition shutdowns (a : list action) : Prop := AShutdown conn ∈ a.

(** With a codec there is no null dereference, and dispatching never shuts the
    connection down. *)
Lemma dispatch_total msg w :
  exists w' a, dispatch srv conn msg w = Returns (w', a) /\ ~ shutdowns a.
Proof.
  assert (forall r, exists a, SendRpcResponse srv conn r = Returns a /\ ~ shutdowns a) as Hsend.
  { intros r. unfold SendRpcResponse. rewrite Hcodec. destruct (SerializeMessage r);
      [destruct (ZeroCopyEncode _ _ _) as [[ret m] out]; case_if|];
      (eexists; split; [reflexivity|]); by intros [[=]|Hin%elem_of_nil]%elem_of_cons. }
  unfold dispatch, shutdowns. repeat case_match; try (do 2 eexists; split; [reflexivity|];
    by intros [[=]|Hin%elem_of_nil]%elem_of_cons).
  destruct (Hsend p0) as (a & -> & Ha). do 2 eexists. split; [reflexivity|].
  by intros [[=]|Hin]%elem_of_cons.
Qed.

Lemma serve_frames_total fs w :
  exists todo w' a, serve_frames fs w = Returns (todo, w', a) /\ (todo = [] <-> ~ shutdowns a).
Proof.
  revert w. induction fs as [|f fs IH]; intros w; cbn.
  { do 3 eexists. split; [reflexivity|]. split; [|done]. intros _ Hin. by apply elem_of_nil in Hin. }
  destruct (decode_frame codec f) as [ret msg]. case_if.
  - destruct (dispatch_total msg w) as (w1 & a1 & -> & Ha1). cbn.
    destruct (IH w1) as (todo & w2 & a2 & -> & Hl). cbn. do 3 eexists. split; [reflexivity|].
    unfold shutdowns in *. rewrite elem_of_app. tauto.
  - do 3 eexists. split; [reflexivity|]. split; [done|]. intros Hn. destruct Hn.
    unfold shutdowns. rewrite !elem_of_cons. auto.
Qed.

Lemma serve_total s w : exists rest w' a, serve s w = Returns (rest, w', a).
Proof.
  unfold serve. destruct (frames codec s) as [fs rest].
  destruct (serve_frames_total fs w) as (todo & w' & a & -> & _). by do 3 eexists.
Qed.

(** Serving a stream whose first frame is complete. *)
Lemma serve_cons s w :
  0 < verdict codec s ->
  let n := Z.to_nat (verdict codec s) in
  serve s w =
    (let '(ret, msg) := decode_frame codec (take n s) in
     if ret =? kCodecOk then
       '(w, a) ← dispatch srv conn msg w;
       '(rest, w, a') ← serve (drop n s) w;
       mret (rest, w, a ++ a')
     else mret (s, w, [ADecodeFailed ret; AShutdown conn])).
Proof.
  intros Hv n. unfold serve at 1. rewrite (frames_cons codec ok) by done. fold n.
  cbn [serve_frames]. destruct (decode_frame codec (take n s)) as [ret msg]. case_if.
  - destruct (dispatch_total msg w) as (w1 & a1 & -> & _). cbn. unfold serve.
    destruct (frames codec (drop n s)) as [fs rest] eqn:Ef. cbn [fst snd].
    destruct (serve_frames_total fs w1) as (todo & w2 & a2 & -> & _). cbn.
    by rewrite <- app_assoc.
  - cbn. rewrite <- app_assoc.
    pose proof (frames_concat codec ok (drop n s)) as Hc. rewrite Hc, take_drop. done.
Qed.

Lemma serve_stop s w :
  verdict codec s <= 0 ->
  serve s w = Returns (s, w, if verdict codec s <? 0
                             then [AInvalidFrame (verdict codec s); AShutdown conn] else []).
Proof. intros Hv. unfold serve. rewrite (frames_stop codec) by done. done. Qed.

(** The receive loop implements the specification. *)
Lemma loop_serve s : forall fuel (buffer : B) w,
  peek buffer = s -> (length s < fuel)%nat -> Forall ok (frames codec s).1 ->
  exists buffer' w' a, OnMessage_loop fuel srv codec conn buffer w = Returns (buffer', w', a) /\
    serve s w = Returns (peek buffer', w', a).
Proof.
  induction s as [s Hv|s Hv IH] using (stream_ind codec ok); intros [|fuel] buffer w Hs Hf Hok;
    try lia; cbn [OnMessage_loop]; rewrite readable_peek, Hs.
  - rewrite serve_stop by done. unfold verdict in *. repeat case_if; try lia;
      try (exists buffer; do 2 eexists; split; [reflexivity|]; by rewrite Hs).
    destruct s; [|cbn [length] in *; lia].
    by rewrite check_nil in Hif0.
  - pose proof (verdict_le codec ok s) as Hle. rewrite (proj2 (Z.gtb_lt _ _)) by lia.
    rewrite (frames_cons codec ok) in Hok by done. cbn [fst] in Hok. inversion_clear Hok.
    rewrite serve_cons by done. unfold verdict in *.
    destruct (decode_local (of_bytes s) ProtocolMessage_default (of_bytes_wf s) Hv)
      as (b' & Hdec & _); [by rewrite of_bytes_contents|].
    rewrite of_bytes_contents in Hdec. rewrite Hdec.
    destruct (decode_frame codec (take _ s)) as [ret msg]. cbn [fst snd].
    rewrite (proj2 (Z.eqb_neq _ _)), (proj2 (Z.ltb_ge _ _)) by lia.
    destruct (ret =? kCodecOk); cbn [negb].
    + destruct (dispatch_total msg w) as (w1 & a1 & -> & _). cbn [mbind outcome_bind].
      set (n := CheckAndPick codec (of_bytes s)) in *.
      assert (peek (retrieve buffer n) = drop (Z.to_nat n) s) as Hp
        by (rewrite peek_retrieve by (rewrite Hs; lia); by rewrite Hs).
      destruct (IH fuel (retrieve buffer n) w1 Hp) as (buf' & w' & a' & -> & ->);
        [rewrite length_drop; lia|done|]. cbn. by do 3 eexists.
    + exists buffer. do 2 eexists. split; [reflexivity|]. by rewrite Hs.
Qed.

(** ** Two segments *)

Lemma serve_frames_app fs fs' w :
  exists todo w1 a1, serve_frames fs w = Returns (todo, w1, a1) /\
    serve_frames (fs ++ fs') w =
      (if bool_decide (todo = []) then
         '(todo', w2, a2) ← serve_frames fs' w1; mret (todo', w2, a1 ++ a2)
       else mret (todo ++ fs', w1, a1)).
Proof.
  revert w. induction fs as [|f fs IH]; intros w; cbn.
  { do 3 eexists. split; [reflexivity|]. cbn.
    by destruct (serve_frames_total fs' w) as (? & ? & ? & -> & _). }
  destruct (decode_frame codec f) as [ret msg]. case_if.
  - destruct (dispatch_total msg w) as (w1 & a1 & -> & _). cbn.
    destruct (IH w1) as (todo & w2 & a2 & -> & ->). cbn. do 3 eexists. split; [reflexivity|].
    case_bool_decide; [|done].
    destruct (serve_frames_total fs' w2) as (? & ? & ? & -> & _). cbn. by rewrite app_assoc.
  - do 3 eexists. split; [reflexivity|]. by rewrite bool_decide_false.
Qed.

(** When the whole of two segments is served without a shutdown, serving the first
    and then the second after what the first left is the same. *)
Lemma serve_app x y w rest w' a :
  serve (x ++ y) w = Returns (rest, w', a) -> ~ shutdowns a ->
  exists rest1 w1 a1 a2, serve x w = Returns (rest1, w1, a1) /\
    serve (rest1 ++ y) w1 = Returns (rest, w', a2) /\ a = a1 ++ a2 /\
    verdict codec rest1 = 0 /\
    (frames codec (x ++ y)).1 = (frames codec x).1 ++ (frames codec (rest1 ++ y)).1.
Proof.
  unfold serve. rewrite (frames_app codec ok). pose proof (frames_rest codec ok x) as Hr.
  destruct (frames codec x) as [fs r]. cbn [fst snd] in *.
  destruct (frames codec (r ++ y)) as [fs2 r2] eqn:E2. cbn [fst snd].
  destruct (verdict codec r =? 0) eqn:E; cbn [fst snd].
  - destruct (serve_frames_app fs fs2 w) as (todo & w1 & a1 & Hs1 & ->).
    rewrite Hs1. cbn. destruct (serve_frames_total fs w) as (l & w1' & a1' & Hs1' & Hsd).
    rewrite Hs1 in Hs1'. injection Hs1' as <- <- <-.
    case_bool_decide as Hl.
    + destruct (serve_frames_total fs2 w1) as (todo2 & w2 & a2 & Hs2 & _). rewrite Hs2. cbn.
      intros [= <- <- <-] Hns. rewrite Hl. cbn.
      replace (verdict codec r <? 0) with false by lia.
      do 4 eexists. split; [reflexivity|]. rewrite E2, Hs2. cbn. split; [reflexivity|].
      rewrite app_nil_r, <- app_assoc. split; [done|]. split; [lia|done].
    + cbn. intros [= <- <- <-] Hns. destruct Hl, Hsd as [_ Hsd]. apply Hsd.
      unfold shutdowns in *. rewrite elem_of_app in Hns. tauto.
  - destruct (serve_frames_total fs w) as (todo & w1 & a1 & -> & Hsd). cbn.
    intros [= <- <- <-] Hns. destruct Hns. unfold shutdowns. rewrite elem_of_app.
    case_bool_decide as Hl; [|left; destruct Hsd as [_ Hsd]; by destruct (decide (AShutdown conn ∈ a1));
      [|destruct Hl; apply Hsd]].
    right. assert (verdict codec (r ++ y) = verdict codec r) as Hst
      by (unfold verdict in *; rewrite check_stable; lia).
    rewrite Hst. replace (verdict codec r <? 0) with true by lia. cbn.
    rewrite !elem_of_cons. auto.
Qed.

End Serve.

(** ** Properties *)

Section ServerProperties.

Context `{Host} `{Proto RpcHeader} `{Proto RequestProtocol} `{Proto ResponseProtocol}
  `{api : ServiceApi} `{MuduoBufferLaws B}.

(** The codec a message is handled with: the server's, or else the one detected on
    what the buffer holds. *)
Definition codec_for (srv : RpcServer) (buffer : B) : ServerCodec :=
  default (CreateServerCodec_in (of_bytes (peek buffer))) (_serverCodec srv).

Definition with_codec (srv : RpcServer) (c : ServerCodec) : RpcServer :=
  {| srv with _serverCodec := Some c |}.

Lemma with_codec_id srv c : _serverCodec srv = Some c -> with_codec srv c = srv.
Proof. destruct srv. cbn. by intros ->. Qed.

Lemma OnMessage_spec (srv : RpcServer) conn (buffer : B) w :
  OnMessage srv conn buffer w =
    ('(buffer', w', a) ← OnMessage_loop (S (length (peek buffer)))
        (with_codec srv (codec_for srv buffer)) (codec_for srv buffer) conn buffer w;
     Returns (with_codec srv (codec_for srv buffer), buffer', w',
              (match _serverCodec srv with None => [ACodecCreated] | Some _ => [] end) ++ a)).
Proof.
  unfold OnMessage, codec_for. destruct (_serverCodec srv) as [c|] eqn:Hc; cbn.
  - rewrite Hc, with_codec_id by done. done.
  - done.
Qed.

(** Whatever the codec decides, the receive loop returns, with a rest of the
    buffer's bytes. *)
Lemma loop_returns (srv : RpcServer) codec ok `{!FrameCodec codec ok} conn :
  _serverCodec srv = Some codec -> forall fuel (buffer : B) w,
  exists buffer' w' a, OnMessage_loop fuel srv codec conn buffer w = Returns (buffer', w', a) /\
    exists n, peek buffer' = drop n (peek buffer).
Proof.
  intros Hc. induction fuel as [|fuel IH]; intros buffer w.
  { do 3 eexists. split; [reflexivity|]. by exists 0%nat. }
  assert (forall acts, exists (buffer' : B) (w' : World) (a : list action),
    Returns (buffer, w, acts) = Returns (buffer', w', a) /\
    exists n, peek buffer' = drop n (peek buffer)) as Hstay.
  { intros acts. do 3 eexists. split; [reflexivity|]. by exists 0%nat. }
  cbn [OnMessage_loop].
  pose proof (check_le _ (of_bytes_wf (peek buffer))) as Hle. rewrite of_bytes_contents in Hle.
  destruct (_ >? 0); [|apply Hstay]. case_if; [apply Hstay|]. case_if; [apply Hstay|].
  destruct (ZeroCopyDecode _ _ _) as [[ret ?] msg]. destruct (negb _); [apply Hstay|].
  destruct (dispatch_total codec srv Hc conn msg w) as (w1 & a1 & -> & _). cbn [mbind outcome_bind].
  destruct (IH (retrieve buffer (CheckAndPick codec (of_bytes (peek buffer)))) w1)
    as (b & w2 & a2 & -> & k & Hk). cbn. do 3 eexists. split; [reflexivity|].
  rewrite peek_retrieve, drop_drop in Hk by lia. by eexists.
Qed.

(** The frames at the start of [s] can be decoded one by one. With the XRPC codec
    they always can. With the Legacy codec no complete frame may have a [HeaderLen]
    above its [TotalLen] - 4: the decoder does not check this, and reads the header
    of such a frame past its end, from the frames after it. *)
Definition local_frames (codec : ServerCodec) (s : bytes) : Prop :=
  codec = XRpcServerCodec \/
  codec = LegacyServerCodec /\
    Forall (fun f => header_field f <= total_field f - 4) (frames LegacyServerCodec s).1.

Lemma local_frames_ok codec s :
  local_frames codec s -> exists ok, FrameCodec codec ok /\ Forall ok (frames codec s).1.
Proof.
  intros [->|[-> Hok]].
  - exists (fun _ => True). split; [apply XRpc_frames|by apply Forall_true].
  - exists legacy_frame_ok. split; [apply Legacy_frames|exact Hok].
Qed.

(** C1. The message handler implements the frame specification, with either codec.
    Whatever is in the buffer, on the first message or a later one, it returns (no
    null codec is dereferenced, and the loop over the buffer ends) with a rest of
    the buffer's bytes left. Moreover it does exactly what serving the complete
    frames of the buffer one after the other, each decoded by itself, does: the
    same calls, sends and shutdowns in the same order, with the bytes of the
    frames that were served taken off the buffer. With the XRPC codec this is
    unconditional; with the Legacy codec it is shown for the buffers in which no
    complete frame has a [HeaderLen] above its [TotalLen] - 4, because the decoder
    reads the header of such a frame from the frames after it. *)
Theorem server_onmessage_refines srv conn (buffer : B) w :
  let codec := codec_for srv buffer in
  codec = XRpcServerCodec \/ codec = LegacyServerCodec ->
  exists buffer' w' a,
    OnMessage srv conn buffer w =
      Returns (with_codec srv codec, buffer', w',
               (match _serverCodec srv with None => [ACodecCreated] | Some _ => [] end) ++ a) /\
    (exists n, peek buffer' = drop n (peek buffer)) /\
    (local_frames codec (peek buffer) ->
     serve codec (with_codec srv codec) conn (peek buffer) w = Returns (peek buffer', w', a)).
Proof.
  intros c Hc. rewrite OnMessage_spec. fold c.
  assert (exists ok, FrameCodec c ok) as [ok0 ?].
  { destruct Hc as [-> | ->]; eexists; [apply XRpc_frames|apply Legacy_frames]. }
  destruct (loop_returns (with_codec srv c) c ok0 conn eq_refl (S (length (peek buffer))) buffer w)
    as (b & w' & a & Hl & Hn).
  rewrite Hl. exists b, w', a. split; [done|]. split; [done|].
  intros (ok & ? & Hok)%local_frames_ok.
  destruct (loop_serve c ok (with_codec srv c) eq_refl
    conn (peek buffer) (S (length (peek buffer))) buffer w eq_refl) as (b' & w2 & a2 & Hl2 & Hs);
    [lia|done|]. rewrite Hl in Hl2. by injection Hl2 as -> -> ->.
Qed.

(** The segments of a connection's stream, each appended to the connection's
    buffer and handled, one after the other. *)
Fixpoint deliver (srv : RpcServer) (conn : nat) (buffer : B) (segments : list bytes) (w : World) :
    outcome (RpcServer * B * World * list action) :=
  match segments with
  | [] => mret (srv, buffer, w, [])
  | s :: segments =>
      '(srv, buffer, w, a) ← OnMessage srv conn (append buffer s) w;
      '(srv, buffer, w, a') ← deliver srv conn buffer segments w;
      mret (srv, buffer, w, a ++ a')
  end.

Section Deliver.

Context (codec : ServerCodec) (ok : bytes -> Prop) `{!FrameCodec codec ok}.
Context (srv : RpcServer) (Hcodec : _serverCodec srv = Some codec) (conn : nat).

Lemma codec_for_set (buffer : B) : codec_for srv buffer = codec.
Proof. unfold codec_for. by rewrite Hcodec. Qed.

Lemma OnMessage_serve (buffer : B) w :
  Forall ok (frames codec (peek buffer)).1 ->
  exists buffer' w' a, OnMessage srv conn buffer w = Returns (srv, buffer', w', a) /\
    serve codec srv conn (peek buffer) w = Returns (peek buffer', w', a).
Proof.
  intros Hok. rewrite OnMessage_spec, codec_for_set, with_codec_id by done. rewrite Hcodec.
  destruct (loop_serve codec ok srv Hcodec conn (peek buffer) (S (length (peek buffer)))
    buffer w eq_refl) as (b' & w' & a & -> & ->); [lia|done|]. by do 3 eexists.
Qed.

Lemma deliver_serve segments : forall (buffer : B) w rest w' a,
  verdict codec (peek buffer) = 0 ->
  Forall ok (frames codec (peek buffer ++ concat segments)).1 ->
  serve codec srv conn (peek buffer ++ concat segments) w = Returns (rest, w', a) ->
  ~ shutdowns conn a ->
  exists buffer', deliver srv conn buffer segments w = Returns (srv, buffer', w', a) /\
    peek buffer' = rest.
Proof.
  induction segments as [|s segments IH]; intros buffer w rest w' a Hv Hok Hserve Hns;
    cbn [concat deliver] in *.
  - rewrite app_nil_r in *. rewrite (serve_stop codec) in Hserve by lia.
    rewrite Hv in Hserve. injection Hserve as <- <- <-. by exists buffer.
  - rewrite app_assoc, <- peek_append in Hok, Hserve.
    destruct (serve_app codec ok srv Hcodec conn _ _ _ _ _ _ Hserve Hns)
      as (rest1 & w1 & a1 & a2 & Hs1 & Hs2 & -> & Hv1 & Hfr).
    rewrite Hfr in Hok. apply Forall_app in Hok as [Hok1 Hok2].
    destruct (OnMessage_serve (append buffer s) w Hok1) as (b1 & w1' & a1' & -> & Hs1').
    rewrite Hs1 in Hs1'. injection Hs1' as -> <- <-. cbn [mbind outcome_bind].
    destruct (IH b1 w1 rest w' a2) as (b' & -> & <-); try done.
    { unfold shutdowns in *. rewrite elem_of_app in Hns. tauto. }
    by exists b'.
Qed.

End Deliver.

(** C5. How TCP cuts a connection's stream into segments does not matter, once the
    server has its codec: if handling the whole stream at once, on an empty buffer,
    does not shut the connection down, then delivering it in any segments (with
    message boundaries anywhere, several frames in one segment, frames over several
    segments) calls the same methods, sends the same responses in the same order,
    and leaves the same bytes in the buffer. With the XRPC codec there is no other
    condition; with the Legacy codec it is shown for the streams in which no
    complete frame has a [HeaderLen] above its [TotalLen] - 4 (for other streams
    the segments do matter: [legacy_overlong_segments_matter]). *)
Theorem server_fragmentation_invariance srv codec conn (buffer whole : B) segments w w' a :
  _serverCodec srv = Some codec -> peek buffer = [] ->
  local_frames codec (concat segments) ->
  OnMessage srv conn (append buffer (concat segments)) w = Returns (srv, whole, w', a) ->
  AShutdown conn ∉ a ->
  exists buffer', deliver srv conn buffer segments w = Returns (srv, buffer', w', a) /\
    peek buffer' = peek whole.
Proof.
  intros Hc Hp (ok & ? & Hok)%local_frames_ok Hon Hns.
  assert (peek (append buffer (concat segments)) = concat segments) as Hw
    by (by rewrite peek_append, Hp).
  destruct (OnMessage_serve codec ok srv Hc conn (append buffer (concat segments)) w)
    as (b & w1 & a1 & Hon' & Hs); [by rewrite Hw|]. rewrite Hon in Hon'.
  injection Hon' as <- <- <-. rewrite Hw in Hs.
  apply (deliver_serve codec ok); rewrite ?Hp; try done. apply check_nil.
Qed.

End ServerProperties.

(** ** Witnesses *)

Section ServerSpecWitnesses.

Import Demo DemoServer.
#[local] Existing Instances RpcHeader_demo RequestProtocol_demo ResponseProtocol_demo.
#[local] Instance little : Host := Little.

Definition demo_server : RpcServer := NotifyService RpcServer_new user_service.
Definition demo_xrpc_server : RpcServer := with_codec demo_server XRpcServerCodec.

Definition demo_stream : bytes :=
  ToString (XRpc_ClientEncode ClientContext_default demo_request empty_buffer).2.

Lemma demo_detected : codec_for demo_server demo_stream = XRpcServerCodec.
Proof.
  unfold codec_for. cbn [demo_server NotifyService RpcServer_new _serverCodec default from_option].
  rewrite detect_spec by apply of_bytes_wf. rewrite of_bytes_contents.
  by replace (_ && _) with true by (vm_compute; reflexivity).
Qed.

Definition demo_legacy_stream : bytes :=
  ToString (Legacy_ClientEncode ClientContext_default demo_request empty_buffer).2.

Lemma demo_detected_legacy : codec_for demo_server demo_legacy_stream = LegacyServerCodec.
Proof.
  unfold codec_for. cbn [demo_server NotifyService RpcServer_new _serverCodec default from_option].
  rewrite detect_spec by apply of_bytes_wf. rewrite of_bytes_contents.
  by replace (_ && _) with false by (vm_compute; reflexivity).
Qed.

Definition demo_legacy_server : RpcServer := with_codec demo_server LegacyServerCodec.

Lemma demo_legacy_local : local_frames LegacyServerCodec demo_legacy_stream.
Proof. right. split; [done|]. apply (bool_decide_unpack _). vm_compute. reflexivity. Qed.

(** The first message of a connection to a server without a codec, from an XRPC and
    from a Legacy client. *)
Lemma server_onmessage_refines_witness :
  (exists buffer' w' a,
    OnMessage demo_server 1 demo_stream O =
      Returns (demo_xrpc_server, buffer', w', ACodecCreated :: a) /\
    serve XRpcServerCodec demo_xrpc_server 1 demo_stream O = Returns (buffer', w', a)) /\
  (exists buffer' w' a,
    OnMessage demo_server 1 demo_legacy_stream O =
      Returns (demo_legacy_server, buffer', w', ACodecCreated :: a) /\
    serve LegacyServerCodec demo_legacy_server 1 demo_legacy_stream O = Returns (buffer', w', a)).
Proof.
  split.
  - pose proof demo_detected as Hc.
    destruct (server_onmessage_refines demo_server 1 demo_stream O) as (b & w & a & Hon & _ & Hs);
      [by left|]. rewrite Hc in Hon, Hs. exists b, w, a. split; [exact Hon|].
    apply Hs. by left.
  - pose proof demo_detected_legacy as Hc.
    destruct (server_onmessage_refines demo_server 1 demo_legacy_stream O)
      as (b & w & a & Hon & _ & Hs); [by right|].
    rewrite Hc in Hon, Hs. exists b, w, a. split; [exact Hon|].
    apply Hs. exact demo_legacy_local.
Defined.

Definition cut (s : bytes) : list bytes := [take 5 s; drop 5 s ++ take 40 s; drop 40 s].

Lemma concat_cut s : concat (cut s) = s ++ s.
Proof.
  unfold cut. cbn [concat]. rewrite app_nil_r, <- app_assoc, take_drop, app_assoc, take_drop. done.
Qed.

Lemma demo_legacy_frames :
  Forall (fun f => header_field f <= total_field f - 4)
    (frames LegacyServerCodec (concat (cut demo_legacy_stream))).1.
Proof. apply (bool_decide_unpack _). vm_compute. reflexivity. Qed.

(** Two requests, cut in the middle of the first header and of the second body; with
    both codecs. *)
Lemma server_fragmentation_invariance_witness :
  (exists buffer' w' a,
    deliver demo_xrpc_server 1 [] (cut demo_stream) O =
      Returns (demo_xrpc_server, buffer', w', a) /\
    OnMessage demo_xrpc_server 1 (demo_stream ++ demo_stream) O =
      Returns (demo_xrpc_server, buffer', w', a)) /\
  (exists buffer' w' a,
    deliver demo_legacy_server 1 [] (cut demo_legacy_stream) O =
      Returns (demo_legacy_server, buffer', w', a) /\
    OnMessage demo_legacy_server 1 (demo_legacy_stream ++ demo_legacy_stream) O =
      Returns (demo_legacy_server, buffer', w', a)).
Proof.
  rewrite <- !concat_cut. split.
  - destruct (OnMessage_serve XRpcServerCodec (fun _ => True) demo_xrpc_server eq_refl 1
      (concat (cut demo_stream)) O) as (whole & w' & a & Hon & Hs); [by apply Forall_true|].
    destruct (server_fragmentation_invariance demo_xrpc_server XRpcServerCodec 1 [] whole
      (cut demo_stream) O w' a) as (b & Hd & Hb); [reflexivity|reflexivity|by left|exact Hon| |].
    + vm_compute in Hs. injection Hs as <- <- <-. by apply (bool_decide_unpack _).
    + cbn in Hb. subst b. exists whole, w', a. split; [exact Hd|exact Hon].
  - destruct (OnMessage_serve LegacyServerCodec legacy_frame_ok demo_legacy_server eq_refl 1
      (concat (cut demo_legacy_stream)) O) as (whole & w' & a & Hon & Hs).
    { exact demo_legacy_frames. }
    destruct (server_fragmentation_invariance demo_legacy_server LegacyServerCodec 1 [] whole
      (cut demo_legacy_stream) O w' a) as (b & Hd & Hb); [reflexivity|reflexivity| |exact Hon| |].
    + right. split; [reflexivity|exact demo_legacy_frames].
    + vm_compute in Hs. injection Hs as <- <- <-. by apply (bool_decide_unpack _).
    + cbn in Hb. subst b. exists whole, w', a. split; [exact Hd|exact Hon].
Defined.

End ServerSpecWitnesses.

(** The condition on Legacy frames is needed: with a header whose encoding is its
    service name, a frame with [HeaderLen] 4 and nothing after that field is served
    with the bytes of the frame that follows when both arrive in one segment, and
    with zeros when they arrive one after the other. Neither is a shutdown. *)
Section Overlong.

Import DemoServer.
#[local] Existing Instances Demo.RequestProtocol_demo Demo.ResponseProtocol_demo.
#[local] Instance overlong_little : Host := Little.

Definition name_header : Proto RpcHeader := {|
  SerializeToString h :=
    if bool_decide (h_method_name h = [] /\ h_args_size h = 0) then Some (h_service_name h)
    else None;
  ParseFromString s := Some (mk_RpcHeader s [] 0) |}.
#[local] Existing Instance name_header.

Definition overlong_frame : bytes := be_bytes 4 4 ++ be_bytes 4 4.
Definition next_frame : bytes := be_bytes 4 5 ++ be_bytes 4 1 ++ lit "A".
Definition legacy_server : RpcServer := with_codec RpcServer_new LegacyServerCodec.

Lemma legacy_overlong_segments_matter :
  OnMessage legacy_server 1 (overlong_frame ++ next_frame) O =
    Returns (legacy_server, [], O, [ANoService (be_bytes 4 5); ANoService (lit "A")]) /\
  deliver legacy_server 1 [] [overlong_frame; next_frame] O =
    Returns (legacy_server, [], O, [ANoService (zeros 4); ANoService (lit "A")]).
Proof. split; reflexivity. Qed.

End Overlong.
