(* ===== verification/ServerCalls.v ===== *)
(** * ServerCalls: calls through the server

    Registration, and what one request of a client becomes: detection, frame,
    dispatch, response, back to the client's decoder. *)

From S2P Require Import Prelude CppString Buffer Wire Proto Message Codec LegacyCodec XRpcCodec CodecFactory Server ServerSpec.

(** ** Registration *)

Section Registration.

Context `{Host} `{Proto RpcHeader} `{Proto RequestProtocol} `{Proto ResponseProtocol}
  `{api : ServiceApi}.

(** The first method of a service that has the given name. *)
Fixpoint first_method (name : bytes) (ms : list MethodDescriptor) : option MethodDescriptor :=
  match ms with
  | [] => None
  | pmd :: ms => if bool_decide (method_desc_name pmd = name) then Some pmd
                 else first_method name ms
  end.

Lemma lookup_methods name ms m :
  fold_left (fun m pmd => emplace (method_desc_name pmd) pmd m) ms m !! name =
    match m !! name with Some d => Some d | None => first_method name ms end.
Proof.
  revert m. induction ms as [|pmd ms IH]; intros m; cbn [fold_left first_method];
    [by destruct (m !! name)|]. rewrite IH.
  case_bool_decide as E; [subst; rewrite lookup_emplace; by destruct (m !! _)|].
  by rewrite lookup_emplace_ne.
Qed.

(** [NotifyService] publishes a service under its descriptor's name with exactly
    its methods (the first of several with one name), and changes nothing else. A
    name that is already published keeps its first service. *)
Theorem notify_service_publishes srv s name :
  (service_map srv !! service_desc_name s = None ->
   exists info, service_map (NotifyService srv s) !! service_desc_name s = Some info /\
     service info = s /\
     forall m, method_map info !! m = first_method m (service_methods s)) /\
  (forall info, service_map srv !! service_desc_name s = Some info ->
     service_map (NotifyService srv s) !! service_desc_name s = Some info) /\
  (name <> service_desc_name s ->
     service_map (NotifyService srv s) !! name = service_map srv !! name) /\
  _serverCodec (NotifyService srv s) = _serverCodec srv.
Proof.
  unfold NotifyService. cbn [service_map _serverCodec]. split; [|split; [|split; [|done]]].
  - intros Hn. eexists. rewrite lookup_emplace, Hn. cbn [default from_option]. split; [reflexivity|].
    split; [done|].
    intros m. cbn [default method_map]. by rewrite lookup_methods, lookup_empty.
  - intros info Hi. by apply lookup_emplace_Some.
  - intros Hne. by apply lookup_emplace_ne.
Qed.

End Registration.

(** ** One request *)

Section Calls.

Context `{Host} `{Proto RpcHeader} `{!ProtoLaws RpcHeader}
  `{Proto RequestProtocol} `{!ProtoLaws RequestProtocol}
  `{Proto ResponseProtocol} `{!ProtoLaws ResponseProtocol}
  `{api : ServiceApi} `{MuduoBufferLaws B}.

(** A published method that parses a request body, runs [done] and has a response
    that serialises to [rs]. *)
Definition answers (srv : RpcServer) (sname mname req_body : bytes) (w w' : World)
    (rs : bytes) : Prop :=
  exists info method request response,
    service_map srv !! sname = Some info /\ method_map info !! mname = Some method /\
    ParseRequest (service info) method req_body = Some request /\
    CallMethod (service info) method request w = (w', Some response) /\
    SerializeMessage response = Some rs.

(** The message that [SendRpcResponse] encodes. *)
Definition response_of (rs : bytes) : ProtocolMessage :=
  {| ProtocolMessage_default with body := rs; message_type := kResponse |}.

Lemma dispatch_answers srv codec conn msg w w' rs m out :
  answers srv (service_name msg) (method_name msg) (body msg) w w' rs ->
  _serverCodec srv = Some codec ->
  ZeroCopyEncode codec (response_of rs) empty_buffer = (kCodecOk, m, out) ->
  dispatch srv conn msg w =
    Returns (w', [ACalled (service_name msg) (method_name msg); ASend conn (ToString out)]).
Proof.
  intros (info & method & req & resp & Hs & Hm & Hp & Hcall & Hser) Hc Henc.
  unfold dispatch, SendRpcResponse. rewrite Hs, Hm, Hp, Hcall, Hser, Hc.
  unfold response_of in Henc. by rewrite Henc.
Qed.

(** A buffer that holds exactly one frame. *)
Lemma OnMessage_one codec ok `{!FrameCodec codec ok} srv conn (buffer : B) w msg w' a :
  codec_for srv buffer = codec -> ok (peek buffer) ->
  0 < verdict codec (peek buffer) -> verdict codec (peek buffer) = zlen (peek buffer) ->
  decode_frame codec (peek buffer) = (kCodecOk, msg) ->
  dispatch (with_codec srv codec) conn msg w = Returns (w', a) ->
  exists buffer', OnMessage srv conn buffer w =
      Returns (with_codec srv codec, buffer', w',
        (match _serverCodec srv with None => [ACodecCreated] | Some _ => [] end) ++ a) /\
    peek buffer' = [].
Proof.
  intros Hfor Hok Hpos Hv Hdec Hd. rewrite OnMessage_spec, Hfor.
  assert (Z.to_nat (verdict codec (peek buffer)) = length (peek buffer)) as Hn by lia.
  assert (verdict codec [] = 0) as Hnil by apply check_nil.
  destruct (loop_serve codec ok (with_codec srv codec) eq_refl conn (peek buffer)
    (S (length (peek buffer))) buffer w eq_refl) as (b' & w1 & a1 & -> & Hs); [lia| |].
  { rewrite (frames_cons codec ok), Hn, take_ge, drop_ge, frames_stop by (done || lia).
    by apply Forall_singleton. }
  rewrite (serve_cons codec ok (with_codec srv codec) eq_refl) in Hs by done.
  rewrite Hn, take_ge, drop_ge, Hdec in Hs by (done || lia).
  change (kCodecOk =? kCodecOk) with true in Hs. cbv iota in Hs.
  rewrite Hd in Hs. cbn [mbind outcome_bind] in Hs. rewrite serve_stop, Hnil in Hs by lia.
  cbn in Hs. rewrite app_nil_r in Hs. injection Hs as Hb <- <-.
  exists b'. by rewrite <- Hb.
Qed.

(** A server that has seen nothing yet, or clients of this protocol only. *)
Definition serves (srv : RpcServer) (codec : ServerCodec) : Prop :=
  _serverCodec srv = None \/ _serverCodec srv = Some codec.

Lemma codec_for_serves srv (buffer : B) codec :
  serves srv codec -> CreateServerCodec_in (of_bytes (peek buffer)) = codec ->
  codec_for srv buffer = codec.
Proof. intros [Hc|Hc] Hd; unfold codec_for; by rewrite Hc. Qed.

Definition created (srv : RpcServer) : list action :=
  match _serverCodec srv with None => [ACodecCreated] | Some _ => [] end.

(** What the server makes of a buffer that holds a request frame. *)
Definition xrpc_decoded (ctx : ClientContext) (msg : ProtocolMessage) (hs : bytes) :
    ProtocolMessage :=
  with_stream (frame_header kRequest msg hs) (set_request (request_header ctx msg)
    {| ProtocolMessage_default with body := body msg |}).

Lemma xrpc_request_buffer srv (buffer : B) ctx msg hs :
  serves srv XRpcServerCodec -> RequestProtocol_valid (request_header ctx msg) ->
  SerializeToString (request_header ctx msg) = Some hs -> fits msg hs ->
  peek buffer = xrpc_frame kRequest msg hs ->
  codec_for srv buffer = XRpcServerCodec /\
  verdict XRpcServerCodec (peek buffer) = zlen (peek buffer) /\ 0 < zlen (peek buffer) /\
  decode_frame XRpcServerCodec (peek buffer) = (kCodecOk, xrpc_decoded ctx msg hs).
Proof.
  intros Hsrv Hv Hs Hf Hp.
  assert (contents (of_bytes (peek buffer)) = xrpc_frame kRequest msg hs ++ []) as Hin
    by (rewrite of_bytes_contents, app_nil_r; done).
  assert (16 <= zlen (peek buffer)) as Hl by (rewrite Hp; unfold xrpc_frame, wire_header; xlen).
  split; [|split; [|split; [lia|]]].
  - apply codec_for_serves; [done|]. rewrite detect_spec by apply of_bytes_wf.
    rewrite Hin, xrpc_magic, andb_true_r, <- Hp, length_app.
    by rewrite (proj2 (Z.leb_le _ _)) by lia.
  - unfold verdict. cbn [CheckAndPick XRpcServerCodec].
    rewrite (XRpc_check_frame kRequest msg hs []) by (done || apply of_bytes_wf). by rewrite Hp.
  - unfold decode_frame. cbn [ZeroCopyDecode XRpcServerCodec].
    destruct (XRpc_decode_frame kRequest msg hs [] (of_bytes (peek buffer)) ProtocolMessage_default
      (xrpc_decoded ctx msg hs)) as (b1 & Hdec & _); [done|apply of_bytes_wf|done| |by rewrite Hdec].
    unfold xrpc_message. change (type (frame_header kRequest msg hs) =? 0) with true.
    cbv iota. by rewrite (parse_serialize _ _ Hv Hs).
Qed.

Lemma xrpc_decoded_target ctx msg hs :
  func_name msg = [] -> (Byte.x2f ∉ method_name msg) ->
  service_name (xrpc_decoded ctx msg hs) = service_name msg /\
  method_name (xrpc_decoded ctx msg hs) = method_name msg /\
  body (xrpc_decoded ctx msg hs) = body msg.
Proof.
  intros Hfn Hsl. destruct (set_request_split (request_header ctx msg)
    {| ProtocolMessage_default with body := body msg |} (service_name msg) (method_name msg))
    as [Hsn Hmn]; [cbn; by rewrite bool_decide_true|done|].
  unfold xrpc_decoded, with_stream; cbn -[set_request]. by rewrite set_request_body.
Qed.

(** A header that fits a frame is within what the encoders take. *)
Lemma fits_bound msg hs :
  fits msg hs -> u32 (kFixedHeaderSize + zlen hs + zlen (body msg)) <= kMaxFrameSize.
Proof.
  intros (?&?&_). unfold kFixedHeaderSize, kMaxFrameSize in *. rewrite u32_small; lia.
Qed.

(** What the client makes of the response. *)
Lemma xrpc_response_decoded rs rhs out :
  SerializeToString (response_header (response_of rs)) = Some rhs -> fits (response_of rs) rhs ->
  buffer_wf out -> contents out = xrpc_frame kResponse (response_of rs) rhs ->
  exists inb m,
    XRpc_ClientDecode (of_bytes (ToString out)) ProtocolMessage_default = (kCodecOk, inb, m) /\
    contents inb = [] /\ body m = rs /\ message_type m = kResponse /\ ret_code m = 0 /\
    request_id m = 0 /\ stream_id m = 0.
Proof.
  intros Hrs Hrf Hwf Hout.
  destruct (XRpc_client_decode_frame kResponse (response_of rs) rhs []
    (of_bytes (ToString out)) ProtocolMessage_default (response_header (response_of rs)))
    as (inb & Hcd & _ & Hci); [done|apply of_bytes_wf| | |].
  - rewrite of_bytes_contents, ToString_contents, Hout, app_nil_r by done. done.
  - apply parse_serialize; [|done]. unfold proto_valid, ResponseProtocol_validity.
    repeat split; done.
  - exists inb. eexists. split; [exact Hcd|]. done.
Qed.

(** C2. An XRPC call, end to end. When the request of a client reaches a server that
    has seen no other protocol and publishes the method, the handler calls the
    method once and sends one response, nothing of the request stays in the
    buffer, and the client's decoder gets from the sent bytes exactly the body
    that the method's response serialises to, with return code 0. The response
    carries request id and stream id 0, whatever the request's were. *)
Theorem xrpc_call_end_to_end srv conn (buffer : B) w w' ctx msg hs rs rhs :
  serves srv XRpcServerCodec ->
  message_type msg = kRequest -> func_name msg = [] -> (Byte.x2f ∉ method_name msg) ->
  RequestProtocol_valid (request_header ctx msg) ->
  SerializeToString (request_header ctx msg) = Some hs -> fits msg hs ->
  peek buffer = contents (XRpc_ClientEncode ctx msg empty_buffer).2 ->
  answers srv (service_name msg) (method_name msg) (body msg) w w' rs ->
  SerializeToString (response_header (response_of rs)) = Some rhs -> fits (response_of rs) rhs ->
  exists buffer' data inb m,
    OnMessage srv conn buffer w =
      Returns (with_codec srv XRpcServerCodec, buffer', w',
        created srv ++ [ACalled (service_name msg) (method_name msg); ASend conn data]) /\
    peek buffer' = [] /\
    XRpc_ClientDecode (of_bytes data) ProtocolMessage_default = (kCodecOk, inb, m) /\
    contents inb = [] /\ body m = rs /\ message_type m = kResponse /\ ret_code m = 0 /\
    request_id m = 0 /\ stream_id m = 0.
Proof.
  intros Hsrv Ht Hfn Hsl Hv Hs Hf Hp Hans Hrs Hrf.
  destruct (XRpc_ClientEncode_spec ctx msg empty_buffer hs) as (out & Henc & _ & Hout);
    [apply empty_wf|done|by apply fits_bound|].
  rewrite Henc in Hp. rewrite Ht in *. cbn [fst snd] in Hp.
  change (contents out = xrpc_frame kRequest msg hs) in Hout. rewrite Hout in Hp.
  destruct (xrpc_request_buffer srv buffer ctx msg hs Hsrv Hv Hs Hf Hp) as (Hfor & Hchk & Hpos & Hdec).
  destruct (XRpc_ServerEncode_spec (response_of rs) empty_buffer rhs) as (rout & Hrenc & Hrwf & Hrout);
    [apply empty_wf|done|by apply fits_bound|].
  destruct (xrpc_decoded_target ctx msg hs Hfn Hsl) as (E1 & E2 & E3).
  destruct (OnMessage_one XRpcServerCodec (fun _ => True) srv conn buffer w
    (xrpc_decoded ctx msg hs) w'
    [ACalled (service_name msg) (method_name msg); ASend conn (ToString rout)])
    as (b' & Hon & Hb'); [done|done|lia|done|done| |].
  { rewrite <- E1, <- E2. rewrite <- E1, <- E2, <- E3 in Hans. by eapply dispatch_answers. }
  destruct (xrpc_response_decoded rs rhs rout Hrs Hrf Hrwf Hrout) as (inb & m & Hcd & Hrest).
  by exists b', (ToString rout), inb, m.
Qed.

(** A Legacy call, end to end. When the request of a client reaches a server
    that has seen no other protocol and publishes the method, the handler calls the
    method once and sends one response, nothing of the request stays in the
    buffer, and the sent bytes are the frame of the body that the method's response
    serialises to, which the client's decoder gets back. *)
Theorem legacy_call_end_to_end srv conn (buffer : B) w w' ctx msg hs rs :
  let h := legacy_header ctx msg in
  serves srv LegacyServerCodec ->
  SerializeToString h = Some hs -> 4 + zlen hs + zlen (body msg) <= kMaxFrameSize ->
  peek buffer = contents (Legacy_ClientEncode ctx msg empty_buffer).2 ->
  answers srv (h_service_name h) (h_method_name h) (body msg) w w' rs ->
  zlen rs <= kMaxFrameSize ->
  exists buffer' data inb m,
    OnMessage srv conn buffer w =
      Returns (with_codec srv LegacyServerCodec, buffer', w',
        created srv ++ [ACalled (h_service_name h) (h_method_name h); ASend conn data]) /\
    peek buffer' = [] /\
    data = legacy_response rs /\
    Legacy_ClientDecode (of_bytes data) ProtocolMessage_default = (kCodecOk, inb, m) /\
    contents inb = [] /\ body m = rs /\ message_type m = kResponse.
Proof.
  intros h Hsrv Hs Hlen Hp Hans Hrl.
  destruct (Legacy_ClientEncode_spec ctx msg empty_buffer hs) as (out & Henc & _ & Hout);
    [apply empty_wf|done|unfold kMaxFrameSize in *; lia|].
  rewrite Henc in Hp. cbn [fst snd] in Hp.
  change (contents out = legacy_request hs (body msg)) in Hout. rewrite Hout in Hp.
  assert (contents (of_bytes (peek buffer)) = legacy_request hs (body msg) ++ []) as Hin
    by (rewrite of_bytes_contents, app_nil_r; done).
  destruct (Legacy_request_spec h hs (body msg) [] (of_bytes (peek buffer)) ProtocolMessage_default)
    as (Hchk & b1 & Hdec & _); [apply u32_bound|done|done|apply of_bytes_wf|done|].
  destruct (Legacy_ServerEncode_spec (response_of rs) empty_buffer) as (rout & Hrenc & Hrwf & Hrout);
    [apply empty_wf|unfold kMaxFrameSize in *; cbn; lia|].
  pose proof (length_legacy_request hs (body msg)) as Hl.
  destruct (OnMessage_one LegacyServerCodec legacy_frame_ok srv conn buffer w
    (legacy_message h (body msg)) w'
    [ACalled (h_service_name h) (h_method_name h); ASend conn (ToString rout)])
    as (b' & Hon & Hb').
  - apply codec_for_serves; [done|]. rewrite detect_spec by apply of_bytes_wf.
    rewrite of_bytes_contents, Hp. unfold legacy_request.
    rewrite (proj2 (Z.eqb_neq _ _)), andb_false_r; [done|].
    apply legacy_not_magic. lia.
  - rewrite Hp, <- (app_nil_r (legacy_request _ _)). unfold legacy_frame_ok.
    destruct (legacy_request_fields hs (body msg) []) as [-> ->];
      unfold kMaxFrameSize in *; lia.
  - unfold verdict. cbn [CheckAndPick LegacyServerCodec]. rewrite Hchk. lia.
  - unfold verdict. cbn [CheckAndPick LegacyServerCodec]. by rewrite Hchk, Hp.
  - unfold decode_frame. cbn [ZeroCopyDecode LegacyServerCodec]. by rewrite Hdec.
  - by eapply dispatch_answers.
  - destruct (Legacy_response_spec rs [] (of_bytes (ToString rout)) ProtocolMessage_default)
      as (inb & m & Hcd & Hbody & Hty & _ & Hci); [done|apply of_bytes_wf| |].
    { rewrite of_bytes_contents, ToString_contents, Hrout, app_nil_r by done. done. }
    exists b', (ToString rout), inb, m. split; [done|]. split; [done|]. split; [|done].
    by rewrite ToString_contents.
Qed.

(** ** Protocols on one port *)

Lemma be_load_app a b : be_load (a ++ b) = be_load a * 256 ^ zlen b + be_load b.
Proof.
  unfold be_load. rewrite rev_app_distr, <- (length_rev b).
  generalize (rev a) (rev b). intros l k. induction k as [|x k IH]; cbn [app le_load length]; [cbn; lia|].
  rewrite IH, pow256_succ. lia.
Qed.

(** The server keeps one codec for all its connections: once it has the Legacy
    one, because the first client it saw was a Legacy client (or its first segment
    had one byte), every request of an XRPC client, on any connection, is taken for
    an oversized Legacy frame and its connection is shut down, without any call. *)
Theorem server_codec_shared srv conn (buffer : B) w ctx msg out rest :
  _serverCodec srv = Some LegacyServerCodec ->
  XRpc_ClientEncode ctx msg empty_buffer = (kCodecOk, msg, out) ->
  peek buffer = contents out ++ rest ->
  OnMessage srv conn buffer w =
    Returns (srv, buffer, w, [AInvalidFrame kCodecOversized; AShutdown conn]).
Proof.
  intros Hc Henc Hp. apply XRpc_ClientEncode_ok in Henc as (hs & _ & _ & _ & Hout);
    [|apply empty_wf].
  change (contents out = xrpc_frame (message_type msg) msg hs) in Hout. rewrite Hout in Hp.
  rewrite OnMessage_spec. unfold codec_for. rewrite Hc. cbn [default from_option id].
  rewrite with_codec_id by done.
  assert (4 <= zlen (peek buffer)) as Hl
    by (rewrite Hp; unfold xrpc_frame, wire_header; xlen).
  cbn [OnMessage_loop]. rewrite readable_peek, (proj2 (Z.gtb_lt _ _)) by lia.
  cbn [CheckAndPick LegacyServerCodec]. rewrite Legacy_check_spec, of_bytes_contents by apply of_bytes_wf.
  assert (kMaxFrameSize < total_field (peek buffer)) as Ht.
  { unfold total_field. rewrite (slice_split _ 0 2 2), be_load_app by lia.
    rewrite Hp at 1. rewrite xrpc_magic, length_slice by lia.
    pose proof (be_load_bound (slice (peek buffer) (0 + 2) 2)).
    unfold kMagicNumber, kMaxFrameSize. change (256 ^ Z.of_nat (Z.to_nat 2)) with 65536. lia. }
  cbv zeta. rewrite (proj2 (Z.ltb_ge _ _)), (proj2 (Z.gtb_lt _ _)) by done. done.
Qed.

(** ** Responses *)

Definition is_send (a : action) : bool := match a with ASend _ _ => true | _ => false end.
Definition is_call (a : action) : bool := match a with ACalled _ _ => true | _ => false end.
Fixpoint count (p : action -> bool) (a : list action) : nat :=
  match a with [] => O | x :: a => ((if p x then 1 else 0) + count p a)%nat end.

Lemma count_app p a b : count p (a ++ b) = (count p a + count p b)%nat.
Proof. induction a as [|x a IH]; cbn; [done|]. rewrite IH. lia. Qed.

Lemma dispatch_counts srv conn msg w w' a :
  dispatch srv conn msg w = Returns (w', a) ->
  (count is_send a <= count is_call a <= 1)%nat /\
  (forall c d, ASend c d ∈ a -> c = conn).
Proof.
  assert (forall r acts, SendRpcResponse srv conn r = Returns acts ->
    (count is_send acts <= 1)%nat /\ count is_call acts = O /\
    forall c d, ASend c d ∈ acts -> c = conn) as Hsend.
  { intros r acts. unfold SendRpcResponse. repeat case_match; try done; intros [= <-];
      (split; [cbn; lia|]); (split; [done|]); intros ? ?;
      rewrite list_elem_of_singleton; congruence. }
  unfold dispatch. repeat case_match; try (intros [= <- <-]; split; [cbn; lia|];
    intros ? ?; rewrite list_elem_of_singleton; congruence).
  destruct (SendRpcResponse srv conn p0) as [acts| | | |] eqn:E; try done.
  apply Hsend in E as (Hs & Hc & Hconn). cbn. intros [= <- <-]. split.
  - cbn. lia.
  - intros c d [[=]|]%elem_of_cons. eauto.
Qed.

(** Responses are bounded by requests: whatever frames are served, the handler
    makes at most one call per frame and at most one send per call, and every
    response goes to the connection that the frames came from. *)
Theorem server_responses_bounded codec srv conn fs w todo w' a :
  _serverCodec srv = Some codec ->
  serve_frames codec srv conn fs w = Returns (todo, w', a) ->
  (count is_send a <= count is_call a)%nat /\
  (count is_call a + length todo <= length fs)%nat /\
  (forall c d, ASend c d ∈ a -> c = conn).
Proof.
  intros Hc. revert w a. induction fs as [|f fs IH]; intros w a; cbn.
  { intros [= <- <- <-]. split; [done|]. split; [done|]. intros ? ? Hin. by apply elem_of_nil in Hin. }
  destruct (decode_frame codec f) as [ret msg]. case_if.
  - destruct (dispatch_total codec srv Hc conn msg w) as (w1 & a1 & Hd & _). rewrite Hd.
    apply dispatch_counts in Hd as [Hd1 Hd2]. cbn.
    destruct (serve_frames codec srv conn fs w1) as [[[todo2 w2] a2]| | | |] eqn:E; try done.
    cbn. intros [= -> -> <-]. apply IH in E as (He1 & He2 & He3).
    rewrite !count_app. split; [lia|]. split; [lia|].
    intros c d. rewrite elem_of_app. intros [|]; eauto.
  - intros [= <- <- <-]. cbn. split; [lia|]. split; [lia|].
    intros c d. rewrite !elem_of_cons. intros [[=]|[[=]|Hin]]. by apply elem_of_nil in Hin.
Qed.

End Calls.

(** ** Witnesses *)

Section ServerCallsWitnesses.

Import Demo DemoServer.
#[local] Existing Instances RpcHeader_demo RequestProtocol_demo ResponseProtocol_demo.
#[local] Instance little : Host := Little.

Lemma notify_service_publishes_witness :
  exists info, service_map demo_server !! lit "UserServiceRpc" = Some info /\
    method_map info !! lit "Login" = Some (lit "Login").
Proof.
  destruct (proj1 (notify_service_publishes (api := echo) RpcServer_new user_service []))
    as (info & Hi & _ & Hm); [reflexivity|].
  exists info. split; [exact Hi|]. rewrite Hm. reflexivity.
Defined.

Lemma demo_answers sname calls b :
  sname = lit "UserServiceRpc" ->
  answers demo_server sname (lit "Login") b calls (S calls) b.
Proof. intros ->. do 4 eexists. repeat split; reflexivity. Qed.

Definition demo_response_to (rs : bytes) : bytes :=
  default [] (SerializeToString (response_header (response_of rs))).

Lemma xrpc_call_end_to_end_witness :
  exists buffer' data inb m,
    OnMessage demo_server 1 demo_stream O =
      Returns (with_codec demo_server XRpcServerCodec, buffer', 1%nat,
        [ACodecCreated; ACalled (lit "UserServiceRpc") (lit "Login"); ASend 1 data]) /\
    peek buffer' = [] /\
    XRpc_ClientDecode (of_bytes data) ProtocolMessage_default = (kCodecOk, inb, m) /\
    contents inb = [] /\ body m = lit "zhangsan" /\ message_type m = kResponse /\
    ret_code m = 0 /\ request_id m = 0 /\ stream_id m = 0.
Proof.
  apply (xrpc_call_end_to_end demo_server 1 demo_stream O 1%nat ClientContext_default
    demo_request demo_request_header (lit "zhangsan") (demo_response_to (lit "zhangsan"))).
  - by left.
  - reflexivity.
  - reflexivity.
  - by apply (bool_decide_unpack _).
  - apply demo_valid.
  - reflexivity.
  - apply demo_fits.
  - vm_compute. reflexivity.
  - by apply demo_answers.
  - reflexivity.
  - vm_compute. intuition discriminate.
Defined.

Lemma server_codec_shared_witness :
  OnMessage (with_codec demo_server LegacyServerCodec) 2 demo_stream O =
    Returns (with_codec demo_server LegacyServerCodec, demo_stream, O,
             [AInvalidFrame kCodecOversized; AShutdown 2]).
Proof.
  apply (server_codec_shared (with_codec demo_server LegacyServerCodec) 2 demo_stream O
    ClientContext_default demo_request
    (XRpc_ClientEncode ClientContext_default demo_request empty_buffer).2 []);
    [reflexivity|vm_compute; reflexivity|vm_compute; reflexivity].
Defined.

Lemma server_responses_bounded_witness :
  exists todo w' a,
    serve_frames XRpcServerCodec demo_xrpc_server 1 [demo_stream; demo_stream] O =
      Returns (todo, w', a) /\ (count is_send a <= count is_call a)%nat.
Proof.
  destruct (serve_frames XRpcServerCodec demo_xrpc_server 1 [demo_stream; demo_stream] O)
    as [[[todo w'] a]| | | |] eqn:Hs; try (vm_compute in Hs; discriminate).
  exists todo, w', a. split; [reflexivity|].
  exact (proj1 (server_responses_bounded XRpcServerCodec demo_xrpc_server 1 _ O todo w' a
    eq_refl Hs)).
Defined.

End ServerCallsWitnesses.
