(* ===== verification/ServerRun.v ===== *)
(** * ServerRun: starting the server

    [RpcServer::Run] of [src/src/rpc/server.cc]: the address from the
    configuration, and the publication of every service and method in the
    registry. The order in which an [unordered_map] is visited is a parameter. *)

From S2P Require Import Prelude CppString Config ZookeeperClient Server.

(** The elements of an [unordered_map] in the order a range-based [for] visits
    them. *)
Class MapOrder := iter : forall A, gmap bytes A -> list (bytes * A).
Class MapOrderLaws `{MapOrder} := iter_perm A (m : gmap bytes A) : iter A m ≡ₚ map_to_list m.
Arguments iter {_ A}.

(** What [Run] starts: the address, whose port is a [uint16_t], and the threads. *)
Record TcpServer := mk_TcpServer { tcp_ip : bytes; tcp_port : Z; threadNum : Z }.

Section Run.

Context `{MapOrder} `{api : ServiceApi} `{ZooApi Zk}.

(** [sprintf] of the address into an array of 128 chars that is not checked. *)
Definition method_path_data (ip : bytes) (port : Z) : outcome bytes :=
  let s := c_str ip ++ lit ":" ++ to_string port in
  if zlen s <? 128 then Returns s else Undefined.

Definition register_method (ip : bytes) (port : Z) (service_path : bytes) (zkclient : Zk)
    (mp : bytes * MethodDescriptor) : outcome Zk :=
  let method_path := service_path ++ lit "/" ++ mp.1 in
  data ← method_path_data ip port;
  zkclient ← Create zkclient (c_str method_path) None 0;
  let route_path := method_path ++ lit "/" ++ data in
  Create zkclient (c_str route_path) (Some data) (ZOO_EPHEMERAL (Zk := Zk)).

Definition register_service (ip : bytes) (port : Z) (zkclient : Zk)
    (sp : bytes * ServiceInfo) : outcome Zk :=
  let service_path := lit "/" ++ sp.1 in
  zkclient ← Create zkclient (c_str service_path) None 0;
  for_each (register_method ip port service_path) zkclient (iter (method_map sp.2)).

(** Up to the event loop, which does not return. *)
Definition Run (srv : RpcServer) (m_config : Config) : outcome (TcpServer * Zk) :=
  let ip := Load m_config (lit "rpcserverip") in
  let port := atoi (Load m_config (lit "rpcserverport")) in
  let server := mk_TcpServer ip (u16 port) 4 in
  zkclient ← Start m_config;
  zkclient ← for_each (register_service ip port) zkclient (iter (service_map srv));
  mret (server, zkclient).

End Run.

(** ** Paths *)

Definition slash : byte := Byte.x2f.

(** A name that can be a component of a path. *)
Definition name_ok (s : bytes) : Prop := s <> [] /\ (slash ∉ s) /\ (Byte.x00 ∉ s).

Fixpoint slashes (p : bytes) : nat :=
  match p with
  | [] => 0
  | b :: p => (if bool_decide (b = slash) then 1 else 0) + slashes p
  end.

Lemma slashes_app p q : slashes (p ++ q) = (slashes p + slashes q)%nat.
Proof. induction p as [|b p IH]; cbn; [done|]. rewrite IH. lia. Qed.

Lemma slashes_name s : name_ok s -> slashes s = 0%nat.
Proof.
  intros (_ & Hs & _). induction s as [|b s IH]; [done|]. cbn.
  apply not_elem_of_cons in Hs as [Hb Hs]. rewrite bool_decide_false by done. by apply IH.
Qed.

Definition service_path (s : bytes) : bytes := lit "/" ++ s.
Definition method_path (s m : bytes) : bytes := service_path s ++ lit "/" ++ m.
Definition route_path (s m data : bytes) : bytes := method_path s m ++ lit "/" ++ data.

Lemma slashes_service s : name_ok s -> slashes (service_path s) = 1%nat.
Proof. intros. unfold service_path. by rewrite slashes_app, (slashes_name s). Qed.
Lemma slashes_method s m : name_ok s -> name_ok m -> slashes (method_path s m) = 2%nat.
Proof.
  intros. unfold method_path. by rewrite !slashes_app, slashes_service, (slashes_name m).
Qed.
Lemma slashes_route s m data :
  name_ok s -> name_ok m -> name_ok data -> slashes (route_path s m data) = 3%nat.
Proof.
  intros. unfold route_path. by rewrite !slashes_app, slashes_method, (slashes_name data).
Qed.

Lemma nul_lit_slash : Byte.x00 ∉ lit "/".
Proof. by apply (bool_decide_unpack _). Qed.

Lemma c_str_service s : name_ok s -> c_str (service_path s) = service_path s.
Proof.
  intros (_ & _ & H). apply c_str_id. unfold service_path. rewrite elem_of_app.
  intros [?|?]; [by apply nul_lit_slash|done].
Qed.
Lemma c_str_method s m : name_ok s -> name_ok m -> c_str (method_path s m) = method_path s m.
Proof.
  intros (_ & _ & H) (_ & _ & H'). apply c_str_id. unfold method_path, service_path.
  rewrite !elem_of_app. pose proof nul_lit_slash. tauto.
Qed.
Lemma c_str_route s m data :
  name_ok s -> name_ok m -> name_ok data ->
  c_str (route_path s m data) = route_path s m data.
Proof.
  intros (_ & _ & H) (_ & _ & H') (_ & _ & H''). apply c_str_id.
  unfold route_path, method_path, service_path.
  rewrite !elem_of_app. pose proof nul_lit_slash. tauto.
Qed.

(** ** What the registry holds after [Run] *)

Section Published.

Context `{MapOrderLaws} `{api : ServiceApi} `{ZooLaws Zk}.

Variable srv : RpcServer.
Variable data : bytes.
Variable t0 : znodes.

Definition provides (s m : bytes) : Prop :=
  exists info md, service_map srv !! s = Some info /\ method_map info !! m = Some md.

(** The persistent nodes and the ephemeral nodes of the server. *)
Definition persistent (p : bytes) : Prop :=
  (exists s, is_Some (service_map srv !! s) /\ p = service_path s) \/
  (exists s m, provides s m /\ p = method_path s m).
Definition route (p : bytes) : Prop := exists s m, provides s m /\ p = route_path s m data.

Definition names_ok : Prop :=
  name_ok data /\ (forall s, is_Some (service_map srv !! s) -> name_ok s) /\
  (forall s m, provides s m -> name_ok m).

(** No node that is to have children is ephemeral. *)
Definition no_ephemeral_parents (t : znodes) : Prop :=
  forall p d f, persistent p -> t !! p = Some (d, f) -> f <> ZOO_EPHEMERAL (Zk := Zk).

(** The nodes a server adds to those there were. *)
Definition added (t : znodes) : Prop :=
  forall p, match t0 !! p with
  | Some v => t !! p = Some v
  | None =>
      t !! p = None \/ (persistent p /\ t !! p = Some (None, 0)) \/
      (route p /\ t !! p = Some (Some data, ZOO_EPHEMERAL (Zk := Zk)))
  end.

Definition zk_le (zk zk' : Zk) : Prop := nodes_of zk ⊆ nodes_of zk'.

#[local] Instance zk_le_preorder : PreOrder zk_le.
Proof. split; unfold zk_le; [by intros ?|]. intros x y z ??. by transitivity (nodes_of y). Qed.

Hypothesis names : names_ok.
Hypothesis parents0 : no_ephemeral_parents t0.

Lemma persistent_route p : persistent p -> ~ route p.
Proof.
  destruct names as (Hd & Hs & Hm).
  assert (Hr : route p -> slashes p = 3%nat).
  { intros (s & m & Hp & ->). apply slashes_route; [|by eauto|done].
    destruct Hp as (? & ? & ? & ?). eauto. }
  intros [(s & Hp & ->)|(s & m & Hp & ->)] Hrt; apply Hr in Hrt.
  - by rewrite slashes_service in Hrt by auto.
  - rewrite slashes_method in Hrt by (eauto; destruct Hp as (? & ? & ? & ?); eauto). done.
Qed.

Lemma added_parents t : added t -> no_ephemeral_parents t.
Proof.
  intros Ha p d f Hp Ht. specialize (Ha p). destruct (t0 !! p) as [[d' f']|] eqn:E.
  - rewrite Ha in Ht. simplify_eq. by eapply parents0.
  - destruct Ha as [Hn|[[_ Hn]|[Hr _]]]; [congruence| |by edestruct persistent_route].
    rewrite Hn in Ht. simplify_eq. apply not_eq_sym, zok_ephemeral.
Qed.

(** One [Create] of a node of the server. *)
Lemma Create_added zk p (v : option bytes) (f : Z) :
  added (nodes_of zk) ->
  (persistent p /\ v = None /\ f = 0) \/
    (route p /\ v = Some data /\ f = ZOO_EPHEMERAL (Zk := Zk)) ->
  parent_ok (ZOO_EPHEMERAL (Zk := Zk)) (nodes_of zk) p ->
  exists zk', Create zk p v f = Returns zk' /\ added (nodes_of zk') /\ zk_le zk zk' /\
    is_Some (nodes_of zk' !! p).
Proof.
  intros Ha Hp Hpar. destruct (Create_spec zk p v f (or_intror Hpar)) as (zk' & -> & Hn).
  exists zk'. unfold zk_le. split; [done|].
  destruct (decide (is_Some (nodes_of zk !! p))) as [Hs|Hs]; rewrite Hn; [done|].
  apply eq_None_not_Some in Hs. split; [|split].
  - intros q. specialize (Ha q). destruct (decide (p = q)) as [<-|Hne].
    + rewrite lookup_insert_eq. destruct (t0 !! p); [congruence|].
      destruct Hp as [(? & -> & ->)|(? & -> & ->)]; auto.
    + by rewrite lookup_insert_ne.
  - by apply insert_subseteq.
  - rewrite lookup_insert_eq. by eexists.
Qed.

Lemma parent_service t s : name_ok s -> parent_ok (ZOO_EPHEMERAL (Zk := Zk)) t (service_path s).
Proof. intros (Hn & Hs & _). left. by exists s. Qed.

Lemma parent_child t p n :
  added t -> persistent p -> is_Some (t !! p) -> name_ok n ->
  parent_ok (ZOO_EPHEMERAL (Zk := Zk)) t (p ++ lit "/" ++ n).
Proof.
  intros Ha Hp [[d f] Ht] (Hn & Hs & _). right. exists p, n, d, f.
  repeat split; [done|done|done|]. by eapply added_parents.
Qed.

Variables (ip : bytes) (port : Z).
Hypothesis address : method_path_data ip port = Returns data.

(** The nodes of a method are in the registry. *)
Definition published (zk : Zk) (s m : bytes) : Prop :=
  is_Some (nodes_of zk !! method_path s m) /\ is_Some (nodes_of zk !! route_path s m data).

Lemma is_Some_le (zk zk' : Zk) p :
  is_Some (nodes_of zk !! p) -> zk_le zk zk' -> is_Some (nodes_of zk' !! p).
Proof. intros [v Hv] Hle. exists v. by eapply lookup_weaken. Qed.

Lemma published_le zk zk' s m : published zk s m -> zk_le zk zk' -> published zk' s m.
Proof. intros [??] ?. split; by eapply is_Some_le. Qed.

Lemma register_method_spec s info zk mp :
  service_map srv !! s = Some info -> mp ∈ iter (method_map info) ->
  added (nodes_of zk) /\ is_Some (nodes_of zk !! service_path s) ->
  exists zk', register_method ip port (lit "/" ++ s) zk mp = Returns zk' /\
    (added (nodes_of zk') /\ is_Some (nodes_of zk' !! service_path s)) /\ zk_le zk zk' /\
    published zk' s mp.1.
Proof.
  intros Hs Hmp [Ha Hsn]. destruct mp as [m md]. destruct names as (Hdata & Hsok & Hmok).
  rewrite iter_perm, elem_of_map_to_list in Hmp.
  assert (Hprov : provides s m) by by exists info, md.
  assert (name_ok s) by eauto. assert (name_ok m) by eauto.
  unfold register_method. rewrite address. cbn [mbind outcome_bind fst].
  fold (service_path s). fold (method_path s m). rewrite c_str_method by done.
  destruct (Create_added zk (method_path s m) None 0 Ha) as (zk1 & -> & Ha1 & Hle1 & Hn1).
  { left. split; [|done]. right. by exists s, m. }
  { apply parent_child; eauto. left. by exists s. }
  cbn [mbind outcome_bind]. fold (route_path s m data). rewrite c_str_route by done.
  destruct (Create_added zk1 (route_path s m data) (Some data) (ZOO_EPHEMERAL (Zk := Zk)) Ha1)
    as (zk2 & -> & Ha2 & Hle2 & Hn2).
  { right. split; [|done]. by exists s, m. }
  { apply parent_child; eauto. right. by exists s, m. }
  exists zk2. assert (zk_le zk zk2) as Hle by by transitivity zk1.
  split; [done|]. split; [split; [done|by eapply is_Some_le]|]. split; [done|].
  split; [by eapply is_Some_le|done].
Qed.

(** Every route of a service is in the registry. *)
Definition routes_of (sp : bytes * ServiceInfo) (zk : Zk) : Prop :=
  forall m md, method_map sp.2 !! m = Some md -> published zk sp.1 m.

Lemma register_service_spec zk sp :
  sp ∈ iter (service_map srv) -> added (nodes_of zk) ->
  exists zk', register_service ip port zk sp = Returns zk' /\
    added (nodes_of zk') /\ zk_le zk zk' /\ routes_of sp zk'.
Proof.
  intros Hsp Ha. destruct sp as [s info]. rewrite iter_perm, elem_of_map_to_list in Hsp.
  assert (name_ok s) by (apply names; by eexists).
  unfold register_service. cbn [fst snd]. fold (service_path s). rewrite c_str_service by done.
  destruct (Create_added zk (service_path s) None 0 Ha) as (zk1 & -> & Ha1 & Hle1 & Hn1).
  { left. split; [|done]. left. by exists s. }
  { by apply parent_service. }
  cbn [mbind outcome_bind].
  destruct (for_each_spec (register_method ip port (service_path s))
    (fun zk => added (nodes_of zk) /\ is_Some (nodes_of zk !! service_path s)) zk_le
    (fun mp zk => published zk s mp.1)
    (iter (method_map info))) with (s := zk1) as (zk2 & -> & [Ha2 _] & Hle2 & Hq2).
  - intros. by eapply published_le.
  - intros. by eapply register_method_spec.
  - done.
  - exists zk2. split; [done|]. split; [done|]. split; [by transitivity zk1|].
    intros m md Hm. apply (Hq2 (m, md)). by rewrite iter_perm, elem_of_map_to_list.
Qed.

Lemma register_services_spec zk :
  nodes_of zk = t0 ->
  exists zk', for_each (register_service ip port) zk (iter (service_map srv)) = Returns zk' /\
    added (nodes_of zk') /\
    forall s m, provides s m -> published zk' s m.
Proof.
  intros Ht.
  destruct (for_each_spec (register_service ip port) (fun zk => added (nodes_of zk)) zk_le
    routes_of (iter (service_map srv))) with (s := zk) as (zk' & -> & Ha & _ & Hq).
  - intros sp z z' Hr Hle m md Hm. eapply published_le; [by eapply Hr|done].
  - intros. by apply register_service_spec.
  - intros p. rewrite Ht. destruct (t0 !! p); auto.
  - exists zk'. split; [done|]. split; [done|]. intros s m (info & md & Hs & Hm).
    apply (Hq (s, info)) with md; [|done]. by rewrite iter_perm, elem_of_map_to_list.
Qed.

End Published.

(** ** Starting the server *)

Section RunTheorems.

Context `{MapOrderLaws} `{api : ServiceApi} `{ZooLaws Zk}.

(** [Run] gets to the event loop, with the nodes of every published method. *)
Lemma Run_spec (srv : RpcServer) m_config data zk0 :
  let ip := Load m_config (lit "rpcserverip") in
  let port := atoi (Load m_config (lit "rpcserverport")) in
  Start m_config = Returns zk0 ->
  method_path_data ip port = Returns data ->
  names_ok srv data ->
  no_ephemeral_parents (Zk := Zk) srv (nodes_of zk0) ->
  exists zk, Run srv m_config = Returns (mk_TcpServer ip (u16 port) 4, zk) /\
    added (Zk := Zk) srv data (nodes_of zk0) (nodes_of zk) /\
    forall s m, provides srv s m -> published data zk s m.
Proof.
  intros ip port Hstart Hdata Hnames Hpar. subst ip port.
  unfold Run. rewrite Hstart. cbn [mbind outcome_bind].
  destruct (register_services_spec srv data (nodes_of zk0) Hnames Hpar _ _ Hdata zk0 eq_refl)
    as (zk & -> & Ha & Hr).
  by exists zk.
Qed.

(** What a client that lists a node's children gets. *)
Lemma GetChildren_spec (zk : Zk) path watch :
  is_Some (nodes_of zk !! path) ->
  forall c, c ∈ (GetChildren zk path watch).1 <-> children_of (nodes_of zk) path c.
Proof.
  intros Hp. destruct (zoo_get_children_spec zk path watch Hp) as (Hf & Hc & _).
  unfold GetChildren. destruct (zoo_get_children zk path watch) as [[flag cs] zk'].
  cbn [fst snd] in *. subst flag. by rewrite Z.eqb_refl.
Qed.

(** C8. [Run] publishes the server. When the registry session opens on nodes none of
    whose ones above the server's are ephemeral, the names are path components and
    the address fits its array, then whatever order the maps are visited in [Run]
    gets to the event loop with the server on the configured address and port
    modulo [2^16]; the registry has all the nodes it had, with their data, and new
    ones only for the server's services and methods (persistent, empty) and for its
    address under each method (ephemeral, holding the address); and a client that
    lists the children of any published method finds the address among them. *)
Theorem run_publishes_every_method (srv : RpcServer) m_config data zk0 watch :
  let ip := Load m_config (lit "rpcserverip") in
  let port := atoi (Load m_config (lit "rpcserverport")) in
  Start m_config = Returns zk0 ->
  method_path_data ip port = Returns data ->
  names_ok srv data ->
  no_ephemeral_parents (Zk := Zk) srv (nodes_of zk0) ->
  exists zk, Run srv m_config = Returns (mk_TcpServer ip (u16 port) 4, zk) /\
    added (Zk := Zk) srv data (nodes_of zk0) (nodes_of zk) /\
    forall s m, provides srv s m -> data ∈ (GetChildren zk (method_path s m) watch).1.
Proof.
  intros ip port Hstart Hdata Hnames Hpar.
  destruct (Run_spec srv m_config data zk0 Hstart Hdata Hnames Hpar) as (zk & Hr & Ha & Hp).
  exists zk. split; [done|]. split; [done|]. intros s m Hs. destruct (Hp s m Hs) as [Hm Hrt].
  apply GetChildren_spec; [done|]. split; [apply (proj1 Hnames)|done].
Qed.

End RunTheorems.

(** ** Witness: one service with one method *)

Module DemoRun.

#[export] Instance in_key_order : MapOrder := fun A m => map_to_list m.
#[export] Instance in_key_order_laws : MapOrderLaws.
Proof. intros A m. done. Qed.

Definition config : Config :=
  <[lit "rpcserverip" := lit "127.0.0.1"]> {[lit "rpcserverport" := lit "8000"]}.

Definition server : RpcServer (api := DemoServer.echo) :=
  mk_RpcServer (api := DemoServer.echo)
    {[ lit "UserServiceRpc" := mk_ServiceInfo (api := DemoServer.echo)
         DemoServer.user_service {[ lit "Login" := lit "Login" ]} ]} None.

Lemma name_ok_dec s :
  bool_decide (s <> [] /\ (slash ∉ s) /\ (Byte.x00 ∉ s)) = true -> name_ok s.
Proof. apply bool_decide_eq_true_1. Qed.

Lemma provides_demo s m : provides server s m -> s = lit "UserServiceRpc" /\ m = lit "Login".
Proof.
  intros (info & md & Hs & Hm). unfold server in Hs. cbn [service_map] in Hs.
  apply lookup_singleton_Some in Hs as [<- <-]. cbn [method_map] in Hm.
  by apply lookup_singleton_Some in Hm as [<- _].
Qed.

Lemma names_demo : names_ok server (lit "127.0.0.1:8000").
Proof.
  split; [by apply name_ok_dec|]. split.
  - intros s [info Hs]. unfold server in Hs. cbn [service_map] in Hs.
    apply lookup_singleton_Some in Hs as [<- _]. by apply name_ok_dec.
  - intros s m [-> ->]%provides_demo. by apply name_ok_dec.
Qed.

End DemoRun.

Lemma run_publishes_every_method_witness :
  exists zk, @Run DemoRun.in_key_order DemoServer.echo znodes DemoZk.tree DemoRun.server
      DemoRun.config = Returns (mk_TcpServer (lit "127.0.0.1") 8000 4, zk) /\
    lit "127.0.0.1:8000" ∈
      (@GetChildren _ DemoZk.tree zk (lit "/UserServiceRpc/Login") true).1.
Proof.
  destruct (@run_publishes_every_method DemoRun.in_key_order DemoRun.in_key_order_laws
    DemoServer.echo znodes DemoZk.tree DemoZk.tree_laws DemoRun.server DemoRun.config
    (lit "127.0.0.1:8000") ∅ true) as (zk & Hr & _ & Hc).
  - reflexivity.
  - reflexivity.
  - apply DemoRun.names_demo.
  - intros p d f _ Hp. change ((∅ : znodes) !! p = Some (d, f)) in Hp.
    by apply lookup_empty_Some in Hp.
  - exists zk. split; [exact Hr|]. apply (Hc (lit "UserServiceRpc") (lit "Login")).
    eexists _, _. split; reflexivity.
Defined.
