(* ===== verification/Stages.v ===== *)
(** * Stages: the stages of a call that the statistics distinguish

    [RuntimeStats::Stage] of [src/src/include/xrpc/monitor/runtime_stats.h], with
    the enumerators' values (the indices of the counters' arrays) and the names of
    the report. *)

From S2P Require Import Prelude.

Inductive Stage :=
| ZK_QUERY | LOAD_BALANCE | CONNECT | SERIALIZE_REQ | ENCODE_REQ | NET_IO | DECODE_RES
| DESERIALIZE_RES | TOTAL.

#[export] Instance Stage_eq_dec : EqDecision Stage.
Proof. solve_decision. Defined.

Definition stages : list Stage :=
  [ZK_QUERY; LOAD_BALANCE; CONNECT; SERIALIZE_REQ; ENCODE_REQ; NET_IO; DECODE_RES;
   DESERIALIZE_RES; TOTAL].

Definition stage_value (s : Stage) : nat :=
  match s with
  | ZK_QUERY => 0 | LOAD_BALANCE => 1 | CONNECT => 2 | SERIALIZE_REQ => 3 | ENCODE_REQ => 4
  | NET_IO => 5 | DECODE_RES => 6 | DESERIALIZE_RES => 7 | TOTAL => 8
  end.

(** [stage_names] of [PrintDetailedReport]. *)
Definition stage_name (s : Stage) : bytes :=
  match s with
  | ZK_QUERY => lit "ZK_QUERY"
  | LOAD_BALANCE => lit "LOAD_BALANCE"
  | CONNECT => lit "CONNECT"
  | SERIALIZE_REQ => lit "SERIALIZE_REQ"
  | ENCODE_REQ => lit "ENCODE_REQ"
  | NET_IO => lit "NET_IO"
  | DECODE_RES => lit "DECODE_RES"
  | DESERIALIZE_RES => lit "DESERIALIZE_RES"
  | TOTAL => lit "TOTAL"
  end.

Lemma stages_value s : stages !! stage_value s = Some s.
Proof. by destruct s. Qed.

Lemma stage_value_inj s s' : stage_value s = stage_value s' -> s = s'.
Proof. by destruct s, s'. Qed.

(** One for the stage [i], to count with. *)
Definition stage_is (i s : Stage) : Z := if decide (s = i) then 1 else 0.
