(* ===== verification/Channel.v ===== *)
(** * Channel: the client's channel and controller

    [src/src/rpc/channel.cc], [channel.h], [controller.cc]. The operating system
    is scripted: every connection attempt has the next outcome of [dials], and a
    connected socket has the results of its [send]s and the events its [recv]s
    will see, both finite; a call that needs more blocks. What the channel does
    is logged. The operations run in a state monad with early return, in which
    [timed] is a [ScopedTimer]: it reports its stage when its scope is left, in
    whatever way. *)

From S2P Require Import Prelude CppString Buffer Wire Proto Message Codec LegacyCodec XRpcCodec CodecFactory Config LoadBalancer ZookeeperClient RouteManager.
From S2P Require Export Stages.

(** ** Controller *)

Record Controller := mk_Controller {
  m_failed : bool;
  m_errText : bytes
}.

Definition Controller_new : Controller := mk_Controller false [].
Definition Controller_Reset (c : Controller) : Controller :=
  {| m_failed := false; m_errText := [] |}.
Definition Failed (c : Controller) : bool := m_failed c.
Definition ErrorText (c : Controller) : bytes := m_errText c.
Definition SetFailed (c : Controller) (reason : bytes) : Controller :=
  {| m_failed := true; m_errText := reason |}.
Definition StartCancel (c : Controller) : Controller := c.
Definition IsCanceled (c : Controller) : bool := false.

(** ** Sockets *)

(** What a [recv] sees next: bytes that have arrived, the peer's close, a signal, or
    an error. *)
Inductive recv_event := RData (bs : bytes) | REof | REintr | RError.

(** [recv_exact]: the return value, the bytes written to the buffer, and the events
    that are left. A [recv] takes what there is, up to what it asked for. *)
Fixpoint recv_exact (script : list recv_event) (size : Z) (buf : bytes) :
    outcome (Z * bytes * list recv_event) :=
  if negb (zlen buf <? size) then Returns (zlen buf, buf, script)
  else
    match script with
    | [] => Blocks
    | REof :: script => Returns (0, buf, script)
    | REintr :: script => recv_exact script size buf
    | RError :: script => Returns (-1, buf, script)
    | RData bs :: script =>
        let want := size - zlen buf in
        if zlen bs =? 0 then Returns (0, buf, script)
        else if zlen bs <=? want then recv_exact script size (buf ++ bs)
        else Returns (size, buf ++ slice bs 0 want, RData (drop (Z.to_nat want) bs) :: script)
    end.

Record Sock := mk_Sock {
  send_results : list Z;
  incoming : list recv_event
}.

Inductive dial := DSocketError | DConnectError (fd : Z) | DConnected (fd : Z) (s : Sock).

Inductive io :=
| IConnect (ip : bytes) (port : Z)
| IClose (fd : Z)
| ISent (fd : Z) (data : bytes)
| IZkClosed
| ITimer (stage : Stage).

(** ** State *)

Section Channel.

Context `{Host} `{Proto RpcHeader} `{Proto RequestProtocol} `{Proto ResponseProtocol}
  `{ZooApi Zk} `{Generator G}.

Record RpcChannel := mk_RpcChannel {
  m_clientfd : Z;
  chan_service_name : bytes;
  m_ip : bytes;
  m_port : Z;
  chan_method_name : bytes;
  m_idx : Z;
  _useXrpcProtocol : bool;
  _clientCodec : ClientCodec
}.

(** The process and the outside: the route table singleton, the configuration, the
    thread's random generator, the sockets and the log. *)
Record Env := mk_Env {
  route_table : RouteTable;
  m_config : Config;
  rng : G;
  dials : list dial;
  socks : gmap Z Sock;
  log : list io
}.

Record St := mk_St {
  chan : RpcChannel;
  ctl : Controller;
  env : Env
}.

(** ** The monad: [None] is an early return *)

Definition M (A : Type) : Type := St -> outcome (option A * St).

Definition ret {A} (a : A) : M A := fun s => Returns (Some a, s).
Definition bind {A B} (m : M A) (f : A -> M B) : M B := fun s =>
  match m s with
  | Returns (Some a, s) => f a s
  | Returns (None, s) => Returns (None, s)
  | Exits n => Exits n
  | Throws => Throws
  | Undefined => Undefined
  | Blocks => Blocks
  end.
Definition lift {A} (o : outcome A) : M A := fun s => a ← o; Returns (Some a, s).
Definition gets {A} (f : St -> A) : M A := fun s => Returns (Some (f s), s).
Definition modify (f : St -> St) : M unit := fun s => Returns (Some tt, f s).

#[global] Instance M_ret : MRet M := fun A => @ret A.
#[global] Instance M_bind : MBind M := fun A B f m => @bind A B m f.

Definition on_env (f : Env -> Env) : M unit := modify (fun s => {| s with env := f (env s) |}).
Definition set_chan (f : RpcChannel -> RpcChannel) : M unit :=
  modify (fun s => {| s with chan := f (chan s) |}).
Definition emit (e : io) : M unit :=
  on_env (fun v => {| v with log := log v ++ [e] |}).

(** [ScopedTimer t(stage); m]. *)
Definition timed {A} (stage : Stage) (m : M A) : M A := fun s =>
  '(r, s) ← m s; '(_, s) ← emit (ITimer stage) s; Returns (r, s).

(** [controller->SetFailed(reason); return;]. *)
Definition fail {A} (reason : bytes) : M A := fun s =>
  Returns (None, {| s with ctl := SetFailed (ctl s) reason |}).

(** [close(m_clientfd); m_clientfd = -1; controller->SetFailed(reason); return;]. *)
Definition close_and_fail {A} (reason : bytes) : M A :=
  fd ← gets (fun s => m_clientfd (chan s));
  emit (IClose fd);;
  set_chan (fun c => {| c with m_clientfd := -1 |});;
  fail reason.

(** ** Connecting *)

Definition newConnect (ip : bytes) (port : Z) : M bool := fun s =>
  match dials (env s) with
  | [] => Blocks
  | d :: ds =>
      (on_env (fun e => {| e with dials := ds |});;
       match d with
       | DSocketError => ret false
       | DConnectError fd => emit (IConnect ip port);; emit (IClose fd);; ret false
       | DConnected fd sock =>
           emit (IConnect ip port);;
           on_env (fun e => {| e with socks := <[fd := sock]> (socks e) |});;
           set_chan (fun c => {| c with m_clientfd := fd |});;
           ret true
       end) s
  end.

(** [send]: the result is scripted; that many bytes go out. *)
Definition send (fd : Z) (data : bytes) : M Z := fun s =>
  match socks (env s) !! fd with
  | None => Returns (Some (-1), s)
  | Some sock =>
      match send_results sock with
      | [] => Blocks
      | r :: rs =>
          (on_env (fun e =>
             {| e with socks := <[fd := {| sock with send_results := rs |}]> (socks e) |});;
           (if r =? -1 then ret tt else emit (ISent fd (slice data 0 r)));;
           ret r) s
      end
  end.

(** [recv_exact(fd, ..)] on a socket. *)
Definition recv_fd (fd size : Z) : M (Z * bytes) := fun s =>
  match socks (env s) !! fd with
  | None => Returns (Some (-1, []), s)
  | Some sock =>
      '(n, buf, rest) ← recv_exact (incoming sock) size [];
      (on_env (fun e => {| e with socks := <[fd := {| sock with incoming := rest |}]> (socks e) |});;
       ret (n, buf)) s
  end.

(** ** Discovery *)

(** [QueryServiceHost]: the node, and the position of its colon. *)
Definition QueryServiceHost (zkclient : Zk) (service_name method_name : bytes) :
    M (bytes * Zk) :=
  let method_path := lit "/" ++ service_name ++ lit "/" ++ method_name in
  table ← gets (fun s => route_table (env s));
  let routeNodes := GetRouteNodes table method_path in
  '(routeNodes, zkclient) ←
    (if bool_decide (routeNodes = []) then
       let '(table, zk) := UpdateRouteTable table method_path (Some zkclient) true in
       on_env (fun e => {| e with route_table := table |});;
       ret (GetRouteNodes table method_path, default zkclient zk)
     else ret (routeNodes, zkclient));
  lb_type ← gets (fun s => Load (m_config (env s)) (lit "loadbalancer"));
  host_data_1 ← timed LOAD_BALANCE
    (if bool_decide (lb_type = lit "roundrobin") then
       ret (Select RoundRobin_new routeNodes).1
     else
       g ← gets (fun s => rng (env s));
       let '(host, lb) := Select (mk_Random g) routeNodes in
       on_env (fun e => {| e with rng := generator lb |});;
       ret host);
  if bool_decide (host_data_1 = []) then ret (lit " ", zkclient)
  else
    let idx := i32 (find host_data_1 Byte.x3a 0) in
    set_chan (fun c => {| c with m_idx := idx |});;
    if idx =? -1 then ret (lit " ", zkclient) else ret (host_data_1, zkclient).

(** Step 1 of [CallMethod] when there is no connection. *)
Definition connect_service : M unit :=
  ip ← gets (fun s => m_ip (chan s));
  if negb (bool_decide (ip = [])) then
    ok ← timed CONNECT
      (port ← gets (fun s => m_port (chan s));
       ok ← newConnect (c_str ip) port;
       if negb ok then fail (lit "direct connect error") else ret tt);
    ret tt
  else
    cfg ← gets (fun s => m_config (env s));
    zkCli ← timed ZK_QUERY (lift (Start cfg));
    sname ← gets (fun s => chan_service_name (chan s));
    mname ← gets (fun s => chan_method_name (chan s));
    '(host_data, zkCli) ← timed ZK_QUERY (QueryServiceHost zkCli sname mname);
    idx ← gets (fun s => m_idx (chan s));
    ip ← lift (substr host_data 0 idx);
    port ← lift (substr host_data (idx + 1) (zlen host_data - idx));
    set_chan (fun c => {| c with m_ip := ip; m_port := u16 (atoi port) |});;
    connected ← timed CONNECT
      (port ← gets (fun s => m_port (chan s)); newConnect (c_str ip) port);
    emit IZkClosed;;
    if negb connected then fail (lit "connect server error") else ret tt.

(** ** The call *)

(** Step 3: the message and its encoding. *)
Definition request_message (c : RpcChannel) (args_str : bytes) : ProtocolMessage :=
  {| ProtocolMessage_default with
     version := if _useXrpcProtocol c then kXRpc else kLegacy;
     service_name := chan_service_name c;
     method_name := chan_method_name c;
     body := args_str;
     content_type := kProtobuf;
     message_type := kRequest |}.
Definition call_context (c : RpcChannel) : ClientContext :=
  {| ClientContext_default with
     ctx_service_name := chan_service_name c; ctx_method_name := chan_method_name c |}.

Definition encode_request (args_str : bytes) : M bytes :=
  timed ENCODE_REQ
    (c ← gets chan;
     let '(enc_ret, _, encoded) :=
       ClientEncode (_clientCodec c) (call_context c) (request_message c args_str) empty_buffer in
     if negb (enc_ret =? kCodecOk) then fail (lit "encode request error")
     else ret (ToString encoded)).

(** Step 4b for XRPC: [frame_buf]. After [NToH] the header is in host order. *)
Definition recv_xrpc_frame : M bytes :=
  fd ← gets (fun s => m_clientfd (chan s));
  '(n, hdr) ← recv_fd fd kFixedHeaderSize;
  if negb (n =? kFixedHeaderSize) then close_and_fail (lit "recv response header error")
  else
    let fh := NToH (FixedHeader_of_mem hdr) in
    if negb (IsValid fh) || (total_size fh >? kMaxFrameSize) || (total_size fh <? kFixedHeaderSize)
    then close_and_fail (lit "invalid response frame header")
    else
      let remaining := total_size fh - kFixedHeaderSize in
      if remaining >? 0 then
        '(n, rest) ← recv_fd fd remaining;
        if negb (n =? remaining) then close_and_fail (lit "recv response body error")
        else ret (FixedHeader_mem fh ++ rest)
      else ret (FixedHeader_mem fh).

(** Step 4b for Legacy. *)
Definition recv_legacy_frame : M bytes :=
  fd ← gets (fun s => m_clientfd (chan s));
  '(n, hdr) ← recv_fd fd 4;
  if negb (n =? 4) then close_and_fail (lit "recv response length error")
  else
    let total_len := ntohl (load hdr) in
    if total_len >? kMaxFrameSize then close_and_fail (lit "response too large")
    else if total_len >? 0 then
      '(n, rest) ← recv_fd fd total_len;
      if negb (n =? total_len) then close_and_fail (lit "recv response body error")
      else ret (hdr ++ rest)
    else ret hdr.

Definition exchange (wire_data : bytes) : M bytes :=
  timed NET_IO
    (fd ← gets (fun s => m_clientfd (chan s));
     r ← send fd wire_data;
     if r =? -1 then close_and_fail (lit "send error")
     else
       x ← gets (fun s => _useXrpcProtocol (chan s));
       if (x : bool) then recv_xrpc_frame else recv_legacy_frame).

Definition decode_response (frame_buf : bytes) : M ProtocolMessage :=
  timed DECODE_RES
    (c ← gets chan;
     let '(dec_ret, _, resp_msg) :=
       ClientDecode (_clientCodec c) (of_bytes frame_buf) ProtocolMessage_default in
     if negb (dec_ret =? kCodecOk)
     then close_and_fail (lit "decode response error, code=" ++ to_string dec_ret)
     else ret resp_msg).

(** The names are taken from the method when the channel has none. *)
Definition name_service (sd_name md_name : bytes) (c : RpcChannel) : RpcChannel :=
  if bool_decide (chan_service_name c = [])
  then {| c with chan_service_name := sd_name; chan_method_name := md_name |} else c.

(** [CallMethod]: the method's service and method names, the serialised request and
    the parser of the response are the generated code's. The result is the parsed
    response of a call that did not return early. *)
Definition CallMethod_body {Resp} (sd_name md_name : bytes) (request : option bytes)
    (parse : bytes -> option Resp) : M Resp :=
  set_chan (name_service sd_name md_name);;
  fd ← gets (fun s => m_clientfd (chan s));
  (if fd =? -1 then connect_service else ret tt);;
  args_str ← timed SERIALIZE_REQ
    (match request with None => fail (lit "serialize request fail") | Some a => ret a end);
  wire_data ← encode_request args_str;
  frame_buf ← exchange wire_data;
  resp_msg ← decode_response frame_buf;
  timed DESERIALIZE_RES
    (match parse (body resp_msg) with
     | None => close_and_fail (lit "parse response error")
     | Some r => ret r
     end).

Definition CallMethod {Resp} (sd_name md_name : bytes) (request : option bytes)
    (parse : bytes -> option Resp) : M Resp :=
  timed TOTAL (CallMethod_body sd_name md_name request parse).

(** ** Constructors and destructor *)

(** [port0] is the uninitialised [m_port]. *)
Fixpoint retry_connect (count : nat) : M unit :=
  match count with
  | O => ret tt
  | S count =>
      ip ← gets (fun s => m_ip (chan s)); port ← gets (fun s => m_port (chan s));
      rt ← newConnect (c_str ip) port;
      if (rt : bool) then ret tt else retry_connect count
  end.

Definition RpcChannel_lazy (port0 : Z) (useXrpc : bool) : RpcChannel :=
  mk_RpcChannel (-1) [] [] port0 [] 0 useXrpc (CreateClientCodec useXrpc).

(** [RpcChannel(connectNow, useXrpc)]: one attempt and three more. *)
Definition RpcChannel_ctor (port0 : Z) (connectNow useXrpc : bool) : M unit :=
  set_chan (fun _ => RpcChannel_lazy port0 useXrpc);;
  if negb connectNow then ret tt else retry_connect 4.

(** [RpcChannel(ip, port, useXrpc)]. *)
Definition RpcChannel_direct (ip : bytes) (port : Z) (useXrpc : bool) : M unit :=
  set_chan (fun _ => mk_RpcChannel (-1) [] ip port [] 0 useXrpc (CreateClientCodec useXrpc));;
  rt ← newConnect (c_str ip) port;
  ret tt.

Definition RpcChannel_dtor : M unit :=
  fd ← gets (fun s => m_clientfd (chan s));
  if fd >=? 0 then emit (IClose fd) else ret tt.

End Channel.
