(* ===== verification/ChannelSpec.v ===== *)
(** * ChannelSpec: what a call does

    Reassembly of segments, how every call ends, the exchange with a server for
    both protocols, and service discovery. *)

From S2P Require Import Prelude CppString Buffer Wire Proto Message Codec LegacyCodec XRpcCodec CodecFactory Config LoadBalancer ZookeeperClient RouteManager Channel.

(** ** Receiving an exact number of bytes *)

(** How a stream of events ends: nothing more yet, closed by the peer, or an error. *)
Inductive ending := Pending | Closed | Errored.

(** The bytes that can be received before the stream ends. *)
Fixpoint available (script : list recv_event) : bytes * ending :=
  match script with
  | [] => ([], Pending)
  | REof :: _ => ([], Closed)
  | RError :: _ => ([], Errored)
  | REintr :: script => available script
  | RData bs :: script =>
      if zlen bs =? 0 then ([], Closed)
      else let '(more, e) := available script in (bs ++ more, e)
  end.

(** What [recv_exact] makes of a stream, given the bytes it already has. *)
Definition recv_result (script : list recv_event) (size : Z) (buf : bytes) (o : outcome (Z * bytes * list recv_event)) : Prop :=
  let '(avail, e) := available script in
  if size <=? zlen buf + zlen avail then
    exists rest, o = Returns (size, buf ++ take (Z.to_nat (size - zlen buf)) avail, rest) /\
      available rest = (drop (Z.to_nat (size - zlen buf)) avail, e)
  else
    match e with
    | Pending => o = Blocks
    | Closed => exists rest, o = Returns (0, buf ++ avail, rest)
    | Errored => exists rest, o = Returns (-1, buf ++ avail, rest)
    end.

Lemma recv_full script size buf :
  zlen buf = size -> recv_result script size buf (recv_exact script size buf).
Proof.
  intros <-. unfold recv_result.
  assert (recv_exact script (zlen buf) buf = Returns (zlen buf, buf, script)) as ->
    by (destruct script; cbn; by rewrite (proj2 (Z.ltb_ge _ _)) by lia).
  destruct (available script) as [avail e] eqn:E. rewrite (proj2 (Z.leb_le _ _)) by lia.
  rewrite Z.sub_diag. cbn [Z.to_nat take drop]. rewrite take_0, drop_0, app_nil_r. by exists script.
Qed.

Lemma recv_exact_from script size buf :
  zlen buf <= size -> recv_result script size buf (recv_exact script size buf).
Proof.
  revert buf. induction script as [|e script IH]; intros buf Hb;
    (destruct (decide (zlen buf = size)); [by apply recv_full|]); unfold recv_result;
    cbn [recv_exact available]; rewrite (proj2 (Z.ltb_lt _ _)) by lia; cbn [negb].
  - by rewrite (proj2 (Z.leb_gt _ _)) by (cbn; lia).
  - destruct e as [bs| | |]; [|rewrite (proj2 (Z.leb_gt _ _)) by (cbn; lia);
      rewrite app_nil_r; by eexists|by apply IH|rewrite (proj2 (Z.leb_gt _ _)) by (cbn; lia);
      rewrite app_nil_r; by eexists].
    destruct (zlen bs =? 0) eqn:E0.
    { rewrite (proj2 (Z.leb_gt _ _)) by (cbn; lia). rewrite app_nil_r. by eexists. }
    destruct (available script) as [more en] eqn:Ea. rewrite length_app, Nat2Z.inj_add.
    destruct (zlen bs <=? size - zlen buf) eqn:Efit.
    + specialize (IH (buf ++ bs)). unfold recv_result in IH.
      rewrite Ea, length_app, Nat2Z.inj_add in IH.
      replace (size <=? zlen buf + (zlen bs + zlen more))
        with (size <=? zlen buf + zlen bs + zlen more) by (f_equal; lia).
      specialize (IH ltac:(lia)). rewrite <- !app_assoc in IH.
      case_if; [|by destruct en].
      destruct IH as (rest & -> & Hrest). exists rest. rewrite Hrest.
      rewrite take_app_ge, drop_app_ge by lia.
      replace (Z.to_nat (size - (zlen buf + zlen bs)))
        with (Z.to_nat (size - zlen buf) - length bs)%nat by lia. done.
    + rewrite (proj2 (Z.leb_le _ _)) by lia. eexists. split.
      * rewrite take_app_le by lia. reflexivity.
      * cbn [available]. rewrite length_drop, Ea, drop_app_le by lia.
        by rewrite (proj2 (Z.eqb_neq _ _)) by lia.
Qed.

(** C28. [recv_exact] reassembles: however the bytes arrive (segments of any sizes,
    interrupted by signals), it returns the requested size with exactly the first
    bytes of the stream and leaves the others to be received, if the stream has
    enough; otherwise it returns 0 when the peer closes first, -1 when an error
    comes first, and waits when neither has happened. *)
Theorem recv_exact_reassembles script size :
  0 <= size ->
  let '(avail, e) := available script in
  if size <=? zlen avail then
    exists rest, recv_exact script size [] = Returns (size, take (Z.to_nat size) avail, rest) /\
      available rest = (drop (Z.to_nat size) avail, e)
  else
    match e with
    | Pending => recv_exact script size [] = Blocks
    | Closed => exists rest, recv_exact script size [] = Returns (0, avail, rest)
    | Errored => exists rest, recv_exact script size [] = Returns (-1, avail, rest)
    end.
Proof.
  intros Hs. pose proof (recv_exact_from script size [] Hs) as H. unfold recv_result in H.
  destruct (available script) as [avail e]. cbn [length app] in H.
  by rewrite Z.add_0_l, Z.sub_0_r in H.
Qed.

(** ** How a call ends *)

Section Outcomes.

Context `{Host} `{Proto RpcHeader} `{Proto RequestProtocol} `{Proto ResponseProtocol}
  `{ZooApi Zk} `{Generator G}.

(** The log grows, by events other than the timer of the whole call; an early return
    has reported a failure, and no other end touches the controller. *)
Definition reports {A} (m : M (G := G) A) : Prop := forall s r s',
  m s = Returns (r, s') ->
  (exists l, log (env s') = log (env s) ++ l /\ (ITimer TOTAL ∉ l)) /\
  match r with
  | None => m_failed (ctl s') = true /\ m_errText (ctl s') <> []
  | Some _ => ctl s' = ctl s
  end.

Lemma log_nil (s : St (G := G)) :
  exists l, log (env s) = log (env s) ++ l /\ (ITimer TOTAL ∉ l).
Proof. exists []. rewrite app_nil_r. split; [done|]. apply not_elem_of_nil. Qed.

Lemma reports_ret {A} (a : A) : reports (ret a).
Proof. intros s r s' [= <- <-]. split; [apply log_nil|done]. Qed.

Lemma reports_gets {A} (f : St (G := G) -> A) : reports (gets f).
Proof. intros s r s' [= <- <-]. split; [apply log_nil|done]. Qed.

Lemma reports_bind {A B} (m : M A) (f : A -> M B) :
  reports m -> (forall a, reports (f a)) -> reports (m ≫= f).
Proof.
  intros Hm Hf s r s' Hr. unfold mbind, M_bind, bind in Hr.
  destruct (m s) as [[[a|] s1]| | | |] eqn:E; try done.
  - destruct (Hm _ _ _ E) as [(l1 & Hl1 & Hn1) Hc]. destruct (Hf a _ _ _ Hr) as [(l2 & Hl2 & Hn2) Hc2].
    split; [|by rewrite <- Hc]. exists (l1 ++ l2). rewrite Hl2, Hl1, app_assoc. split; [done|].
    rewrite elem_of_app. tauto.
  - injection Hr as <- <-. apply (Hm _ _ _ E).
Qed.

Lemma reports_lift {A} (o : outcome A) : reports (lift o).
Proof.
  intros s r s'. unfold lift. destruct o; cbn; try done. intros [= <- <-].
  split; [apply log_nil|done].
Qed.

Lemma reports_on_env f :
  (forall v : Env (G := G), log (f v) = log v) -> reports (on_env f).
Proof.
  intros Hf s r s' [= <- <-]. cbn. split; [|done]. rewrite Hf. apply log_nil.
Qed.

Lemma reports_set_chan f : reports (set_chan f).
Proof. intros s r s' [= <- <-]. cbn. split; [apply log_nil|done]. Qed.

Lemma reports_emit e : e <> ITimer TOTAL -> reports (emit e).
Proof.
  intros He s r s' [= <- <-]. cbn. split; [|done]. exists [e]. split; [done|].
  rewrite list_elem_of_singleton. congruence.
Qed.

Lemma timed_inv {A} stage (m : M (G := G) A) s r s' :
  timed stage m s = Returns (r, s') ->
  exists s1, m s = Returns (r, s1) /\ ctl s' = ctl s1 /\
    log (env s') = log (env s1) ++ [ITimer stage].
Proof.
  unfold timed. destruct (m s) as [[r1 s1]| | | |]; try done. cbn. intros [= <- <-].
  by exists s1.
Qed.

Lemma reports_timed {A} stage (m : M A) : stage <> TOTAL -> reports m -> reports (timed stage m).
Proof.
  intros Hs Hm s r s' Hr. apply timed_inv in Hr as (s1 & E & Hc & Hl).
  destruct (Hm _ _ _ E) as [(l & Hl1 & Hn) Hr]. split; [|by rewrite Hc].
  exists (l ++ [ITimer stage]). rewrite Hl, Hl1, app_assoc. split; [done|].
  rewrite elem_of_app, list_elem_of_singleton. intros [|[=]]; congruence.
Qed.

Lemma reports_fail {A} reason : reason <> [] -> reports (fail (A := A) reason).
Proof. intros He s r s' [= <- <-]. cbn. split; [apply log_nil|done]. Qed.

Create HintDb reports.
Hint Resolve reports_ret reports_gets reports_lift reports_set_chan : reports.
Hint Extern 1 (reports (on_env _)) => apply reports_on_env; intros ?; reflexivity : reports.
Hint Extern 1 (reports (emit _)) => apply reports_emit; discriminate : reports.
Hint Extern 1 (reports (fail _)) => apply reports_fail; discriminate : reports.
Hint Extern 2 (reports (_ ≫= _)) => apply reports_bind; [|intros ?] : reports.
Hint Extern 2 (reports (timed _ _)) => apply reports_timed; [discriminate|] : reports.
Hint Extern 3 (reports (if ?b then _ else _)) => destruct b : reports.
Hint Extern 3 (reports (match ?x with _ => _ end)) => destruct x : reports.
Hint Extern 3 (reports (let _ := _ in _)) => cbv zeta : reports.

Lemma reports_close_and_fail {A} reason :
  reason <> [] -> reports (close_and_fail (A := A) reason).
Proof. intros. unfold close_and_fail. auto 10 using reports_fail with reports. Qed.
Hint Extern 1 (reports (close_and_fail _)) => apply reports_close_and_fail; discriminate : reports.

(** The operations that start by looking at the state. *)
Lemma reports_newConnect ip port : reports (newConnect ip port).
Proof.
  intros s r s'. unfold newConnect. destruct (dials (env s)) as [|d ds]; [done|].
  match goal with |- ?m s = _ -> _ => assert (reports m) as Hm; [|apply Hm] end.
  auto 20 with reports.
Qed.

Lemma reports_send fd data : reports (send fd data).
Proof.
  intros s r s'. unfold send. destruct (socks (env s) !! fd) as [sock|]; [|by apply reports_ret].
  destruct (send_results sock) as [|n ns]; [done|].
  match goal with |- ?m s = _ -> _ => assert (reports m) as Hm; [|apply Hm] end.
  auto 20 with reports.
Qed.

Lemma reports_recv_fd fd size : reports (recv_fd fd size).
Proof.
  intros s r s'. unfold recv_fd. destruct (socks (env s) !! fd) as [sock|]; [|by apply reports_ret].
  destruct (recv_exact (incoming sock) size []) as [[[n buf] rest]| | | |]; try done.
  match goal with |- _ = _ -> _ => cbn [mbind outcome_bind] end.
  match goal with |- ?m s = _ -> _ => assert (reports m) as Hm; [|apply Hm] end.
  auto 20 with reports.
Qed.
Hint Resolve reports_newConnect reports_send reports_recv_fd : reports.

Lemma reports_connect_service : reports connect_service.
Proof. unfold connect_service, QueryServiceHost. auto 50 with reports. Qed.

Lemma reports_exchange wire_data : reports (exchange wire_data).
Proof. unfold exchange, recv_xrpc_frame, recv_legacy_frame. auto 50 with reports. Qed.

Lemma reports_body {Resp} sd_name md_name request (parse : bytes -> option Resp) :
  reports (CallMethod_body sd_name md_name request parse).
Proof.
  unfold CallMethod_body, encode_request, decode_response.
  auto 50 using reports_connect_service, reports_exchange with reports.
Qed.

(** The stages whose timers a log has. *)
Definition timer_of (e : io) : list Stage := match e with ITimer s => [s] | _ => [] end.
Definition timers (l : list io) : list Stage := l ≫= timer_of.

Lemma timers_app l l' : timers (l ++ l') = timers l ++ timers l'.
Proof. apply bind_app. Qed.

Lemma no_total_timer l : ITimer TOTAL ∉ l -> sum_by (stage_is TOTAL) (timers l) = 0.
Proof.
  induction l as [|e l IH]; intros Hn; [done|]. apply not_elem_of_cons in Hn as [He Hn].
  change (timers (e :: l)) with (timer_of e ++ timers l). rewrite sum_by_app, (IH Hn).
  destruct e as [| | | |stage]; try done. cbn. unfold stage_is.
  rewrite decide_False by congruence. done.
Qed.

(** From [s] to [s'], [n] calls have reported their time. *)
Definition calls_timed (n : nat) (s s' : St (G := G)) : Prop :=
  exists l, log (env s') = log (env s) ++ l /\ sum_by (stage_is TOTAL) (timers l) = Z.of_nat n.

Lemma calls_timed_none {A} (m : M A) s r s' :
  reports m -> m s = Returns (r, s') -> calls_timed 0 s s'.
Proof. intros Hm E. apply Hm in E as [(l & Hl & Hn) _]. exists l. by rewrite no_total_timer. Qed.

Lemma calls_timed_trans n m s1 s2 s3 :
  calls_timed n s1 s2 -> calls_timed m s2 s3 -> calls_timed (n + m) s1 s3.
Proof.
  intros (l & Hl & Hn) (l' & Hl' & Hm). exists (l ++ l'). rewrite Hl', Hl, app_assoc.
  split; [done|]. rewrite timers_app, sum_by_app. lia.
Qed.

Lemma call_timed {Resp} sd_name md_name request (parse : bytes -> option Resp) s r s' :
  CallMethod sd_name md_name request parse s = Returns (r, s') -> calls_timed 1 s s'.
Proof.
  intros (s1 & E & _ & Hl)%timed_inv. apply reports_body in E as [(l & Hl1 & Hn) _].
  exists (l ++ [ITimer TOTAL]). rewrite Hl, Hl1, app_assoc. split; [done|].
  by rewrite timers_app, sum_by_app, no_total_timer.
Qed.

End Outcomes.

(** ** Running the steps of a call *)

Section Steps.

Context `{Host} `{Proto RpcHeader} `{!ProtoLaws RpcHeader}
  `{Proto RequestProtocol} `{Proto ResponseProtocol} `{!ProtoLaws ResponseProtocol}
  `{ZooApi Zk} `{Generator G}.

Lemma bind_ok {A B} (m : M A) (f : A -> M B) (s s1 : St (G := G)) a :
  m s = Returns (Some a, s1) -> (m ≫= f) s = f a s1.
Proof. intros Hm. unfold mbind, M_bind, bind. by rewrite Hm. Qed.

Lemma bind_gets {A B} (g : St -> A) (f : A -> M B) (s : St (G := G)) :
  (gets g ≫= f) s = f (g s) s.
Proof. done. Qed.

Definition logged (s : St (G := G)) (e : io) : St :=
  let v := env s in {| s with env := {| v with log := log v ++ [e] |} |}.

Lemma timed_ok {A} stage (m : M A) (s s1 : St (G := G)) r :
  m s = Returns (r, s1) -> timed stage m s = Returns (r, logged s1 (ITimer stage)).
Proof. intros Hm. unfold timed. by rewrite Hm. Qed.

(** From [s] to [s'] the channel and the controller are the same, [l] was logged,
    and the socket [fd] has [av] to receive and [rs] to answer to sends. *)
Definition after (s s' : St (G := G)) (fd : Z) (l : list io) (av : bytes * ending)
    (rs : list Z) : Prop :=
  chan s' = chan s /\ ctl s' = ctl s /\ log (env s') = log (env s) ++ l /\
  exists sock, socks (env s') !! fd = Some sock /\ available (incoming sock) = av /\
    send_results sock = rs.

Lemma after_logged s s' fd l av rs e :
  after s s' fd l av rs -> after s (logged s' e) fd (l ++ [e]) av rs.
Proof.
  intros (Hc & Ht & Hl & Hs). split; [done|]. split; [done|]. split; [|done].
  cbn. by rewrite Hl, app_assoc.
Qed.

Lemma after_eq s s' fd l l' av rs : after s s' fd l av rs -> l = l' -> after s s' fd l' av rs.
Proof. by intros ? <-. Qed.

Lemma send_ok fd data s av r rs l s0 :
  after s0 s fd l av (r :: rs) -> r <> -1 ->
  exists s', send fd data s = Returns (Some r, s') /\
    after s0 s' fd (l ++ [ISent fd (slice data 0 r)]) av rs.
Proof.
  intros (Hc & Ht & Hl & sock & Hs & Ha & Hr) Hne. unfold send. rewrite Hs, Hr.
  rewrite (proj2 (Z.eqb_neq _ _)) by done. eexists. split; [reflexivity|].
  split; [done|]. split; [done|]. split; [cbn; by rewrite Hl, app_assoc|].
  eexists. cbn. rewrite lookup_insert_eq. done.
Qed.

Lemma recv_ok fd size s s0 l av e rs :
  after s0 s fd l (av, e) rs -> 0 <= size <= zlen av ->
  exists s', recv_fd fd size s = Returns (Some (size, take (Z.to_nat size) av), s') /\
    after s0 s' fd l (drop (Z.to_nat size) av, e) rs.
Proof.
  intros (Hc & Ht & Hl & sock & Hs & Ha & Hr) [H0' Hsz]. unfold recv_fd. rewrite Hs.
  pose proof (recv_exact_from (incoming sock) size [] H0') as Hx. unfold recv_result in Hx.
  rewrite Ha in Hx. cbn [length app] in Hx. rewrite Z.add_0_l, Z.sub_0_r in Hx.
  rewrite (proj2 (Z.leb_le _ _)) in Hx by done. destruct Hx as (rest & -> & Hrest).
  eexists. split; [reflexivity|]. split; [done|]. split; [done|]. split; [done|].
  eexists. cbn. rewrite lookup_insert_eq. done.
Qed.

(** Closing on a failure. *)
Definition closed (s : St (G := G)) (reason : bytes) : St :=
  let c := chan s in
  mk_St {| c with m_clientfd := -1 |} (SetFailed (ctl s) reason)
    (env (logged s (IClose (m_clientfd c)))).

Lemma close_and_fail_eq {A} reason (s : St (G := G)) :
  close_and_fail (A := A) reason s = Returns (None, closed s reason).
Proof. done. Qed.

End Steps.

(** ** Properties of every call *)

Section CallProperties.

Context `{Host} `{Proto RpcHeader} `{!ProtoLaws RpcHeader}
  `{Proto RequestProtocol} `{Proto ResponseProtocol} `{!ProtoLaws ResponseProtocol}
  `{ZooApi Zk} `{Generator G}.

(** C14. Every call that ends reports its outcome and its time: it returns without a
    response only with the controller failed and a reason given, it leaves the
    controller alone when it has a response, and in either case the timer of the
    whole call is reported exactly once, after every other action of the call. *)
Theorem call_reports {Resp} sd_name md_name request (parse : bytes -> option Resp) (s s' : St) r :
  CallMethod sd_name md_name request parse s = Returns (r, s') ->
  (exists l, log (env s') = log (env s) ++ l ++ [ITimer TOTAL] /\ (ITimer TOTAL ∉ l)) /\
  match r with
  | None => Failed (ctl s') = true /\ ErrorText (ctl s') <> []
  | Some _ => ctl s' = ctl s
  end.
Proof.
  unfold CallMethod. intros Hr. apply timed_inv in Hr as (s1 & E & Hc & Hl).
  destruct (reports_body _ _ _ _ _ _ _ E) as [(l & Hl1 & Hn) Hr]. split.
  - exists l. rewrite Hl, Hl1, <- app_assoc. done.
  - unfold Failed, ErrorText. by rewrite Hc.
Qed.

(** A channel keeps the names of the first method that was called through it: any
    later call sends a request for that method, whatever method it is given. *)
Theorem call_method_sticky {Resp} sd_name md_name sd_name' md_name' request
    (parse : bytes -> option Resp) (s : St) :
  chan_service_name (chan s) <> [] ->
  CallMethod sd_name md_name request parse s = CallMethod sd_name' md_name' request parse s.
Proof.
  intros Hn. unfold CallMethod, timed, CallMethod_body, mbind, M_bind, bind, set_chan, modify,
    name_service. cbn. by rewrite bool_decide_false by done.
Qed.

(** Discovery creates a new round-robin balancer for every query, whose counter
    starts at 0: with the round-robin strategy it always returns the first node of
    the method's list, in every state and however many queries went before. *)
Theorem query_roundrobin_first zkclient service_name method_name (s : St) node nodes :
  Load (m_config (env s)) (lit "loadbalancer") = lit "roundrobin" ->
  GetRouteNodes (route_table (env s))
    (lit "/" ++ service_name ++ lit "/" ++ method_name) = node :: nodes ->
  (Byte.x3a ∈ node) -> zlen node < 2 ^ 31 ->
  exists s', QueryServiceHost zkclient service_name method_name s =
      Returns (Some (node, zkclient), s') /\
    route_table (env s') = route_table (env s) /\
    slice node (m_idx (chan s')) 1 = [Byte.x3a].
Proof.
  intros Hlb Hnodes Hcolon Hlen.
  apply list_elem_of_split_l in Hcolon as (ip & port & Hnode & Hip).
  assert (node <> []) as Hne by (subst; by destruct ip).
  assert (find node Byte.x3a 0 = zlen ip) as Hfind.
  { unfold find. rewrite drop_0. subst node. by rewrite find_at_app. }
  assert (zlen ip < zlen node) by (subst; rewrite length_app; cbn [length]; lia).
  assert ((Select RoundRobin_new (node :: nodes)).1 = node) as Hsel
    by (cbn; by rewrite Z.mod_0_l by lia).
  unfold QueryServiceHost, mbind, M_bind, bind, gets. cbv zeta.
  rewrite Hnodes. rewrite bool_decide_false by done. cbn -[Load find lit Select].
  rewrite Hlb, bool_decide_true, Hsel by done. cbn -[find lit]. rewrite bool_decide_false by done.
  cbn -[find lit].
  rewrite Hfind, i32_small by lia. rewrite (proj2 (Z.eqb_neq _ _)) by lia.
  eexists. split; [reflexivity|]. cbn. split; [done|].
  subst node. rewrite slice_app_r, Z.sub_diag by lia. done.
Qed.

End CallProperties.

(** ** Calls over an open connection *)

Section Exchange.

Context `{Host} `{Proto RpcHeader} `{!ProtoLaws RpcHeader}
  `{Proto RequestProtocol} `{Proto ResponseProtocol} `{!ProtoLaws ResponseProtocol}
  `{ZooApi Zk} `{Generator G}.

Lemma after_refl (s : St (G := G)) fd sock :
  socks (env s) !! fd = Some sock ->
  after s s fd [] (available (incoming sock)) (send_results sock).
Proof.
  intros Hs. split; [done|]. split; [done|]. split; [by rewrite app_nil_r|]. by exists sock.
Qed.

(** The steps up to the exchange, on an open connection. *)
Lemma call_prefix {Resp} sd_name md_name args (parse : bytes -> option Resp) (s : St) m out :
  let c := name_service sd_name md_name (chan s) in
  let s1 := mk_St c (ctl s) (env s) in
  m_clientfd c <> -1 ->
  ClientEncode (_clientCodec c) (call_context c) (request_message c args) empty_buffer =
    (kCodecOk, m, out) ->
  CallMethod_body sd_name md_name (Some args) parse s =
    (frame_buf ← exchange (ToString out);
     resp_msg ← decode_response frame_buf;
     timed DESERIALIZE_RES
       (match parse (body resp_msg) with
        | None => close_and_fail (lit "parse response error")
        | Some r => ret r
        end)) (logged (logged s1 (ITimer SERIALIZE_REQ)) (ITimer ENCODE_REQ)).
Proof.
  intros c s1 Hfd Henc. unfold CallMethod_body.
  rewrite (bind_ok _ _ s s1 tt) by done. rewrite bind_gets.
  change (m_clientfd (chan s1)) with (m_clientfd c). rewrite (proj2 (Z.eqb_neq _ _)) by done.
  rewrite (bind_ok _ _ s1 s1 tt) by done.
  rewrite (bind_ok _ _ s1 (logged s1 (ITimer SERIALIZE_REQ)) args) by done.
  rewrite (bind_ok _ _ _ (logged (logged s1 (ITimer SERIALIZE_REQ)) (ITimer ENCODE_REQ))
    (ToString out)); [done|].
  unfold encode_request. apply timed_ok. rewrite bind_gets.
  change (chan (logged s1 (ITimer SERIALIZE_REQ))) with c. by rewrite Henc.
Qed.

Lemma exchange_legacy (s0 s : St (G := G)) fd l rs r sends more e wire :
  after s0 s fd l (legacy_response rs ++ more, e) (r :: sends) ->
  m_clientfd (chan s) = fd -> _useXrpcProtocol (chan s) = false -> r <> -1 ->
  zlen rs <= kMaxFrameSize ->
  exists s', exchange wire s = Returns (Some (legacy_response rs), s') /\
    after s0 s' fd (l ++ [ISent fd (slice wire 0 r); ITimer NET_IO]) (more, e) sends.
Proof.
  intros Ha Hfd Hx Hr Hlen. unfold kMaxFrameSize in Hlen. unfold exchange.
  destruct (send_ok fd wire s (legacy_response rs ++ more, e) r sends l s0 Ha Hr)
    as (s1 & Hsend & Ha1).
  assert (chan s1 = chan s) as Hc1
    by (destruct Ha as (Hc & _), Ha1 as (Hc1 & _); congruence).
  destruct (recv_ok fd 4 s1 s0 _ _ _ _ Ha1) as (s2 & Hrecv & Ha2).
  { unfold legacy_response. xlen. }
  assert (take (Z.to_nat 4) (legacy_response rs ++ more) = be_bytes 4 (zlen rs)) as Ht.
  { unfold legacy_response. rewrite <- app_assoc. apply take_app_length'. xlen. }
  assert (drop (Z.to_nat 4) (legacy_response rs ++ more) = rs ++ more) as Hd.
  { unfold legacy_response. rewrite <- app_assoc. apply drop_app_length'. xlen. }
  rewrite Ht in Hrecv. rewrite Hd in Ha2.
  assert (ntohl (load (be_bytes 4 (zlen rs))) = zlen rs) as Hn.
  { unfold ntohl. rewrite hton_load by apply length_be_bytes.
    apply be_load_be_bytes_id. simpl Z.of_nat. lia. }
  destruct (recv_ok fd (zlen rs) s2 s0 _ _ _ _ Ha2) as (s3 & Hrecv3 & Ha3); [xlen|].
  rewrite Nat2Z.id, take_app_length in Hrecv3. rewrite Nat2Z.id, drop_app_length in Ha3.
  assert (recv_legacy_frame s1 =
    Returns (Some (legacy_response rs), if zlen rs >? 0 then s3 else s2)) as Hrl.
  { unfold recv_legacy_frame. rewrite bind_gets, Hc1, Hfd.
    rewrite (bind_ok _ _ s1 s2 (4, be_bytes 4 (zlen rs))) by done. cbn [negb].
    change (negb (4 =? 4)) with false. cbv iota. rewrite Hn. unfold kMaxFrameSize. case_if; [lia|].
    case_if.
    - rewrite (bind_ok _ _ s2 s3 (zlen rs, rs)) by done. rewrite Z.eqb_refl. done.
    - destruct rs; [|cbn [length] in *; lia]. done. }
  exists (logged (if zlen rs >? 0 then s3 else s2) (ITimer NET_IO)). split.
  - apply timed_ok. rewrite bind_gets, Hfd.
    rewrite (bind_ok _ _ s s1 r) by done. rewrite (proj2 (Z.eqb_neq _ _)) by done.
    rewrite bind_gets, Hc1, Hx. done.
  - change [ISent fd (slice wire 0 r); ITimer NET_IO]
      with ([ISent fd (slice wire 0 r)] ++ [ITimer NET_IO]).
    rewrite app_assoc. apply after_logged. case_if; [done|].
    destruct rs; [done|]. cbn [length] in *. lia.
Qed.

(** A Legacy call over an open connection, against a server that answers with
    [rs]: the request goes out as the Legacy encoding of the channel's method and the
    arguments, the response is reassembled from whatever segments it arrives in,
    and the call returns what [rs] parses to, with the connection still open, the
    controller untouched, the following bytes unread, and the stages' timers
    reported in order. *)
Theorem legacy_call_succeeds {Resp} sd_name md_name args (parse : bytes -> option Resp)
    (s : St (G := G)) sock r sends hs rs more e resp :
  let c := name_service sd_name md_name (chan s) in
  let fd := m_clientfd c in
  _clientCodec c = LegacyClientCodec -> _useXrpcProtocol c = false -> fd <> -1 ->
  socks (env s) !! fd = Some sock -> send_results sock = r :: sends -> r <> -1 ->
  SerializeToString (legacy_header (call_context c) (request_message c args)) = Some hs ->
  4 + zlen hs + zlen args < 2 ^ 32 ->
  available (incoming sock) = (legacy_response rs ++ more, e) ->
  zlen rs <= kMaxFrameSize -> parse rs = Some resp ->
  exists s', CallMethod sd_name md_name (Some args) parse s = Returns (Some resp, s') /\
    after (mk_St c (ctl s) (env s)) s' fd
      [ITimer SERIALIZE_REQ; ITimer ENCODE_REQ; ISent fd (slice (legacy_request hs args) 0 r);
       ITimer NET_IO; ITimer DECODE_RES; ITimer DESERIALIZE_RES; ITimer TOTAL] (more, e) sends.
Proof.
  intros c fd Hcodec Hx Hfd Hsock Hsends Hr Hs Hlen Hav Hrl Hparse.
  set (s1 := mk_St c (ctl s) (env s)).
  destruct (Legacy_ClientEncode_spec (call_context c) (request_message c args) empty_buffer hs)
    as (out & Henc & Hwf & Hout); [apply empty_wf|done|done|].
  unfold CallMethod.
  destruct (exchange_legacy s1 (logged (logged s1 (ITimer SERIALIZE_REQ)) (ITimer ENCODE_REQ)) fd
    [ITimer SERIALIZE_REQ; ITimer ENCODE_REQ] rs r sends more e (ToString out))
    as (s2 & Hex & Ha2); try done.
  { change [ITimer SERIALIZE_REQ; ITimer ENCODE_REQ]
      with (([] ++ [ITimer SERIALIZE_REQ]) ++ [ITimer ENCODE_REQ]).
    do 2 apply after_logged. rewrite <- Hav, <- Hsends. by apply after_refl. }
  destruct (Legacy_response_spec rs [] (of_bytes (legacy_response rs)) ProtocolMessage_default)
    as (inb & m & Hdec & Hbody & _); [done|apply of_bytes_wf|
      by rewrite of_bytes_contents, app_nil_r|].
  exists (logged (logged (logged s2 (ITimer DECODE_RES)) (ITimer DESERIALIZE_RES)) (ITimer TOTAL)).
  split.
  - apply timed_ok. erewrite call_prefix; [|exact Hfd|fold c; rewrite Hcodec; exact Henc].
    fold c. fold s1. rewrite (bind_ok _ _ _ _ _ Hex).
    rewrite (bind_ok _ _ s2 (logged s2 (ITimer DECODE_RES)) m).
    + apply timed_ok. by rewrite Hbody, Hparse.
    + unfold decode_response. apply timed_ok. rewrite bind_gets.
      destruct Ha2 as (-> & _). change (chan s1) with c. rewrite Hcodec.
      cbn [ClientDecode LegacyClientCodec]. by rewrite Hdec.
  - rewrite ToString_contents, Hout in Ha2 by done.
    change (contents empty_buffer) with (@nil byte) in Ha2. cbn [app body request_message] in Ha2.
    eapply after_eq; [do 3 eapply after_logged; exact Ha2|done].
Qed.

Lemma exchange_xrpc (s0 s : St (G := G)) fd l m rhs r sends more e wire :
  after s0 s fd l (xrpc_frame kResponse m rhs ++ more, e) (r :: sends) ->
  m_clientfd (chan s) = fd -> _useXrpcProtocol (chan s) = true -> r <> -1 -> fits m rhs ->
  exists s', exchange wire s =
      Returns (Some (FixedHeader_mem (frame_header kResponse m rhs) ++ rhs ++ body m), s') /\
    after s0 s' fd (l ++ [ISent fd (slice wire 0 r); ITimer NET_IO]) (more, e) sends.
Proof.
  intros Ha Hfd Hx Hr Hf.
  destruct (xrpc_frame_fields kResponse m rhs more Hf) as (_ & _ & Htot & _).
  rewrite wire_fixed_header_frame in Htot by apply Hf.
  set (fh := frame_header kResponse m rhs) in *.
  assert (header_wf fh) as Hwf by (apply frame_header_wf, Hf).
  assert (zlen (xrpc_frame kResponse m rhs) = 16 + zlen rhs + zlen (body m)) as Hl
    by (unfold xrpc_frame; xlen).
  destruct (send_ok fd wire s _ r sends l s0 Ha Hr) as (s1 & Hsend & Ha1).
  assert (chan s1 = chan s) as Hc1
    by (destruct Ha as (Hc & _), Ha1 as (Hc1 & _); congruence).
  destruct (recv_ok fd 16 s1 s0 _ _ _ _ Ha1) as (s2 & Hrecv & Ha2); [xlen|].
  assert (xrpc_frame kResponse m rhs ++ more = wire_header fh ++ (rhs ++ body m) ++ more) as Heq
    by (unfold xrpc_frame; by rewrite <- !app_assoc).
  rewrite Heq, take_app_length' in Hrecv by (pose proof (length_wire_header fh); lia).
  rewrite Heq, drop_app_length' in Ha2 by (pose proof (length_wire_header fh); lia).
  destruct (recv_ok fd (zlen (rhs ++ body m)) s2 s0 _ _ _ _ Ha2) as (s3 & Hrecv3 & Ha3); [xlen|].
  rewrite Nat2Z.id, take_app_length in Hrecv3. rewrite Nat2Z.id, drop_app_length in Ha3.
  assert (recv_xrpc_frame s1 = Returns (Some (FixedHeader_mem fh ++ rhs ++ body m),
            if zlen (rhs ++ body m) >? 0 then s3 else s2)) as Hrx.
  { unfold recv_xrpc_frame. rewrite bind_gets, Hc1, Hfd.
    rewrite (bind_ok _ _ s1 s2 (16, wire_header fh)) by done.
    change (negb (16 =? kFixedHeaderSize)) with false. cbv iota.
    rewrite wire_NToH by done. cbv zeta.
    change (IsValid fh) with true. cbn [negb orb]. destruct Hf as (_ & Hmax & _).
    rewrite Htot, Hl. unfold kFixedHeaderSize, kMaxFrameSize in *.
    rewrite length_app, Nat2Z.inj_add in *. decide_cmp.
    replace (16 + zlen rhs + zlen (body m) - 16) with (zlen rhs + zlen (body m)) by lia.
    case_if.
    - rewrite (bind_ok _ _ s2 s3 (zlen rhs + zlen (body m), rhs ++ body m)) by done.
      rewrite Z.eqb_refl. done.
    - destruct rhs; [|cbn [length] in *; lia]. destruct (body m); [|cbn [length] in *; lia].
      by rewrite !app_nil_r. }
  exists (logged (if zlen (rhs ++ body m) >? 0 then s3 else s2) (ITimer NET_IO)). split.
  - apply timed_ok. rewrite bind_gets, Hfd.
    rewrite (bind_ok _ _ s s1 r) by done. rewrite (proj2 (Z.eqb_neq _ _)) by done.
    rewrite bind_gets, Hc1, Hx. done.
  - apply (after_eq _ _ _ ((l ++ [ISent fd (slice wire 0 r)]) ++ [ITimer NET_IO]));
      [apply after_logged|by rewrite <- app_assoc].
    case_if as Epos; [exact Ha3|].
    destruct (rhs ++ body m) eqn:E; [exact Ha2|]. cbn [length] in Epos. lia.
Qed.

(** On a big-endian host the header is the same in both orders. *)
Lemma FixedHeader_mem_big h :
  host_endian = Big -> reserved h = 0 -> FixedHeader_mem h = wire_header h.
Proof.
  intros Hb Hr. unfold FixedHeader_mem, wire_header, store. by rewrite Hb.
Qed.

(** On a little-endian host the decoder reads the magic number with its bytes
    swapped. *)
Lemma host_order_header h rest m0 :
  host_endian = Little -> magic h = kMagicNumber ->
  exists b m, XRpc_ClientDecode (of_bytes (FixedHeader_mem h ++ rest)) m0 = (kCodecInvalidMagic, b, m).
Proof.
  intros Hle Hm. unfold XRpc_ClientDecode.
  assert (buffer_wf (of_bytes (FixedHeader_mem h ++ rest))) as Hwf by apply of_bytes_wf.
  pose proof (length_FixedHeader_mem h) as Hl.
  rewrite ReadableBytes_contents, of_bytes_contents by done.
  rewrite (proj2 (Z.ltb_ge _ _)) by (unfold kFixedHeaderSize; xlen).
  rewrite PeekFixedHeader_spec by (done || (rewrite of_bytes_contents; xlen)).
  change (negb (kCodecOk =? kCodecOk)) with false. cbv iota.
  assert (magic (wire_fixed (contents (of_bytes (FixedHeader_mem h ++ rest)))) = 0x524B) as Hmag.
  { rewrite of_bytes_contents. unfold FixedHeader_mem. cbn [magic wire_fixed].
    rewrite <- app_assoc, slice_head by (rewrite ?length_store; done).
    rewrite Hm. unfold store. by rewrite Hle. }
  unfold IsValid. rewrite Hmag. by do 2 eexists.
Qed.

(** C35. An XRPC call over an open connection, against a server that answers with a
    well-formed response frame. The channel converts the received header to host
    order and puts it, converted, in front of the bytes it gives to the decoder,
    which converts it again. So on a little-endian host every such call fails as
    an invalid magic number, closing the connection, whatever the response says. *)
Theorem xrpc_call_little_endian_fails {Resp} sd_name md_name args (parse : bytes -> option Resp)
    (s : St (G := G)) sock r sends hs m rhs more e :
  host_endian = Little ->
  let c := name_service sd_name md_name (chan s) in
  let fd := m_clientfd c in
  _clientCodec c = XRpcClientCodec -> _useXrpcProtocol c = true -> fd <> -1 ->
  socks (env s) !! fd = Some sock -> send_results sock = r :: sends -> r <> -1 ->
  SerializeToString (request_header (call_context c) (request_message c args)) = Some hs ->
  kFixedHeaderSize + zlen hs + zlen args <= kMaxFrameSize ->
  available (incoming sock) = (xrpc_frame kResponse m rhs ++ more, e) -> fits m rhs ->
  exists s', CallMethod sd_name md_name (Some args) parse s = Returns (None, s') /\
    m_clientfd (chan s') = -1 /\ Failed (ctl s') = true /\
    ErrorText (ctl s') = lit "decode response error, code=-1" /\
    log (env s') = log (env s) ++
      [ITimer SERIALIZE_REQ; ITimer ENCODE_REQ;
       ISent fd (slice (xrpc_frame kRequest (request_message c args) hs) 0 r);
       ITimer NET_IO; IClose fd; ITimer DECODE_RES; ITimer TOTAL].
Proof.
  intros Hle c fd Hcodec Hx Hfd Hsock Hsends Hr Hs Hlen Hav Hf.
  set (s1 := mk_St c (ctl s) (env s)).
  destruct (XRpc_ClientEncode_spec (call_context c) (request_message c args) empty_buffer hs)
    as (out & Henc & Hwf & Hout); [apply empty_wf|done| |].
  { cbn. unfold kFixedHeaderSize, kMaxFrameSize in *. rewrite u32_small; lia. }
  destruct (exchange_xrpc s1 (logged (logged s1 (ITimer SERIALIZE_REQ)) (ITimer ENCODE_REQ)) fd
    [ITimer SERIALIZE_REQ; ITimer ENCODE_REQ] m rhs r sends more e (ToString out))
    as (s2 & Hex & Ha2); try done.
  { apply (after_eq _ _ _ (([] ++ [ITimer SERIALIZE_REQ]) ++ [ITimer ENCODE_REQ])); [|done].
    do 2 apply after_logged. rewrite <- Hav, <- Hsends. by apply after_refl. }
  destruct (host_order_header (frame_header kResponse m rhs) (rhs ++ body m)
    ProtocolMessage_default Hle eq_refl) as (inb & m1 & Hdec).
  rewrite ToString_contents, Hout in Ha2 by done. change (contents empty_buffer) with (@nil byte) in Ha2.
  destruct Ha2 as (Hc2 & Hctl2 & Hlog2 & _). cbn [app] in Hlog2.
  exists (logged (logged (closed s2 (lit "decode response error, code=-1")) (ITimer DECODE_RES))
    (ITimer TOTAL)).
  split.
  - unfold CallMethod. apply timed_ok.
    erewrite call_prefix; [|exact Hfd|fold c; rewrite Hcodec; exact Henc].
    fold c. fold s1. rewrite (bind_ok _ _ _ _ _ Hex).
    assert (decode_response (FixedHeader_mem (frame_header kResponse m rhs) ++ rhs ++ body m) s2 =
      Returns (None, logged (closed s2 (lit "decode response error, code=-1")) (ITimer DECODE_RES)))
      as Hd.
    { unfold decode_response. apply timed_ok. rewrite bind_gets, Hc2.
      change (chan s1) with c. rewrite Hcodec. cbn [ClientDecode XRpcClientCodec].
      rewrite Hdec. done. }
    unfold mbind at 1, M_bind at 1, bind at 1. by rewrite Hd.
  - split; [done|]. split; [done|]. split; [done|].
    cbn [logged closed env log]. rewrite Hlog2, Hc2. rewrite <- !app_assoc. done.
Qed.

(** The same call on a big-endian host returns what the response's body parses
    to, with the connection open: the conversion is the only obstacle. *)
Theorem xrpc_call_big_endian_succeeds {Resp} sd_name md_name args (parse : bytes -> option Resp)
    (s : St (G := G)) sock r sends hs m rhs presp more e resp :
  host_endian = Big ->
  let c := name_service sd_name md_name (chan s) in
  let fd := m_clientfd c in
  _clientCodec c = XRpcClientCodec -> _useXrpcProtocol c = true -> fd <> -1 ->
  socks (env s) !! fd = Some sock -> send_results sock = r :: sends -> r <> -1 ->
  SerializeToString (request_header (call_context c) (request_message c args)) = Some hs ->
  kFixedHeaderSize + zlen hs + zlen args <= kMaxFrameSize ->
  available (incoming sock) = (xrpc_frame kResponse m rhs ++ more, e) -> fits m rhs ->
  ParseFromString rhs = Some (presp : ResponseProtocol) -> parse (body m) = Some resp ->
  exists s', CallMethod sd_name md_name (Some args) parse s = Returns (Some resp, s') /\
    after (mk_St c (ctl s) (env s)) s' fd
      [ITimer SERIALIZE_REQ; ITimer ENCODE_REQ;
       ISent fd (slice (xrpc_frame kRequest (request_message c args) hs) 0 r);
       ITimer NET_IO; ITimer DECODE_RES; ITimer DESERIALIZE_RES; ITimer TOTAL] (more, e) sends.
Proof.
  intros Hbig c fd Hcodec Hx Hfd Hsock Hsends Hr Hs Hlen Hav Hf Hp Hparse.
  set (s1 := mk_St c (ctl s) (env s)).
  destruct (XRpc_ClientEncode_spec (call_context c) (request_message c args) empty_buffer hs)
    as (out & Henc & Hwf & Hout); [apply empty_wf|done| |].
  { cbn. unfold kFixedHeaderSize, kMaxFrameSize in *. rewrite u32_small; lia. }
  destruct (exchange_xrpc s1 (logged (logged s1 (ITimer SERIALIZE_REQ)) (ITimer ENCODE_REQ)) fd
    [ITimer SERIALIZE_REQ; ITimer ENCODE_REQ] m rhs r sends more e (ToString out))
    as (s2 & Hex & Ha2); try done.
  { apply (after_eq _ _ _ (([] ++ [ITimer SERIALIZE_REQ]) ++ [ITimer ENCODE_REQ])); [|done].
    do 2 apply after_logged. rewrite <- Hav, <- Hsends. by apply after_refl. }
  rewrite FixedHeader_mem_big in Hex by done.
  destruct (XRpc_client_decode_frame kResponse m rhs [] (of_bytes (xrpc_frame kResponse m rhs))
    ProtocolMessage_default presp) as (inb & Hdec & _);
    [done|apply of_bytes_wf|by rewrite of_bytes_contents, app_nil_r|done|].
  exists (logged (logged (logged s2 (ITimer DECODE_RES)) (ITimer DESERIALIZE_RES)) (ITimer TOTAL)).
  split.
  - unfold CallMethod. apply timed_ok.
    erewrite call_prefix; [|exact Hfd|fold c; rewrite Hcodec; exact Henc].
    fold c. fold s1. rewrite (bind_ok _ _ _ _ _ Hex). erewrite (bind_ok _ _ s2).
    2:{ unfold decode_response. apply timed_ok. rewrite bind_gets.
        destruct Ha2 as (-> & _). change (chan s1) with c. rewrite Hcodec.
        cbn [ClientDecode XRpcClientCodec]. unfold xrpc_frame in Hdec. by rewrite Hdec. }
    apply timed_ok. cbn -[set_response]. cbn. by rewrite Hparse.
  - rewrite ToString_contents, Hout in Ha2 by done.
    change (contents empty_buffer) with (@nil byte) in Ha2. cbn [app] in Ha2.
    eapply after_eq; [do 3 eapply after_logged; exact Ha2|done].
Qed.

End Exchange.

(** ** Witnesses *)

Section ChannelWitnesses.

Import Demo.
#[local] Existing Instances RpcHeader_demo RequestProtocol_demo ResponseProtocol_demo DemoZk.tree.
#[local] Instance upper : Generator unit := fun g hi => (hi, g).

Lemma recv_exact_reassembles_witness :
  exists rest, recv_exact [RData (lit "ab"); REintr; RData (lit "cde"); REof] 4 [] =
      Returns (4, lit "abcd", rest) /\ available rest = (lit "e", Closed).
Proof.
  exact (recv_exact_reassembles [RData (lit "ab"); REintr; RData (lit "cde"); REof] 4 ltac:(lia)).
Defined.

(** A channel with an open connection, a socket and a fresh controller. *)
Definition demo_state `{Host} (useXrpc : bool) (sname : bytes) (sock : Sock)
    (cfg : Config) (table : RouteTable) : St :=
  mk_St (mk_RpcChannel 7 sname [] 0 (lit "Login") 0 useXrpc (CreateClientCodec useXrpc))
    Controller_new (mk_Env table cfg tt [] {[ 7 := sock ]} []).

#[local] Instance little : Host := Little.

Lemma call_reports_witness :
  exists s', CallMethod (lit "UserServiceRpc") (lit "Login") (Some (lit "x")) Some
      (demo_state false [] (mk_Sock [-1] []) ∅ ∅) = Returns (None, s') /\
    Failed (ctl s') = true /\ ErrorText (ctl s') <> [].
Proof.
  destruct (CallMethod (lit "UserServiceRpc") (lit "Login") (Some (lit "x")) Some
      (demo_state false [] (mk_Sock [-1] []) ∅ ∅)) as [[r s']| | | |] eqn:E; try discriminate E.
  destruct (call_reports _ _ _ _ _ _ _ E) as [_ Hr]. exists s'.
  destruct r; [discriminate E|]. split; [reflexivity|exact Hr].
Defined.

Lemma call_method_sticky_witness :
  CallMethod (lit "UserServiceRpc") (lit "Register") (Some (lit "x")) Some
      (demo_state false (lit "UserServiceRpc") (mk_Sock [9] [REof]) ∅ ∅) =
  CallMethod (lit "UserServiceRpc") (lit "Login") (Some (lit "x")) Some
      (demo_state false (lit "UserServiceRpc") (mk_Sock [9] [REof]) ∅ ∅).
Proof. apply call_method_sticky. discriminate. Defined.

Lemma query_roundrobin_first_witness :
  let s := demo_state false [] (mk_Sock [] []) {[ lit "loadbalancer" := lit "roundrobin" ]}
    {[ lit "/UserServiceRpc/Login" := [lit "10.0.0.7:8000"; lit "10.0.0.8:8000"] ]} in
  exists s', QueryServiceHost (∅ : znodes) (lit "UserServiceRpc") (lit "Login") s =
    Returns (Some (lit "10.0.0.7:8000", ∅), s').
Proof.
  intros s. destruct (query_roundrobin_first (∅ : znodes) (lit "UserServiceRpc") (lit "Login") s
    (lit "10.0.0.7:8000") [lit "10.0.0.8:8000"]) as (s' & H & _);
    [reflexivity|reflexivity|by apply (bool_decide_unpack _)|reflexivity|].
  exists s'. exact H.
Defined.

Definition demo_pong : ProtocolMessage := {| ProtocolMessage_default with body := lit "pong" |}.
Definition demo_pong_header : bytes := default [] (SerializeToString (response_header demo_pong)).
Lemma demo_pong_fits : fits demo_pong demo_pong_header.
Proof. vm_compute. intuition discriminate. Qed.
Definition demo_xrpc_args : bytes := lit "ping".

(** The request header of the demo call. *)
Definition demo_call_header `{Host} : bytes :=
  let c := name_service (lit "UserServiceRpc") (lit "Login")
    (chan (demo_state true [] (mk_Sock [] []) ∅ ∅)) in
  default [] (SerializeToString (request_header (call_context c) (request_message c demo_xrpc_args))).

Definition demo_xrpc_sock : Sock :=
  mk_Sock [24] [RData (xrpc_frame kResponse demo_pong demo_pong_header)].

Lemma xrpc_call_little_endian_fails_witness :
  exists s', CallMethod (lit "UserServiceRpc") (lit "Login") (Some demo_xrpc_args) Some
      (demo_state true [] demo_xrpc_sock ∅ ∅) = Returns (None, s') /\
    ErrorText (ctl s') = lit "decode response error, code=-1".
Proof.
  destruct (xrpc_call_little_endian_fails (lit "UserServiceRpc") (lit "Login") demo_xrpc_args Some
    (demo_state true [] demo_xrpc_sock ∅ ∅) demo_xrpc_sock 24 [] demo_call_header demo_pong
    demo_pong_header [] Pending) as (s' & H & _ & _ & He & _);
    [reflexivity|reflexivity|reflexivity|discriminate|apply lookup_singleton_eq|reflexivity|
     discriminate|vm_compute; reflexivity|vm_compute; discriminate|vm_compute; reflexivity|
     apply demo_pong_fits|].
  exists s'. split; [exact H|exact He].
Defined.

Section BigEndian.

#[local] Instance big : Host := Big.

Lemma xrpc_call_big_endian_succeeds_witness :
  exists s', CallMethod (lit "UserServiceRpc") (lit "Login") (Some demo_xrpc_args) Some
      (demo_state true [] demo_xrpc_sock ∅ ∅) = Returns (Some (lit "pong"), s').
Proof.
  destruct (xrpc_call_big_endian_succeeds (lit "UserServiceRpc") (lit "Login") demo_xrpc_args Some
    (demo_state true [] demo_xrpc_sock ∅ ∅) demo_xrpc_sock 24 [] demo_call_header demo_pong
    demo_pong_header (response_header demo_pong) [] Pending (lit "pong")) as (s' & Hr & _);
    [reflexivity|reflexivity|reflexivity|discriminate|apply lookup_singleton_eq|reflexivity|
     discriminate|vm_compute; reflexivity|vm_compute; discriminate|vm_compute; reflexivity|
     apply demo_pong_fits|vm_compute; reflexivity|reflexivity|].
  exists s'. exact Hr.
Defined.

End BigEndian.

End ChannelWitnesses.
