(* ===== verification/Discovery.v ===== *)
(** * Discovery: from a server's registration to a client's connection

    [RpcServer::Run] and the ZooKeeper branch of [RpcChannel::CallMethod]
    (src/src/rpc/server.cc, src/src/rpc/channel.cc) meet in the registry: what the
    first stores there, the second lists, picks from, splits and dials. *)

From S2P Require Import Prelude CppString Proto Codec CodecFactory Config LoadBalancer ZookeeperClient RouteManager Server ServerRun Channel ChannelSpec.

(** ** Paths and addresses *)



(** ** The registry's answer *)

Section Registry.

Context `{api : ServiceApi} `{ZooLaws Zk}.



End Registry.

(** ** The client *)

Section Discovery.

Context `{MapOrderLaws} `{api : ServiceApi} `{ZooLaws Zk} `{GeneratorLaws G}.






End Discovery.

(** ** Witness

    The registry is the node tree; a session opened with the address of the second
    member sees the nodes that the server's [Run] left. *)

Section DiscoveryWitness.

Import Demo DemoServer DemoRun.
#[local] Existing Instances RpcHeader_demo RequestProtocol_demo ResponseProtocol_demo.
#[local] Instance discovery_host : Host := Little.







End DiscoveryWitness.
