(* ===== verification/UserProto.v ===== *)
(** * UserProto: the messages of the example service

    [src/example/user.proto]. As for the protocol headers, the wire format is the
    generated code's: an instance of [Proto] with its law. *)

From S2P Require Import Prelude Proto.

Record ResultCode := mk_ResultCode { errcode : Z; errmsg : bytes }.
Record LoginRequest := mk_LoginRequest { login_name : bytes; login_pwd : bytes }.
Record LoginResponse := mk_LoginResponse { login_result : ResultCode; login_success : bool }.
Record RegisterRequest := mk_RegisterRequest {
  register_id : Z;
  register_name : bytes;
  register_pwd : bytes
}.
Record RegisterResponse := mk_RegisterResponse {
  register_result : ResultCode;
  register_success : bool
}.

(** A message without fields set, as [Clear] leaves it. *)
Definition LoginResponse_default : LoginResponse := mk_LoginResponse (mk_ResultCode 0 []) false.
Definition RegisterResponse_default : RegisterResponse :=
  mk_RegisterResponse (mk_ResultCode 0 []) false.

(** Integers in range; [bytes] fields take anything. *)
Definition int32_ok (z : Z) : Prop := - 2 ^ 31 <= z < 2 ^ 31.
#[export] Instance LoginRequest_validity : ProtoValid LoginRequest := fun _ => True.
#[export] Instance LoginResponse_validity : ProtoValid LoginResponse :=
  fun r => int32_ok (errcode (login_result r)).
#[export] Instance RegisterRequest_validity : ProtoValid RegisterRequest :=
  fun r => 0 <= register_id r < 2 ^ 32.
#[export] Instance RegisterResponse_validity : ProtoValid RegisterResponse :=
  fun r => int32_ok (errcode (register_result r)).

(** ** Concrete instances, in the format of [Proto.Demo] *)

Module UserDemo.
Import Demo.

Definition put_bool (b : bool) : bytes := put_int (if b then 1 else 0).
Definition get_bool (s : bytes) : option (bool * bytes) :=
  '(z, s) ← get_int s; Some (z =? 1, s).
Definition put_result (r : ResultCode) : bytes := put_int (errcode r) ++ put_str (errmsg r).
Definition get_result (s : bytes) : option (ResultCode * bytes) :=
  '(c, s) ← get_i32 s; '(m, s) ← get_str s; Some (mk_ResultCode c m, s).
Definition at_end {A} (r : A * bytes) : option A :=
  match r.2 with [] => Some r.1 | _ => None end.

Definition LoginRequest_demo : Proto LoginRequest := {|
  SerializeToString r := bounded (put_str (login_name r) ++ put_str (login_pwd r));
  ParseFromString s :=
    '(n, s) ← get_str s; '(p, s) ← get_str s; at_end (mk_LoginRequest n p, s) |}.
Definition LoginResponse_demo : Proto LoginResponse := {|
  SerializeToString r := bounded (put_result (login_result r) ++ put_bool (login_success r));
  ParseFromString s :=
    '(r, s) ← get_result s; '(b, s) ← get_bool s; at_end (mk_LoginResponse r b, s) |}.
Definition RegisterRequest_demo : Proto RegisterRequest := {|
  SerializeToString r :=
    bounded (put_int (register_id r) ++ put_str (register_name r) ++ put_str (register_pwd r));
  ParseFromString s :=
    '(i, s) ← get_int s; '(n, s) ← get_str s; '(p, s) ← get_str s;
    at_end (mk_RegisterRequest i n p, s) |}.
Definition RegisterResponse_demo : Proto RegisterResponse := {|
  SerializeToString r := bounded (put_result (register_result r) ++ put_bool (register_success r));
  ParseFromString s :=
    '(r, s) ← get_result s; '(b, s) ← get_bool s; at_end (mk_RegisterResponse r b, s) |}.

#[local] Arguments put_int : simpl never.
#[local] Arguments put_str : simpl never.

Lemma get_put_bool b s : get_bool (put_bool b ++ s) = Some (b, s).
Proof. unfold get_bool, put_bool. rewrite get_put_int. by destruct b. Qed.

Lemma get_put_result r s :
  int32_ok (errcode r) -> zlen (errmsg r) < 2 ^ 64 -> get_result (put_result r ++ s) = Some (r, s).
Proof.
  intros Hc Hm. unfold get_result, put_result. rewrite <- (assoc_L (++)), get_put_i32 by done.
  cbn. rewrite get_put_str by done. by destruct r.
Qed.

#[export] Instance LoginRequest_demo_laws : @ProtoLaws LoginRequest LoginRequest_demo _.
Proof.
  split. intros [n p] bs _ [<- Hl]%bounded_Some. cbn in *. part_bounds Hl. read_fields.
  rewrite <- (app_nil_r (put_str p)). by read_fields.
Qed.

Lemma result_then_bool r b :
  int32_ok (errcode r) -> zlen (put_result r ++ put_bool b) < 2 ^ 31 ->
  get_result (put_result r ++ put_bool b) = Some (r, put_bool b) /\
  get_bool (put_bool b) = Some (b, []).
Proof.
  intros Hr Hl. split; [|by rewrite <- (app_nil_r (put_bool b)), get_put_bool].
  apply get_put_result; [done|]. unfold put_result in Hl. part_bounds Hl. lia.
Qed.

#[export] Instance LoginResponse_demo_laws : @ProtoLaws LoginResponse LoginResponse_demo _.
Proof.
  split. intros [r b] bs Hv [<- Hl]%bounded_Some. cbn in *.
  destruct (result_then_bool r b Hv Hl) as [-> E]. cbn. by rewrite E.
Qed.

#[export] Instance RegisterRequest_demo_laws : @ProtoLaws RegisterRequest RegisterRequest_demo _.
Proof.
  split. intros [i n p] bs Hv [<- Hl]%bounded_Some. unfold proto_valid, RegisterRequest_validity in Hv.
  cbn in *. part_bounds Hl. read_fields. rewrite <- (app_nil_r (put_str p)). read_fields.
  by rewrite u64_small by lia.
Qed.

#[export] Instance RegisterResponse_demo_laws : @ProtoLaws RegisterResponse RegisterResponse_demo _.
Proof.
  split. intros [r b] bs Hv [<- Hl]%bounded_Some. cbn in *.
  destruct (result_then_bool r b Hv Hl) as [-> E]. cbn. by rewrite E.
Qed.

End UserDemo.
