(* ===== verification/UserService.v ===== *)
(** * UserService: the example server

    [src/example/callee/server.cc]: the service's local methods, the handlers that
    override the generated class's, the service as an instance of what the framework
    sees of services ([ServiceApi]), and [main]. The state of the user's world is the
    standard output. That a method's index leads to its handler, and the descriptors'
    names, are the generated code's, by [src/example/user.proto]. *)

From S2P Require Import Prelude CppString Proto UserProto Config Application ZookeeperClient Server ServerRun ServerCalls.

(** ** Local methods *)

Definition endl : bytes := [Byte.x0a].

Definition Login_local (name pwd cout : bytes) : bool * bytes :=
  (true, cout ++ lit "doing local service: Login" ++ endl ++
         lit "name:" ++ name ++ lit " pwd:" ++ pwd ++ endl).

Definition Register_local (id : Z) (name pwd cout : bytes) : bool * bytes :=
  (true, cout ++ lit "doing local service: Register" ++ endl ++
         lit "id:" ++ to_string id ++ lit " name:" ++ name ++ lit " pwd:" ++ pwd ++ endl).

(** ** Handlers

    The response starts empty; the handler runs [done] as its last action. *)

Definition Login (request : LoginRequest) (response : LoginResponse) (cout : bytes) :
    LoginResponse * bytes :=
  let '(login_result, cout) := Login_local (login_name request) (login_pwd request) cout in
  (mk_LoginResponse (mk_ResultCode 0 []) login_result, cout).

Definition Register (request : RegisterRequest) (response : RegisterResponse) (cout : bytes) :
    RegisterResponse * bytes :=
  let '(register_result, cout) :=
    Register_local (register_id request) (register_name request) (register_pwd request) cout in
  (mk_RegisterResponse (mk_ResultCode 0 []) register_result, cout).

(** ** The service *)

Inductive UserMethod := login_method | register_method.
Inductive UserMessage :=
| MLoginRequest (m : LoginRequest)
| MLoginResponse (m : LoginResponse)
| MRegisterRequest (m : RegisterRequest)
| MRegisterResponse (m : RegisterResponse).

Section UserService.

Context `{Proto LoginRequest} `{Proto LoginResponse} `{Proto RegisterRequest}
  `{Proto RegisterResponse}.

(** [CallMethod] with a request of another method's type does not happen: the
    framework parses the prototype of the method it calls. *)
#[export] Instance UserServiceRpc : ServiceApi := {|
  Service := unit;
  MethodDescriptor := UserMethod;
  PbMessage := UserMessage;
  World := bytes;
  service_desc_name _ := lit "UserServiceRpc";
  service_methods _ := [login_method; register_method];
  method_desc_name m :=
    match m with login_method => lit "Login" | register_method => lit "Register" end;
  ParseRequest _ m b :=
    match m with
    | login_method => MLoginRequest <$> ParseFromString b
    | register_method => MRegisterRequest <$> ParseFromString b
    end;
  SerializeMessage m :=
    match m with
    | MLoginRequest m => SerializeToString m
    | MLoginResponse m => SerializeToString m
    | MRegisterRequest m => SerializeToString m
    | MRegisterResponse m => SerializeToString m
    end;
  CallMethod _ m request cout :=
    match m, request with
    | login_method, MLoginRequest r =>
        let '(response, cout) := Login r LoginResponse_default cout in
        (cout, Some (MLoginResponse response))
    | register_method, MRegisterRequest r =>
        let '(response, cout) := Register r RegisterResponse_default cout in
        (cout, Some (MRegisterResponse response))
    | _, _ => (cout, None)
    end |}.

(** ** [main] *)

Context `{MapOrder} `{ZooApi Zk} (getopt : list bytes -> list (byte * bytes))
  (fopen : bytes -> option bytes).

Definition provider : RpcServer := NotifyService RpcServer_new tt.

Definition callee_main (argv : list bytes) : outcome (RpcServer * TcpServer * Zk) :=
  m_config ← Init getopt fopen ∅ argv;
  '(server, zk) ← Run provider m_config;
  mret (provider, server, zk).

(** ** Lemmas *)

(** What the provider publishes. *)
Lemma provider_methods :
  exists info, service_map provider !! lit "UserServiceRpc" = Some info /\
    service info = tt /\ method_map info !! lit "Login" = Some login_method /\
    method_map info !! lit "Register" = Some register_method /\
    forall m, m <> lit "Login" -> m <> lit "Register" -> method_map info !! m = None.
Proof.
  destruct (proj1 (notify_service_publishes (api := UserServiceRpc) RpcServer_new tt []) eq_refl) as (info & Hi & Hs & Hm).
  exists info. split; [exact Hi|]. split; [exact Hs|].
  split; [by rewrite Hm|]. split; [by rewrite Hm|].
  intros m H1' H2'. rewrite Hm. cbn [service_methods UserServiceRpc first_method method_desc_name].
  by rewrite !bool_decide_false by congruence.
Qed.

End UserService.
