(* ===== verification/LoginCall.v ===== *)
(** * LoginCall: a call of the example, from the client's stub to the server and back

    The generated stub of [UserServiceRpc] on a channel ([Channel]) that is connected
    to a server ([Server]) with the example's service ([UserService]) published. *)

From S2P Require Import Prelude CppString Buffer Wire Proto Message Codec LegacyCodec XRpcCodec CodecFactory Config LoadBalancer ZookeeperClient RouteManager Server ServerSpec ServerCalls Channel ChannelSpec UserProto UserService.

Section LoginCall.

Context `{Host} `{Proto RpcHeader} `{!ProtoLaws RpcHeader}
  `{Proto RequestProtocol} `{!ProtoLaws RequestProtocol}
  `{Proto ResponseProtocol} `{!ProtoLaws ResponseProtocol}
  `{Proto LoginRequest} `{!ProtoLaws LoginRequest}
  `{Proto LoginResponse} `{!ProtoLaws LoginResponse}
  `{Proto RegisterRequest} `{Proto RegisterResponse}
  `{ZooApi Zk} `{Generator G}.

(** [UserServiceRpc_Stub::Login(controller, request, response, done)]: the generated
    code passes its method's descriptor to the channel. *)
Definition Stub_Login (request : LoginRequest) : M (G := G) LoginResponse :=
  Channel.CallMethod (lit "UserServiceRpc") (lit "Login") (SerializeToString request)
    ParseFromString.

(** What the example's service answers to a login. *)
Definition login_answer : LoginResponse := mk_LoginResponse (mk_ResultCode 0 []) true.

Lemma login_answers srv request args w rs :
  service_map srv !! lit "UserServiceRpc" = service_map provider !! lit "UserServiceRpc" ->
  SerializeToString request = Some args -> SerializeToString login_answer = Some rs ->
  answers srv (lit "UserServiceRpc") (lit "Login") args w
    (Login request LoginResponse_default w).2 rs.
Proof.
  intros Hsrv Hargs Hrs. destruct provider_methods as (info & Hi & _ & Hm & _).
  exists info, login_method, (MLoginRequest request), (MLoginResponse login_answer).
  split; [by rewrite Hsrv|]. split; [done|].
  cbn [ParseRequest UserServiceRpc Server.CallMethod SerializeMessage].
  split; [|split; [done|done]].
  by rewrite (parse_serialize request args).
Qed.

(** A channel for the stub: Legacy, connected, and used for [Login] or not at all. *)
Definition login_channel (c : RpcChannel) : Prop :=
  _clientCodec c = LegacyClientCodec /\ _useXrpcProtocol c = false /\ m_clientfd c <> -1 /\
  (chan_service_name c = [] \/
   (chan_service_name c = lit "UserServiceRpc" /\ chan_method_name c = lit "Login")).

Definition login_header (args : bytes) : RpcHeader :=
  mk_RpcHeader (lit "UserServiceRpc") (lit "Login") (u32 (zlen args)).

(** What the channel sends for the call. *)
Lemma login_channel_header c args :
  login_channel c ->
  let c' := name_service (lit "UserServiceRpc") (lit "Login") c in
  legacy_header (call_context c') (request_message c' args) = login_header args /\
  m_clientfd c' = m_clientfd c /\ _clientCodec c' = LegacyClientCodec /\
  _useXrpcProtocol c' = false.
Proof.
  intros (Hc & Hx & _ & Hn) c'. unfold c', name_service.
  destruct Hn as [Hn|[Hn Hm]]; rewrite Hn.
  - rewrite bool_decide_true by done. done.
  - rewrite bool_decide_false by done. unfold legacy_header, login_header. cbn. by rewrite Hn, Hm.
Qed.

(** C3. A Login call of the example, from the stub to the server and back. The client's
    channel is connected and speaks Legacy; the server publishes the example's
    service and has seen no other protocol. Then the bytes that the call sends, once
    in the server's buffer, make the handler run [Login] once on the request the
    client made and send one response, leaving nothing in the buffer; and when that
    response reaches the client, in segments of any sizes and with any bytes
    following, the stub's call returns error code 0 and success, with the connection
    open, the controller untouched and one timer per stage. *)
Theorem login_over_legacy `{MuduoBufferLaws B} (srv : RpcServer) conn (buffer : B) w
    request args hs rs (s : St (G := G)) sock sends more e :
  login_channel (chan s) ->
  socks (env s) !! m_clientfd (chan s) = Some sock ->
  send_results sock = zlen (legacy_request hs args) :: sends ->
  SerializeToString request = Some args -> SerializeToString (login_header args) = Some hs ->
  4 + zlen hs + zlen args <= kMaxFrameSize ->
  serves srv LegacyServerCodec ->
  service_map srv !! lit "UserServiceRpc" = service_map provider !! lit "UserServiceRpc" ->
  peek buffer = legacy_request hs args ->
  SerializeToString login_answer = Some rs -> zlen rs <= kMaxFrameSize ->
  exists buffer',
    OnMessage srv conn buffer w =
      Returns (with_codec srv LegacyServerCodec, buffer',
        (Login request LoginResponse_default w).2,
        created srv ++ [ACalled (lit "UserServiceRpc") (lit "Login");
                        ASend conn (legacy_response rs)]) /\
    peek buffer' = [] /\
    (available (incoming sock) = (legacy_response rs ++ more, e) ->
     exists s', Stub_Login request s = Returns (Some login_answer, s') /\
       after (mk_St (name_service (lit "UserServiceRpc") (lit "Login") (chan s)) (ctl s) (env s))
         s' (m_clientfd (chan s))
         [ITimer SERIALIZE_REQ; ITimer ENCODE_REQ;
          ISent (m_clientfd (chan s)) (legacy_request hs args);
          ITimer NET_IO; ITimer DECODE_RES; ITimer DESERIALIZE_RES; ITimer TOTAL] (more, e) sends).
Proof.
  intros Hch Hsock Hsends Hargs Hhs Hlen Hsrv Hpub Hpeek Hrs Hrl.
  pose proof Hch as (_ & _ & Hfd & _).
  destruct (login_channel_header (chan s) args Hch) as (Hhdr & Hfd' & Hcodec & Hx).
  set (c' := name_service _ _ (chan s)) in *.
  destruct (Legacy_ClientEncode_spec (call_context c') (request_message c' args) empty_buffer hs)
    as (out & Henc & _ & Hout); [apply empty_wf|by rewrite Hhdr|unfold kMaxFrameSize in *; cbn; lia|].
  destruct (legacy_call_end_to_end srv conn buffer w (Login request LoginResponse_default w).2
    (call_context c') (request_message c' args) hs rs)
    as (buffer' & data & inb & m & Hon & Hb & Hdata & _); try done.
  { by rewrite Hhdr. }
  { rewrite Henc. cbn [snd]. by rewrite Hout. }
  { rewrite Hhdr. by apply login_answers. }
  rewrite Hhdr, Hdata in Hon. exists buffer'. split; [exact Hon|]. split; [done|]. intros Hav.
  destruct (legacy_call_succeeds (lit "UserServiceRpc") (lit "Login") args
    (ParseFromString (T := LoginResponse)) s sock (zlen (legacy_request hs args)) sends hs rs more e
    login_answer) as (s' & Hcall & Hafter); fold c'; rewrite ?Hfd'; try done.
  - by rewrite Hhdr.
  - unfold kMaxFrameSize in *. lia.
  - by apply parse_serialize.
  - exists s'. unfold Stub_Login. rewrite Hargs. split; [exact Hcall|].
    fold c' in Hafter. rewrite Hfd' in Hafter. by rewrite slice_all in Hafter by lia.
Qed.

End LoginCall.

(** ** Witness *)

Section LoginCallWitness.

Import Demo UserDemo DemoServer.
#[local] Existing Instances RpcHeader_demo RequestProtocol_demo ResponseProtocol_demo
  LoginRequest_demo LoginResponse_demo RegisterRequest_demo RegisterResponse_demo DemoZk.tree.
#[local] Existing Instance UserServiceRpc | 0.
#[local] Instance upper : Generator unit := fun g hi => (hi, g).
#[local] Instance little : Host := Little.

Definition zhang : LoginRequest := mk_LoginRequest (lit "zhangsan") (lit "123456").
Definition zhang_args : bytes := default [] (SerializeToString zhang).
Definition zhang_header : bytes := default [] (SerializeToString (login_header zhang_args)).
Definition zhang_frame : bytes := legacy_request zhang_header zhang_args.
Definition answer_bytes : bytes := default [] (SerializeToString login_answer).
Definition answer_frame : bytes := legacy_response answer_bytes.

(** The response arrives in two segments, with the start of another. *)
Definition zhang_client : St := mk_St
  (mk_RpcChannel 7 [] [] 0 [] 0 false LegacyClientCodec) Controller_new
  (mk_Env ∅ ∅ tt []
    {[ 7 := mk_Sock [zlen zhang_frame]
              [RData (take 3 answer_frame); REintr; RData (drop 3 answer_frame ++ lit "x")] ]} []).

Lemma login_over_legacy_witness :
  OnMessage (B := bytes) provider 4 zhang_frame [] =
    Returns (with_codec provider LegacyServerCodec, [], (Login zhang LoginResponse_default []).2,
      [ACodecCreated; ACalled (lit "UserServiceRpc") (lit "Login"); ASend 4 answer_frame]) /\
  exists s', Stub_Login zhang zhang_client = Returns (Some login_answer, s').
Proof.
  destruct (login_over_legacy (B := bytes) provider 4 zhang_frame [] zhang zhang_args zhang_header
    answer_bytes zhang_client
    (mk_Sock [zlen zhang_frame]
       [RData (take 3 answer_frame); REintr; RData (drop 3 answer_frame ++ lit "x")])
    [] (lit "x") Pending) as (buffer' & Hon & Hb & Hcall).
  - split; [reflexivity|]. split; [reflexivity|]. split; [discriminate|by left].
  - apply lookup_singleton_eq.
  - reflexivity.
  - reflexivity.
  - reflexivity.
  - vm_compute. discriminate.
  - by left.
  - reflexivity.
  - reflexivity.
  - reflexivity.
  - vm_compute. discriminate.
  - change (buffer' = []) in Hb. subst buffer'. split; [exact Hon|].
    destruct Hcall as (s' & H & _); [vm_compute; reflexivity|]. by exists s'.
Defined.

End LoginCallWitness.
