(* ===== verification/ExampleClients.v ===== *)
(** * ExampleClients: the worker threads of the example clients

    [send_request] of [src/example/caller/client.cc] and [worker] of
    [src/example/caller/bench_client.cc]: a thread makes a number of Login calls
    through its own channel and adds to the two counters. What a thread adds is the
    result; the counters themselves are shared ([QpsMonitor]). *)

From S2P Require Import Prelude CppString Buffer Wire Proto Message Codec LegacyCodec XRpcCodec CodecFactory Config LoadBalancer ZookeeperClient RouteManager Channel ChannelSpec UserProto LoginCall.

(** What a thread has added to [success_count] and [fail_count]. *)
Record Tally := mk_Tally { succeeded : Z; failed : Z }.
Definition tally_zero : Tally := mk_Tally 0 0.
Definition add_success (t : Tally) : Tally := {| t with succeeded := succeeded t + 1 |}.
Definition add_failure (t : Tally) : Tally := {| t with failed := failed t + 1 |}.

Section Clients.

Context `{Host} `{Proto RpcHeader} `{!ProtoLaws RpcHeader}
  `{Proto RequestProtocol} `{Proto ResponseProtocol} `{!ProtoLaws ResponseProtocol}
  `{Proto LoginRequest} `{Proto LoginResponse} `{ZooApi Zk} `{Generator G}.

Definition the_request : LoginRequest := mk_LoginRequest (lit "zhangsan") (lit "123456").

(** After a call: the controller is asked first. *)
Definition tally_call (controller : Controller) (response : LoginResponse) (t : Tally) : Tally :=
  if Failed controller then add_failure t
  else if errcode (login_result response) =? 0 then add_success t else add_failure t.

(** A call that returns early leaves the response as it was. *)
Definition response_after (r : option LoginResponse) (response : LoginResponse) : LoginResponse :=
  match r with Some r => r | None => response end.

(** ** [client.cc] *)

Fixpoint send_request_loop (requests : nat) (response : LoginResponse) (t : Tally)
    (s : St (G := G)) : outcome (Tally * St) :=
  match requests with
  | O => mret (t, s)
  | S requests =>
      '(r, s) ← Stub_Login the_request s;
      let response := response_after r response in
      send_request_loop requests response (tally_call (ctl s) response t) s
  end.

(** The channel connects with the first call; [port0] is its uninitialised port. *)
Definition send_request (port0 : Z) (requests_per_thread : nat) (e : Env) : outcome (Tally * St) :=
  let s := mk_St (RpcChannel_lazy port0 false) Controller_new e in
  '(_, s) ← RpcChannel_ctor port0 false false s;
  send_request_loop requests_per_thread LoginResponse_default tally_zero s.

(** ** [bench_client.cc] *)

(** [controller.Reset(); response.Clear();]. *)
Definition reset (s : St (G := G)) : St := {| s with ctl := Controller_Reset (ctl s) |}.

Fixpoint worker_loop (calls : nat) (response : LoginResponse) (t : Tally) (s : St (G := G)) :
    outcome (Tally * St) :=
  match calls with
  | O => mret (t, s)
  | S calls =>
      '(r, s) ← Stub_Login the_request s;
      let response := response_after r response in
      let t := tally_call (ctl s) response t in
      worker_loop calls LoginResponse_default t (reset s)
  end.

(** The channel is made by [main], the controller by the thread. *)
Definition worker (calls : nat) (s : St (G := G)) : outcome (Tally * St) :=
  worker_loop calls LoginResponse_default tally_zero {| s with ctl := Controller_new |}.

(** ** The calls a thread makes *)

(** [rs] are the results of successive calls, with [between] after each. *)
Inductive login_calls (between : St (G := G) -> St) : St -> list (option LoginResponse) -> St -> Prop :=
| calls_nil s : login_calls between s [] s
| calls_cons s r s1 rs s' :
    Stub_Login the_request s = Returns (r, s1) -> login_calls between (between s1) rs s' ->
    login_calls between s (r :: rs) s'.

Definition is_ok (r : option LoginResponse) : bool :=
  match r with Some r => errcode (login_result r) =? 0 | None => false end.
Definition oks (rs : list (option LoginResponse)) : Z := zlen (filter (fun r => is_ok r = true) rs).

(** The results before the first call that failed. *)
Fixpoint before_failure (rs : list (option LoginResponse)) : list (option LoginResponse) :=
  match rs with
  | Some r :: rs => Some r :: before_failure rs
  | _ => []
  end.

(** A call without a response fails the controller; one with a response does not touch
    it. *)
Lemma login_controller s r s' :
  Stub_Login the_request s = Returns (r, s') ->
  match r with None => Failed (ctl s') = true | Some _ => ctl s' = ctl s end.
Proof.
  unfold Stub_Login, Channel.CallMethod. intros (s1 & E & Hc & _)%timed_inv.
  apply reports_body in E as [_ Hr]. destruct r; [by rewrite Hc|].
  unfold Failed. rewrite Hc. apply Hr.
Qed.

Lemma oks_cons r rs : oks (r :: rs) = (if is_ok r then 1 else 0) + oks rs.
Proof. unfold oks. rewrite filter_cons. destruct (is_ok r); simpl; lia. Qed.

Lemma tally_call_total c response t :
  succeeded (tally_call c response t) + failed (tally_call c response t) =
  succeeded t + failed t + 1.
Proof. unfold tally_call, add_success, add_failure. repeat case_if; simpl; lia. Qed.

(** Once the controller has failed, [client.cc] counts every call as a failure. *)
Lemma failed_from_here n : forall response t s t' s',
  Failed (ctl s) = true -> send_request_loop n response t s = Returns (t', s') ->
  exists rs, login_calls id s rs s' /\ length rs = n /\
    t' = mk_Tally (succeeded t) (failed t + Z.of_nat n).
Proof.
  induction n as [|n IH]; intros response t s t' s' Hf; cbn [send_request_loop].
  { intros [= <- <-]. exists []. split; [constructor|]. split; [done|]. destruct t; simpl. f_equal. lia. }
  destruct (Stub_Login the_request s) as [[r s1]| | | |] eqn:E; try done. cbn [mbind outcome_bind].
  intros Hl. assert (Failed (ctl s1) = true) as Hf1.
  { pose proof (login_controller _ _ _ E) as Hr. destruct r; [by rewrite Hr|done]. }
  destruct (IH _ _ _ _ _ Hf1 Hl) as (rs & Hrs & Hn & ->). exists (r :: rs).
  split; [by econstructor|]. split; [simpl; by rewrite Hn|].
  unfold tally_call. rewrite Hf1. simpl. f_equal. lia.
Qed.

(** C33. [client.cc] does not reset its controller. A thread that returns has made exactly
    the calls it was to make and counted each once; but it counts as successes only
    those before the first call that failed: every later call is counted as a failure,
    also when it brings a response without an error. *)
Theorem client_counts_until_failure n e port0 t s' :
  send_request port0 n e = Returns (t, s') ->
  exists rs, login_calls id (mk_St (RpcChannel_lazy port0 false) Controller_new e) rs s' /\
    length rs = n /\
    succeeded t = oks (before_failure rs) /\ failed t = Z.of_nat n - oks (before_failure rs).
Proof.
  unfold send_request. cbn [mbind outcome_bind RpcChannel_ctor].
  change (RpcChannel_ctor port0 false false ?s) with
    (Returns (Some tt, {| s with chan := RpcChannel_lazy port0 false |})).
  cbn [mbind outcome_bind]. set (s := mk_St _ _ _).
  assert (Failed (ctl s) = false) as Hf by done. clearbody s.
  cut (forall response t0, send_request_loop n response t0 s = Returns (t, s') ->
    exists rs, login_calls id s rs s' /\ length rs = n /\
      succeeded t = succeeded t0 + oks (before_failure rs) /\
      failed t = failed t0 + (Z.of_nat n - oks (before_failure rs))).
  { intros Hcut Hl. apply Hcut in Hl as (rs & ? & ? & ? & ?). exists rs. simpl in *. done. }
  revert s Hf. induction n as [|n IH]; intros s Hf response t0; cbn [send_request_loop].
  { intros [= <- <-]. exists []. split; [constructor|]. unfold oks. simpl. split; [done|lia]. }
  destruct (Stub_Login the_request s) as [[r s1]| | | |] eqn:E; try done. cbn [mbind outcome_bind].
  intros Hl. pose proof (login_controller _ _ _ E) as Hr. destruct r as [r|].
  - destruct (IH s1 ltac:(by rewrite Hr) _ _ Hl) as (rs & Hrs & Hn & Hs & Hfl). exists (Some r :: rs).
    split; [by econstructor|]. split; [simpl; by rewrite Hn|].
    cbn [before_failure]. rewrite oks_cons, Hs, Hfl. cbn [is_ok].
    unfold tally_call. rewrite Hr, Hf. cbn [response_after]. case_if; simpl; lia.
  - destruct (failed_from_here _ _ _ _ _ _ Hr Hl) as (rs & Hrs & Hn & ->). exists (None :: rs).
    split; [by econstructor|]. split; [simpl; by rewrite Hn|].
    unfold tally_call. rewrite Hr. unfold oks. simpl. lia.
Qed.

(** [bench_client.cc] resets: it counts exactly the calls that brought a response
    without an error. *)
Theorem worker_counts_successes n s t s' :
  worker n s = Returns (t, s') ->
  exists rs, login_calls reset {| s with ctl := Controller_new |} rs s' /\ length rs = n /\
    succeeded t = oks rs /\ failed t = Z.of_nat n - oks rs.
Proof.
  unfold worker. set (s0 := {| s with ctl := Controller_new |}).
  assert (Failed (ctl s0) = false) as Hf by done. clearbody s0.
  cut (forall response t0, worker_loop n response t0 s0 = Returns (t, s') ->
    exists rs, login_calls reset s0 rs s' /\ length rs = n /\
      succeeded t = succeeded t0 + oks rs /\ failed t = failed t0 + (Z.of_nat n - oks rs)).
  { intros Hcut Hl. apply Hcut in Hl as (rs & ? & ? & ? & ?). exists rs. simpl in *. done. }
  revert s0 Hf. induction n as [|n IH]; intros s0 Hf response t0; cbn [worker_loop].
  { intros [= <- <-]. exists []. split; [constructor|]. unfold oks. simpl. split; [done|lia]. }
  destruct (Stub_Login the_request s0) as [[r s1]| | | |] eqn:E; try done. cbn [mbind outcome_bind].
  intros Hl. pose proof (login_controller _ _ _ E) as Hr.
  destruct (IH (reset s1) eq_refl _ _ Hl) as (rs & Hrs & Hn & Hs & Hfl). exists (r :: rs).
  split; [by econstructor|]. split; [simpl; by rewrite Hn|]. rewrite oks_cons, Hs, Hfl.
  unfold tally_call. destruct r as [r|]; cbn [is_ok response_after].
  - rewrite Hr, Hf. case_if; simpl; lia.
  - rewrite Hr. simpl. lia.
Qed.

(** ** A connection that answers *)

(** The channel is connected, the peer will take [n] requests of [size] bytes whole and
    answer each with the frame of [rs]. *)
Definition answering (s : St (G := G)) (n : nat) (size : Z) (rs : bytes) (e : ending) : Prop :=
  login_channel (chan s) /\
  exists sock, socks (env s) !! m_clientfd (chan s) = Some sock /\
    send_results sock = replicate n size /\
    available (incoming sock) = (concat (replicate n (legacy_response rs)), e).

Lemma login_channel_named c :
  login_channel c -> login_channel (name_service (lit "UserServiceRpc") (lit "Login") c).
Proof.
  intros Hch. pose proof Hch as (Hc & Hx & Hfd & Hn). unfold name_service. case_bool_decide; [|done].
  split; [done|]. split; [done|]. split; [done|]. right. done.
Qed.

Lemma answering_call s n args hs rs resp e :
  SerializeToString the_request = Some args -> SerializeToString (login_header args) = Some hs ->
  4 + zlen hs + zlen args < 2 ^ 32 -> zlen rs <= kMaxFrameSize -> ParseFromString rs = Some resp ->
  answering s (S n) (zlen (legacy_request hs args)) rs e ->
  exists s', Stub_Login the_request s = Returns (Some resp, s') /\ ctl s' = ctl s /\
    answering s' n (zlen (legacy_request hs args)) rs e.
Proof.
  intros Hargs Hhs Hlen Hrl Hp (Hch & sock & Hsock & Hsend & Hav).
  pose proof Hch as (_ & _ & Hfd & _).
  destruct (login_channel_header (chan s) args Hch) as (Hhdr & Hfd' & Hcodec & Hx).
  destruct (legacy_call_succeeds (lit "UserServiceRpc") (lit "Login") args
    (ParseFromString (T := LoginResponse)) s sock (zlen (legacy_request hs args))
    (replicate n (zlen (legacy_request hs args))) hs rs (concat (replicate n (legacy_response rs))) e
    resp) as (s' & Hcall & Hc & Ht & _ & sock' & Hsock' & Hav' & Hsend');
    rewrite ?Hfd'; try done; try lia.
  { by rewrite Hhdr. }
  exists s'. unfold Stub_Login. rewrite Hargs. split; [exact Hcall|]. split; [done|].
  split; [rewrite Hc; by apply login_channel_named|]. exists sock'. rewrite Hc. done.
Qed.

(** C22. Against a server that answers every request, [bench_client.cc]'s worker returns
    having counted all its calls as successes. *)
Theorem worker_all_succeed n s args hs rs resp e :
  SerializeToString the_request = Some args -> SerializeToString (login_header args) = Some hs ->
  4 + zlen hs + zlen args < 2 ^ 32 -> zlen rs <= kMaxFrameSize -> ParseFromString rs = Some resp ->
  errcode (login_result resp) = 0 -> answering s n (zlen (legacy_request hs args)) rs e ->
  exists s', worker n s = Returns (mk_Tally (Z.of_nat n) 0, s').
Proof.
  intros Hargs Hhs Hlen Hrl Hp He Hans. unfold worker.
  set (s0 := {| s with ctl := Controller_new |}).
  assert (Failed (ctl s0) = false) as Hf by done.
  assert (answering s0 n (zlen (legacy_request hs args)) rs e) as Ha by done.
  clearbody s0. clear Hans.
  cut (forall response t, exists s', worker_loop n response t s0 =
    Returns (mk_Tally (succeeded t + Z.of_nat n) (failed t), s')).
  { intros Hcut. apply Hcut. }
  revert s0 Hf Ha. induction n as [|n IH]; intros s0 Hf Ha response t; cbn [worker_loop].
  { exists s0. destruct t; cbn. by rewrite Z.add_0_r. }
  destruct (answering_call s0 n args hs rs resp e Hargs Hhs Hlen Hrl Hp Ha) as (s1 & -> & Hc & Ha1).
  cbn [mbind outcome_bind response_after].
  destruct (IH (reset s1) eq_refl Ha1 LoginResponse_default (tally_call (ctl s1) resp t)) as (s' & ->).
  exists s'. unfold tally_call. rewrite Hc, Hf, He. cbn. do 3 f_equal. lia.
Qed.

End Clients.

(** ** Witnesses *)

Section ExampleClientsWitnesses.

Import Demo UserDemo.
#[local] Existing Instances RpcHeader_demo RequestProtocol_demo ResponseProtocol_demo
  LoginRequest_demo LoginResponse_demo DemoZk.tree.
#[local] Instance upper : Generator unit := fun g hi => (hi, g).
#[local] Instance little : Host := Little.

Definition the_args : bytes := default [] (SerializeToString the_request).
Definition the_header : bytes := default [] (SerializeToString (login_header the_args)).
Definition the_size : Z := zlen (legacy_request the_header the_args).
Definition the_answer : bytes := default [] (SerializeToString login_answer).

(** The route is cached; no socket for the first call, a good connection for the
    second. *)
Definition flaky_env : Env := mk_Env
  {[ lit "/UserServiceRpc/Login" := [lit "10.0.0.7:8000"] ]}
  {[ lit "loadbalancer" := lit "roundrobin" ]} tt
  [DSocketError; DConnected 7 (mk_Sock [the_size] [RData (legacy_response the_answer)])] ∅ [].

Definition tally_of {S} (o : outcome (Tally * S)) : option Tally :=
  match o with Returns (t, _) => Some t | _ => None end.

(** The second call brings a response without an error, and counts as a failure. *)
Lemma client_counts_until_failure_witness :
  exists t s', send_request 0 2 flaky_env = Returns (t, s') /\ succeeded t = 0 /\ failed t = 2 /\
    exists rs, login_calls id (mk_St (RpcChannel_lazy 0 false) Controller_new flaky_env) rs s' /\
      length rs = 2%nat /\
      succeeded t = oks (before_failure rs) /\ failed t = 2 - oks (before_failure rs).
Proof.
  assert (tally_of (send_request 0 2 flaky_env) = Some (mk_Tally 0 2)) as Ht
    by (vm_compute; reflexivity).
  destruct (send_request 0 2 flaky_env) as [[t s']| | | |] eqn:E; try discriminate Ht.
  injection Ht as ->. exists (mk_Tally 0 2), s'. split; [reflexivity|].
  split; [reflexivity|]. split; [reflexivity|].
  exact (client_counts_until_failure 2 flaky_env 0 (mk_Tally 0 2) s' E).
Defined.

Definition healthy_client : St := mk_St
  (mk_RpcChannel 7 [] (lit "127.0.0.1") 9000 [] 0 false LegacyClientCodec) Controller_new
  (mk_Env ∅ ∅ tt []
    {[ 7 := mk_Sock [the_size; the_size; the_size]
              [RData (take 9 (legacy_response the_answer));
               RData (drop 9 (legacy_response the_answer) ++ legacy_response the_answer);
               RData (legacy_response the_answer); REof] ]} []).

Lemma worker_counts_successes_witness :
  exists t s', worker 1 healthy_client = Returns (t, s') /\
    exists rs, login_calls reset {| healthy_client with ctl := Controller_new |} rs s' /\
      length rs = 1%nat /\ succeeded t = oks rs /\ failed t = 1 - oks rs.
Proof.
  assert (tally_of (worker 1 healthy_client) = Some (mk_Tally 1 0)) as Ht
    by (vm_compute; reflexivity).
  destruct (worker 1 healthy_client) as [[t s']| | | |] eqn:E; try discriminate Ht.
  exists t, s'. split; [reflexivity|]. exact (worker_counts_successes 1 healthy_client t s' E).
Defined.

Lemma worker_all_succeed_witness :
  exists s', worker 3 healthy_client = Returns (mk_Tally 3 0, s').
Proof.
  apply (worker_all_succeed 3 healthy_client the_args the_header the_answer login_answer Closed);
    [reflexivity|reflexivity|vm_compute; reflexivity|vm_compute; discriminate|reflexivity|reflexivity|].
  split; [split; [reflexivity|]; split; [reflexivity|]; split; [discriminate|by left]|].
  eexists. split; [apply lookup_singleton_eq|]. split; [reflexivity|]. vm_compute. reflexivity.
Defined.

End ExampleClientsWitnesses.
