(* ===== verification/MiniServer.v ===== *)
(** * MiniServer: the thread-per-connection benchmark server

    [tools/mini_server.cc]: a server of the Legacy protocol on plain sockets, one
    thread per connection. The socket is scripted as for the channel. The flag
    [g_running] is a function of the iteration at which it is read. *)

From S2P Require Import Prelude Buffer Wire Proto Message Codec LegacyCodec Channel ChannelSpec UserProto.

(** What both servers answer to every login. *)
Definition ok_response : LoginResponse :=
  mk_LoginResponse (mk_ResultCode 0 (lit "ok")) true.

(** [message.ParseFromArray(frame.data() + off, n)]: a read beyond the vector is
    undefined. *)
Definition ParseFromArray `{Proto T} (frame : bytes) (off n : Z) : outcome (option T) :=
  if off + n <=? zlen frame then Returns (ParseFromString (slice frame off n)) else Undefined.

Record MiniConn := mk_MiniConn {
  mini_in : list recv_event;
  mini_send_results : list Z;
  mini_sent : bytes
}.

(** [recv_exact] of the tool returns on every negative result, a signal included. *)
Fixpoint mini_recv_exact (script : list recv_event) (size : Z) (buf : bytes) :
    outcome (Z * bytes * list recv_event) :=
  if negb (zlen buf <? size) then Returns (zlen buf, buf, script)
  else
    match script with
    | [] => Blocks
    | REof :: script => Returns (0, buf, script)
    | REintr :: script | RError :: script => Returns (-1, buf, script)
    | RData bs :: script =>
        let want := size - zlen buf in
        if zlen bs =? 0 then Returns (0, buf, script)
        else if zlen bs <=? want then mini_recv_exact script size (buf ++ bs)
        else Returns (size, buf ++ slice bs 0 want, RData (drop (Z.to_nat want) bs) :: script)
    end.

Definition conn_recv (c : MiniConn) (size : Z) : outcome (Z * bytes * MiniConn) :=
  '(n, buf, rest) ← mini_recv_exact (mini_in c) size [];
  mret (n, buf, {| c with mini_in := rest |}).

Definition conn_send (c : MiniConn) (data : bytes) : outcome (Z * MiniConn) :=
  match mini_send_results c with
  | [] => Blocks
  | r :: rs =>
      mret (r, {| c with mini_send_results := rs; mini_sent := mini_sent c ++ slice data 0 r |})
  end.

Section MiniServer.

Context `{Host} `{Proto RpcHeader} `{Proto LoginRequest} `{Proto LoginResponse}.

(** One iteration of [handle_client]'s loop; [false] is a [break]. *)
Definition handle_one (c : MiniConn) : outcome (bool * MiniConn) :=
  (* 1. TotalLen *)
  '(n, buf, c) ← conn_recv c 4;
  if negb (n =? 4) then mret (false, c)
  else
    let total_len := ntohl (load buf) in
    if (total_len =? 0) || (total_len >? 16 * 1024 * 1024) then mret (false, c)
    else
      (* 2. HeaderLen *)
      '(n, buf, c) ← conn_recv c 4;
      if negb (n =? 4) then mret (false, c)
      else
        let header_len := ntohl (load buf) in
        (* 3. RpcHeader and body *)
        let remaining := u32 (total_len - 4) in
        '(n, frame, c) ← conn_recv c remaining;
        if negb (n =? remaining) then mret (false, c)
        else
          (* 4., 5. parse *)
          rpc_header ← ParseFromArray (T := RpcHeader) frame 0 header_len;
          match rpc_header with
          | None => mret (false, c)
          | Some _ =>
              let body_len := u32 (remaining - header_len) in
              login_req ← ParseFromArray (T := LoginRequest) frame header_len body_len;
              match login_req with
              | None => mret (false, c)
              | Some _ =>
                  (* 6. - 8. the response *)
                  match SerializeToString ok_response with
                  | None => mret (false, c)
                  | Some resp_body =>
                      let resp_len_be := htonl (u32 (zlen resp_body)) in
                      '(n, c) ← conn_send c (store 4 resp_len_be);
                      if negb (n =? 4) then mret (false, c)
                      else
                        '(n, c) ← conn_send c resp_body;
                        mret (n =? zlen resp_body, c)
                  end
              end
          end.

(** The loop; [None] when the fuel runs out. The connection is closed at its end. *)
Fixpoint handle_client (fuel : nat) (g_running : nat -> bool) (k : nat) (c : MiniConn) :
    outcome (option MiniConn) :=
  match fuel with
  | O => mret None
  | S fuel =>
      if g_running k then
        '(go, c) ← handle_one c;
        if go : bool then handle_client fuel g_running (S k) c else mret (Some c)
      else mret (Some c)
  end.

End MiniServer.

(** ** The stream a connection sees *)

(** For the tool a signal is an error. *)
Definition strict (e : recv_event) : recv_event :=
  match e with REintr => RError | _ => e end.
Definition strict_all : list recv_event -> list recv_event := map strict.
Definition arrived (script : list recv_event) : bytes * ending := available (strict_all script).

Lemma mini_recv_strict script size buf :
  recv_exact (strict_all script) size buf =
  (mini_recv_exact script size buf ≫= fun r => Returns (r.1.1, r.1.2, strict_all r.2)).
Proof.
  revert buf. induction script as [|e script IH]; intros buf; cbn.
  - by case_if.
  - case_if; [done|]. destruct e; cbn; try done. case_if; [done|]. case_if; [|done]. apply IH.
Qed.

(** Receiving what has arrived. *)
Lemma conn_recv_ok c size av e :
  0 <= size <= zlen av -> arrived (mini_in c) = (av, e) ->
  exists rest, conn_recv c size =
      Returns (size, take (Z.to_nat size) av, {| c with mini_in := rest |}) /\
    arrived rest = (drop (Z.to_nat size) av, e).
Proof.
  intros [Hs Hle] Ha. pose proof (recv_exact_from (strict_all (mini_in c)) size [] Hs) as H.
  unfold recv_result in H. unfold arrived in Ha. rewrite Ha in H. cbn [length app] in H.
  rewrite (proj2 (Z.leb_le _ _)) in H by lia. rewrite mini_recv_strict, Z.sub_0_r in H.
  unfold conn_recv. destruct H as (rest & Hr & Hav).
  destruct (mini_recv_exact (mini_in c) size []) as [[[n b] rest']| | | |]; try done.
  cbn in Hr. simplify_eq. exists rest'. done.
Qed.

(** The peer's close at the start of a frame. *)
Lemma conn_recv_closed c size :
  0 < size -> arrived (mini_in c) = ([], Closed) ->
  exists rest buf, conn_recv c size = Returns (0, buf, {| c with mini_in := rest |}).
Proof.
  intros Hs Ha. pose proof (recv_exact_from (strict_all (mini_in c)) size [] ltac:(cbn; lia)) as H.
  unfold recv_result in H. unfold arrived in Ha. rewrite Ha in H. cbn [length app] in H.
  rewrite (proj2 (Z.leb_gt _ _)) in H by (cbn; lia). rewrite mini_recv_strict in H.
  unfold conn_recv. destruct H as (rest & Hr).
  destruct (mini_recv_exact (mini_in c) size []) as [[[n b] rest']| | | |]; try done.
  cbn in Hr. simplify_eq. by exists rest', [].
Qed.

Lemma conn_send_ok c data r rs :
  mini_send_results c = r :: rs -> r = zlen data ->
  conn_send c data =
    Returns (r, {| c with mini_send_results := rs; mini_sent := mini_sent c ++ data |}).
Proof. intros Hr ->. unfold conn_send. rewrite Hr, slice_all by lia. done. Qed.

(** ** One request *)

Section Requests.

Context `{Host} `{Proto RpcHeader} `{Proto LoginRequest} `{Proto LoginResponse}.

(** The two parts of a request parse, and its frame is within the limit. *)
Definition login_parts (hs b : bytes) : Prop :=
  is_Some (ParseFromString (T := RpcHeader) hs) /\
  is_Some (ParseFromString (T := LoginRequest) b) /\
  4 + zlen hs + zlen b <= 16 * 1024 * 1024.

Lemma legacy_request_take hs b rest :
  let f := legacy_request hs b in
  slice (f ++ rest) 0 4 = be_bytes 4 (4 + zlen hs + zlen b) /\
  slice (f ++ rest) 4 4 = be_bytes 4 (zlen hs) /\
  drop 8 (f ++ rest) = hs ++ b ++ rest /\ zlen f = 8 + zlen hs + zlen b.
Proof.
  intros f. unfold f, legacy_request. rewrite <- !app_assoc.
  split; [by slices|]. split; [by slices|]. split; [|xlen].
  rewrite (assoc_L (++)). apply drop_app_length'. rewrite length_app, !length_be_bytes. done.
Qed.

Lemma slice_of_drop {A} (l : list A) (k : nat) n : slice (drop k l) 0 n = slice l (Z.of_nat k) n.
Proof. unfold slice. by rewrite drop_0, Nat2Z.id. Qed.

(** A four-byte length that has arrived. *)
Lemma conn_recv_length c av e :
  4 <= zlen av -> arrived (mini_in c) = (av, e) ->
  exists rest buf, conn_recv c 4 = Returns (4, buf, {| c with mini_in := rest |}) /\
    ntohl (load buf) = be_load (slice av 0 4) /\ arrived rest = (drop 4 av, e).
Proof.
  intros Hl Ha. destruct (conn_recv_ok c 4 av e ltac:(lia) Ha) as (rest & -> & Hr).
  eexists rest, _. split; [reflexivity|]. split; [|done].
  unfold ntohl. rewrite hton_load by (rewrite length_take; lia). done.
Qed.

Lemma handle_one_ok c hs b more e rb rs :
  login_parts hs b -> SerializeToString ok_response = Some rb -> zlen rb < 2 ^ 32 ->
  arrived (mini_in c) = (legacy_request hs b ++ more, e) ->
  mini_send_results c = 4 :: zlen rb :: rs ->
  exists rest, handle_one c =
      Returns (true, mk_MiniConn rest rs (mini_sent c ++ legacy_response rb)) /\
    arrived rest = (more, e).
Proof.
  intros ([h Hh] & [r Hr] & Hlen) Hrb Hrbl Ha Hsend.
  destruct (legacy_request_take hs b more) as (H0' & H4 & H8 & Hfl).
  assert (Hal : zlen (legacy_request hs b ++ more) = 8 + zlen hs + zlen b + zlen more)
    by (rewrite length_app; lia).
  unfold handle_one. set (av := legacy_request hs b ++ more) in *.
  destruct (conn_recv_length c av e ltac:(lia) Ha) as (r1 & buf1 & -> & Hn1 & Ha1).
  cbn [mbind outcome_bind Z.eqb Pos.eqb negb]. rewrite Hn1, H0', be_load_be_bytes_id
    by (cbn; lia). decide_cmp.
  destruct (conn_recv_length {| c with mini_in := r1 |} (drop 4 av) e
    ltac:(rewrite length_drop; lia) Ha1) as (r2 & buf2 & -> & Hn2 & Ha2).
  cbn [mbind outcome_bind Z.eqb Pos.eqb negb]. rewrite Hn2, slice_of_drop.
  change (Z.of_nat 4) with 4.
  rewrite H4, be_load_be_bytes_id by (cbn; lia). rewrite u32_small by lia.
  rewrite drop_drop in Ha2. cbn [Nat.add] in Ha2. rewrite H8 in Ha2.
  destruct (conn_recv_ok {| {| c with mini_in := r1 |} with mini_in := r2 |}
    (4 + zlen hs + zlen b - 4) (hs ++ b ++ more) e ltac:(rewrite !length_app; lia) Ha2) as (r3 & -> & Ha3).
  cbn [mbind outcome_bind]. rewrite Z.eqb_refl. cbn [negb].
  replace (4 + zlen hs + zlen b - 4) with (zlen (hs ++ b)) in * by (rewrite length_app; lia).
  rewrite (assoc_L (++)), Nat2Z.id, take_app_length, drop_app_length in *.
  unfold ParseFromArray. rewrite length_app. decide_cmp.
  rewrite (slice_head hs b 0 (zlen hs)) by lia. cbn [mbind outcome_bind]. rewrite Hh, u32_small by lia.
  decide_cmp. rewrite (slice_app_r hs b), (slice_all b) by lia. cbn [mbind outcome_bind].
  rewrite Hr, Hrb. unfold htonl. rewrite store_hton, u32_small by lia.
  erewrite conn_send_ok; [|exact Hsend|by rewrite length_be_bytes].
  cbn [mbind outcome_bind Z.eqb Pos.eqb negb].
  erewrite conn_send_ok; [|reflexivity|done]. cbn [mbind outcome_bind].
  rewrite Z.eqb_refl. exists r3. split; [|done]. cbn. by rewrite <- (assoc_L (++)).
Qed.

(** The frame a client's codec makes of a message. *)
Definition client_frame (ctx : ClientContext) (msg : ProtocolMessage) (frame : bytes) : Prop :=
  exists msg' out, Legacy_ClientEncode ctx msg empty_buffer = (kCodecOk, msg', out) /\
    ToString out = frame.

(** A request of a client, with the parts that parse. *)
Definition login_frame (frame : bytes) : Prop :=
  exists ctx msg hs, client_frame ctx msg frame /\
    SerializeToString (legacy_header ctx msg) = Some hs /\ login_parts hs (body msg).

Lemma login_frame_parts frame :
  login_frame frame -> exists hs b, frame = legacy_request hs b /\ login_parts hs b.
Proof.
  intros (ctx & msg & hs & (m' & out & Henc & Ht) & Hs & Hp). exists hs, (body msg).
  split; [|done]. destruct Hp as (_ & _ & Hlen).
  destruct (Legacy_ClientEncode_spec ctx msg empty_buffer hs) as (out' & E & Hwf & Hc);
    [apply empty_wf|done|lia|].
  rewrite Henc in E. injection E as _ ->. rewrite <- Ht, ToString_contents, Hc by done. done.
Qed.

(** The peer closes between two requests. *)
Lemma handle_one_closed c :
  arrived (mini_in c) = ([], Closed) ->
  exists rest, handle_one c =
    Returns (false, mk_MiniConn rest (mini_send_results c) (mini_sent c)).
Proof.
  intros Ha. destruct (conn_recv_closed c 4 ltac:(lia) Ha) as (rest & buf & E).
  unfold handle_one. rewrite E. by exists rest.
Qed.

(** The loop over requests that parse, until the peer closes. *)
Lemma handle_client_answers c reqs rb g_running k fuel :
  Forall (fun r => login_parts r.1 r.2) reqs ->
  SerializeToString ok_response = Some rb -> zlen rb < 2 ^ 32 ->
  arrived (mini_in c) = (concat ((fun r => legacy_request r.1 r.2) <$> reqs), Closed) ->
  mini_send_results c = concat (replicate (length reqs) [4; zlen rb]) ->
  (forall i, g_running i = true) -> (length reqs < fuel)%nat ->
  exists rest, handle_client fuel g_running k c =
    Returns (Some (mk_MiniConn rest []
      (mini_sent c ++ concat (replicate (length reqs) (legacy_response rb))))).
Proof.
  intros Hf Hrb Hl Ha Hsend Hrun. revert k fuel c Ha Hsend.
  induction Hf as [|[hs b] reqs Hp _ IH]; intros k [|fuel] c Ha Hsend Hfuel;
    cbn in Hfuel; try lia; cbn [handle_client]; rewrite Hrun.
  - destruct (handle_one_closed c Ha) as (rest & ->). exists rest. cbn in *.
    by rewrite Hsend, app_nil_r.
  - destruct (handle_one_ok c hs b _ _ rb _ Hp Hrb Hl Ha Hsend) as (r1 & -> & Ha1).
    cbn [mbind outcome_bind].
    destruct (IH (S k) fuel (mk_MiniConn r1 (concat (replicate (length reqs) [4; zlen rb]))
      (mini_sent c ++ legacy_response rb)) Ha1 eq_refl ltac:(lia)) as (rest & E).
    exists rest. etransitivity; [exact E|]. cbn. by rewrite <- (assoc_L (++)).
Qed.

(** The server answers every request of a connection. For any number of requests
    framed by the client's codec whose header and body parse, arriving in segments
    of any sizes until the peer closes, the handler sends exactly one response frame
    per request and closes the connection; as many rounds as there are requests,
    and one more, are enough for the loop to end. *)
Theorem mini_server_answers c frames rb g_running k fuel :
  Forall login_frame frames ->
  SerializeToString ok_response = Some rb -> zlen rb < 2 ^ 32 ->
  arrived (mini_in c) = (concat frames, Closed) ->
  mini_send_results c = concat (replicate (length frames) [4; zlen rb]) ->
  (forall i, g_running i = true) -> (length frames < fuel)%nat ->
  exists rest, handle_client fuel g_running k c =
    Returns (Some (mk_MiniConn rest []
      (mini_sent c ++ concat (replicate (length frames) (legacy_response rb))))).
Proof.
  intros Hf Hrb Hl Ha Hsend Hrun Hfuel.
  assert (exists reqs, Forall (fun r => login_parts r.1 r.2) reqs /\
    frames = (fun r => legacy_request r.1 r.2) <$> reqs) as (reqs & Hp & ->).
  { clear -Hf. induction Hf as [|f frames (hs & b & -> & Hp)%login_frame_parts _ (reqs & Hr & ->)].
    - by exists [].
    - exists ((hs, b) :: reqs). split; [by constructor|done]. }
  rewrite length_fmap in *. by apply handle_client_answers.
Qed.

(** The length of the header is not checked against the frame: a frame whose
    HeaderLen is larger than the rest of the frame makes the server parse beyond its
    buffer, whatever follows. *)
Theorem mini_server_header_overrun c total hlen payload more e :
  4 <= total <= 16 * 1024 * 1024 -> zlen payload = total - 4 -> total - 4 < hlen < 2 ^ 32 ->
  arrived (mini_in c) = (be_bytes 4 total ++ be_bytes 4 hlen ++ payload ++ more, e) ->
  handle_one c = Undefined.
Proof.
  intros Ht Hp Hh Ha. set (av := _ ++ _) in Ha.
  assert (Hal : zlen av = 8 + zlen payload + zlen more) by (unfold av; xlen).
  assert (slice av 0 4 = be_bytes 4 total) as S1 by (unfold av; by slices).
  assert (slice av 4 4 = be_bytes 4 hlen) as S2 by (unfold av; by slices).
  assert (drop 8 av = payload ++ more) as S3.
  { unfold av. rewrite (assoc_L (++)). apply drop_app_length'.
    rewrite length_app, !length_be_bytes. done. }
  unfold handle_one.
  destruct (conn_recv_length c av e ltac:(lia) Ha) as (r1 & buf1 & -> & Hn1 & Ha1).
  cbn [mbind outcome_bind Z.eqb Pos.eqb negb]. rewrite Hn1, S1, be_load_be_bytes_id
    by (cbn; lia). decide_cmp.
  destruct (conn_recv_length {| c with mini_in := r1 |} (drop 4 av) e
    ltac:(rewrite length_drop; lia) Ha1) as (r2 & buf2 & -> & Hn2 & Ha2).
  cbn [mbind outcome_bind Z.eqb Pos.eqb negb]. rewrite Hn2, slice_of_drop.
  change (Z.of_nat 4) with 4.
  rewrite S2, be_load_be_bytes_id by (cbn; lia). rewrite u32_small by lia.
  rewrite drop_drop in Ha2. cbn [Nat.add] in Ha2. rewrite S3 in Ha2.
  destruct (conn_recv_ok {| {| c with mini_in := r1 |} with mini_in := r2 |}
    (total - 4) (payload ++ more) e ltac:(rewrite length_app; lia) Ha2) as (r3 & -> & _).
  cbn [mbind outcome_bind]. rewrite Z.eqb_refl. cbn [negb].
  unfold ParseFromArray. rewrite length_take, length_app. by decide_cmp.
Qed.

End Requests.

(** ** Witnesses *)

Section MiniServerWitnesses.

Import Demo UserDemo.
#[local] Existing Instances RpcHeader_demo LoginRequest_demo LoginResponse_demo.
#[local] Instance mini_little : Host := Little.

Definition login_ctx : ClientContext :=
  {| ClientContext_default with ctx_service_name := lit "UserServiceRpc";
     ctx_method_name := lit "Login" |}.
Definition login_msg : ProtocolMessage :=
  {| ProtocolMessage_default with
     body := default [] (SerializeToString (mk_LoginRequest (lit "zhang") (lit "1"))) |}.
Definition login_bytes : bytes := ToString (Legacy_ClientEncode login_ctx login_msg empty_buffer).2.

Lemma login_bytes_frame : login_frame login_bytes.
Proof.
  eexists login_ctx, login_msg, _. split; [|split].
  - eexists _, _. split; reflexivity.
  - reflexivity.
  - split; [vm_compute; by eexists|]. split; [vm_compute; by eexists|]. vm_compute. discriminate.
Qed.

(** Two requests, the first cut after 5 bytes. *)
Definition login_conn (n : Z) : MiniConn := mk_MiniConn
  [RData (take 5 login_bytes); RData (drop 5 login_bytes ++ login_bytes); REof]
  [4; n; 4; n] [].

Lemma mini_server_answers_witness :
  exists rb rest, SerializeToString ok_response = Some rb /\
    handle_client 3 (fun _ => true) 0 (login_conn (zlen rb)) =
      Returns (Some (mk_MiniConn rest [] (legacy_response rb ++ legacy_response rb))).
Proof.
  eexists. assert (login_frame login_bytes) as Hf by apply login_bytes_frame.
  edestruct (mini_server_answers (login_conn 26) [login_bytes; login_bytes])
    with (fuel := 3%nat) (k := 0%nat) (g_running := fun _ : nat => true) as (rest & E);
    [exact (Forall_cons_2 _ _ _ Hf (Forall_cons_2 _ _ _ Hf (Forall_nil_2 _)))|reflexivity|vm_compute; reflexivity|vm_compute; reflexivity|
     vm_compute; reflexivity|done|cbn; lia|].
  exists rest. split; [reflexivity|]. etransitivity; [|etransitivity; [exact E|]]; reflexivity.
Defined.

Lemma mini_server_header_overrun_witness :
  handle_one (mk_MiniConn
    [RData (be_bytes 4 6 ++ be_bytes 4 3 ++ [Byte.x0a; Byte.x00])] [4; 4] []) = Undefined.
Proof.
  apply (mini_server_header_overrun _ 6 3 [Byte.x0a; Byte.x00] [] Pending);
    [lia|reflexivity|lia|vm_compute; reflexivity].
Defined.

End MiniServerWitnesses.
