(* ===== verification/MiniReactor.v ===== *)
(** * MiniReactor: the multi-reactor benchmark server

    [tools/mini_server_reactor.cc]: workers that poll non-blocking connections. A
    connection's script of events is what has arrived: a [recv] with none left is
    [EAGAIN]. A [writev] is scripted by the bytes the kernel has room for. *)

From S2P Require Import Prelude Buffer Wire Proto Message Codec LegacyCodec Channel ChannelSpec UserProto MiniServer.

Definition kMaxFds : Z := 4096.
Definition kMaxFrame : Z := 16 * 1024 * 1024.

(** What the kernel does with a [writev]: takes up to [n] bytes, or fails. *)
Inductive write_event := WRoom (n : Z) | WAgain | WError.

Record RConn := mk_RConn {
  r_in : list recv_event;
  r_writes : list write_event;
  r_out : bytes
}.

(** ** Reading *)

(** How a reading loop ends: with all the bytes, with [return false], or with
    [return true] because there is nothing to read yet. *)
Inductive read_end := Full (buf : bytes) | Gone | Later.

Fixpoint nb_read (script : list recv_event) (size : Z) (buf : bytes) :
    read_end * list recv_event :=
  if negb (zlen buf <? size) then (Full buf, script)
  else
    match script with
    | [] => (Later, [])
    | REof :: script | REintr :: script | RError :: script => (Gone, script)
    | RData bs :: script =>
        let want := size - zlen buf in
        if zlen bs =? 0 then (Gone, script)
        else if zlen bs <=? want then nb_read script size (buf ++ bs)
        else (Full (buf ++ slice bs 0 want), RData (drop (Z.to_nat want) bs) :: script)
    end.

(** ** Writing *)

(** The adjustment of the two buffers after [n] bytes were written; one round of
    the inner loop brings [n] to 0. *)
Definition advance (n : Z) (iov0 iov1 : bytes) : bytes * bytes :=
  if n >? 0 then
    if n >=? zlen iov0 then
      let n := n - zlen iov0 in
      ([], if n >? 0 then drop (Z.to_nat n) iov1 else iov1)
    else (drop (Z.to_nat n) iov0, iov1)
  else (iov0, iov1).

Fixpoint write_loop (script : list write_event) (iov0 iov1 : bytes) (to_send sent : Z)
    (out : bytes) : outcome (bool * list write_event * bytes) :=
  if negb (sent <? to_send) then Returns (true, script, out)
  else
    match script with
    | [] => Blocks
    | WAgain :: script => write_loop script iov0 iov1 to_send sent out
    | WError :: script => Returns (false, script, out)
    | WRoom room :: script =>
        let n := Z.min room (zlen (iov0 ++ iov1)) in
        let out := out ++ slice (iov0 ++ iov1) 0 n in
        let '(iov0, iov1) := advance n iov0 iov1 in
        write_loop script iov0 iov1 to_send (sent + n) out
    end.

Section Reactor.

Context `{Host} `{Proto RpcHeader} `{Proto LoginRequest} `{Proto LoginResponse}.

(** ** ProcessOneRequest *)

Definition ProcessOneRequest (c : RConn) : outcome (bool * RConn) :=
  let '(r, rest) := nb_read (r_in c) 8 [] in
  let c := {| c with r_in := rest |} in
  match r with
  | Gone => mret (false, c)
  | Later => mret (true, c)
  | Full header_buf =>
      let total_len := ntohl (load (slice header_buf 0 4)) in
      let header_len := ntohl (load (slice header_buf 4 4)) in
      if (total_len <? 4) || (total_len >? kMaxFrame) then mret (false, c)
      else if header_len >? total_len - 4 then mret (false, c)
      else
        let remaining := u32 (total_len - 4) in
        let '(r, rest) := nb_read (r_in c) remaining [] in
        let c := {| c with r_in := rest |} in
        match r with
        | Gone => mret (false, c)
        | Later => mret (true, c)
        | Full frame =>
            rpc_header ← ParseFromArray (T := RpcHeader) frame 0 header_len;
            match rpc_header with
            | None => mret (false, c)
            | Some _ =>
                let body_len := u32 (remaining - header_len) in
                login_req ← ParseFromArray (T := LoginRequest) frame header_len body_len;
                match login_req with
                | None => mret (false, c)
                | Some _ =>
                    match SerializeToString ok_response with
                    | None => mret (false, c)
                    | Some resp_body =>
                        let resp_len := htonl (u32 (zlen resp_body)) in
                        '(ok, ws, out) ← write_loop (r_writes c) (store 4 resp_len) resp_body
                          (4 + zlen resp_body) 0 (r_out c);
                        mret (ok, mk_RConn (r_in c) ws out)
                    end
                end
            end
        end
  end.

(** ** The worker *)

(** The event bits of <poll.h>. *)
Definition POLLIN : Z := 1.
Definition POLLERR : Z := 8.
Definition POLLHUP : Z := 16.
Definition POLLNVAL : Z := 32.

Record pollfd := mk_pollfd { fd : Z; revents : Z }.

(** The connections of the process, the descriptors closed so far, the counter. *)
Record RWorld := mk_RWorld {
  conns : gmap Z RConn;
  closed_fds : list Z;
  counter : Z
}.

Definition close_fd (n : Z) (w : RWorld) : RWorld :=
  {| w with closed_fds := closed_fds w ++ [n] |}.

(** [ProcessOneRequest(fd)]; on a descriptor that is not open [recv] fails. *)
Definition process_fd (n : Z) (w : RWorld) : outcome (bool * RWorld) :=
  match conns w !! n with
  | None => mret (false, w)
  | Some c =>
      '(ok, c) ← ProcessOneRequest c;
      mret (ok, {| w with conns := <[n := c]> (conns w) |})
  end.

(** One descriptor that is ready: [false] when it was closed and is removed. *)
Definition visit (p : pollfd) (w : RWorld) : outcome (bool * RWorld) :=
  if negb (Z.land (revents p) (Z.lor POLLERR (Z.lor POLLHUP POLLNVAL)) =? 0) then
    mret (false, close_fd (fd p) w)
  else if negb (Z.land (revents p) POLLIN =? 0) then
    '(ok, w) ← process_fd (fd p) w;
    if ok : bool then mret (true, {| w with counter := i64 (counter w + 1) |})
    else mret (false, close_fd (fd p) w)
  else mret (true, w).

(** The last entry takes the place of the removed one. *)
Definition swap_remove (i : nat) (fds : list pollfd) : list pollfd :=
  let num_fds := length fds in
  let fds := if (i <? num_fds - 1)%nat then
      match fds !! (num_fds - 1)%nat with Some l => <[i := l]> fds | None => fds end
    else fds in
  take (num_fds - 1) fds.

(** The loop over the ready descriptors. *)
Fixpoint scan (fuel : nat) (i : nat) (fds : list pollfd) (ready : Z) (w : RWorld) :
    outcome (list pollfd * RWorld) :=
  match fuel with
  | O => Returns (fds, w)
  | S fuel =>
      if (i <? length fds)%nat && (ready >? 0) then
        match fds !! i with
        | None => Undefined
        | Some p =>
            if revents p =? 0 then scan fuel (S i) fds ready w
            else
              '(keep, w) ← visit p w;
              if keep : bool then scan fuel (S i) fds (ready - 1) w
              else scan fuel i (swap_remove i fds) (ready - 1) w
        end
      else Returns (fds, w)
  end.

(** The new descriptors the main thread has handed over. *)
Definition take_new (st : list pollfd * RWorld) (n : Z) : list pollfd * RWorld :=
  let '(fds, w) := st in
  if zlen fds <? kMaxFds then (fds ++ [mk_pollfd n 0], w) else (fds, close_fd n w).

(** What [poll] gives: an interruption, a failure, or every descriptor's events. *)
Inductive poll_result := PIntr | PFail | PReady (revs : list Z).

Definition set_revents (fds : list pollfd) (revs : list Z) : list pollfd :=
  zip_with (fun p r => mk_pollfd (fd p) r) fds revs.

Definition count_ready (fds : list pollfd) : Z :=
  zlen (filter (fun p => revents p <> 0) fds).

(** One round; [false] is the [break]. *)
Definition worker_round (new_fds : list Z) (p : poll_result) (st : list pollfd * RWorld) :
    outcome (bool * (list pollfd * RWorld)) :=
  let '(fds, w) := fold_left take_new new_fds st in
  match p with
  | PIntr => mret (true, (fds, w))
  | PFail => mret (false, (fds, w))
  | PReady revs =>
      let fds := set_revents fds revs in
      let ready := count_ready fds in
      if ready =? 0 then mret (true, (fds, w))
      else st ← scan (length fds) 0 fds ready w; mret (true, st)
  end.

(** The rounds until [g_running] is false or [poll] fails, and the clean-up. *)
Fixpoint WorkerLoop (rounds : list (list Z * poll_result)) (st : list pollfd * RWorld) :
    outcome RWorld :=
  match rounds with
  | [] => mret (fold_left (fun w p => close_fd (fd p) w) st.1 st.2)
  | (new_fds, p) :: rounds =>
      '(go, st) ← worker_round new_fds p st;
      if go : bool then WorkerLoop rounds st
      else mret (fold_left (fun w p => close_fd (fd p) w) st.1 st.2)
  end.

(** ** The accept loop's distribution *)

(** [rr_idx % num_workers], and the context's queue. [rr_idx] is an [int]. *)
Definition hand_over (num_workers : Z) (st : Z * list (list Z)) (client_fd : Z) :
    outcome (Z * list (list Z)) :=
  let '(rr_idx, contexts) := st in
  if (num_workers =? 0) || (rr_idx =? 2 ^ 31 - 1) then Undefined
  else
    let idx := Z.rem rr_idx num_workers in
    mret (rr_idx + 1, alter (fun q => q ++ [client_fd]) (Z.to_nat idx) contexts).

End Reactor.

(** ** Lemmas: reading *)

(** The reading loop is that of [recv_exact], except that it does not wait. *)
Lemma nb_read_mini script size buf :
  zlen buf <= size -> 0 < size ->
  match nb_read script size buf with
  | (Full b, rest) => mini_recv_exact script size buf = Returns (size, b, rest)
  | (Later, rest) => mini_recv_exact script size buf = Blocks /\ rest = []
  | (Gone, _) => exists n b rest, mini_recv_exact script size buf = Returns (n, b, rest) /\ n <= 0
  end.
Proof.
  revert buf. induction script as [|e script IH]; intros buf Hb Hs; cbn.
  - case_if as E; [|done]. repeat f_equal. lia.
  - case_if as E; [repeat f_equal; lia|]. destruct e as [bs| | |]; cbn.
    + case_if; [by eexists _, _, _|]. case_if; [|done]. apply IH; [|done].
      rewrite length_app. lia.
    + by eexists _, _, _.
    + by eexists _, _, _.
    + by eexists _, _, _.
Qed.

Lemma nb_read_ok script size av e :
  0 <= size <= zlen av -> arrived script = (av, e) ->
  exists rest, nb_read script size [] = (Full (take (Z.to_nat size) av), rest) /\
    arrived rest = (drop (Z.to_nat size) av, e).
Proof.
  intros Hs Ha. destruct (decide (size = 0)) as [->|Hne].
  { exists script. split; [destruct script, av; reflexivity|done]. }
  destruct (conn_recv_ok (mk_MiniConn script [] []) size av e Hs Ha) as (rest & Hc & Hr).
  pose proof (nb_read_mini script size [] (proj1 Hs) ltac:(lia)) as H.
  unfold conn_recv in Hc. cbn [mini_in] in Hc.
  destruct (nb_read script size []) as [[b| |] rest'].
  - rewrite H in Hc. cbn [mbind outcome_bind] in Hc. injection Hc as -> ->. by exists rest.
  - destruct H as (n & b & r & Hm & Hn). rewrite Hm in Hc.
    cbn [mbind outcome_bind] in Hc. injection Hc as -> _ _. lia.
  - destruct H as [Hm _]. by rewrite Hm in Hc.
Qed.

(** With fewer bytes than it wants, the loop has taken all of them. *)
Lemma nb_read_later script size av :
  zlen av < size -> arrived script = (av, Pending) -> nb_read script size [] = (Later, []).
Proof.
  intros Hs Ha. pose proof (nb_read_mini script size [] ltac:(cbn; lia) ltac:(lia)) as H.
  pose proof (recv_exact_from (strict_all script) size [] ltac:(cbn; lia)) as Hx.
  unfold recv_result in Hx. unfold arrived in Ha. rewrite Ha in Hx.
  rewrite (proj2 (Z.leb_gt _ _)) in Hx by (cbn; lia). rewrite mini_recv_strict in Hx.
  destruct (nb_read script size []) as [[b| |] rest'].
  - rewrite H in Hx. done.
  - destruct H as (n & b & r & Hm & Hn). by rewrite Hm in Hx.
  - by destruct H as [_ ->].
Qed.

(** ** Lemmas: writing *)

Lemma advance_app n iov0 iov1 :
  0 <= n -> (advance n iov0 iov1).1 ++ (advance n iov0 iov1).2 = drop (Z.to_nat n) (iov0 ++ iov1).
Proof.
  intros Hn. unfold advance. repeat case_if; zbool; cbn [fst snd app].
  - rewrite drop_app_ge by lia. f_equal. lia.
  - rewrite drop_app_ge by lia.
    by replace (Z.to_nat n - length iov0)%nat with 0%nat by lia.
  - by rewrite drop_app_le by lia.
  - by replace n with 0 by lia.
Qed.

Lemma write_loop_done script iov0 iov1 sent out :
  write_loop script iov0 iov1 sent sent out = Returns (true, script, out).
Proof. destruct script; cbn; by rewrite (proj2 (Z.ltb_ge _ _)) by lia. Qed.

(** The total room before an error. *)
Fixpoint room (script : list write_event) : Z :=
  match script with
  | WRoom n :: script => n + room script
  | WAgain :: script => room script
  | _ => 0
  end.
Definition rooms_ok (script : list write_event) : Prop :=
  Forall (fun e => match e with WRoom n => 0 <= n | _ => True end) script.

Lemma room_nonneg script : rooms_ok script -> 0 <= room script.
Proof. induction 1 as [|[n| |] script He _ IH]; cbn; lia. Qed.

Lemma write_loop_prefix script iov0 iov1 to_send sent out ok ws out' :
  rooms_ok script -> sent + zlen (iov0 ++ iov1) = to_send ->
  write_loop script iov0 iov1 to_send sent out = Returns (ok, ws, out') ->
  exists p q, iov0 ++ iov1 = p ++ q /\ out' = out ++ p /\ (ok = true -> q = []).
Proof.
  intros Hr. revert iov0 iov1 sent out. induction Hr as [|e script He Hr IH];
    intros iov0 iov1 sent out Hs; cbn.
  - case_if; [|done]. zbool. intros [= <- <- <-].
    exists [], (iov0 ++ iov1). rewrite app_nil_r. split; [done|]. split; [done|]. intros _.
    apply length_zero_iff_nil. lia.
  - case_if.
    { zbool. intros [= <- <- <-]. exists [], (iov0 ++ iov1). rewrite app_nil_r.
      split; [done|]. split; [done|]. intros _. apply length_zero_iff_nil. lia. }
    destruct e as [n| |]; [|by apply IH|intros [= <- <- <-]; exists [], (iov0 ++ iov1);
      by rewrite app_nil_r].
    set (k := Z.min n (zlen (iov0 ++ iov1))). assert (Hk : 0 <= k <= zlen (iov0 ++ iov1)) by lia.
    pose proof (advance_app k iov0 iov1 ltac:(lia)) as Hadv.
    destruct (advance k iov0 iov1) as [a0 a1]. cbn [fst snd] in Hadv. intros E.
    apply IH in E; [|rewrite Hadv, length_drop; lia].
    destruct E as (p & q & Hpq & -> & Hq).
    exists (slice (iov0 ++ iov1) 0 k ++ p), q. rewrite <- !(assoc_L (++)), <- Hpq, Hadv.
    split; [|done]. unfold slice. by rewrite drop_0, take_drop.
Qed.

Lemma write_loop_room script iov0 iov1 to_send sent out :
  rooms_ok script -> sent + zlen (iov0 ++ iov1) = to_send -> zlen (iov0 ++ iov1) <= room script ->
  exists ws, write_loop script iov0 iov1 to_send sent out = Returns (true, ws, out ++ iov0 ++ iov1).
Proof.
  intros Hr. revert iov0 iov1 sent out. induction Hr as [|e script He Hr IH];
    intros iov0 iov1 sent out Hs Hroom;
    (destruct (decide (zlen (iov0 ++ iov1) = 0)) as [Hz|Hz];
     [assert (iov0 ++ iov1 = []) as -> by (apply length_zero_iff_nil; lia);
      replace to_send with sent by lia; rewrite write_loop_done, app_nil_r; by eexists|]);
    cbn in *; try lia; rewrite (proj2 (Z.ltb_lt _ _)) by lia; cbn [negb].
  destruct e as [n| |]; [|by apply IH|lia].
  set (k := Z.min n (zlen (iov0 ++ iov1))). assert (Hk : 0 <= k <= zlen (iov0 ++ iov1)) by lia.
  pose proof (advance_app k iov0 iov1 ltac:(lia)) as Hadv.
  destruct (advance k iov0 iov1) as [a0 a1]. cbn [fst snd] in Hadv.
  destruct (IH a0 a1 (sent + k) (out ++ slice (iov0 ++ iov1) 0 k)) as (ws & ->).
  - rewrite Hadv, length_drop. lia.
  - rewrite Hadv, length_drop. pose proof (room_nonneg script Hr). lia.
  - exists ws. rewrite Hadv, <- (assoc_L (++)). unfold slice. by rewrite drop_0, take_drop.
Qed.

(** ** ProcessOneRequest *)

Section Requests.

Context `{Host} `{Proto RpcHeader} `{Proto LoginRequest} `{Proto LoginResponse}.

Lemma process_read c hs b more e :
  login_parts hs b ->
  arrived (r_in c) = (legacy_request hs b ++ more, e) ->
  exists rest, arrived rest = (more, e) /\
  ProcessOneRequest c =
    match SerializeToString ok_response with
    | None => Returns (false, {| c with r_in := rest |})
    | Some rb =>
        '(ok, ws, out) ← write_loop (r_writes c) (be_bytes 4 (u32 (zlen rb))) rb
          (4 + zlen rb) 0 (r_out c);
        mret (ok, mk_RConn rest ws out)
    end.
Proof.
  intros ([h Hh] & [r Hr] & Hlen) Ha.
  destruct (legacy_request_take hs b more) as (H0' & H4 & H8 & Hfl).
  set (av := legacy_request hs b ++ more) in *.
  assert (Hal : zlen av = 8 + zlen hs + zlen b + zlen more)
    by (unfold av; rewrite length_app; lia).
  unfold ProcessOneRequest.
  destruct (nb_read_ok (r_in c) 8 av e ltac:(lia) Ha) as (r1 & -> & Ha1). cbv beta iota zeta.
  unfold ntohl. rewrite !hton_load
    by (unfold slice; rewrite ?length_take, ?length_drop, ?length_take; lia).
  rewrite !(slice_take av) by lia. rewrite H0', H4, !be_load_be_bytes_id by (cbn; lia).
  unfold kMaxFrame. decide_cmp. rewrite u32_small by lia.
  change (Z.to_nat 8) with 8%nat in Ha1. rewrite H8 in Ha1. cbn [r_in].
  destruct (nb_read_ok r1 (4 + zlen hs + zlen b - 4) (hs ++ b ++ more) e
    ltac:(rewrite !length_app; lia) Ha1) as (r2 & -> & Ha2).
  replace (4 + zlen hs + zlen b - 4) with (zlen (hs ++ b)) in * by (rewrite length_app; lia).
  rewrite (assoc_L (++)), Nat2Z.id, take_app_length, drop_app_length in *.
  exists r2. split; [done|].
  unfold ParseFromArray. rewrite length_app. decide_cmp.
  rewrite (slice_head hs b 0 (zlen hs)) by lia. cbn [mbind outcome_bind]. rewrite Hh, u32_small by lia.
  decide_cmp. rewrite (slice_app_r hs b), (slice_all b) by lia. cbn [mbind outcome_bind].
  rewrite Hr. destruct (SerializeToString ok_response) as [rb|]; [|done].
  cbv zeta. unfold htonl. by rewrite store_hton.
Qed.

(** C34. A request frame of a client that has arrived completely, in segments of any
    sizes, is answered: whatever pieces the kernel takes the response in, as long as
    it has room for all of it, exactly the response frame is written, the request's
    bytes and no others are consumed, and the connection is kept. *)
Theorem reactor_answers c frame more e rb :
  login_frame frame -> SerializeToString ok_response = Some rb -> zlen rb < 2 ^ 32 ->
  arrived (r_in c) = (frame ++ more, e) ->
  rooms_ok (r_writes c) -> 4 + zlen rb <= room (r_writes c) ->
  exists rest ws, arrived rest = (more, e) /\
    ProcessOneRequest c = Returns (true, mk_RConn rest ws (r_out c ++ legacy_response rb)).
Proof.
  intros Hf Hrb Hl Ha Hw Hroom. apply login_frame_parts in Hf as (hs & b & -> & Hp).
  destruct (process_read c hs b more e Hp Ha) as (rest & Hrest & ->). rewrite Hrb.
  rewrite u32_small by lia.
  destruct (write_loop_room (r_writes c) (be_bytes 4 (zlen rb)) rb (4 + zlen rb) 0 (r_out c))
    as (ws & ->); [done|rewrite length_app, length_be_bytes; lia
    |rewrite length_app, length_be_bytes; lia|].
  by exists rest, ws.
Qed.

(** A response is never corrupted: whatever the kernel does, a write error
    included, the bytes written for a request are a prefix of its response frame,
    and all of it when the request is reported as served. *)
Theorem reactor_writes_prefix c frame more e rb ok c' :
  login_frame frame -> SerializeToString ok_response = Some rb -> zlen rb < 2 ^ 32 ->
  arrived (r_in c) = (frame ++ more, e) -> rooms_ok (r_writes c) ->
  ProcessOneRequest c = Returns (ok, c') ->
  exists p q, legacy_response rb = p ++ q /\ r_out c' = r_out c ++ p /\ (ok = true -> q = []).
Proof.
  intros Hf Hrb Hl Ha Hw. apply login_frame_parts in Hf as (hs & b & -> & Hp).
  destruct (process_read c hs b more e Hp Ha) as (rest & Hrest & ->). rewrite Hrb.
  rewrite u32_small by lia.
  destruct (write_loop _ _ _ _ _ _) as [[[ok1 ws] out]| | | |] eqn:E; try done.
  cbn. intros [= <- <-]. apply write_loop_prefix in E; [done|done|].
  rewrite length_app, length_be_bytes. lia.
Qed.

(** A request that has arrived in part is lost: when fewer bytes than a frame are
    there, [ProcessOneRequest] takes them all, sends nothing and reports success, so
    that what comes next is read as if it began a frame. *)
Theorem reactor_loses_partial_frame c frame av :
  login_frame frame -> av `prefix_of` frame -> av <> frame ->
  arrived (r_in c) = (av, Pending) ->
  ProcessOneRequest c = Returns (true, {| c with r_in := [] |}).
Proof.
  intros Hf [rest Hpre] Hne Ha. apply login_frame_parts in Hf as (hs & b & -> & Hp).
  destruct Hp as (_ & _ & Hlen).
  assert (rest <> []) as Hr by (intros ->; by rewrite app_nil_r in Hpre).
  assert (0 < zlen rest) by (destruct rest; [done|cbn; lia]).
  destruct (legacy_request_take hs b []) as (H0' & H4 & H8 & Hfl). rewrite app_nil_r in *.
  assert (Hal : zlen av + zlen rest = 8 + zlen hs + zlen b) by (rewrite <- Hfl, Hpre, length_app; lia).
  unfold ProcessOneRequest.
  destruct (Z.lt_ge_cases (zlen av) 8) as [Hs|Hs].
  { by rewrite (nb_read_later _ _ _ Hs Ha). }
  destruct (nb_read_ok (r_in c) 8 av Pending ltac:(lia) Ha) as (r1 & -> & Ha1).
  cbv beta iota zeta. rewrite Hpre, slice_app_l in H0', H4 by lia.
  unfold ntohl. rewrite !hton_load
    by (unfold slice; rewrite ?length_take, ?length_drop, ?length_take; lia).
  rewrite !(slice_take av) by lia. rewrite H0', H4, !be_load_be_bytes_id by (cbn; lia).
  unfold kMaxFrame. decide_cmp. rewrite u32_small by lia. cbn [r_in].
  assert (Hshort : zlen (drop (Z.to_nat 8) av) < 4 + zlen hs + zlen b - 4)
    by (rewrite length_drop; lia).
  by rewrite (nb_read_later _ _ _ Hshort Ha1).
Qed.

End Requests.

(** ** The scan of the ready descriptors *)

Section Scan.

Context `{Host} `{Proto RpcHeader} `{Proto LoginRequest} `{Proto LoginResponse}.

(** Visiting descriptors one after the other, with those that are kept. *)
Fixpoint visit_all (ps : list pollfd) (w : RWorld) : outcome (list pollfd * RWorld) :=
  match ps with
  | [] => mret ([], w)
  | p :: ps =>
      '(keep, w) ← visit p w;
      '(kept, w) ← visit_all ps w;
      mret (if keep : bool then p :: kept else kept, w)
  end.

Definition ready_fds (fds : list pollfd) : list pollfd := filter (fun p => revents p <> 0) fds.
Definition idle_fds (fds : list pollfd) : list pollfd := filter (fun p => revents p = 0) fds.

(** What the scan of [fds] does from [w]: the ready descriptors in some order, up to
    the first whose handling does not return. *)
Definition scan_spec (pre fds : list pollfd) (w : RWorld)
    (res : outcome (list pollfd * RWorld)) : Prop :=
  exists order, order ⊆+ ready_fds fds /\
    (r ← visit_all order w; Returns r.2) = (r ← res; Returns r.2) /\
    forall fds' w', res = Returns (fds', w') ->
      order ≡ₚ ready_fds fds /\
      exists kept, visit_all order w = Returns (kept, w') /\
        fds' ≡ₚ pre ++ idle_fds fds ++ kept.

Lemma idle_all fds : count_ready fds = 0 -> idle_fds fds = fds.
Proof.
  unfold count_ready, idle_fds. induction fds as [|p fds IH]; [done|].
  rewrite !filter_cons. destruct (decide (revents p <> 0)); cbn; [lia|].
  intros. rewrite decide_True by lia. by rewrite IH.
Qed.

Lemma ready_none fds : count_ready fds = 0 -> ready_fds fds = [].
Proof. intros Hc. apply length_zero_iff_nil. unfold count_ready, ready_fds in *. lia. Qed.

Lemma swap_remove_app pre p s :
  exists s', swap_remove (length pre) (pre ++ p :: s) = pre ++ s' /\ s' ≡ₚ s.
Proof.
  unfold swap_remove. rewrite length_app. cbn [length].
  destruct s as [|l s _] using rev_ind.
  - exists []. split; [|done]. cbn [length]. rewrite (proj2 (Nat.ltb_ge _ _)) by lia.
    rewrite app_nil_r. apply take_app_length'. lia.
  - exists (l :: s). split; [|by rewrite (comm (++) s)].
    rewrite length_app. cbn [length]. rewrite (proj2 (Nat.ltb_lt _ _)) by lia.
    assert ((pre ++ p :: s ++ [l]) !! (length pre + S (length s + 1) - 1)%nat = Some l) as ->.
    { change (p :: s ++ [l]) with ((p :: s) ++ [l]). rewrite !lookup_app_r by (cbn; lia).
      apply list_lookup_singleton_Some. split; [cbn; lia|done]. }
    pose proof (insert_app_r pre (p :: s ++ [l]) 0 l) as Hi.
    rewrite Nat.add_0_r in Hi. rewrite Hi. cbn [insert list_insert].
    replace (pre ++ l :: s ++ [l]) with ((pre ++ l :: s) ++ [l]) by by rewrite <- (assoc_L (++)).
    apply take_app_length'. rewrite length_app. cbn. lia.
Qed.

Lemma scan_spec_perm pre s s' w res : s' ≡ₚ s -> scan_spec pre s' w res -> scan_spec pre s w res.
Proof.
  intros Hp (order & Ho & Hf & Hr). exists order. unfold ready_fds, idle_fds in *.
  rewrite Hp in Ho. split; [done|]. split; [done|]. intros fds' w' E.
  destruct (Hr fds' w' E) as (Hperm & kept & Hk & Hfds). rewrite Hp in Hperm, Hfds. eauto.
Qed.

Lemma count_ready_perm s s' : s' ≡ₚ s -> count_ready s' = count_ready s.
Proof. intros Hp. unfold count_ready. by rewrite Hp. Qed.

Lemma ready_cons p s :
  ready_fds (p :: s) = (if decide (revents p = 0) then ready_fds s else p :: ready_fds s) /\
  idle_fds (p :: s) = (if decide (revents p = 0) then p :: idle_fds s else idle_fds s) /\
  count_ready (p :: s) = count_ready s + (if decide (revents p = 0) then 0 else 1).
Proof.
  unfold ready_fds, idle_fds, count_ready. rewrite !filter_cons.
  repeat case_decide; try done; (split; [done|]; split; [done|]); cbn; lia.
Qed.

(** A descriptor whose handling does not return ends the scan. *)
Lemma scan_spec_fail pre p s w res :
  revents p <> 0 -> (forall r, visit p w <> Returns r) ->
  res = (visit p w ≫= fun _ => Undefined) -> scan_spec pre (p :: s) w res.
Proof.
  intros Hp Hv ->. exists [p]. destruct (ready_cons p s) as (Hre & _ & _).
  rewrite decide_False in Hre by done. rewrite Hre.
  split; [apply submseteq_skip, submseteq_nil_l|]. cbn [visit_all].
  destruct (visit p w) as [r| | | |]; [by destruct (Hv r)|by split..].
Qed.

(** One descriptor that is not ready, or that is ready. *)
Lemma scan_spec_skip pre p s w res :
  revents p = 0 -> scan_spec (pre ++ [p]) s w res -> scan_spec pre (p :: s) w res.
Proof.
  intros Hp (order & Ho & Hf & Hr). destruct (ready_cons p s) as (Hre & Hid & _).
  rewrite decide_True in Hre, Hid by done. exists order. rewrite Hre, Hid.
  split; [done|]. split; [done|]. intros fds' w' E.
  destruct (Hr fds' w' E) as (Hperm & kept & Hk & Hfds). split; [done|]. exists kept.
  split; [done|]. rewrite Hfds, <- (assoc_L (++)). done.
Qed.

Lemma scan_spec_visit (pre : list pollfd) p s w w1 (keep : bool) res :
  revents p <> 0 -> visit p w = Returns (keep, w1) ->
  scan_spec (if keep then pre ++ [p] else pre) s w1 res -> scan_spec pre (p :: s) w res.
Proof.
  intros Hp Hv (order & Ho & Hf & Hr). destruct (ready_cons p s) as (Hre & Hid & _).
  rewrite decide_False in Hre, Hid by done. exists (p :: order). rewrite Hre, Hid.
  split; [by apply submseteq_skip|]. cbn [visit_all]. rewrite Hv. cbn [mbind outcome_bind]. split.
  - rewrite <- Hf. by destruct (visit_all order w1) as [[k w2]| | | |].
  - intros fds' w' E. destruct (Hr fds' w' E) as (Hperm & kept & Hk & Hfds).
    split; [by rewrite Hperm|]. rewrite Hk. cbn [mbind outcome_bind].
    eexists. split; [reflexivity|]. rewrite Hfds. destruct keep; [|done].
    rewrite <- (assoc_L (++)). apply Permutation_app_head. apply (Permutation_middle (idle_fds s) kept p).
Qed.

Lemma scan_ok fuel : forall pre s w,
  (length s <= fuel)%nat ->
  scan_spec pre s w (scan fuel (length pre) (pre ++ s) (count_ready s) w).
Proof.
  induction fuel as [|fuel IH]; intros pre s w Hfuel.
  { destruct s; [|cbn in Hfuel; lia]. exists []. split; [done|]. split; [done|].
    intros fds' w' [= <- <-]. split; [done|]. exists []. split; [done|].
    by rewrite !app_nil_r. }
  cbn [scan]. destruct (decide (count_ready s = 0)) as [Hz|Hz].
  { rewrite Hz, andb_false_r. exists []. rewrite (ready_none s Hz). split; [done|]. split; [done|].
    intros fds' w' [= <- <-]. split; [done|]. exists []. split; [done|].
    by rewrite app_nil_r, idle_all. }
  destruct s as [|p s]; [done|]. cbn in Hfuel.
  rewrite (proj2 (Nat.ltb_lt _ _)) by (rewrite length_app; cbn; lia).
  assert ((count_ready (p :: s) >? 0) = true) as -> by (unfold count_ready in *; lia).
  cbn [andb]. rewrite list_lookup_middle by done.
  destruct (ready_cons p s) as (_ & _ & Hcount).
  assert (Hnext : forall w, scan_spec (pre ++ [p]) s w
      (scan fuel (S (length pre)) (pre ++ p :: s) (count_ready s) w)).
  { intros w1. specialize (IH (pre ++ [p]) s w1 ltac:(lia)).
    rewrite length_app, <- (assoc_L (++)) in IH. cbn in IH. by rewrite Nat.add_1_r in IH. }
  destruct (revents p =? 0) eqn:Ep; zbool.
  { rewrite decide_True in Hcount by done. rewrite Hcount, Z.add_0_r.
    by apply scan_spec_skip. }
  rewrite decide_False in Hcount by done. rewrite Hcount, Z.add_simpl_r.
  destruct (visit p w) as [[[] w1]| | | |] eqn:Ev; cbn [mbind outcome_bind];
    [by apply (scan_spec_visit pre p s w w1 true)| |
     by apply scan_spec_fail; [done|rewrite Ev|rewrite Ev]..].
  apply (scan_spec_visit pre p s w w1 false); [done..|].
  destruct (swap_remove_app pre p s) as (s' & -> & Hs').
  apply (scan_spec_perm pre s s' w1 _ Hs'). rewrite <- (count_ready_perm _ _ Hs').
  apply IH. rewrite Hs'. lia.
Qed.

(** C26. In one round of a worker every descriptor that is ready is handled exactly
    once, although a closed one's place is taken by the last entry of the table
    while the table is being scanned: the round does to the connections what
    handling the ready descriptors one after the other, in some order, does, up to
    the first whose handling does not return; and when it returns, the table holds
    the descriptors that were not ready and those that were handled and kept. *)
Theorem worker_scan_exact fds w :
  exists order, order ⊆+ ready_fds fds /\
    (r ← scan (length fds) 0 fds (count_ready fds) w; Returns r.2) =
    (r ← visit_all order w; Returns r.2) /\
    forall fds' w', scan (length fds) 0 fds (count_ready fds) w = Returns (fds', w') ->
      order ≡ₚ ready_fds fds /\
      exists kept, visit_all order w = Returns (kept, w') /\
        fds' ≡ₚ idle_fds fds ++ kept.
Proof.
  destruct (scan_ok (length fds) [] fds w (le_n _)) as (order & Ho & Hf & Hr).
  exists order. split; [done|]. split; [by rewrite Hf|]. exact Hr.
Qed.

End Scan.

(** ** Witnesses *)

Section MiniReactorWitnesses.

#[local] Existing Instances Demo.RpcHeader_demo UserDemo.LoginRequest_demo UserDemo.LoginResponse_demo mini_little.

Definition ok_bytes : bytes := default [] (SerializeToString ok_response).

Definition login_rconn (ws : list write_event) : RConn :=
  mk_RConn [RData (take 5 login_bytes); RData (drop 5 login_bytes)] ws [].

Lemma reactor_answers_witness :
  exists rest ws, arrived rest = ([], Pending) /\
    ProcessOneRequest (login_rconn [WRoom 3; WAgain; WRoom 100]) =
      Returns (true, mk_RConn rest ws (legacy_response ok_bytes)).
Proof.
  apply (reactor_answers (login_rconn [WRoom 3; WAgain; WRoom 100]) login_bytes [] Pending ok_bytes);
    [apply login_bytes_frame|reflexivity|vm_compute; reflexivity|vm_compute; reflexivity|
     repeat constructor; cbn; lia|vm_compute; discriminate].
Defined.

Lemma reactor_writes_prefix_witness :
  exists c', ProcessOneRequest (login_rconn [WRoom 3; WError]) = Returns (false, c') /\
  exists p q, legacy_response ok_bytes = p ++ q /\ r_out c' = p /\ (false = true -> q = []).
Proof.
  eexists. split; [vm_compute; reflexivity|].
  apply (reactor_writes_prefix (login_rconn [WRoom 3; WError]) login_bytes [] Pending ok_bytes);
    [apply login_bytes_frame|reflexivity|vm_compute; reflexivity|vm_compute; reflexivity|
     repeat constructor; cbn; lia|vm_compute; reflexivity].
Defined.

Lemma reactor_loses_partial_frame_witness :
  ProcessOneRequest (mk_RConn [RData (take 20 login_bytes)] [] []) =
    Returns (true, mk_RConn [] [] []).
Proof.
  apply (reactor_loses_partial_frame (mk_RConn [RData (take 20 login_bytes)] [] [])
    login_bytes (take 20 login_bytes));
    [apply login_bytes_frame|exists (drop 20 login_bytes); by rewrite take_drop
    |vm_compute; discriminate|vm_compute; reflexivity].
Defined.

End MiniReactorWitnesses.
