(* ===== verification/MiniMains.v ===== *)
(** * MiniMains: the main threads of the benchmark servers

    [main] of [tools/mini_server.cc] and [tools/mini_server_reactor.cc]: the
    listening socket, the accept loop, and the connections' way to their threads. The
    results of the system calls are scripted; the flag [g_running] is a function of
    the iteration at which it is read. *)

From S2P Require Import Prelude CppString Proto UserProto Channel MiniServer MiniReactor.

(** What [accept] returns: a descriptor, [EINTR], [EAGAIN], or another error. *)
Inductive accept_event := AFd (fd : Z) | AIntr | AAgain | AFail.

(** The results of [socket], [bind] and [listen]. *)
Record Listening := mk_Listening { sock_ret : Z; bind_ret : Z; listen_ret : Z }.

(** What [main] does: an option it sets on a descriptor, the address it binds, a line it
    prints, a failure it reports, a thread it starts or joins, a descriptor it closes, a
    [poll] of the listening socket. *)
Inductive main_action :=
| MReuseAddr (fd : Z)
| MReusePort (fd : Z)
| MNonBlocking (fd : Z)
| MNoDelay (fd : Z)
| MBind (port : Z)
| MListen (backlog : Z)
| MPrint (line : bytes)
| MError (what : bytes)
| MThread (fd : Z)
| MWorker (i : Z)
| MPoll (fd : Z)
| MClose (fd : Z)
| MJoin (i : Z).

(** [argc > i ? std::atoi(argv[i]) : dflt]. *)
Definition int_arg (argv : list bytes) (i : nat) (dflt : Z) : Z :=
  match argv !! i with Some a => atoi a | None => dflt end.

(** The steps up to [listen], with the options set before [bind]: [None] to go on, or the
    exit status. *)
Definition open_listen (l : Listening) (port backlog : Z) (options : list main_action) :
    option Z * list main_action :=
  if sock_ret l <? 0 then (Some 1, [MError (lit "socket")])
  else if bind_ret l <? 0 then (Some 1, options ++ [MBind (u16 port); MError (lit "bind")])
  else if listen_ret l <? 0 then
    (Some 1, options ++ [MBind (u16 port); MListen backlog; MError (lit "listen")])
  else (None, options ++ [MBind (u16 port); MListen backlog]).

Definition line_feed : bytes := [Byte.x0a].
Definition join_all (n : Z) : list main_action := MJoin <$> seqZ 0 n.

(** ** [mini_server.cc] *)

(** The accept loop: the connections that got a thread. *)
Fixpoint mini_accept_loop (g_running : nat -> bool) (k : nat) (accepts : list accept_event)
    (workers : list Z) : outcome (list Z) :=
  match accepts with
  | [] => if g_running k then Blocks else mret workers
  | a :: accepts =>
      if g_running k then
        match a with
        | AFd client_fd => mini_accept_loop g_running (S k) accepts (workers ++ [client_fd])
        | AIntr => mini_accept_loop g_running (S k) accepts workers
        | AAgain | AFail => mret workers
        end
      else mret workers
  end.

Definition mini_main (argv : list bytes) (l : Listening) (g_running : nat -> bool)
    (accepts : list accept_event) : outcome (Z * list main_action) :=
  let port := int_arg argv 1 9000 in
  match open_listen l port 1024 [MReuseAddr (sock_ret l)] with
  | (Some status, acts) => mret (status, acts)
  | (None, acts) =>
      workers ← mini_accept_loop g_running 0 accepts [];
      mret (0, acts ++ [MPrint (lit "[Server] Legacy protocol server listening on port " ++
                                to_string port ++ line_feed)] ++
               (MThread <$> workers) ++ [MClose (sock_ret l)] ++ join_all (zlen workers) ++
               [MPrint (lit "[Server] Shutdown complete." ++ line_feed)])
  end.

(** ** [mini_server_reactor.cc] *)

(** The accept loop: the round-robin index and the workers' queues. A queue keeps here
    all that was ever put into its [new_fds]; the worker takes a prefix of it at each
    round ([MiniReactor.take_new]), which the accept loop never looks at. *)
Fixpoint reactor_accept_loop (listen_fd num_workers : Z) (g_running : nat -> bool) (k : nat)
    (accepts : list accept_event) (st : Z * list (list Z)) :
    outcome (Z * list (list Z) * list main_action) :=
  match accepts with
  | [] => if g_running k then Blocks else mret (st, [])
  | a :: accepts =>
      if g_running k then
        match a with
        | AFd client_fd =>
            st ← hand_over num_workers st client_fd;
            '(st, acts) ← reactor_accept_loop listen_fd num_workers g_running (S k) accepts st;
            mret (st, [MNonBlocking client_fd; MNoDelay client_fd] ++ acts)
        | AIntr => reactor_accept_loop listen_fd num_workers g_running (S k) accepts st
        | AAgain =>
            '(st, acts) ← reactor_accept_loop listen_fd num_workers g_running (S k) accepts st;
            mret (st, MPoll listen_fd :: acts)
        | AFail => mret (st, [])
        end
      else mret (st, [])
  end.

(** [std::vector<WorkerContext> contexts(num_workers)]: a negative number is a huge
    [size_t]. *)
Definition make_contexts (num_workers : Z) : outcome (list (list Z)) :=
  if num_workers <? 0 then Throws else mret (replicate (Z.to_nat num_workers) []).

(** [total_reqs] is the workers' counter when they have been joined. *)
Definition reactor_main (argv : list bytes) (l : Listening) (g_running : nat -> bool)
    (accepts : list accept_event) (total_reqs : Z) : outcome (Z * list (list Z) * list main_action) :=
  let port := int_arg argv 1 9000 in
  let num_workers := int_arg argv 2 4 in
  let fd := sock_ret l in
  match open_listen l port 65535 [MReuseAddr fd; MReusePort fd; MNonBlocking fd] with
  | (Some status, acts) => mret (status, [], acts)
  | (None, acts) =>
      contexts ← make_contexts num_workers;
      '(st, acts') ← reactor_accept_loop fd num_workers g_running 0 accepts (0, contexts);
      mret (0, st.2,
        acts ++ [MPrint (lit "[Reactor] port=" ++ to_string port ++ lit " workers=" ++
                         to_string num_workers ++ lit " (poll multiplexing)" ++ line_feed)] ++
        (MWorker <$> seqZ 0 num_workers) ++ acts' ++ [MClose fd] ++ join_all num_workers ++
        [MPrint (lit "[Reactor] done. requests=" ++ to_string total_reqs ++ line_feed)])
  end.

(** ** Lemmas *)

(** The connections accepted before the loop ends, and whether it does. *)
Fixpoint accepted (again : bool) (g_running : nat -> bool) (k : nat) (accepts : list accept_event) :
    option (list Z) :=
  match accepts with
  | [] => if g_running k then None else Some []
  | a :: accepts =>
      if g_running k then
        match a with
        | AFd fd => cons fd <$> accepted again g_running (S k) accepts
        | AIntr => accepted again g_running (S k) accepts
        | AAgain => if again then accepted again g_running (S k) accepts else Some []
        | AFail => Some []
        end
      else Some []
  end.

(** The thread-per-connection server starts one thread for each connection it accepts,
    in order, whatever interruptions come between, until the flag falls or [accept]
    fails; then it closes its socket, joins the threads and returns 0. While the flag is up and no
    connection comes it waits. *)
Theorem mini_main_threads argv l g_running accepts :
  0 <= sock_ret l -> 0 <= bind_ret l -> 0 <= listen_ret l ->
  mini_main argv l g_running accepts =
    match accepted false g_running 0 accepts with
    | None => Blocks
    | Some fds => Returns (0,
        [MReuseAddr (sock_ret l); MBind (u16 (int_arg argv 1 9000)); MListen 1024;
         MPrint (lit "[Server] Legacy protocol server listening on port " ++
                 to_string (int_arg argv 1 9000) ++ line_feed)] ++ (MThread <$> fds) ++
        [MClose (sock_ret l)] ++ join_all (zlen fds) ++
        [MPrint (lit "[Server] Shutdown complete." ++ line_feed)])
    end.
Proof.
  intros Hs Hb Hl. unfold mini_main, open_listen. decide_cmp.
  assert (forall k ws, mini_accept_loop g_running k accepts ws =
    match accepted false g_running k accepts with
    | None => Blocks | Some fds => Returns (ws ++ fds) end) as ->.
  { induction accepts as [|a accepts IH]; intros k ws; cbn.
    - destruct (g_running k); [done|]. by rewrite app_nil_r.
    - destruct (g_running k); [|by rewrite app_nil_r].
      destruct a as [fd| | |]; rewrite ?IH, ?app_nil_r; try done.
      destruct (accepted false g_running (S k) accepts); [|done]. cbn. by rewrite <- (assoc_L (++)). }
  by destruct (accepted false g_running 0 accepts).
Qed.

(** ** The distribution *)

(** Connection number [j] is number [j / n] of the queue of worker [j mod n]. *)
Definition dealt (n : nat) (fds : list Z) (queues : list (list Z)) : Prop :=
  length queues = n /\
  forall i q, queues !! i = Some q ->
    zlen q = (zlen fds + Z.of_nat n - 1 - Z.of_nat i) / Z.of_nat n /\
    forall p fd, q !! p = Some fd -> fds !! (p * n + i)%nat = Some fd.

Lemma dealt_nil n : (0 < n)%nat -> dealt n [] (replicate n []).
Proof.
  intros Hn. split; [apply length_replicate|]. intros i q [-> Hi]%lookup_replicate.
  split; [|done]. cbn. rewrite Z.div_small; lia.
Qed.

Lemma dealt_snoc n fds queues fd :
  (0 < n)%nat -> dealt n fds queues ->
  dealt n (fds ++ [fd]) (alter (fun q => q ++ [fd]) (length fds mod n)%nat queues).
Proof.
  intros Hn [Hl Hq]. split; [by rewrite length_alter|]. intros i q Hi.
  assert (i < n)%nat as Hin by (apply lookup_lt_Some in Hi; by rewrite length_alter, Hl in Hi).
  pose proof (Nat.div_mod_eq (length fds) n) as Hdm.
  pose proof (Nat.mod_upper_bound (length fds) n ltac:(lia)) as Hmb.
  set (d := (length fds / n)%nat) in *. set (m := (length fds mod n)%nat) in *.
  assert (forall k, 0 <= k < Z.of_nat n ->
    (zlen fds + Z.of_nat n - 1 - k) / Z.of_nat n =
      if k <? Z.of_nat m then Z.of_nat d + 1 else Z.of_nat d) as Hdiv.
  { intros k Hk. symmetry. case_if; zbool.
    - apply (Z.div_unique _ _ _ (Z.of_nat m - 1 - k)); lia.
    - apply (Z.div_unique _ _ _ (Z.of_nat m + Z.of_nat n - 1 - k)); lia. }
  destruct (decide (i = m)) as [->|Hne].
  - rewrite list_lookup_alter_eq in Hi. destruct (queues !! m) as [q0|] eqn:E; [|done].
    injection Hi as <-. destruct (Hq _ _ E) as [Hlen Hin0]. rewrite Hdiv in Hlen by lia.
    rewrite Z.ltb_irrefl in Hlen. split.
    + rewrite !length_app. cbn [length].
      replace (Z.of_nat (length fds + 1) + Z.of_nat n - 1 - Z.of_nat m)
        with (Z.of_nat d * Z.of_nat n + Z.of_nat n) by lia.
      rewrite <- Z.mul_succ_l, Z.div_mul by lia. lia.
    + intros p x Hp. apply lookup_app_Some in Hp as [Hp|[Hge Hp]].
      * apply lookup_app_l_Some. by apply Hin0.
      * assert (p - length q0 = 0)%nat as Hp0 by (apply lookup_lt_Some in Hp; cbn in Hp; lia).
        rewrite Hp0 in Hp. cbn in Hp. injection Hp as <-.
        assert (p = d) as -> by lia. rewrite lookup_app_r by lia. replace (d * n + m - length fds)%nat with 0%nat by lia. done.
  - rewrite list_lookup_alter_ne in Hi by done. destruct (Hq _ _ Hi) as [Hlen Hin0].
    split; [|intros p x Hp; apply lookup_app_l_Some; by apply Hin0].
    rewrite Hlen, Hdiv, length_app by lia. cbn [length].
    replace (Z.of_nat (length fds + 1) + Z.of_nat n - 1 - Z.of_nat i)
      with (zlen fds + Z.of_nat n - Z.of_nat i) by lia.
    case_if; zbool.
    + apply (Z.div_unique _ _ _ (Z.of_nat m - Z.of_nat i)); lia.
    + apply (Z.div_unique _ _ _ (Z.of_nat m + Z.of_nat n - Z.of_nat i)); lia.
Qed.

Lemma reactor_loop_deals listen_fd n g_running accepts : forall k fds queues,
  (0 < n)%nat -> dealt n fds queues ->
  match accepted true g_running k accepts with
  | None => True
  | Some fds' => zlen fds + zlen fds' < 2 ^ 31 ->
      exists queues' acts,
        reactor_accept_loop listen_fd (Z.of_nat n) g_running k accepts (zlen fds, queues) =
          Returns (zlen fds + zlen fds', queues', acts) /\ dealt n (fds ++ fds') queues'
  end.
Proof.
  induction accepts as [|a accepts IH]; intros k fds queues Hn Hd; cbn [accepted reactor_accept_loop].
  { destruct (g_running k); [done|]. intros _. exists queues, []. rewrite Z.add_0_r, app_nil_r. done. }
  destruct (g_running k).
  2: { intros _. exists queues, []. rewrite Z.add_0_r, app_nil_r. done. }
  destruct a as [fd| | |].
  - pose proof (IH (S k) (fds ++ [fd])
      (alter (fun q => q ++ [fd]) (length fds mod n)%nat queues) Hn (dealt_snoc _ _ _ _ Hn Hd)) as H.
    destruct (accepted true g_running (S k) accepts) as [fds'|]; [|done]. cbn [fmap option_fmap option_map].
    intros Hlt. cbn [length] in Hlt. rewrite length_app in H. cbn [length] in H.
    destruct (H ltac:(lia)) as (queues' & acts & E & Hd'). exists queues', ([MNonBlocking fd; MNoDelay fd] ++ acts).
    unfold hand_over. rewrite (proj2 (Z.eqb_neq _ _)), (proj2 (Z.eqb_neq _ _)) by lia.
    cbn [orb mbind outcome_bind mret outcome_ret].
    rewrite Z.rem_mod_nonneg, <- Nat2Z.inj_mod, Nat2Z.id by lia.
    replace (zlen fds + 1) with (Z.of_nat (length fds + 1)) by lia. rewrite E.
    cbn [mbind outcome_bind mret outcome_ret length]. rewrite <- (assoc_L (++)) in Hd'.
    split; [do 3 f_equal; lia|done].
  - by apply IH.
  - pose proof (IH (S k) fds queues Hn Hd) as H.
    destruct (accepted true g_running (S k) accepts) as [fds'|]; [|done]. intros Hlt.
    destruct (H Hlt) as (queues' & acts & -> & Hd'). by exists queues', (MPoll listen_fd :: acts).
  - intros _. exists queues, []. rewrite Z.add_0_r, app_nil_r. done.
Qed.

(** C30. The reactor deals its connections out evenly. With [n > 0] workers and an accept loop
    that ends (fewer than [2^31] connections), [main] returns 0, connection number
    [j] is number [j / n] of the queue of worker [j mod n], and the queues' lengths
    differ by at most one; with no workers, and a connection as the first thing that
    [accept] gives, that connection divides by zero. *)
Theorem reactor_main_deals argv l g_running accepts total_reqs fds n :
  0 <= sock_ret l -> 0 <= bind_ret l -> 0 <= listen_ret l ->
  accepted true g_running 0 accepts = Some fds -> zlen fds < 2 ^ 31 ->
  int_arg argv 2 4 = Z.of_nat n ->
  ((0 < n)%nat ->
   exists queues acts, reactor_main argv l g_running accepts total_reqs = Returns (0, queues, acts) /\
     dealt n fds queues /\
     forall q q', q ∈ queues -> q' ∈ queues -> zlen q <= zlen q' + 1) /\
  (n = 0%nat -> g_running 0%nat = true -> forall fd rest, accepts = AFd fd :: rest ->
   reactor_main argv l g_running accepts total_reqs = Undefined).
Proof.
  intros Hs Hb Hl Hacc Hlen Harg. unfold reactor_main, open_listen. rewrite Harg. decide_cmp.
  unfold make_contexts. decide_cmp. cbn [mbind outcome_bind mret outcome_ret]. rewrite Nat2Z.id.
  split.
  - intros Hn. pose proof (reactor_loop_deals (sock_ret l) n g_running accepts 0 [] _ Hn
      (dealt_nil n Hn)) as H.
    rewrite Hacc in H. cbn [length app] in H. change (Z.of_nat 0) with 0 in H.
    destruct (H ltac:(lia)) as (queues & acts & E & Hd). rewrite E.
    cbn [mbind outcome_bind mret outcome_ret snd]. eexists queues, _. split; [reflexivity|].
    split; [done|]. destruct Hd as [Hq Hd].
    assert (forall q, q ∈ queues -> zlen fds / Z.of_nat n <= zlen q <= zlen fds / Z.of_nat n + 1) as Hb'.
    { intros q [i Hi]%list_elem_of_lookup. destruct (Hd _ _ Hi) as [-> _].
      apply lookup_lt_Some in Hi.
      split; [apply Z.div_le_mono; lia|].
      replace (zlen fds / Z.of_nat n + 1) with ((zlen fds + 1 * Z.of_nat n) / Z.of_nat n)
        by (by rewrite Z.div_add by lia). apply Z.div_le_mono; lia. }
    intros q q' H1%Hb' H2%Hb'. lia.
  - intros -> Hg fd rest ->. cbn [reactor_accept_loop]. rewrite Hg. done.
Qed.

(** ** Witnesses *)

Definition demo_listening : Listening := mk_Listening 3 0 0.
Definition three_connections : list accept_event := [AFd 5; AIntr; AAgain; AFd 6; AFd 7].

Example mini_main_threads_witness :
  mini_main [lit "mini_server"; lit "9001"] demo_listening (fun _ => true) [AFd 5; AIntr; AFd 6; AFail] =
    Returns (0, [MReuseAddr 3; MBind 9001; MListen 1024;
      MPrint (lit "[Server] Legacy protocol server listening on port 9001" ++ line_feed);
      MThread 5; MThread 6; MClose 3; MJoin 0; MJoin 1;
      MPrint (lit "[Server] Shutdown complete." ++ line_feed)]).
Proof.
  etransitivity; [apply (mini_main_threads [lit "mini_server"; lit "9001"] demo_listening
    (fun _ => true) [AFd 5; AIntr; AFd 6; AFail]); cbn; lia|]. reflexivity.
Defined.

Example reactor_main_deals_witness :
  exists queues acts,
    reactor_main [lit "reactor"; lit "9001"; lit "2"] demo_listening (fun k => (k <? 5)%nat)
      three_connections 3 = Returns (0, queues, acts) /\
    dealt 2 [5; 6; 7] queues /\
    forall q q', q ∈ queues -> q' ∈ queues -> zlen q <= zlen q' + 1.
Proof.
  apply (reactor_main_deals [lit "reactor"; lit "9001"; lit "2"] demo_listening
    (fun k => (k <? 5)%nat) three_connections 3 [5; 6; 7] 2);
    [cbn; lia|cbn; lia|cbn; lia|reflexivity|cbn; lia|vm_compute; reflexivity|lia].
Defined.
