(* ===== verification/Threads.v ===== *)
(** * Threads: interleaved threads of a benchmark

    Threads whose work does not depend on what they share: each is the list of the
    atomic operations it has still to do on the shared state (an operation of an
    atomic variable, or a critical section of a mutex), and any thread that is not
    at its end may go next. *)

From S2P Require Import Prelude.

Section Threads.
Context {St Act : Type} (act : Act -> St -> St).

Abbreviation Threads := (list (list Act)).

Inductive threads_step : Threads * St -> Threads * St -> Prop :=
| a_thread_acts ts s i a rest :
    ts !! i = Some (a :: rest) -> threads_step (ts, s) (<[i := rest]> ts, act a s).

Definition all_ended (ts : Threads) : Prop := Forall (eq []) ts.

(** A run from start to end. *)
Definition runs_to (ts : Threads) (s s' : St) : Prop :=
  exists ts', rtc threads_step (ts, s) (ts', s') /\ all_ended ts'.

(** The operations in the order they happened. *)
Definition acts (l : list Act) (s : St) : St := fold_left (fun s a => act a s) l s.

Lemma concat_insert (ts : Threads) i a rest :
  ts !! i = Some (a :: rest) -> concat ts ≡ₚ a :: concat (<[i := rest]> ts).
Proof.
  revert i. induction ts as [|t ts IH]; intros [|i] Hi; simplify_eq/=; [done|].
  rewrite (IH i Hi). by rewrite Permutation_middle.
Qed.

Lemma all_ended_concat ts : all_ended ts <-> concat ts = [].
Proof.
  unfold all_ended. induction ts as [|t ts IH]; simpl; [by split|].
  rewrite Forall_cons, IH. split; [by intros [<- ->]|]. by intros [-> ->]%app_eq_nil.
Qed.

(** What has happened and what is left are together what there was to do. *)
Lemma threads_run ts s ts' s' :
  rtc threads_step (ts, s) (ts', s') ->
  exists l, s' = acts l s /\ l ++ concat ts' ≡ₚ concat ts.
Proof.
  intros H. remember (ts, s) as x eqn:Ex. remember (ts', s') as y eqn:Ey.
  revert ts s Ex. induction H as [|x y z Hs _ IH]; intros ts s ->.
  { injection Ey as -> ->. by exists []. }
  inversion Hs as [? ? i a rest Hi]; subst.
  destruct (IH eq_refl _ _ eq_refl) as (l & -> & Hp). exists (a :: l). split; [done|].
  simpl. by rewrite Hp, <- concat_insert.
Qed.

Lemma runs_to_acts ts s s' : runs_to ts s s' -> exists l, s' = acts l s /\ l ≡ₚ concat ts.
Proof.
  intros (ts' & Hr & He). apply threads_run in Hr as (l & -> & Hp).
  apply all_ended_concat in He. rewrite He, app_nil_r in Hp. by exists l.
Qed.

(** Every run has one step per operation, and goes on until all threads have ended. *)
Lemma threads_bound n ts s ts' s' :
  nsteps threads_step n (ts, s) (ts', s') -> (n + length (concat ts') = length (concat ts))%nat.
Proof.
  revert ts s. induction n as [|n IH]; intros ts s Hn; inversion Hn as [|? ? [ts1 s1] ? Hs Hn']; subst; [done|].
  inversion Hs as [? ? i a rest Hi]; subst. apply IH in Hn'.
  rewrite (concat_insert _ _ _ _ Hi). simpl. lia.
Qed.

Lemma threads_go_on ts s : all_ended ts \/ exists x, threads_step (ts, s) x.
Proof.
  destruct (decide (Exists (fun t => t <> []) ts)) as [He|He].
  - right. apply Exists_exists in He as ([|a rest] & [i Hi]%list_elem_of_lookup & Hne); [done|].
    eexists. by econstructor.
  - left. rewrite <- Forall_Exists_neg in He. eapply Forall_impl; [exact He|].
    intros t Ht. by destruct (dec_stable Ht).
Qed.

Lemma acts_app l l' s : acts (l ++ l') s = acts l' (acts l s).
Proof. apply fold_left_app. Qed.

(** One thread after the other is a run. *)
Lemma first_thread_runs pre t ts s :
  all_ended pre -> rtc threads_step (pre ++ t :: ts, s) (pre ++ [] :: ts, acts t s).
Proof.
  intros Hpre. revert s. induction t as [|a t IH]; intros s; [done|].
  eapply rtc_l; [|apply (IH (act a s))].
  replace (pre ++ t :: ts) with (<[length pre := t]> (pre ++ (a :: t) :: ts))
    by (rewrite <- (Nat.add_0_r (length pre)), insert_app_r; done).
  apply a_thread_acts.
  by rewrite lookup_app_r, Nat.sub_diag.
Qed.

Lemma sequential_run ts s : runs_to ts s (acts (concat ts) s).
Proof.
  cut (forall pre s, all_ended pre -> exists ts', rtc threads_step (pre ++ ts, s) (ts', acts (concat ts) s) /\ all_ended ts').
  { intros H. apply (H [] s). constructor. }
  clear s. induction ts as [|t ts IH]; intros pre s Hpre; simpl.
  { exists pre. by rewrite app_nil_r. }
  destruct (IH (pre ++ [[]]) (acts t s)) as (ts' & Hr & He); [apply Forall_app; by repeat constructor|].
  exists ts'. split; [|done]. rewrite acts_app, <- (assoc_L (++)) in *. simpl in Hr.
  etransitivity; [by apply first_thread_runs|exact Hr].
Qed.

(** A quantity that each operation changes by a fixed amount has the same value after
    every run. *)
Lemma acts_sum (f : St -> Z) (w : Act -> Z) l s :
  (forall a s, f (act a s) = f s + w a) -> f (acts l s) = f s + sum_by w l.
Proof.
  intros Hf. revert s. induction l as [|a l IH]; intros s; simpl; [lia|].
  unfold acts in *. simpl. rewrite IH, Hf. lia.
Qed.

Lemma runs_to_sum (f : St -> Z) (w : Act -> Z) ts s s' :
  (forall a s, f (act a s) = f s + w a) -> runs_to ts s s' -> f s' = f s + sum_by (sum_by w) ts.
Proof.
  intros Hf (l & -> & Hp)%runs_to_acts.
  by rewrite (acts_sum f w), (sum_by_perm _ _ _ Hp), sum_by_concat by done.
Qed.

(** The same for a counter of 64 bits, whose additions wrap around. *)
Lemma acts_sum_i64 (f : St -> Z) (w : Act -> Z) l s :
  (forall a s, i64_ok (f s) -> f (act a s) = i64 (f s + w a)) -> i64_ok (f s) ->
  f (acts l s) = i64 (f s + sum_by w l).
Proof.
  intros Hf. revert s. induction l as [|a l IH]; intros s Hs; simpl.
  { by rewrite Z.add_0_r, i64_small. }
  unfold acts in *. simpl. rewrite IH, Hf, i64_add by (rewrite ?Hf; auto using i64_ok_i64). f_equal. lia.
Qed.

Lemma runs_to_sum_i64 (f : St -> Z) (w : Act -> Z) ts s s' :
  (forall a s, i64_ok (f s) -> f (act a s) = i64 (f s + w a)) -> i64_ok (f s) -> runs_to ts s s' ->
  f s' = i64 (f s + sum_by (sum_by w) ts).
Proof.
  intros Hf Hs (l & -> & Hp)%runs_to_acts.
  by rewrite (acts_sum_i64 f w), (sum_by_perm _ _ _ Hp), sum_by_concat by done.
Qed.

(** A list that each operation extends holds, after every run, what the operations
    appended, in some order. *)
Lemma acts_appended {B} (f : St -> list B) (w : Act -> list B) l s :
  (forall a s, f (act a s) = f s ++ w a) -> f (acts l s) = f s ++ (l ≫= w).
Proof.
  intros Hf. revert s. induction l as [|a l IH]; intros s; simpl; [by rewrite app_nil_r|].
  unfold acts in *. simpl. by rewrite IH, Hf, <- (assoc_L (++)).
Qed.

Lemma runs_to_appended {B} (f : St -> list B) (w : Act -> list B) ts s s' :
  (forall a s, f (act a s) = f s ++ w a) -> runs_to ts s s' ->
  f s' ≡ₚ f s ++ (concat ts ≫= w).
Proof.
  intros Hf (l & -> & Hp)%runs_to_acts. rewrite (acts_appended f w) by done.
  by rewrite Hp.
Qed.

End Threads.
