(* ===== verification/Doubles.v ===== *)
(** * Doubles: the C++ [double] of the monitor and the benchmark tools

    IEEE 754 binary64 values of the Standard Library's [SpecFloat], rounded to
    nearest even; the conversions and comparisons the code uses; the order of the
    values that are not NaN; and how far a product is from the exact one, with
    which conversions of products to integers are bounded. *)

From S2P Require Import Prelude.
From Stdlib Require Export Floats.SpecFloat.

(** ** Operations *)

Abbreviation double := spec_float.
Definition d_mul : double -> double -> double := SFmul 53 1024.
Definition d_div : double -> double -> double := SFdiv 53 1024.
Definition d_add : double -> double -> double := SFadd 53 1024.
Definition d_sub : double -> double -> double := SFsub 53 1024.
(** [std::sqrt] and [std::abs]. *)
Definition d_sqrt : double -> double := SFsqrt 53 1024.
Definition d_abs : double -> double := SFabs.

(** The conversion of an integer, and a literal [m * 2^e], rounded to nearest. *)
Definition d_of_Z (z : Z) : double := binary_normalize 53 1024 z 0 false.
Definition d_lit (m e : Z) : double := binary_normalize 53 1024 m e false.
(** The decimal literal [m / 10^k]: the nearest double, as both are doubles. *)
Definition d_dec (m k : Z) : double := d_div (d_of_Z m) (d_of_Z (10 ^ k)).
Definition d_zero : double := S754_zero false.

(** [<], [>], [<=]: false when an operand is NaN. *)
Definition d_lt : double -> double -> bool := SFltb.
Definition d_gt (a b : double) : bool := SFltb b a.
Definition d_le : double -> double -> bool := SFleb.

(** [std::max(a, b)] and [std::min(a, b)]: the first unless the second is larger
    (smaller). *)
Definition d_max (a b : double) : double := if d_lt a b then b else a.
Definition d_min (a b : double) : double := if d_lt b a then b else a.

(** The conversion to an integer type discards the fraction; it is undefined when
    the result is not in the type's range. *)
Definition d_trunc (d : double) : option Z :=
  match d with
  | S754_zero _ => Some 0
  | S754_finite s m e =>
      let a := if e >=? 0 then Z.pos m * 2 ^ e else Z.pos m / 2 ^ (- e) in
      Some (if s then - a else a)
  | S754_infinity _ | S754_nan => None
  end.
Definition to_llong (d : double) : outcome Z :=
  match d_trunc d with
  | Some z => in_llong z
  | None => Undefined
  end.
Definition to_int (d : double) : outcome Z :=
  match d_trunc d with
  | Some z => if (- 2 ^ 31 <=? z) && (z <? 2 ^ 31) then Returns z else Undefined
  | None => Undefined
  end.

Definition is_nan (d : double) : bool :=
  match d with S754_nan => true | _ => false end.

Example d_dec_095 : d_dec 95 2 = d_lit 8556839292003942 (-53).
Proof. reflexivity. Qed.
Example d_max_first : d_max (S754_zero true) (S754_zero false) = S754_zero true.
Proof. reflexivity. Qed.

(** ** The order of doubles that are not NaN *)

(** The position of a value: its class, then its exponent and its mantissa. *)
Definition d_key (d : double) : Z * Z * Z :=
  match d with
  | S754_infinity true => (0, 0, 0)
  | S754_finite true m e => (1, - e, - Z.pos m)
  | S754_zero _ | S754_nan => (2, 0, 0)
  | S754_finite false m e => (3, e, Z.pos m)
  | S754_infinity false => (4, 0, 0)
  end.

Definition key_lt (k k' : Z * Z * Z) : Prop :=
  let '(a, b, c) := k in let '(a', b', c') := k' in
  a < a' \/ (a = a' /\ (b < b' \/ (b = b' /\ c < c'))).

Lemma d_lt_key a b :
  is_nan a = false -> is_nan b = false -> d_lt a b = true <-> key_lt (d_key a) (d_key b).
Proof.
  unfold d_lt, SFltb, SFcompare, key_lt, d_key.
  destruct a as [sa|[]| |[] ma ea], b as [sb|[]| |[] mb eb]; intros; try done;
    try (split; [intros; try done; lia|intros; try done; lia]).
  all: change (Pos.compare_cont Eq ma mb) with (Pos.compare ma mb).
  all: destruct (Z.compare_spec ea eb); simpl;
    try (destruct (Pos.compare_spec ma mb); simpl); split; intros; try done; lia.
Qed.

Lemma d_le_lt a b : is_nan a = false -> is_nan b = false -> d_le a b = negb (d_lt b a).
Proof.
  unfold d_le, d_lt, SFleb, SFltb, SFcompare.
  destruct a as [sa|[]| |[] ma ea], b as [sb|[]| |[] mb eb]; intros; try done.
  all: change (Pos.compare_cont Eq ma mb) with (Pos.compare ma mb);
    change (Pos.compare_cont Eq mb ma) with (Pos.compare mb ma).
  all: rewrite (Z.compare_antisym ea eb), (Pos.compare_antisym ma mb).
  all: destruct (Z.compare_spec ea eb); simpl;
    try (destruct (Pos.compare_spec ma mb); simpl); done.
Qed.

Ltac by_key :=
  rewrite ?d_le_lt, ?negb_true_iff, <- ?not_true_iff_false, ?d_lt_key by done;
  repeat match goal with |- context [d_key ?d] => destruct (d_key d) as [[]] end;
  unfold key_lt; lia.

Lemma d_lt_asym a b : is_nan a = false -> is_nan b = false ->
  d_lt a b = true -> d_lt b a = false.
Proof. intros Ha Hb. by_key. Qed.

Lemma d_lt_trans a b c : is_nan a = false -> is_nan b = false -> is_nan c = false ->
  d_lt a b = true -> d_lt b c = true -> d_lt a c = true.
Proof. intros Ha Hb Hc. by_key. Qed.

Lemma d_lt_neg_trans a b c : is_nan a = false -> is_nan b = false -> is_nan c = false ->
  d_lt a b = false -> d_lt b c = false -> d_lt a c = false.
Proof. intros Ha Hb Hc. by_key. Qed.

Lemma d_le_refl a : is_nan a = false -> d_le a a = true.
Proof. intros Ha. by_key. Qed.

Lemma d_le_trans a b c : is_nan a = false -> is_nan b = false -> is_nan c = false ->
  d_le a b = true -> d_le b c = true -> d_le a c = true.
Proof. intros Ha Hb Hc. by_key. Qed.

Lemma d_le_total a b : is_nan a = false -> is_nan b = false ->
  d_le a b = false -> d_le b a = true.
Proof. intros Ha Hb. rewrite !d_le_lt, negb_false_iff, negb_true_iff by done. by apply d_lt_asym. Qed.

Lemma d_max_cases a b : d_max a b = a \/ d_max a b = b.
Proof. unfold d_max. case_if; auto. Qed.
Lemma d_min_cases a b : d_min a b = a \/ d_min a b = b.
Proof. unfold d_min. case_if; auto. Qed.

Lemma d_max_ub a b : is_nan a = false -> is_nan b = false ->
  d_le a (d_max a b) = true /\ d_le b (d_max a b) = true.
Proof.
  intros Ha Hb. unfold d_max. case_if.
  - split; [|by apply d_le_refl]. rewrite d_le_lt, d_lt_asym by done. done.
  - split; [by apply d_le_refl|]. by rewrite d_le_lt, Hif.
Qed.

Lemma d_min_lb a b : is_nan a = false -> is_nan b = false ->
  d_le (d_min a b) a = true /\ d_le (d_min a b) b = true.
Proof.
  intros Ha Hb. unfold d_min. case_if.
  - split; [|by apply d_le_refl]. rewrite d_le_lt, d_lt_asym by done. done.
  - split; [by apply d_le_refl|]. by rewrite d_le_lt, Hif.
Qed.

(** ** Rounding *)

Lemma digits2_bounds m :
  2 ^ (Z.pos (digits2_pos m) - 1) <= Z.pos m < 2 ^ Z.pos (digits2_pos m).
Proof.
  induction m as [m IH|m IH|]; cbn [digits2_pos]; [| |done];
    rewrite Pos2Z.inj_succ, Z.sub_succ_l; rewrite !Z.pow_succ_r by lia; lia.
Qed.

Lemma digits2_eq m d : 0 < d -> 2 ^ (d - 1) <= Z.pos m < 2 ^ d -> Z.pos (digits2_pos m) = d.
Proof.
  intros Hd Hm. pose proof (digits2_bounds m) as Hb.
  assert (Z.pos (digits2_pos m) - 1 < d) by (apply (Z.pow_lt_mono_r_iff 2); lia).
  assert (d - 1 < Z.pos (digits2_pos m)) by (apply (Z.pow_lt_mono_r_iff 2); lia). lia.
Qed.

Lemma shr_1_m mrs : 0 <= shr_m mrs -> shr_m (shr_1 mrs) = shr_m mrs / 2.
Proof.
  destruct mrs as [[|[m|m|]|m] r s]; cbn; intros; try done; try lia.
  - apply (Z.div_unique _ 2 _ 1); lia.
  - apply (Z.div_unique _ 2 _ 0); lia.
Qed.

Lemma shr_iter_m p : forall mrs, 0 <= shr_m mrs ->
  shr_m (iter_pos shr_1 p mrs) = shr_m mrs / 2 ^ Z.pos p.
Proof.
  induction p as [p IH|p IH|]; intros mrs Hm; cbn [iter_pos].
  - assert (0 <= shr_m (shr_1 mrs)) by (rewrite shr_1_m by done; apply Z.div_pos; lia).
    assert (0 <= shr_m (iter_pos shr_1 p (shr_1 mrs))) by (rewrite IH by done; apply Z.div_pos; lia).
    rewrite IH, IH, shr_1_m, !Z.div_div by lia. f_equal.
    replace (Z.pos p~1) with (1 + Z.pos p + Z.pos p) by lia. rewrite !Z.pow_add_r by lia. ring.
  - assert (0 <= shr_m (iter_pos shr_1 p mrs)) by (rewrite IH by done; apply Z.div_pos; lia).
    rewrite IH, IH, Z.div_div by lia. f_equal.
    replace (Z.pos p~0) with (Z.pos p + Z.pos p) by lia. rewrite Z.pow_add_r by lia. ring.
  - by rewrite shr_1_m.
Qed.

Lemma shr_record_m m l : shr_m (shr_record_of_loc m l) = m.
Proof. by destruct l as [|[]]. Qed.

Lemma round_nearest_cases m l : round_nearest_even m l = m \/ round_nearest_even m l = m + 1.
Proof. destruct l as [|[]]; cbn; auto. destruct (Z.even m); auto. Qed.

(** [shr_fexp] of a mantissa of at least 53 bits, above the subnormal range. *)
Lemma shr_fexp_m m e l d :
  Z.pos (digits2_pos m) = d -> 53 <= d -> -1074 <= e + (d - 53) ->
  let '(mrs, e') := shr_fexp 53 1024 (Z.pos m) e l in
  shr_m mrs = Z.pos m / 2 ^ (d - 53) /\ e' = e + (d - 53).
Proof.
  intros Hd H53 He. unfold shr_fexp, Zdigits2. rewrite Hd.
  assert (fexp 53 1024 (d + e) - e = d - 53) as -> by (unfold fexp, emin; lia).
  unfold shr. destruct (d - 53) as [|p|p] eqn:E; [|..|lia].
  - rewrite shr_record_m, Z.pow_0_r, Z.div_1_r. split; [done|lia].
  - rewrite shr_iter_m by (rewrite shr_record_m; lia). by rewrite shr_record_m.
Qed.

(** The result of rounding a mantissa of [d >= 53] bits: 53 bits, and within one
    unit of its last place. *)
Lemma round_aux_bounds s m e l d :
  Z.pos (digits2_pos m) = d -> 53 <= d -> -1074 <= e + (d - 53) <= 970 ->
  exists m' e', binary_round_aux 53 1024 s (Z.pos m) e l = S754_finite s m' e' /\
    2 ^ 52 <= Z.pos m' < 2 ^ 53 /\ e <= e' <= e + (d - 52) /\
    Z.pos m - 2 ^ (d - 53) < Z.pos m' * 2 ^ (e' - e) <= Z.pos m + 2 ^ (d - 53).
Proof.
  intros Hd H53 He. unfold binary_round_aux.
  pose proof (shr_fexp_m m e l d Hd H53 ltac:(lia)) as Hs.
  destruct (shr_fexp 53 1024 (Z.pos m) e l) as [mrs e1]. destruct Hs as [Hm ->].
  pose proof (digits2_bounds m) as Hb. rewrite Hd in Hb.
  set (P := 2 ^ (d - 53)) in *. assert (0 < P) by (apply Z.pow_pos_nonneg; lia).
  assert (2 ^ (d - 1) = P * 2 ^ 52) as E1 by (unfold P; rewrite <- Z.pow_add_r by lia; f_equal; lia).
  assert (2 ^ d = P * 2 ^ 53) as E2 by (unfold P; rewrite <- Z.pow_add_r by lia; f_equal; lia).
  pose proof (Z_div_mod_eq_full (Z.pos m) P). pose proof (Z.mod_pos_bound (Z.pos m) P ltac:(lia)).
  assert (2 ^ 52 <= shr_m mrs < 2 ^ 53) as Hq by (rewrite Hm; nia).
  set (q := round_nearest_even _ _).
  assert (Hq' : shr_m mrs <= q <= shr_m mrs + 1)
    by (unfold q; destruct (round_nearest_cases (shr_m mrs) (loc_of_shr_record mrs)); lia).
  rewrite Hm in *. destruct q as [|p|p] eqn:Eq; [lia| |lia].
  destruct (decide (Z.pos p = 2 ^ 53)) as [Hp|Hp].
  - pose proof (shr_fexp_m p (e + (d - 53)) loc_Exact 54
      ltac:(apply digits2_eq; lia) ltac:(lia) ltac:(lia)) as H2.
    destruct (shr_fexp 53 1024 (Z.pos p) (e + (d - 53)) loc_Exact) as [mrs2 e2].
    destruct H2 as [Hm2 ->]. rewrite Hp in Hm2. change (2 ^ 53 / 2 ^ (54 - 53)) with (2 ^ 52) in Hm2.
    rewrite Hm2. change (2 ^ 52) with (Z.pos 4503599627370496) at 1. cbv iota beta.
    rewrite (proj2 (Z.leb_le _ _)) by lia. eexists _, _. split; [reflexivity|].
    split; [lia|]. split; [lia|].
    replace (e + (d - 53) + (54 - 53) - e) with (d - 53 + 1) by lia.
    rewrite Z.pow_add_r by lia. fold P. nia.
  - pose proof (shr_fexp_m p (e + (d - 53)) loc_Exact 53
      ltac:(apply digits2_eq; lia) ltac:(lia) ltac:(lia)) as H2.
    destruct (shr_fexp 53 1024 (Z.pos p) (e + (d - 53)) loc_Exact) as [mrs2 e2].
    destruct H2 as [Hm2 ->]. change (2 ^ (53 - 53)) with 1 in Hm2. rewrite Z.div_1_r in Hm2.
    rewrite Hm2. rewrite (proj2 (Z.leb_le _ _)) by lia. eexists _, _. split; [reflexivity|].
    split; [lia|]. split; [lia|].
    replace (e + (d - 53) + (53 - 53) - e) with (d - 53) by lia. fold P. nia.
Qed.

(** ** Scaled values

    The value of a positive double times [2^1100], an integer, so that bounds on
    products are integer inequalities. *)

Definition d_scale : Z := 2 ^ 1100.
Definition d_scaled (d : double) : Z :=
  match d with S754_finite false m e => Z.pos m * 2 ^ (e + 1100) | _ => 0 end.

(** A positive double with a full mantissa and an exponent in a range. *)
Definition d_normal (lo hi : Z) (d : double) : Prop :=
  exists m e, d = S754_finite false m e /\ 2 ^ 52 <= Z.pos m < 2 ^ 53 /\ lo <= e <= hi.

Lemma d_scale_pos : 0 < d_scale.
Proof. unfold d_scale. by apply Z.pow_pos_nonneg. Qed.

Lemma d_scaled_pos lo hi d : -1074 <= lo -> d_normal lo hi d -> 0 < d_scaled d.
Proof.
  intros Hlo (m & e & -> & Hm & He). cbn [d_scaled].
  assert (0 < 2 ^ (e + 1100)) by (apply Z.pow_pos_nonneg; lia). nia.
Qed.

Lemma d_trunc_scaled lo hi d :
  -1074 <= lo -> d_normal lo hi d -> d_trunc d = Some (d_scaled d / d_scale).
Proof.
  intros Hlo (m & e & -> & Hm & He). unfold d_trunc, d_scaled, d_scale. f_equal.
  case_if; zbool.
  - rewrite Z.pow_add_r, Z.mul_assoc, Z.div_mul by (try apply Z.pow_nonzero; lia). done.
  - replace 1100 with (- e + (e + 1100)) at 2 by lia. rewrite (Z.pow_add_r 2 (- e)) by lia.
    rewrite Z.div_mul_cancel_r by (apply Z.pow_nonzero; lia). done.
Qed.

(** A product is within one part in [2^52] of the exact one. *)
Lemma d_mul_bounds lo hi lo' hi' a b :
  d_normal lo hi a -> d_normal lo' hi' b ->
  -1074 <= lo -> -1074 <= lo' -> -1074 <= lo + lo' -> hi + hi' <= 917 ->
  d_normal (lo + lo') (hi + hi' + 54) (d_mul a b) /\
  (2 ^ 52 - 1) * (d_scaled a * d_scaled b) <= 2 ^ 52 * (d_scaled (d_mul a b) * d_scale) <=
    (2 ^ 52 + 1) * (d_scaled a * d_scaled b).
Proof.
  intros (ma & ea & -> & Hma & Hea) (mb & eb & -> & Hmb & Heb) Hl Hl' Hlo Hhi.
  unfold d_mul, SFmul. cbn [xorb].
  assert (exists d, Z.pos (digits2_pos (ma * mb)) = d /\ 105 <= d <= 106) as (d & Hd & Hd').
  { pose proof (digits2_bounds (ma * mb)) as Hb. rewrite Pos2Z.inj_mul in Hb.
    eexists. split; [reflexivity|]. set (d := Z.pos (digits2_pos (ma * mb))) in *.
    assert (104 < d) by (apply (Z.pow_lt_mono_r_iff 2); nia).
    assert (d - 1 < 106) by (apply (Z.pow_lt_mono_r_iff 2); nia). lia. }
  destruct (round_aux_bounds false (ma * mb) (ea + eb) loc_Exact d Hd ltac:(lia) ltac:(lia))
    as (m' & e' & -> & Hm' & He' & Hv).
  split; [exists m', e'; split; [done|]; split; [done|lia]|]. cbn [d_scaled].
  pose proof (digits2_bounds (ma * mb)) as Hb. rewrite Hd in Hb.
  assert (2 ^ (d - 1) = 2 ^ (d - 53) * 2 ^ 52) as E1 by (rewrite <- Z.pow_add_r by lia; f_equal; lia).
  rewrite E1 in Hb. rewrite Pos2Z.inj_mul in Hb, Hv.
  set (P := 2 ^ (d - 53)) in *. set (u := 2 ^ (ea + eb + 2200)).
  assert (0 < u) by (apply Z.pow_pos_nonneg; lia).
  replace (Z.pos ma * 2 ^ (ea + 1100) * (Z.pos mb * 2 ^ (eb + 1100)))
    with (Z.pos ma * Z.pos mb * u) by
    (unfold u; replace (ea + eb + 2200) with (ea + 1100 + (eb + 1100)) by lia;
     rewrite Z.pow_add_r by lia; ring).
  replace (Z.pos m' * 2 ^ (e' + 1100) * d_scale) with (Z.pos m' * 2 ^ (e' - (ea + eb)) * u) by
    (unfold u, d_scale; rewrite <- !Z.mul_assoc, <- !Z.pow_add_r by lia; do 2 f_equal; lia).
  set (X := Z.pos m' * _) in *. set (Y := Z.pos ma * _) in *. nia.
Qed.

Lemma iter_xO p q : Z.pos (Pos.iter xO p q) = Z.pos p * 2 ^ Z.pos q.
Proof.
  induction q as [|q IH] using Pos.peano_ind; [cbn; lia|].
  rewrite Pos.iter_succ, Pos2Z.inj_succ, Z.pow_succ_r by lia.
  rewrite Pos2Z.inj_xO, IH. ring.
Qed.

(** A positive integer of at most [b <= 63] bits as a double. *)
Lemma d_of_Z_bounds b n :
  0 < n < 2 ^ b -> b <= 63 ->
  d_normal (-52) (b - 52) (d_of_Z n) /\
  (2 ^ 52 - 1) * (n * d_scale) <= 2 ^ 52 * d_scaled (d_of_Z n) <= (2 ^ 52 + 1) * (n * d_scale).
Proof.
  intros [Hn Hn'] Hb63. destruct n as [|p|p]; try lia. unfold d_of_Z, binary_normalize, binary_round.
  pose proof (digits2_bounds p) as Hb. set (d := Z.pos (digits2_pos p)) in *.
  assert (0 <= b) by (destruct (Z_lt_le_dec b 0); [rewrite Z.pow_neg_r in Hn' by done; lia|done]).
  assert (d - 1 < b) by (apply (Z.pow_lt_mono_r_iff 2); lia).
  rewrite Z.add_0_r. replace (fexp 53 1024 d) with (d - 53) by (unfold fexp, emin; lia).
  assert (exists p' k, shl_align p 0 (d - 53) = (p', - k) /\ 0 <= k <= 52 /\
      Z.pos p' = Z.pos p * 2 ^ k /\ 53 <= d + k /\ d + k <= 63 /\ (k = 0 \/ d + k = 53))
    as (p' & k & -> & Hk & Hp' & H53 & H63 & Hk0).
  { unfold shl_align. destruct (d - 53 - 0) as [|q|q] eqn:E.
    - exists p, 0. split; [done|]. lia.
    - exists p, 0. split; [done|]. lia.
    - exists (Pos.iter xO p q), (Z.pos q). split; [f_equal; lia|]. split; [lia|].
      split; [apply iter_xO|lia]. }
  assert (Z.pos (digits2_pos p') = d + k) as Hd.
  { apply digits2_eq; [lia|]. replace (d + k - 1) with (d - 1 + k) by lia.
    rewrite Hp', !Z.pow_add_r by lia. nia. }
  destruct (round_aux_bounds false p' (- k) loc_Exact (d + k) Hd H53 ltac:(lia))
    as (m' & e' & -> & Hm' & He' & Hv).
  split; [exists m', e'; split; [done|]; split; [done|lia]|]. cbn [d_scaled].
  assert (2 ^ (d + k - 53) * 2 ^ 52 <= Z.pos p').
  { rewrite <- Z.pow_add_r, Hp' by lia. replace (d + k - 53 + 52) with (d - 1 + k) by lia.
    rewrite Z.pow_add_r by lia. nia. }
  set (u := 2 ^ (1100 - k)). assert (0 < u) by (apply Z.pow_pos_nonneg; lia).
  replace (Z.pos m' * 2 ^ (e' + 1100)) with (Z.pos m' * 2 ^ (e' - - k) * u) by
    (unfold u; rewrite <- Z.mul_assoc, <- Z.pow_add_r by lia; do 2 f_equal; lia).
  replace (Z.pos p * d_scale) with (Z.pos p' * u) by
    (rewrite Hp'; unfold u, d_scale; rewrite <- Z.mul_assoc, <- Z.pow_add_r by lia; do 2 f_equal; lia).
  set (X := Z.pos m' * _) in *. set (P := 2 ^ (d + k - 53)) in *. nia.
Qed.

(** Truncation is monotone. *)
Lemma d_trunc_mono lo hi lo' hi' a b :
  -1074 <= lo -> -1074 <= lo' -> d_normal lo hi a -> d_normal lo' hi' b ->
  d_scaled a <= d_scaled b ->
  exists x y, d_trunc a = Some x /\ d_trunc b = Some y /\ 0 <= x <= y.
Proof.
  intros Hlo Hlo' Ha Hb Hle. pose proof d_scale_pos.
  pose proof (d_scaled_pos _ _ _ Hlo Ha).
  rewrite (d_trunc_scaled _ _ _ Hlo Ha), (d_trunc_scaled _ _ _ Hlo' Hb).
  eexists _, _. split; [done|]. split; [done|].
  split; [apply Z.div_pos; lia|apply Z.div_le_mono; lia].
Qed.

(** The quotient of two full mantissas is rounded from one of 53 or 54 bits. *)
Lemma d_div_normal lo hi lo' hi' a b :
  d_normal lo hi a -> d_normal lo' hi' b -> -1021 <= lo - hi' -> hi - lo' <= 900 ->
  d_normal (lo - hi' - 53) (hi - lo' - 51) (d_div a b).
Proof.
  intros (ma & ea & -> & Hma & Hea) (mb & eb & -> & Hmb & Heb) Hlo Hhi.
  unfold d_div, SFdiv, SFdiv_core_binary, Zdigits2. cbn [xorb].
  rewrite (digits2_eq ma 53), (digits2_eq mb 53) by lia.
  replace (Z.min (fexp 53 1024 (53 + ea - (53 + eb))) (ea - eb)) with (ea - eb - 53)
    by (unfold fexp, emin; lia).
  replace (ea - eb - (ea - eb - 53)) with 53 by lia. cbv iota zeta.
  rewrite Z.shiftl_mul_pow2 by lia.
  pose proof (Z_div_mod (Z.pos ma * 2 ^ 53) (Z.pos mb) ltac:(lia)) as Hdm.
  destruct (Z.div_eucl (Z.pos ma * 2 ^ 53) (Z.pos mb)) as [q r]. destruct Hdm as [Hq Hr].
  assert (2 ^ 52 <= q < 2 ^ 54) as Hqb by nia.
  destruct q as [|q|q]; [lia| |lia].
  assert (exists d, Z.pos (digits2_pos q) = d /\ 53 <= d <= 54) as (d & Hd & Hd').
  { destruct (Z_lt_le_dec (Z.pos q) (2 ^ 53)).
    - exists 53. split; [apply digits2_eq|]; lia.
    - exists 54. split; [apply digits2_eq|]; lia. }
  destruct (round_aux_bounds false q (ea - eb - 53) (new_location (Z.pos mb) r) d Hd
    ltac:(lia) ltac:(lia)) as (m' & e' & E & Hm' & He' & _).
  exists m', e'. split; [exact E|]. split; [done|lia].
Qed.

(** The integer part of a value, by its exponent. *)
Lemma d_trunc_bound lo hi d :
  d_normal lo hi d -> -1074 <= lo -> -53 <= hi ->
  exists z, d_trunc d = Some z /\ 0 <= z < 2 ^ (53 + hi).
Proof.
  intros Hd Hlo Hhi. rewrite (d_trunc_scaled lo hi d Hlo Hd). eexists. split; [done|].
  pose proof d_scale_pos. pose proof (d_scaled_pos lo hi d Hlo Hd).
  destruct Hd as (m & e & -> & Hm & He). split; [apply Z.div_pos; lia|].
  apply Z.div_lt_upper_bound; [done|]. cbn [d_scaled]. unfold d_scale.
  rewrite <- Z.pow_add_r by lia.
  replace (1100 + (53 + hi)) with (hi + 1100 + 53) by lia. rewrite (Z.pow_add_r 2 (hi + 1100)) by lia.
  assert (2 ^ (e + 1100) <= 2 ^ (hi + 1100)) by (apply Z.pow_le_mono_r; lia).
  assert (0 < 2 ^ (e + 1100)) by (apply Z.pow_pos_nonneg; lia). nia.
Qed.

(** A [bool] test of [d_normal]. *)
Definition d_normal_b (lo hi : Z) (d : double) : bool :=
  match d with
  | S754_finite false m e =>
      (2 ^ 52 <=? Z.pos m) && (Z.pos m <? 2 ^ 53) && (lo <=? e) && (e <=? hi)
  | _ => false
  end.

Lemma d_normal_b_true lo hi d : d_normal_b lo hi d = true -> d_normal lo hi d.
Proof. destruct d as [| | |[] m e]; cbn; intros; try done. exists m, e. split; [done|]. lia. Qed.

Lemma d_normal_not_nan lo hi d : d_normal lo hi d -> is_nan d = false.
Proof. by intros (m & e & -> & _). Qed.

(** ** Signs

    A double that is not NaN and not below zero, and one above zero and finite: what
    the quotients of counters by durations are. *)

Definition d_nonneg (d : double) : bool :=
  match d with
  | S754_zero _ | S754_infinity false | S754_finite false _ _ => true
  | _ => false
  end.
Definition d_nonpos (d : double) : bool :=
  match d with
  | S754_zero _ | S754_infinity true | S754_finite true _ _ => true
  | _ => false
  end.
Definition d_posfin (d : double) : bool :=
  match d with S754_finite false _ _ => true | _ => false end.

Lemma d_nonneg_not_nan d : d_nonneg d = true -> is_nan d = false.
Proof. by destruct d. Qed.

Lemma d_posfin_nonneg d : d_posfin d = true -> d_nonneg d = true.
Proof. by destruct d as [| | |[]]. Qed.

Lemma d_nonneg_zero_le d : d_nonneg d = true -> d_le d_zero d = true.
Proof. by destruct d as [|[]| |[]]. Qed.

Lemma shr_fexp_nonneg m e l : 0 <= m -> 0 <= shr_m (shr_fexp 53 1024 m e l).1.
Proof.
  intros Hm. unfold shr_fexp, shr. destruct (_ - e) as [|p|p]; cbn [fst]; rewrite ?shr_record_m; try done.
  rewrite shr_iter_m; rewrite shr_record_m; [|done]. apply Z.div_pos; lia.
Qed.

(** A rounded magnitude has the sign it was given, and is a number. *)
Lemma round_aux_sign s m e l :
  0 <= m -> is_nan (binary_round_aux 53 1024 s m e l) = false /\
    (if s then d_nonpos (binary_round_aux 53 1024 s m e l) = true
     else d_nonneg (binary_round_aux 53 1024 s m e l) = true).
Proof.
  intros Hm. unfold binary_round_aux.
  pose proof (shr_fexp_nonneg m e l Hm) as H1. destruct (shr_fexp 53 1024 m e l) as [mrs e1].
  cbn [fst] in H1.
  assert (0 <= round_nearest_even (shr_m mrs) (loc_of_shr_record mrs)) as H2
    by (destruct (round_nearest_cases (shr_m mrs) (loc_of_shr_record mrs)); lia).
  pose proof (shr_fexp_nonneg _ e1 loc_Exact H2) as H3.
  destruct (shr_fexp 53 1024 _ e1 loc_Exact) as [mrs2 e2]. cbn [fst] in H3.
  destruct (shr_m mrs2); [by destruct s|..|lia]. case_if; by destruct s.
Qed.

Lemma normalize_sign z e s : is_nan (binary_normalize 53 1024 z e s) = false /\
  (0 <= z -> d_nonneg (binary_normalize 53 1024 z e s) = true) /\
  (z <= 0 -> d_nonpos (binary_normalize 53 1024 z e s) = true).
Proof.
  unfold binary_normalize, binary_round. destruct z as [|m|m]; [done|..];
    destruct (shl_align m e _) as [mz ez].
  - destruct (round_aux_sign false (Z.pos mz) ez loc_Exact ltac:(lia)).
    split; [done|]. split; [done|lia].
  - destruct (round_aux_sign true (Z.pos mz) ez loc_Exact ltac:(lia)).
    split; [done|]. split; [lia|done].
Qed.

Lemma d_of_Z_not_nan z : is_nan (d_of_Z z) = false.
Proof. apply normalize_sign. Qed.
Lemma d_of_Z_nonneg z : 0 <= z -> d_nonneg (d_of_Z z) = true.
Proof. apply normalize_sign. Qed.
Lemma d_of_Z_nonpos z : z <= 0 -> d_nonpos (d_of_Z z) = true.
Proof. apply normalize_sign. Qed.

Lemma d_div_sign a b :
  d_posfin b = true -> is_nan a = false ->
  is_nan (d_div a b) = false /\ (d_nonneg a = true -> d_nonneg (d_div a b) = true) /\
  (d_nonpos a = true -> d_nonpos (d_div a b) = true).
Proof.
  destruct b as [| | |[] mb eb]; try done. intros _ Ha.
  unfold d_div, SFdiv. destruct a as [| | |sa ma ea]; try done; [by destruct s|].
  unfold SFdiv_core_binary.
  set (m' := match _ - _ with Z0 => _ | _ => _ end).
  assert (0 <= m') as Hm'.
  { unfold m'. destruct (_ - _); [lia| |lia]. apply Z.shiftl_nonneg. lia. }
  pose proof (Z_div_pos m' (Z.pos mb) ltac:(lia) Hm') as Hq. unfold Z.div in Hq.
  destruct (Z.div_eucl m' (Z.pos mb)) as [q r].
  destruct (round_aux_sign (xorb sa false) q
    (Z.min (fexp 53 1024 (Zdigits2 (Z.pos ma) + ea - (Zdigits2 (Z.pos mb) + eb))) (ea - eb))
    (new_location (Z.pos mb) r) Hq) as [H1 H2].
  split; [done|]. by destruct sa.
Qed.

Lemma d_div_not_nan a b : d_posfin b = true -> is_nan a = false -> is_nan (d_div a b) = false.
Proof. intros. by apply d_div_sign. Qed.
Lemma d_div_nonneg a b : d_posfin b = true -> d_nonneg a = true -> d_nonneg (d_div a b) = true.
Proof. intros Hb Ha. by apply d_div_sign; [..|apply d_nonneg_not_nan|]. Qed.

Lemma d_nonpos_lt a b : d_nonpos a = true -> d_posfin b = true -> d_lt a b = true.
Proof. by destruct a as [|[]| |[]], b as [| | |[]]. Qed.

Lemma d_normal_posfin lo hi d : d_normal lo hi d -> d_posfin d = true.
Proof. by intros (m & e & -> & _). Qed.

Lemma d_add_nonneg a b : d_nonneg a = true -> d_nonneg b = true -> d_nonneg (d_add a b) = true.
Proof.
  unfold d_add, SFadd.
  destruct a as [sa|[]| |[] ma ea], b as [sb|[]| |[] mb eb]; intros; try done.
  - by destruct sa, sb.
  - apply normalize_sign. cbn [cond_Zopp]. lia.
Qed.

(** ** std::chrono

    The count of a [duration<double, std::milli>] and of a [duration<double>] that is
    [ns] nanoseconds. *)

Definition chrono_ms (ns : Z) : double := d_div (d_of_Z ns) (d_of_Z 1000000).
Definition chrono_s (ns : Z) : double := d_div (d_of_Z ns) (d_of_Z 1000000000).

Lemma chrono_ms_not_nan ns : is_nan (chrono_ms ns) = false.
Proof. apply d_div_not_nan; [done|apply d_of_Z_not_nan]. Qed.

Definition billion_normal : d_normal (-23) (-23) (d_of_Z 1000000000) :=
  d_normal_b_true (-23) (-23) (d_of_Z 1000000000) eq_refl.

(** Less than nine years: a positive number of seconds, which fits an [int]. *)
Lemma chrono_s_normal ns :
  0 < ns < 2 ^ 58 -> d_normal (-82) (-22) (chrono_s ns).
Proof.
  intros Hns. destruct (d_of_Z_bounds 58 ns Hns ltac:(lia)) as [Hn _].
  exact (d_div_normal _ _ _ _ _ _ Hn billion_normal ltac:(lia) ltac:(lia)).
Qed.

Lemma chrono_s_int ns : 0 <= ns < 2 ^ 58 -> exists z, to_int (chrono_s ns) = Returns z /\ 0 <= z.
Proof.
  intros Hns. destruct (decide (ns = 0)) as [->|Hne]; [by exists 0|].
  destruct (d_trunc_bound _ _ _ (chrono_s_normal ns ltac:(lia)) ltac:(lia) ltac:(lia)) as (z & Hz & Hb).
  exists z. unfold to_int. rewrite Hz. cbn in Hb. decide_cmp. split; [done|lia].
Qed.

(** An interval that is not below a millisecond is positive. *)
Lemma chrono_s_positive ns d :
  d_posfin d = true -> ns < 2 ^ 58 -> d_lt (chrono_s ns) d = false -> d_posfin (chrono_s ns) = true.
Proof.
  intros Hd Hns Hlt. destruct (decide (0 < ns)) as [Hpos|Hneg].
  - eapply d_normal_posfin, chrono_s_normal. lia.
  - rewrite d_nonpos_lt in Hlt; [done| |done].
    apply (d_div_sign _ _); [done|apply d_of_Z_not_nan|apply d_of_Z_nonpos; lia].
Qed.
