(* ===== verification/StdSort.v ===== *)
(** * StdSort: [std::sort]

    [std::sort(first, last, comp)] leaves the elements in an order in which none is
    less than an earlier one, provided [comp] is a strict weak order on them; the
    order of equivalent elements is not specified, so the function is an interface
    with this law. An insertion sort satisfies it. *)

From S2P Require Import Prelude.
From Stdlib Require Export Sorting.Sorted.

Record strict_weak {A} (comp : A -> A -> bool) (l : list A) : Prop := {
  comp_irrefl a : a ∈ l -> comp a a = false;
  comp_asym a b : a ∈ l -> b ∈ l -> comp a b = true -> comp b a = false;
  comp_neg_trans a b c : a ∈ l -> b ∈ l -> c ∈ l ->
    comp a b = false -> comp b c = false -> comp a c = false
}.

(** No element is less than an earlier one. *)
Definition sorted {A} (comp : A -> A -> bool) : list A -> Prop :=
  StronglySorted (fun a b => comp b a = false).

Class StdSort := std_sort : forall {A}, (A -> A -> bool) -> list A -> list A.
Class StdSortLaws `{StdSort} := {
  std_sort_perm {A} (comp : A -> A -> bool) l : strict_weak comp l -> std_sort comp l ≡ₚ l;
  std_sort_sorted {A} (comp : A -> A -> bool) l :
    strict_weak comp l -> sorted comp (std_sort comp l)
}.

(** ** Lemmas *)

Section Sorted.
Context {A : Type} (comp : A -> A -> bool).

Lemma sorted_lookup l i j a b :
  sorted comp l -> (i < j)%nat -> l !! i = Some a -> l !! j = Some b -> comp b a = false.
Proof.
  intros Hl. revert i j. induction Hl as [|x l _ IH Hx]; intros i j Hij Hi Hj; [done|].
  destruct j as [|j]; [lia|]. destruct i as [|i]; simpl in *; [|by eapply (IH i j); [lia|..]].
  injection Hi as ->. rewrite Forall_lookup in Hx. by eapply Hx.
Qed.

(** A filter keeps the order. *)
Lemma sorted_filter (P : A -> Prop) `{!forall a, Decision (P a)} l :
  sorted comp l -> sorted comp (filter P l).
Proof.
  induction 1 as [|x l _ IH Hx]; [constructor|]. rewrite filter_cons.
  case_decide; [|done]. constructor; [done|]. apply Forall_forall. intros y Hy.
  apply list_elem_of_filter in Hy as [_ Hy]. by eapply Forall_forall in Hx.
Qed.

Lemma sorted_lookup_le l i j a b :
  strict_weak comp l -> sorted comp l -> (i <= j)%nat ->
  l !! i = Some a -> l !! j = Some b -> comp b a = false.
Proof.
  intros Hsw Hl Hij Hi Hj. destruct (decide (i = j)) as [->|Hne].
  - rewrite Hi in Hj. injection Hj as ->. apply (comp_irrefl _ _ Hsw).
    by eapply list_elem_of_lookup_2.
  - by eapply (sorted_lookup l i j); [..|lia|exact Hi|exact Hj].
Qed.

(** At most [i] elements are less than element [i], and at most [length l - 1 - i]
    greater. *)
Lemma sorted_rank l i a :
  strict_weak comp l -> sorted comp l -> l !! i = Some a ->
  (length (filter (fun x => comp x a = true) l) <= i)%nat /\
  (length (filter (fun x => comp a x = true) l) <= length l - 1 - i)%nat.
Proof.
  intros Hsw Hl Hi. pose proof (lookup_lt_Some _ _ _ Hi) as Hlt.
  assert (forall (P : A -> Prop) `{!forall a, Decision (P a)} k,
    Forall (fun x => ~ P x) k -> filter P k = []) as Hnone.
  { intros P ? k. induction 1; [done|]. rewrite filter_cons. by case_decide. }
  split; rewrite <- (take_drop i l), filter_app, length_app.
  - rewrite (Hnone _ _ (drop i l)).
    { pose proof (length_filter (fun x => comp x a = true) (take i l)). rewrite length_take in *.
      simpl. lia. }
    apply Forall_lookup. intros k x Hk. rewrite lookup_drop in Hk.
    by rewrite (sorted_lookup_le l i (i + k) a x) by (done || lia).
  - rewrite (drop_S l a i Hi), filter_cons.
    rewrite (comp_irrefl _ _ Hsw a) by (by eapply list_elem_of_lookup_2).
    rewrite decide_False by done. rewrite (Hnone _ _ (take i l)).
    { pose proof (length_filter (fun x => comp a x = true) (drop (S i) l)). rewrite length_drop in *.
      simpl. rewrite length_app, length_take. simpl. rewrite length_drop. lia. }
    apply Forall_lookup. intros k x [Hk Hki]%lookup_take_Some.
    by rewrite (sorted_lookup_le l k i x a) by (done || lia).
Qed.

Lemma strict_weak_sub l l' : l' ⊆ l -> strict_weak comp l -> strict_weak comp l'.
Proof. intros Hs [H1 H2 H3]. split; intros; eauto. Qed.

End Sorted.

(** Integers: the result is unique, so it is that of any other sort. *)
Lemma strict_weak_ltb l : strict_weak Z.ltb l.
Proof. split; intros; lia. Qed.

Lemma sorted_ltb_unique l l' : sorted Z.ltb l -> sorted Z.ltb l' -> l ≡ₚ l' -> l = l'.
Proof.
  intros Hl. revert l'. induction Hl as [|x l Hl IH Hx]; intros l' Hl' Hp.
  { apply Permutation_nil in Hp. by subst. }
  destruct l' as [|y l']; [by apply Permutation_nil_r in Hp|].
  inversion_clear Hl' as [|? ? Hl'' Hy].
  assert (x = y) as ->.
  { assert (x ∈ y :: l') as Hxin by (rewrite <- Hp; apply list_elem_of_here).
    assert (y ∈ x :: l) as Hyin by (rewrite Hp; apply list_elem_of_here).
    apply elem_of_cons in Hxin as [->|Hxin]; [done|].
    apply elem_of_cons in Hyin as [->|Hyin]; [done|].
    eapply Forall_forall in Hx; [|exact Hyin]. eapply Forall_forall in Hy; [|exact Hxin]. lia. }
  f_equal. apply IH; [done|]. by apply Permutation_cons_inv in Hp.
Qed.

(** ** Quantiles *)

(** The index [count * num / den] of the tools' percentiles. *)
Definition quantile_index (count num den : Z) : outcome Z :=
  n ← in_llong (count * num); mret (Z.quot n den).

(** It is within a vector of [count] elements. *)
Lemma quantile_index_ok n num den :
  0 < n < 2 ^ 53 -> 0 <= num < den -> den <= 1000 ->
  quantile_index n num den = Returns (n * num / den) /\ 0 <= n * num / den < n.
Proof.
  intros Hn Hnum Hden. unfold quantile_index, in_llong.
  rewrite (proj2 (Z.leb_le _ _)), (proj2 (Z.ltb_lt _ _)) by nia. cbn [andb mbind outcome_bind].
  rewrite Z.quot_div_nonneg by nia. split; [done|]. split; [apply Z.div_pos; nia|].
  apply Z.div_lt_upper_bound; nia.
Qed.

(** ** Insertion sort *)

Fixpoint insert_by {A} (comp : A -> A -> bool) (x : A) (l : list A) : list A :=
  match l with
  | [] => [x]
  | y :: l' => if comp x y then x :: l else y :: insert_by comp x l'
  end.

Definition insertion_sort : StdSort := fun A comp l => foldr (insert_by comp) [] l.

Lemma insert_by_perm {A} (comp : A -> A -> bool) x l : insert_by comp x l ≡ₚ x :: l.
Proof.
  induction l as [|y l IH]; simpl; [done|]. case_if; [done|]. rewrite IH. constructor.
Qed.

Lemma insertion_sort_perm {A} (comp : A -> A -> bool) l : insertion_sort A comp l ≡ₚ l.
Proof. induction l as [|x l IH]; simpl; [done|]. by rewrite insert_by_perm, IH. Qed.

Lemma insert_by_sorted {A} (comp : A -> A -> bool) x l :
  strict_weak comp (x :: l) -> sorted comp l -> sorted comp (insert_by comp x l).
Proof.
  intros Hsw Hl. induction Hl as [|y l Hl IH Hy]; simpl; [by repeat constructor|].
  assert (strict_weak comp (x :: l)) as Hsw' by (eapply strict_weak_sub; [|exact Hsw]; set_solver).
  destruct (comp x y) eqn:E.
  - constructor; [by constructor|]. constructor.
    + apply (comp_asym _ _ Hsw); set_solver.
    + apply Forall_forall. intros z Hz. apply (comp_neg_trans _ _ Hsw z y x); [set_solver..| |].
      * by eapply Forall_forall in Hy.
      * apply (comp_asym _ _ Hsw); set_solver.
  - constructor; [by apply IH|]. apply Forall_forall. intros z Hz.
    rewrite insert_by_perm in Hz. apply elem_of_cons in Hz as [->|Hz]; [done|].
    by eapply Forall_forall in Hy.
Qed.

#[export] Instance insertion_sort_laws : @StdSortLaws insertion_sort.
Proof.
  split; intros A comp l Hsw; [apply insertion_sort_perm|].
  induction l as [|x l IH]; [constructor|].
  apply insert_by_sorted.
  - eapply strict_weak_sub; [|exact Hsw]. intros a.
    rewrite !elem_of_cons, (insertion_sort_perm comp l). done.
  - apply IH. eapply strict_weak_sub; [|exact Hsw]. set_solver.
Qed.
