(* ===== verification/OStream.v ===== *)
(** * OStream: formatted output

    What the reports use of <ostream> and <iomanip>: [operator<<] on strings,
    integers and doubles under [std::setw], [std::setprecision], [std::fixed],
    [std::left] and [std::right]. A chain of [<<] is a list of items; [setw] holds
    for one item, the other manipulators stay on the stream. *)

From S2P Require Import Prelude CppString Doubles.

Record ostate := mk_ostate {
  os_width : Z;
  os_precision : Z;
  os_fixed : bool;
  os_left : bool
}.
Definition ostate_new : ostate := mk_ostate 0 6 false false.

Inductive item :=
| Str (s : bytes)
| Int (z : Z)
| Dbl (d : double)
| Setw (n : Z)
| SetPrecision (n : Z)
| Fixed | Left | Right.

(** A literal of the source as an item. *)
Definition txt (s : String.string) : item := Str (lit s).
Arguments txt s%_string_scope.

(** [<< "\n"]. *)
Definition endline : item := Str [Byte.x0a].

(** ** Doubles in fixed notation *)

(** The digits of a non-negative integer of any size. *)
Definition dec (z : Z) : bytes := dec_digits (S (Z.to_nat (Z.log2 z))) z [].

Definition pad_left (c : byte) (n : Z) (s : bytes) : bytes :=
  replicate (Z.to_nat (n - zlen s)) c ++ s.
Definition pad_right (c : byte) (n : Z) (s : bytes) : bytes :=
  s ++ replicate (Z.to_nat (n - zlen s)) c.

(** [n / d] to the nearest integer, ties to even. *)
Definition round_half_even (n d : Z) : Z :=
  let q := n / d in
  match 2 * (n mod d) ?= d with
  | Lt => q
  | Gt => q + 1
  | Eq => if Z.even q then q else q + 1
  end.

(** The value [m * 2^e] in units of [10^-p]. *)
Definition decimal_units (p m e : Z) : Z :=
  if e >=? 0 then m * 2 ^ e * 10 ^ p else round_half_even (m * 10 ^ p) (2 ^ (- e)).

Definition units_text (p n : Z) : bytes :=
  dec (n / 10 ^ p) ++
  (if p >? 0 then lit "." ++ pad_left Byte.x30 p (dec (n mod 10 ^ p)) else []).

Definition sign_text (s : bool) : bytes := if s then lit "-" else [].

Definition fixed_text (p : Z) (d : double) : bytes :=
  match d with
  | S754_zero s => sign_text s ++ units_text p 0
  | S754_infinity s => sign_text s ++ lit "inf"
  | S754_nan => lit "nan"
  | S754_finite s m e => sign_text s ++ units_text p (decimal_units p (Z.pos m) e)
  end.

(** Integers of any of the types of the code. *)
Definition int_text (z : Z) : bytes := if z <? 0 then lit "-" ++ dec (- z) else dec z.

(** The default notation of doubles ([%g]) is used in one place only and is left to
    the C++ library. *)
Class GeneralFormat := general_text : Z -> double -> bytes.

Section OStream.
Context `{GeneralFormat}.

Definition padded (os : ostate) (s : bytes) : bytes :=
  if os_left os then pad_right Byte.x20 (os_width os) s
  else pad_left Byte.x20 (os_width os) s.

Definition double_text (os : ostate) (d : double) : bytes :=
  if os_fixed os then fixed_text (os_precision os) d else general_text (os_precision os) d.

(** One [<<]: the characters it writes and the stream's flags afterwards. *)
Definition put (os : ostate) (i : item) : bytes * ostate :=
  match i with
  | Str s => (padded os s, {| os with os_width := 0 |})
  | Int z => (padded os (int_text z), {| os with os_width := 0 |})
  | Dbl d => (padded os (double_text os d), {| os with os_width := 0 |})
  | Setw n => ([], {| os with os_width := n |})
  | SetPrecision n => ([], {| os with os_precision := n |})
  | Fixed => ([], {| os with os_fixed := true |})
  | Left => ([], {| os with os_left := true |})
  | Right => ([], {| os with os_left := false |})
  end.

Fixpoint puts (os : ostate) (items : list item) : bytes * ostate :=
  match items with
  | [] => ([], os)
  | i :: items =>
      let '(s, os) := put os i in
      let '(s', os) := puts os items in
      (s ++ s', os)
  end.

(** What a fresh [std::ostringstream] holds after a chain. *)
Definition render (items : list item) : bytes := (puts ostate_new items).1.

(** ** Lemmas *)

Lemma puts_app os items items' :
  puts os (items ++ items') =
    let '(s, os) := puts os items in let '(s', os) := puts os items' in (s ++ s', os).
Proof.
  revert os. induction items as [|i items IH]; intros os; cbn [app puts].
  { by destruct (puts os items'). }
  destruct (put os i) as [s os1]. rewrite IH. destruct (puts os1 items) as [s1 os2].
  destruct (puts os2 items') as [s2 os3]. by rewrite (assoc_L (++)).
Qed.

Lemma length_pad_left c n s : zlen (pad_left c n s) = Z.max n (zlen s).
Proof. unfold pad_left. xlen. Qed.
Lemma length_pad_right c n s : zlen (pad_right c n s) = Z.max n (zlen s).
Proof. unfold pad_right. xlen. Qed.

Lemma length_padded os s : zlen (padded os s) = Z.max (os_width os) (zlen s).
Proof. unfold padded. case_if; [apply length_pad_right|apply length_pad_left]. Qed.

End OStream.

(** Rounding is to the nearest: at most half a unit away. *)
Lemma round_half_even_near n d :
  0 <= n -> 0 < d -> 2 * Z.abs (round_half_even n d * d - n) <= d.
Proof.
  intros Hn Hd. unfold round_half_even.
  pose proof (Z_div_mod_eq_full n d). pose proof (Z.mod_pos_bound n d Hd).
  destruct (Z.compare_spec (2 * (n mod d)) d); [|nia..]. destruct (Z.even _); nia.
Qed.

Example fixed_text_ex : fixed_text 3 (d_dec 15 1) = lit "1.500".
Proof. reflexivity. Qed.
Example render_ex `{GeneralFormat} :
  render [txt "a"; Setw 8; Fixed; SetPrecision 2; Dbl (d_dec 15 1); Left; Setw 3; Int 7; txt "|"] =
  lit "a    1.507  |".
Proof. reflexivity. Qed.
