(* ===== verification/RealBench.v ===== *)
(** * RealBench: the raw-socket benchmark client

    [tools/real_benchmark.cc]: threads that call [Login] over their own connections
    in the Legacy format, with counters and latency samples they share, and the
    report. A thread's socket and clock are scripted ([WorkerEnv]); what it does to
    the shared state is the list of its atomic operations ([Threads]). *)

From S2P Require Import Prelude CppString Buffer Wire Proto Message Codec LegacyCodec Channel ChannelSpec UserProto MiniServer MiniMains Threads Doubles StdSort OStream.

(** ** Percentiles *)

Record LatencyStats := mk_LatencyStats {
  p50_ms : double;
  p99_ms : double;
  p999_ms : double;
  avg_ms : double;
  max_ms : double;
  count : Z
}.
Definition LatencyStats_zero : LatencyStats :=
  mk_LatencyStats d_zero d_zero d_zero d_zero d_zero 0.

(** What is computed from the sorted samples, in the order of the code. *)
Definition percentiles_of (samples : list double) : outcome LatencyStats :=
  let count := zlen samples in
  let sum := fold_left d_add samples d_zero in
  let avg_ms := d_div sum (d_of_Z count) in
  max_ms ← at_index samples (count - 1);
  i50 ← quantile_index count 50 100;
  p50_ms ← at_index samples i50;
  i99 ← quantile_index count 99 100;
  p99_ms ← at_index samples i99;
  i999 ← quantile_index count 999 1000;
  p999_ms ← at_index samples i999;
  mret (mk_LatencyStats p50_ms p99_ms p999_ms avg_ms max_ms count).

Definition ComputePercentiles `{StdSort} (samples : list double) : outcome LatencyStats :=
  match samples with
  | [] => mret LatencyStats_zero
  | _ => percentiles_of (std_sort d_lt samples)
  end.

(** ** One call *)

(** [recv_exact] on a connection: the function is that of [mini_server.cc], word for
    word. *)
Definition recv_exact (c : MiniConn) (size : Z) : outcome (Z * bytes * MiniConn) :=
  '(n, buf, rest) ← mini_recv_exact (mini_in c) size [];
  mret (n, buf, {| c with mini_in := rest |}).

Lemma recv_exact_conn c size : recv_exact c size = conn_recv c size.
Proof. done. Qed.

Section Bench.

Context `{Host} `{Proto RpcHeader} `{Proto LoginRequest} `{Proto LoginResponse}.

(** What the caller sees: the result, [resp_body], [latency_ms]; the connection and how
    often the clock has been read. *)
Record Called := mk_Called {
  call_ok : bool;
  resp_body : bytes;
  latency_ms : double;
  call_conn : MiniConn;
  call_ticks : nat
}.

Definition RpcCall (clock : nat -> Z) (k : nat) (c : MiniConn) (service method req_body : bytes)
    (resp0 : bytes) (ms0 : double) : outcome Called :=
  let t0 := clock k in
  let refuse (c : MiniConn) : outcome Called := mret (mk_Called false resp0 ms0 c (S k)) in
  (* 1. the request *)
  let header := mk_RpcHeader service method (u32 (zlen req_body)) in
  match SerializeToString header with
  | None => refuse c
  | Some header_bytes =>
      let header_len := u32 (zlen header_bytes) in
      let total_len := u32 (4 + header_len + zlen req_body) in
      let wire := store 4 (htonl total_len) ++ store 4 (htonl header_len) ++
                  slice header_bytes 0 header_len ++ req_body in
      (* 2. send *)
      '(n, c) ← conn_send c wire;
      if negb (n =? zlen wire) then refuse c
      else
        (* 3. the response *)
        '(n, buf, c) ← recv_exact c 4;
        if negb (n =? 4) then refuse c
        else
          let resp_len := ntohl (load buf) in
          if resp_len >? 16 * 1024 * 1024 then refuse c
          else
            '(n, body_buf, c) ←
              (if resp_len >? 0 then recv_exact c resp_len else mret (resp_len, [], c));
            if negb (n =? resp_len) then refuse c
            else
              (* 4. parse *)
              match ParseFromString (T := LoginResponse) body_buf with
              | None => refuse c
              | Some resp =>
                  let t1 := clock (S k) in
                  mret (mk_Called (errcode (login_result resp) =? 0) (errmsg (login_result resp))
                    (chrono_ms (t1 - t0)) c (S (S k)))
              end
  end.

(** ** A thread *)

Inductive bench_act := AddSuccess | AddFail (n : Z) | AddLatency (ms : double).

(** What a thread finds: the descriptor [socket] gives, the results of its calls of
    [connect], its connection, and its readings of the clock. *)
Record WorkerEnv := mk_WorkerEnv {
  w_socket : Z;
  w_connect : nat -> Z;
  w_conn : MiniConn;
  w_clock : nat -> Z
}.

(** The attempts that are left of 20: [retry] is 20 less their number. *)
Fixpoint connect_loop (attempts : nat) (connect : nat -> Z) : bool :=
  match attempts with
  | O => false
  | S attempts => if connect (19 - attempts)%nat <? 0 then connect_loop attempts connect else true
  end.

Definition bench_request : LoginRequest := mk_LoginRequest (lit "zhangsan") (lit "123456").

(** The calls from number [i] on. *)
Fixpoint call_loop (calls : nat) (i : Z) (clock : nat -> Z) (k : nat) (c : MiniConn)
    (req_body : bytes) : outcome (list bench_act * MiniConn) :=
  match calls with
  | O => mret ([], c)
  | S calls =>
      r ← RpcCall clock k c (lit "UserServiceRpc") (lit "Login") req_body [] d_zero;
      '(rest, c) ← call_loop calls (i + 1) clock (call_ticks r) (call_conn r) req_body;
      mret ((if call_ok r then
               AddSuccess :: (if Z.rem i 10 =? 0 then [AddLatency (latency_ms r)] else [])
             else [AddFail 1]) ++ rest, c)
  end.

(** The operations on the shared state, and the connection when the thread ends. *)
Definition Worker (e : WorkerEnv) (calls_per_thread : Z) : outcome (list bench_act * MiniConn) :=
  if w_socket e <? 0 then mret ([AddFail calls_per_thread], w_conn e)
  else if negb (connect_loop 20 (w_connect e)) then mret ([AddFail calls_per_thread], w_conn e)
  else
    match SerializeToString bench_request with
    | None => mret ([AddFail calls_per_thread], w_conn e)
    | Some req_body =>
        call_loop (Z.to_nat calls_per_thread) 0 (w_clock e) 0 (w_conn e) req_body
    end.

(** ** The shared state *)

Record Shared := mk_Shared { success : Z; fail : Z; latencies : list double }.
Definition Shared_zero : Shared := mk_Shared 0 0 [].

Definition bench_do (a : bench_act) (s : Shared) : Shared :=
  match a with
  | AddSuccess => {| s with success := i64 (success s + 1) |}
  | AddFail n => {| s with fail := i64 (fail s + n) |}
  | AddLatency ms => {| s with latencies := latencies s ++ [ms] |}
  end.

(** ** main *)

Definition usage_items (prog : bytes) : list item :=
  [txt "Usage: "; Str prog; txt " <ip> <port> [threads=20] [calls_per_thread=500]"; endline].

Definition banner_items (ip : bytes) (port threads calls_per total : Z) : list item :=
  [endline; txt "╔══════════════════════════════════════════════════════╗"; endline;
   txt "║   XRPC Real-Link Benchmark (Raw TCP + Protobuf)      ║"; endline;
   txt "╠══════════════════════════════════════════════════════╣"; endline;
   txt "║  Target: "; Str ip; txt ":"; Int port; endline;
   txt "║  Threads: "; Int threads; txt "  Calls/T: "; Int calls_per;
   txt "  Total: "; Int total; endline;
   txt "╚══════════════════════════════════════════════════════╝"; endline; endline].

(** The verdict on [P999/P50]. *)
Definition tail_ratio (stats : LatencyStats) : double :=
  if d_gt (p50_ms stats) (d_dec 1 3) then d_div (p999_ms stats) (p50_ms stats) else d_zero.
Definition tail_verdict (ratio : double) : item :=
  if d_gt ratio (d_of_Z 10) then txt " ⚠️ 严重长尾"
  else if d_gt ratio (d_of_Z 3) then txt " ⚡ 中等长尾"
  else txt " ✓ 健康".

Definition report_items (ip : bytes) (port threads : Z) (elapsed : double) (sh : Shared)
    (stats : LatencyStats) : list item :=
  let s := success sh in
  let f := fail sh in
  let t := s + f in
  let qps := d_div (d_of_Z t) elapsed in
  let succ_rate :=
    if t >? 0 then d_div (d_mul (d_of_Z 100) (d_of_Z s)) (d_of_Z t) else d_zero in
  [txt "╔══════════════════════════════════════════════════════╗"; endline;
   txt "║           Real-Link Benchmark — Final Report          ║"; endline;
   txt "╠══════════════════════════════════════════════════════╣"; endline;
   txt "║ [Basic]"; endline;
   txt "║   Total:     "; Setw 10; Int t; endline;
   txt "║   Success:   "; Setw 10; Int s; endline;
   txt "║   Fail:      "; Setw 10; Int f; endline;
   txt "║   Elapsed:   "; Setw 7; Fixed; SetPrecision 3; Dbl elapsed; txt " s"; endline;
   txt "║   Success Rate: "; Setw 5; SetPrecision 2; Dbl succ_rate; txt " %"; endline;
   txt "╠══════════════════════════════════════════════════════╣"; endline;
   txt "║ [Throughput]"; endline;
   txt "║   Overall QPS:  "; Setw 10; SetPrecision 1; Dbl qps; txt " req/s"; endline;
   txt "╠══════════════════════════════════════════════════════╣"; endline;
   txt "║ [Latency]  (samples: "; Int (count stats); txt ")"; endline;
   txt "║   Avg:  "; Setw 8; SetPrecision 3; Dbl (avg_ms stats); txt " ms"; endline;
   txt "║   P50:  "; Setw 8; SetPrecision 3; Dbl (p50_ms stats); txt " ms"; endline;
   txt "║   P99:  "; Setw 8; SetPrecision 3; Dbl (p99_ms stats); txt " ms"; endline;
   txt "║   P999: "; Setw 8; SetPrecision 3; Dbl (p999_ms stats); txt " ms"; endline;
   txt "║   Max:  "; Setw 8; SetPrecision 3; Dbl (max_ms stats); txt " ms"; endline;
   txt "║   P999/P50: "; Setw 6; SetPrecision 1; Dbl (tail_ratio stats); txt "x";
   tail_verdict (tail_ratio stats); endline;
   txt "╚══════════════════════════════════════════════════════╝"; endline; endline;
   txt "结论: 真实 TCP 链路上 ("; Str ip; txt ":"; Int port; txt ")"; endline;
   txt "  单连接短请求模式下 "; Int threads; txt " 并发线程实现 ";
   SetPrecision 0; Dbl qps; txt " QPS，"; endline;
   txt "  端到端延迟 P50="; SetPrecision 3; Dbl (p50_ms stats);
   txt "ms, P99="; Dbl (p99_ms stats); txt "ms, P999="; Dbl (p999_ms stats); txt "ms。"; endline;
   txt "  链路包含: TCP建连 + Protobuf序列化 + send/recv系统调用 + 服务端处理 + Protobuf反序列化。";
   endline; endline].

(** [duration<double, std::milli>(t1 - t0).count() / 1000.0]. *)
Definition elapsed_s (t0 t1 : Z) : double := d_div (chrono_ms (t1 - t0)) (d_of_Z 1000).

(** The threads [0 .. threads - 1] start, do what they do in some interleaving, and are
    joined. *)
Definition workers_run (threads calls_per : Z) (envs : nat -> WorkerEnv) (sh : Shared) : Prop :=
  exists ops : list (list bench_act),
    length ops = Z.to_nat threads /\
    (forall i l, ops !! i = Some l -> exists c, Worker (envs i) calls_per = Returns (l, c)) /\
    runs_to bench_do ops Shared_zero sh.

(** A run of [main] that returns: its exit status and what it prints (the usage goes to
    [std::cerr]). *)
Inductive real_main `{StdSort} (argv : list bytes) (envs : nat -> WorkerEnv) (t0 t1 : Z) :
    Z -> list item -> Prop :=
| real_main_usage prog :
    zlen argv < 3 -> argv !! 0%nat = Some prog -> real_main argv envs t0 t1 1 (usage_items prog)
| real_main_report ip sh stats :
    3 <= zlen argv -> argv !! 1%nat = Some ip ->
    let port := int_arg argv 2 0 in
    let threads := int_arg argv 3 20 in
    let calls_per := int_arg argv 4 500 in
    workers_run threads calls_per envs sh ->
    ComputePercentiles (latencies sh) = Returns stats ->
    real_main argv envs t0 t1 0
      (banner_items ip port threads calls_per (threads * calls_per) ++
       report_items ip port threads (elapsed_s t0 t1) sh stats).

End Bench.

(** ** The percentiles are order statistics *)

Lemma strict_weak_d_lt l : Forall (fun d => is_nan d = false) l -> strict_weak d_lt l.
Proof.
  rewrite Forall_forall. intros Hl. split.
  - intros a Ha%Hl. apply not_true_iff_false. rewrite d_lt_key by done. destruct (d_key a) as [[]].
    unfold key_lt. lia.
  - intros a b Ha%Hl Hb%Hl. by apply d_lt_asym.
  - intros a b c Ha%Hl Hb%Hl Hc%Hl. by apply d_lt_neg_trans.
Qed.

(** [p] is the element of rank [i] of the samples: at most [i] of the others are less,
    and at most [n - 1 - i] greater. *)
Definition of_rank (samples : list double) (i : Z) (p : double) : Prop :=
  p ∈ samples /\ zlen (filter (fun x => d_lt x p = true) samples) <= i /\
  zlen (filter (fun x => d_lt p x = true) samples) <= zlen samples - 1 - i.

Lemma percentiles_of_ok l :
  0 < zlen l < 2 ^ 53 ->
  exists s, percentiles_of l = Returns s /\ count s = zlen l /\
    l !! Z.to_nat (zlen l * 50 / 100) = Some (p50_ms s) /\
    l !! Z.to_nat (zlen l * 99 / 100) = Some (p99_ms s) /\
    l !! Z.to_nat (zlen l * 999 / 1000) = Some (p999_ms s) /\
    l !! Z.to_nat (zlen l - 1) = Some (max_ms s).
Proof.
  intros Hl. unfold percentiles_of.
  destruct (quantile_index_ok (zlen l) 50 100 ltac:(lia) ltac:(lia) ltac:(lia)) as [-> B50].
  destruct (quantile_index_ok (zlen l) 99 100 ltac:(lia) ltac:(lia) ltac:(lia)) as [-> B99].
  destruct (quantile_index_ok (zlen l) 999 1000 ltac:(lia) ltac:(lia) ltac:(lia)) as [-> B999].
  destruct (at_index_ok l (zlen l - 1) ltac:(lia)) as (mx & Lm & ->).
  destruct (at_index_ok l (zlen l * 50 / 100) ltac:(lia)) as (p50 & L50 & E50).
  destruct (at_index_ok l (zlen l * 99 / 100) ltac:(lia)) as (p99 & L99 & E99).
  destruct (at_index_ok l (zlen l * 999 / 1000) ltac:(lia)) as (p999 & L999 & E999).
  cbn [mbind outcome_bind]. rewrite E50. cbn [mbind outcome_bind]. rewrite E99.
  cbn [mbind outcome_bind]. rewrite E999. cbn [mbind outcome_bind].
  eexists. split; [reflexivity|]. done.
Qed.

Section Ranks.
Context `{StdSortLaws}.

(** A sorted copy of samples that are not NaN. *)
Lemma sorted_samples samples :
  Forall (fun d => is_nan d = false) samples ->
  let l := std_sort d_lt samples in
  l ≡ₚ samples /\ sorted d_lt l /\ strict_weak d_lt l.
Proof.
  intros Hn%strict_weak_d_lt. pose proof (std_sort_perm d_lt samples Hn) as Hp.
  split; [done|]. split; [by apply std_sort_sorted|].
  eapply strict_weak_sub; [|exact Hn]. intros x. by rewrite Hp.
Qed.

Lemma sorted_of_rank samples i p :
  Forall (fun d => is_nan d = false) samples -> 0 <= i ->
  std_sort d_lt samples !! Z.to_nat i = Some p -> of_rank samples i p.
Proof.
  intros Hn Hi Hp. destruct (sorted_samples _ Hn) as (Hperm & Hs & Hsw).
  pose proof (lookup_lt_Some _ _ _ Hp) as Hlt.
  destruct (sorted_rank d_lt _ _ _ Hsw Hs Hp) as [H1 H2].
  rewrite Hperm in H1, H2, Hlt. split; [rewrite <- Hperm; by eapply list_elem_of_lookup_2|lia].
Qed.

Lemma sorted_le samples i j a b :
  Forall (fun d => is_nan d = false) samples -> 0 <= i <= j ->
  std_sort d_lt samples !! Z.to_nat i = Some a -> std_sort d_lt samples !! Z.to_nat j = Some b ->
  d_le a b = true.
Proof.
  intros Hn Hij Ha Hb. destruct (sorted_samples _ Hn) as (Hperm & Hs & Hsw).
  rewrite Forall_forall in Hn. rewrite d_le_lt.
  - by rewrite (sorted_lookup_le d_lt _ (Z.to_nat i) (Z.to_nat j) a b) by (done || lia).
  - apply Hn. rewrite <- Hperm. by eapply list_elem_of_lookup_2.
  - apply Hn. rewrite <- Hperm. by eapply list_elem_of_lookup_2.
Qed.

Lemma ComputePercentiles_sorted samples :
  samples <> [] -> zlen samples < 2 ^ 53 -> Forall (fun d => is_nan d = false) samples ->
  let n := zlen samples in let l := std_sort d_lt samples in
  exists s, ComputePercentiles samples = Returns s /\ count s = n /\
    l !! Z.to_nat (n * 50 / 100) = Some (p50_ms s) /\
    l !! Z.to_nat (n * 99 / 100) = Some (p99_ms s) /\
    l !! Z.to_nat (n * 999 / 1000) = Some (p999_ms s) /\
    l !! Z.to_nat (n - 1) = Some (max_ms s).
Proof.
  intros Hne Hlen Hn n l. destruct (sorted_samples _ Hn) as (Hperm & _).
  assert (zlen l = n) as Hl by (unfold l, n; by rewrite Hperm).
  assert (0 < n) by (unfold n; destruct samples; [done|simpl; lia]).
  rewrite <- Hl. replace (ComputePercentiles samples) with (percentiles_of l) by by destruct samples.
  apply percentiles_of_ok. lia.
Qed.

(** The report's percentiles are elements of the samples with the ranks of their names,
    in order, below the maximum, whatever sorting function is used; no index is
    out of bounds. *)
Theorem bench_percentiles samples :
  samples <> [] -> zlen samples < 2 ^ 53 -> Forall (fun d => is_nan d = false) samples ->
  exists s, ComputePercentiles samples = Returns s /\ count s = zlen samples /\
    of_rank samples (zlen samples * 50 / 100) (p50_ms s) /\
    of_rank samples (zlen samples * 99 / 100) (p99_ms s) /\
    of_rank samples (zlen samples * 999 / 1000) (p999_ms s) /\
    of_rank samples (zlen samples - 1) (max_ms s) /\
    d_le (p50_ms s) (p99_ms s) = true /\ d_le (p99_ms s) (p999_ms s) = true /\
    d_le (p999_ms s) (max_ms s) = true.
Proof.
  intros Hne Hlen Hn.
  destruct (ComputePercentiles_sorted samples Hne Hlen Hn) as (s & E & Hc & L50 & L99 & L999 & Lm).
  assert (0 < zlen samples) by (destruct samples; [done|simpl; lia]).
  set (n := zlen samples) in *.
  assert (0 <= n * 50 / 100) by (apply Z.div_pos; lia).
  assert (n * 50 / 100 <= n * 99 / 100) by (apply Z.div_le_mono; lia).
  assert (n * 99 / 100 <= n * 999 / 1000) by
    (rewrite <- (Z.div_mul_cancel_r (n * 99) 100 10) by lia; apply Z.div_le_mono; lia).
  assert (n * 999 / 1000 < n) by (apply Z.div_lt_upper_bound; lia).
  exists s. split; [done|]. split; [done|].
  repeat (split; [first [apply sorted_of_rank; [done|lia|done]|eapply (sorted_le samples);
    [done| |first [exact L50|exact L99]|first [exact L99|exact L999]]; lia]|]).
  eapply (sorted_le samples); [done| |exact L999|exact Lm]. lia.
Qed.

Lemma ComputePercentiles_returns samples :
  zlen samples < 2 ^ 53 -> Forall (fun d => is_nan d = false) samples ->
  exists s, ComputePercentiles samples = Returns s /\ count s = zlen samples.
Proof.
  intros Hl Hn. destruct (decide (samples = [])) as [->|Hne]; [by eexists|].
  destruct (ComputePercentiles_sorted samples Hne Hl Hn) as (s & E & Hc & _). by exists s.
Qed.

(** The statistics of samples: all zero without any, else those of the theorem above,
    and the average of the sorted samples. *)
Definition statistics_of (samples : list double) (s : LatencyStats) : Prop :=
  count s = zlen samples /\ (samples = [] -> s = LatencyStats_zero) /\
  (samples <> [] ->
   of_rank samples (zlen samples * 50 / 100) (p50_ms s) /\
   of_rank samples (zlen samples * 99 / 100) (p99_ms s) /\
   of_rank samples (zlen samples * 999 / 1000) (p999_ms s) /\
   of_rank samples (zlen samples - 1) (max_ms s) /\
   avg_ms s = d_div (fold_left d_add (std_sort d_lt samples) d_zero) (d_of_Z (zlen samples))).

Lemma percentiles_of_avg l s :
  percentiles_of l = Returns s -> avg_ms s = d_div (fold_left d_add l d_zero) (d_of_Z (zlen l)).
Proof.
  unfold percentiles_of. intros E.
  repeat match type of E with context [mbind _ ?o] => destruct o; try done; cbn in E end.
  by injection E as <-.
Qed.

Lemma ComputePercentiles_statistics samples :
  zlen samples < 2 ^ 53 -> Forall (fun d => is_nan d = false) samples ->
  exists s, ComputePercentiles samples = Returns s /\ statistics_of samples s.
Proof.
  intros Hl Hn. destruct (decide (samples = [])) as [->|Hne]; [by exists LatencyStats_zero|].
  destruct (bench_percentiles samples Hne Hl Hn) as (s & E & Hc & R50 & R99 & R999 & Rm & _).
  exists s. split; [done|]. split; [done|]. split; [done|]. intros _. do 4 (split; [done|]).
  destruct (sorted_samples _ Hn) as (Hperm & _). rewrite <- Hperm at 2. apply percentiles_of_avg.
  by destruct samples.
Qed.

End Ranks.

(** ** One call against a server that answers *)

Section Calls.
Context `{Host} `{Proto RpcHeader} `{Proto LoginRequest} `{Proto LoginResponse}.

Definition bench_header (args : bytes) : RpcHeader :=
  mk_RpcHeader (lit "UserServiceRpc") (lit "Login") (u32 (zlen args)).

Lemma bench_wire hs args :
  4 + zlen hs + zlen args < 2 ^ 32 ->
  store 4 (htonl (u32 (4 + u32 (zlen hs) + zlen args))) ++ store 4 (htonl (u32 (zlen hs))) ++
    slice hs 0 (u32 (zlen hs)) ++ args = legacy_request hs args.
Proof.
  intros Hl. unfold htonl. rewrite !store_hton. rewrite (u32_small (zlen hs)), u32_small by lia.
  rewrite slice_all by lia. done.
Qed.

Lemma rpc_call_ok clock k c args hs r0 ms0 rb resp more e rs :
  SerializeToString (bench_header args) = Some hs -> 4 + zlen hs + zlen args < 2 ^ 32 ->
  mini_send_results c = zlen (legacy_request hs args) :: rs ->
  zlen rb <= 16 * 1024 * 1024 -> ParseFromString rb = Some resp ->
  arrived (mini_in c) = (legacy_response rb ++ more, e) ->
  exists rest, RpcCall clock k c (lit "UserServiceRpc") (lit "Login") args r0 ms0 =
      Returns (mk_Called (errcode (login_result resp) =? 0) (errmsg (login_result resp))
        (chrono_ms (clock (S k) - clock k))
        (mk_MiniConn rest rs (mini_sent c ++ legacy_request hs args)) (S (S k))) /\
    arrived rest = (more, e).
Proof.
  intros Hhs Hlen Hsend Hrb Hp Ha. unfold RpcCall, bench_header in *. rewrite Hhs.
  rewrite (bench_wire hs args Hlen). erewrite conn_send_ok; [|exact Hsend|done].
  cbn [mbind outcome_bind]. rewrite Z.eqb_refl, recv_exact_conn. cbn [negb].
  set (c1 := mk_MiniConn (mini_in c) rs (mini_sent c ++ legacy_request hs args)).
  assert (zlen (legacy_response rb ++ more) = 4 + zlen rb + zlen more) as Hal
    by (unfold legacy_response; xlen).
  destruct (conn_recv_length c1 (legacy_response rb ++ more) e ltac:(lia) Ha) as (r1 & buf & -> & Hn & Ha1).
  cbn [mbind outcome_bind Z.eqb Pos.eqb negb].
  assert (slice (legacy_response rb ++ more) 0 4 = be_bytes 4 (zlen rb)) as Hs
    by (unfold legacy_response; rewrite <- app_assoc; by slices).
  assert (drop 4 (legacy_response rb ++ more) = rb ++ more) as Hd
    by (unfold legacy_response; rewrite <- app_assoc; apply drop_app_length'; by rewrite length_be_bytes).
  rewrite Hs, be_load_be_bytes_id in Hn by (cbn; lia). rewrite Hn. rewrite Hd in Ha1.
  decide_cmp.
  assert (exists rest, (if zlen rb >? 0 then recv_exact {| c1 with mini_in := r1 |} (zlen rb)
      else mret (zlen rb, [], {| c1 with mini_in := r1 |})) =
    Returns (zlen rb, rb, {| c1 with mini_in := rest |}) /\ arrived rest = (more, e)) as (rest & -> & Hrest).
  { rewrite recv_exact_conn. destruct (zlen rb >? 0) eqn:E; zbool.
    - destruct (conn_recv_ok {| c1 with mini_in := r1 |} (zlen rb) (rb ++ more) e) as (rest & Er & Hr);
        [rewrite length_app; lia|done|]. rewrite Nat2Z.id, take_app_length, drop_app_length in *.
      by exists rest.
    - destruct rb; [|simpl in E; lia]. by exists r1. }
  cbn [mbind outcome_bind]. rewrite Z.eqb_refl. cbn [negb]. rewrite Hp. exists rest. done.
Qed.

(** A response whose length is refused is left in the stream: the next call takes its
    first four bytes for a length. *)
Lemma rpc_call_out_of_step clock k c args hs r0 ms0 n payload e rs :
  SerializeToString (bench_header args) = Some hs -> 4 + zlen hs + zlen args < 2 ^ 32 ->
  mini_send_results c = zlen (legacy_request hs args) :: rs ->
  16 * 1024 * 1024 < n < 2 ^ 32 -> arrived (mini_in c) = (be_bytes 4 n ++ payload, e) ->
  exists rest sent, RpcCall clock k c (lit "UserServiceRpc") (lit "Login") args r0 ms0 =
      Returns (mk_Called false r0 ms0 (mk_MiniConn rest rs sent) (S k)) /\
    arrived rest = (payload, e).
Proof.
  intros Hhs Hlen Hsend Hn Ha. unfold RpcCall, bench_header in *. rewrite Hhs.
  rewrite (bench_wire hs args Hlen). erewrite conn_send_ok; [|exact Hsend|done].
  cbn [mbind outcome_bind]. rewrite Z.eqb_refl, recv_exact_conn. cbn [negb].
  set (c1 := mk_MiniConn (mini_in c) rs (mini_sent c ++ legacy_request hs args)).
  destruct (conn_recv_length c1 (be_bytes 4 n ++ payload) e ltac:(xlen) Ha) as (r1 & buf & -> & Hl & Ha1).
  cbn [mbind outcome_bind Z.eqb Pos.eqb negb].
  assert (slice (be_bytes 4 n ++ payload) 0 4 = be_bytes 4 n) as Hs by by slices.
  rewrite Hs, be_load_be_bytes_id in Hl by (cbn; lia). rewrite Hl. decide_cmp.
  eexists _, _. split; [reflexivity|]. rewrite Ha1.
  reflexivity.
Qed.

(** ** Accounting *)

(** The calls an operation stands for, and its latency sample. *)
Definition calls_of (a : bench_act) : Z :=
  match a with AddSuccess => 1 | AddFail n => n | AddLatency _ => 0 end.
Definition samples_of (a : bench_act) : list double :=
  match a with AddLatency ms => [ms] | _ => [] end.
Definition successes_of (a : bench_act) : Z := match a with AddSuccess => 1 | _ => 0 end.
Definition failures_of (a : bench_act) : Z := match a with AddFail n => n | _ => 0 end.

(** The operations a thread of [n] calls may do: [n] calls accounted for, the samples
    numbers, at most one for every ten calls from the first on. *)
Definition accounts (n : Z) (l : list bench_act) : Prop :=
  sum_by calls_of l = n /\ Forall (fun d => is_nan d = false) (l ≫= samples_of) /\
  zlen (l ≫= samples_of) <= (n + 9) / 10 /\ zlen (l ≫= samples_of) <= sum_by successes_of l /\
  Forall (fun a => 0 <= successes_of a /\ 0 <= failures_of a) l.

Lemma rpc_call_number clock k c service method args r0 ms0 r :
  is_nan ms0 = false -> RpcCall clock k c service method args r0 ms0 = Returns r ->
  is_nan (latency_ms r) = false.
Proof.
  intros Hms. unfold RpcCall. destruct (SerializeToString _); [|by intros [= <-]].
  destruct (conn_send _ _) as [[n c1]| | | |]; try done. cbn [mbind outcome_bind].
  case_if; [by intros [= <-]|].
  destruct (recv_exact c1 4) as [[[n1 b1] c2]| | | |]; try done. cbn [mbind outcome_bind].
  case_if; [by intros [= <-]|]. case_if; [by intros [= <-]|].
  destruct (if _ : bool then _ else _) as [[[n2 b2] c3]| | | |]; try done. cbn [mbind outcome_bind].
  case_if; [by intros [= <-]|]. destruct (ParseFromString b2); intros [= <-]; [|done].
  apply chrono_ms_not_nan.
Qed.

(** Samples among the calls [i .. i + n - 1]. *)
Lemma tenths_step i n : 0 <= i -> 0 <= n ->
  (i + n + 1 + 9) / 10 - (i + 9) / 10 =
  (if Z.rem i 10 =? 0 then 1 else 0) + ((i + 1 + n + 9) / 10 - (i + 1 + 9) / 10).
Proof.
  intros Hi Hn. rewrite Z.rem_mod_nonneg by lia. replace (i + n + 1 + 9) with (i + 1 + n + 9) by lia.
  cut ((i + 1 + 9) / 10 = (i + 9) / 10 + if i mod 10 =? 0 then 1 else 0); [lia|].
  pose proof (Z_div_mod_eq_full i 10). pose proof (Z.mod_pos_bound i 10 ltac:(lia)).
  case_if; zbool.
  - rewrite <- (Z.div_unique (i + 1 + 9) 10 (i / 10 + 1) 0), <- (Z.div_unique (i + 9) 10 (i / 10) 9) by lia.
    lia.
  - rewrite <- (Z.div_unique (i + 1 + 9) 10 (i / 10 + 1) (i mod 10)) by lia.
    rewrite <- (Z.div_unique (i + 9) 10 (i / 10 + 1) (i mod 10 - 1)) by lia. lia.
Qed.

Lemma call_loop_accounts calls : forall i clock k c args l c',
  0 <= i -> call_loop calls i clock k c args = Returns (l, c') ->
  sum_by calls_of l = Z.of_nat calls /\ Forall (fun d => is_nan d = false) (l ≫= samples_of) /\
  zlen (l ≫= samples_of) <= (i + Z.of_nat calls + 9) / 10 - (i + 9) / 10 /\
  zlen (l ≫= samples_of) <= sum_by successes_of l /\
  Forall (fun a => 0 <= successes_of a /\ 0 <= failures_of a) l.
Proof.
  induction calls as [|calls IH]; intros i clock k c args l c' Hi; cbn [call_loop].
  { intros [= <- <-]. rewrite Z.add_0_r. repeat split; try constructor; simpl; lia. }
  destruct (RpcCall _ _ _ _ _ _ _ _) as [r| | | |] eqn:Er; try done. cbn [mbind outcome_bind].
  destruct (call_loop _ _ _ _ _ _) as [[rest c1]| | | |] eqn:El; try done.
  cbn [mbind outcome_bind]. intros [= <- <-].
  apply rpc_call_number in Er; [|done].
  destruct (IH (i + 1) _ _ _ _ _ _ ltac:(lia) El) as (A1 & A2 & A3 & A4 & A5).
  pose proof (tenths_step i (Z.of_nat calls) Hi ltac:(lia)) as Ht.
  rewrite Nat2Z.inj_succ. unfold Z.succ. rewrite Z.add_assoc, Ht. clear Ht.
  rewrite !sum_by_app, bind_app, Forall_app, length_app, Forall_app.
  assert (forall b : bool, 0 <= (if b then 1 else 0)) by (intros []; lia).
  set (ops := if call_ok r then _ else _).
  assert (sum_by calls_of ops = 1 /\ Forall (fun d => is_nan d = false) (ops ≫= samples_of) /\
    zlen (ops ≫= samples_of) <= (if Z.rem i 10 =? 0 then 1 else 0) /\
    zlen (ops ≫= samples_of) <= sum_by successes_of ops /\
    Forall (fun a => 0 <= successes_of a /\ 0 <= failures_of a) ops) as (B1 & B2 & B3 & B4 & B5).
  { unfold ops. destruct (call_ok r), (Z.rem i 10 =? 0); simpl; repeat split;
      repeat constructor; simpl; done || lia. }
  clearbody ops. rewrite Nat2Z.inj_add. repeat split; done || lia.
Qed.

Lemma worker_accounts e calls l c :
  0 <= calls -> Worker e calls = Returns (l, c) -> accounts calls l.
Proof.
  intros Hc. unfold Worker, accounts.
  assert (0 <= (calls + 9) / 10) by (apply Z.div_pos; lia).
  assert (forall l', Returns ([AddFail calls], w_conn e) = Returns (l', c) ->
    sum_by calls_of l' = calls /\ Forall (fun d => is_nan d = false) (l' ≫= samples_of) /\
    zlen (l' ≫= samples_of) <= (calls + 9) / 10 /\ zlen (l' ≫= samples_of) <= sum_by successes_of l' /\
    Forall (fun a => 0 <= successes_of a /\ 0 <= failures_of a) l') as Hfail.
  { intros l' [= <- _]. repeat split; try constructor; simpl; try lia. constructor. }
  case_if; [apply Hfail|]. case_if; [apply Hfail|]. destruct (SerializeToString _); [|apply Hfail].
  intros Hl. apply call_loop_accounts in Hl as (A1 & A2 & A3 & A4 & A5); [|lia].
  rewrite Z2Nat.id in * by lia. change ((0 + 9) / 10) with 0 in A3. rewrite Z.add_0_l in A3.
  repeat split; try done. lia.
Qed.

(** ** The whole benchmark *)

(** What the operations of all the threads add to each of the shared values. *)
Definition all_successes (ops : list (list bench_act)) : Z := sum_by (sum_by successes_of) ops.
Definition all_failures (ops : list (list bench_act)) : Z := sum_by (sum_by failures_of) ops.
Definition all_samples (ops : list (list bench_act)) : list double := concat ops ≫= samples_of.

Lemma accounts_totals (threads n : Z) (ops : list (list bench_act)) :
  length ops = Z.to_nat threads -> Forall (accounts n) ops ->
  all_successes ops + all_failures ops = Z.max 0 threads * n /\
  0 <= all_successes ops /\ 0 <= all_failures ops /\
  zlen (all_samples ops) <= all_successes ops /\
  zlen (all_samples ops) <= Z.max 0 threads * ((n + 9) / 10) /\
  Forall (fun d => is_nan d = false) (all_samples ops).
Proof.
  intros Hl Ha. unfold all_successes, all_failures, all_samples.
  replace (Z.max 0 threads) with (zlen ops) by lia.
  pose proof (Forall_impl _ _ _ Ha (fun l H => proj1 H)) as Hcalls. apply sum_by_const in Hcalls.
  assert (sum_by (sum_by calls_of) ops =
    sum_by (sum_by successes_of) ops + sum_by (sum_by failures_of) ops) as Hsum.
  { rewrite <- !sum_by_concat. apply sum_by_plus. intros []; simpl; lia. }
  split; [lia|]. split.
  { apply sum_by_nonneg, (Forall_impl _ _ _ Ha). intros l (_ & _ & _ & _ & Hl').
    apply sum_by_nonneg, (Forall_impl _ _ _ Hl'). by intros a []. }
  split.
  { apply sum_by_nonneg, (Forall_impl _ _ _ Ha). intros l (_ & _ & _ & _ & Hl').
    apply sum_by_nonneg, (Forall_impl _ _ _ Hl'). by intros a []. }
  rewrite length_bind_concat.
  rewrite <- (sum_by_const (fun _ : list bench_act => (n + 9) / 10) _ ops) by (by apply Forall_true).
  split; [|split].
  - apply sum_by_le, (Forall_impl _ _ _ Ha). by intros l (_ & _ & _ & ? & _).
  - apply sum_by_le, (Forall_impl _ _ _ Ha). by intros l (_ & _ & ? & _ & _).
  - apply Forall_bind, Forall_concat, (Forall_impl _ _ _ Ha). intros l (_ & Hn & _). by apply Forall_bind.
Qed.

Lemma runs_shared threads n ops sh :
  0 <= n < 2 ^ 31 -> threads < 2 ^ 31 -> length ops = Z.to_nat threads -> Forall (accounts n) ops ->
  runs_to bench_do ops Shared_zero sh ->
  success sh = all_successes ops /\ fail sh = all_failures ops /\ latencies sh ≡ₚ all_samples ops.
Proof.
  intros Hn Ht Hl Ha Hr. destruct (accounts_totals threads n ops Hl Ha) as (Hsum & Hs0 & Hf0 & _).
  unfold all_successes, all_failures in *. assert (Z.max 0 threads * n < 2 ^ 63) by nia.
  rewrite (runs_to_sum_i64 bench_do success successes_of ops Shared_zero sh),
    (runs_to_sum_i64 bench_do fail failures_of ops Shared_zero sh), !Z.add_0_l, !i64_small;
    unfold i64_ok; try done; cbn; try lia;
    try (intros [] ? ?; cbn; rewrite ?Z.add_0_r; first [done|by rewrite i64_small]).
  do 2 (split; [done|]).
  exact (runs_to_appended bench_do latencies samples_of ops Shared_zero sh
    ltac:(intros [] ?; cbn; by rewrite ?app_nil_r) Hr).
Qed.

(** The operations of the threads. *)
Definition threads_do (threads calls_per : Z) (envs : nat -> WorkerEnv)
    (ops : list (list bench_act)) : Prop :=
  length ops = Z.to_nat threads /\
  forall i l, ops !! i = Some l -> exists c, Worker (envs i) calls_per = Returns (l, c).

Lemma threads_account threads n envs ops :
  0 <= n -> threads_do threads n envs ops -> Forall (accounts n) ops.
Proof.
  intros Hn [_ Hw]. apply Forall_lookup. intros i l Hi. destruct (Hw i l Hi) as (c & Ec).
  by apply worker_accounts in Ec.
Qed.

(** C21. The report accounts for every call. Let the number of calls of a thread be
    from 0 to 2^31 - 1 (a negative number of threads is as none), and that of samples
    that may be taken less than 2^53. In every run of
    [main] with an address and a port that returns, whatever the interleaving of the
    threads: with S and F the successes and failures that the threads counted, the
    report prints S + F as the total, S as the successes, F as the failures, and
    from them the success rate and the calls per second; S + F is threads times
    calls. The samples are what the threads timed, at most one for each success and,
    for each thread, one for every ten calls or part of ten; the average and the
    percentiles printed are those of these samples, each a sample with the rank of
    its name among them (zero if there are none), with their number. And when every
    thread returns, there is such a run. *)
Theorem real_main_accounts `{StdSortLaws} argv envs t0 t1 ip :
  let threads := int_arg argv 3 20 in
  let calls_per := int_arg argv 4 500 in
  3 <= zlen argv -> argv !! 1%nat = Some ip -> 0 <= calls_per < 2 ^ 31 -> threads < 2 ^ 31 ->
  Z.max 0 threads * ((calls_per + 9) / 10) < 2 ^ 53 ->
  (forall status out, real_main argv envs t0 t1 status out ->
   exists ops samples stats before rest,
     let succ := all_successes ops in
     let fail := all_failures ops in
     let elapsed := d_div (chrono_ms (t1 - t0)) (d_of_Z 1000) in
     let rate :=
       if 0 <? succ + fail then d_div (d_mul (d_of_Z 100) (d_of_Z succ)) (d_of_Z (succ + fail))
       else d_zero in
     status = 0 /\ threads_do threads calls_per envs ops /\
     succ + fail = Z.max 0 threads * calls_per /\ 0 <= succ /\ 0 <= fail /\
     samples ≡ₚ all_samples ops /\ zlen samples <= succ /\
     zlen samples <= Z.max 0 threads * ((calls_per + 9) / 10) /\
     statistics_of samples stats /\
     out = before ++
       [txt "║   Total:     "; Setw 10; Int (succ + fail); endline;
        txt "║   Success:   "; Setw 10; Int succ; endline;
        txt "║   Fail:      "; Setw 10; Int fail; endline;
        txt "║   Elapsed:   "; Setw 7; Fixed; SetPrecision 3; Dbl elapsed; txt " s"; endline;
        txt "║   Success Rate: "; Setw 5; SetPrecision 2; Dbl rate; txt " %"; endline;
        txt "╠══════════════════════════════════════════════════════╣"; endline;
        txt "║ [Throughput]"; endline;
        txt "║   Overall QPS:  "; Setw 10; SetPrecision 1; Dbl (d_div (d_of_Z (succ + fail)) elapsed);
        txt " req/s"; endline;
        txt "╠══════════════════════════════════════════════════════╣"; endline;
        txt "║ [Latency]  (samples: "; Int (zlen samples); txt ")"; endline;
        txt "║   Avg:  "; Setw 8; SetPrecision 3; Dbl (avg_ms stats); txt " ms"; endline;
        txt "║   P50:  "; Setw 8; SetPrecision 3; Dbl (p50_ms stats); txt " ms"; endline;
        txt "║   P99:  "; Setw 8; SetPrecision 3; Dbl (p99_ms stats); txt " ms"; endline;
        txt "║   P999: "; Setw 8; SetPrecision 3; Dbl (p999_ms stats); txt " ms"; endline;
        txt "║   Max:  "; Setw 8; SetPrecision 3; Dbl (max_ms stats); txt " ms"; endline] ++ rest) /\
  ((forall i, is_Some (match Worker (envs i) calls_per with Returns r => Some r | _ => None end)) ->
   exists out, real_main argv envs t0 t1 0 out).
Proof.
  intros threads calls_per Hargc Hip Hc Ht Hmax. split.
  - intros status out Hrun. inversion Hrun as [|ip' sh stats ? Hip' ? ? ? Hw Hs]; subst; [lia|].
    destruct Hw as (ops & Hl & Hops & Hr).
    pose proof (threads_account threads calls_per envs ops ltac:(lia) (conj Hl Hops)) as Ha.
    destruct (accounts_totals threads calls_per ops Hl Ha) as (Hsum & Hs0 & Hf0 & Hl1 & Hl2 & Hn).
    destruct (runs_shared threads calls_per ops sh Hc Ht Hl Ha Hr) as (Es & Ef & Hp).
    rewrite <- Hp in Hl1, Hl2, Hn.
    destruct (ComputePercentiles_statistics (latencies sh)) as (st & Est & Hst); [lia|done|].
    rewrite Est in Hs. injection Hs as ->.
    set (report := report_items ip' (int_arg argv 2 0) threads (elapsed_s t0 t1) sh stats).
    exists ops, (latencies sh), stats,
      (banner_items ip' (int_arg argv 2 0) threads calls_per (threads * calls_per) ++ take 8 report),
      (drop 79 report).
    cbv zeta. do 9 (split; [done|]). rewrite <- app_assoc. f_equal.
    unfold report, report_items. rewrite Es, Ef, Z.gtb_ltb, (proj1 Hst). reflexivity.
  - intros Hall.
    set (ops := (fun i => match Worker (envs i) calls_per with Returns (l, _) => l | _ => [] end) <$>
        seq 0 (Z.to_nat threads)).
    assert (threads_do threads calls_per envs ops) as [Hl Hops].
    { split; [by unfold ops; rewrite length_fmap, length_seq|]. intros i l Hi.
      apply list_lookup_fmap_Some in Hi as (j & -> & [-> _]%lookup_seq). destruct (Hall (0 + i)%nat) as [r Hr].
      simpl in *. destruct (Worker (envs i) calls_per) as [[l' c']| | | |]; try done. by exists c'. }
    pose proof (threads_account threads calls_per envs ops ltac:(lia) (conj Hl Hops)) as Ha.
    destruct (accounts_totals threads calls_per ops Hl Ha) as (_ & _ & _ & _ & Hl2 & Hn).
    set (sh := acts bench_do (concat ops) Shared_zero).
    assert (runs_to bench_do ops Shared_zero sh) as Hr by apply sequential_run.
    destruct (runs_shared threads calls_per ops sh Hc Ht Hl Ha Hr) as (_ & _ & Hp).
    rewrite <- Hp in Hl2, Hn.
    destruct (ComputePercentiles_returns (latencies sh)) as (st & Es & _); [lia|done|].
    eexists. apply (real_main_report argv envs t0 t1 ip sh st); try done. by exists ops.
Qed.

(** ** Against mini_server *)

Lemma call_loop_all_ok n : forall i clock k c args hs rb resp e,
  SerializeToString (bench_header args) = Some hs -> 4 + zlen hs + zlen args < 2 ^ 32 ->
  zlen rb <= 16 * 1024 * 1024 -> ParseFromString rb = Some resp -> errcode (login_result resp) = 0 ->
  mini_send_results c = replicate n (zlen (legacy_request hs args)) ->
  arrived (mini_in c) = (concat (replicate n (legacy_response rb)), e) ->
  exists l c', call_loop n i clock k c args = Returns (l, c') /\
    sum_by successes_of l = Z.of_nat n /\ sum_by failures_of l = 0 /\
    mini_sent c' = mini_sent c ++ concat (replicate n (legacy_request hs args)).
Proof.
  induction n as [|n IH]; intros i clock k c args hs rb resp e Hhs Hlen Hrb Hp He Hsend Ha.
  { exists [], c. cbn. by rewrite app_nil_r. }
  cbn [call_loop].
  destruct (rpc_call_ok clock k c args hs [] d_zero rb resp (concat (replicate n (legacy_response rb))) e
    (replicate n (zlen (legacy_request hs args))) Hhs Hlen Hsend Hrb Hp Ha) as (rest & -> & Hrest).
  cbn [mbind outcome_bind call_ticks call_conn call_ok latency_ms].
  destruct (IH (i + 1) clock (S (S k))
    (mk_MiniConn rest (replicate n (zlen (legacy_request hs args)))
      (mini_sent c ++ legacy_request hs args)) args hs rb resp e Hhs Hlen Hrb Hp He eq_refl Hrest)
    as (l & c' & -> & Hs & Hf & Hsent).
  cbn [mbind outcome_bind]. eexists _, c'. split; [reflexivity|]. rewrite He.
  rewrite !sum_by_app, Hs, Hf. cbn [Z.eqb]. cbn [mini_sent] in Hsent.
  split; [|split].
  - case_if; simpl; lia.
  - case_if; simpl; lia.
  - rewrite Hsent, <- (assoc_L (++)). done.
Qed.

(** C13. The benchmark against [mini_server]. A connection of the server that receives what a
    thread of [n] calls sends answers every request; and a thread that receives what
    the server sent on it makes [n] calls that all succeed and sends exactly what the
    server received, whatever the segments the two streams arrive in. *)
Theorem bench_against_mini_server n srv rb args hs g_running fuel :
  SerializeToString bench_request = Some args -> SerializeToString (bench_header args) = Some hs ->
  login_parts hs args -> SerializeToString ok_response = Some rb ->
  ParseFromString rb = Some ok_response -> zlen rb <= 16 * 1024 * 1024 ->
  arrived (mini_in srv) = (concat (replicate n (legacy_request hs args)), Closed) ->
  mini_send_results srv = concat (replicate n [4; zlen rb]) -> mini_sent srv = [] ->
  (forall i, g_running i = true) -> (n < fuel)%nat ->
  exists srv', handle_client fuel g_running 0 srv = Returns (Some srv') /\
    forall e env, w_socket env >= 0 -> connect_loop 20 (w_connect env) = true ->
      mini_send_results (w_conn env) = replicate n (zlen (legacy_request hs args)) ->
      mini_sent (w_conn env) = [] -> arrived (mini_in (w_conn env)) = (mini_sent srv', e) ->
      exists l c, Worker env (Z.of_nat n) = Returns (l, c) /\
        sum_by successes_of l = Z.of_nat n /\ sum_by failures_of l = 0 /\
        mini_sent c = concat (replicate n (legacy_request hs args)).
Proof.
  intros Hargs Hhs Hparts Hrb Hp Hl Ha Hsend Hsent Hrun Hfuel.
  destruct (handle_client_answers srv (replicate n (hs, args)) rb g_running 0 fuel) as (rest & Hh);
    rewrite ?length_replicate, ?fmap_replicate; try done; try lia.
  { by apply Forall_replicate. }
  rewrite length_replicate, Hsent in Hh. eexists. split; [exact Hh|].
  intros e env Hsock Hconn Hcs Hcsent Hca. unfold Worker. rewrite Hconn, Hargs, Nat2Z.id. decide_cmp.
  destruct (call_loop_all_ok n 0 (w_clock env) 0 (w_conn env) args hs rb ok_response e)
    as (l & c & E & Hs & Hf & Hcs'); try done.
  { destruct Hparts as (_ & _ & Hb). lia. }
  exists l, c. rewrite Hcsent in Hcs'. done.
Qed.

End Calls.

(** ** Witnesses *)

Section RealBenchWitnesses.

Import Demo UserDemo.
#[local] Existing Instances RpcHeader_demo LoginRequest_demo LoginResponse_demo insertion_sort.
#[local] Instance bench_little : Host := Little.

Lemma bench_percentiles_witness :
  exists s, ComputePercentiles [d_of_Z 3; d_of_Z 1; d_of_Z 2] = Returns s /\ count s = 3 /\
    of_rank [d_of_Z 3; d_of_Z 1; d_of_Z 2] 1 (p50_ms s) /\
    of_rank [d_of_Z 3; d_of_Z 1; d_of_Z 2] 2 (p99_ms s) /\
    of_rank [d_of_Z 3; d_of_Z 1; d_of_Z 2] 2 (p999_ms s) /\
    of_rank [d_of_Z 3; d_of_Z 1; d_of_Z 2] 2 (max_ms s) /\
    d_le (p50_ms s) (p99_ms s) = true /\ d_le (p99_ms s) (p999_ms s) = true /\
    d_le (p999_ms s) (max_ms s) = true.
Proof.
  apply (bench_percentiles [d_of_Z 3; d_of_Z 1; d_of_Z 2]);
    [discriminate|vm_compute; reflexivity|repeat constructor].
Defined.

Definition bench_args : bytes := default [] (SerializeToString bench_request).
Definition bench_hs : bytes := default [] (SerializeToString (bench_header bench_args)).
Definition bench_wire_bytes : bytes := legacy_request bench_hs bench_args.
Definition bench_rb : bytes := default [] (SerializeToString ok_response).

(** The server gets two requests cut in the first; it sends two responses. *)
Definition bench_srv : MiniConn := mk_MiniConn
  [RData (take 5 bench_wire_bytes); RData (drop 5 bench_wire_bytes ++ bench_wire_bytes); REof]
  (concat (replicate 2 [4; zlen bench_rb])) [].

(** The second attempt to connect succeeds; the responses arrive in three parts. *)
Definition bench_env : WorkerEnv := mk_WorkerEnv 3
  (fun i => match i with O => -1 | _ => 0 end)
  (mk_MiniConn [RData (take 3 (legacy_response bench_rb)); RData (drop 3 (legacy_response bench_rb));
                RData (legacy_response bench_rb)]
     (replicate 2 (zlen bench_wire_bytes)) [])
  (fun k => 1000000 * Z.of_nat k).

Lemma bench_login_parts : login_parts bench_hs bench_args.
Proof.
  split; [vm_compute; by eexists|]. split; [vm_compute; by eexists|]. vm_compute. discriminate.
Qed.

Lemma bench_against_mini_server_witness :
  exists srv', handle_client 3 (fun _ => true) 0 bench_srv = Returns (Some srv') /\
    exists l c, Worker bench_env 2 = Returns (l, c) /\
      sum_by successes_of l = 2 /\ sum_by failures_of l = 0 /\
      mini_sent c = concat (replicate 2 bench_wire_bytes).
Proof.
  destruct (bench_against_mini_server 2 bench_srv bench_rb bench_args bench_hs (fun _ => true) 3)
    as (srv' & E & Hw); [reflexivity|reflexivity|apply bench_login_parts|reflexivity|reflexivity|
    vm_compute; discriminate|vm_compute; reflexivity|reflexivity|reflexivity|done|lia|].
  exists srv'. split; [exact E|].
  apply (Hw Pending bench_env); [cbn; lia|reflexivity|reflexivity|reflexivity|].
  assert (handle_client 3 (fun _ => true) 0 bench_srv = Returns (Some (mk_MiniConn [] []
    (legacy_response bench_rb ++ legacy_response bench_rb)))) as E' by (vm_compute; reflexivity).
  rewrite E' in E. injection E as <-. vm_compute. reflexivity.
Defined.

(** Three threads of two calls: the first connects, the others get no socket. *)
Definition bench_envs (i : nat) : WorkerEnv :=
  match i with O => bench_env | _ => mk_WorkerEnv (-1) (fun _ => 0) (mk_MiniConn [] [] []) (fun _ => 0) end.
Definition bench_argv : list bytes :=
  [lit "real_benchmark"; lit "127.0.0.1"; lit "9000"; lit "3"; lit "2"].

Lemma real_main_accounts_witness :
  exists out, real_main bench_argv bench_envs 0 5000000 0 out /\
    exists ops samples stats before rest,
      all_successes ops + all_failures ops = 6 /\ statistics_of samples stats /\
      out = before ++ [txt "║   Total:     "; Setw 10; Int 6; endline;
                       txt "║   Success:   "; Setw 10; Int (all_successes ops); endline;
                       txt "║   Fail:      "; Setw 10; Int (all_failures ops); endline] ++ rest.
Proof.
  destruct (real_main_accounts bench_argv bench_envs 0 5000000 (lit "127.0.0.1")) as [Hall Hex];
    [cbn; lia|reflexivity|vm_compute; done|vm_compute; reflexivity|vm_compute; reflexivity|].
  destruct Hex as [out Hrun].
  { intros [|i]; [|eexists; reflexivity].
    assert (is_Some (match Worker bench_env 2 with Returns r => Some r | _ => None end)) as Hw
      by (vm_compute; by eexists). exact Hw. }
  exists out. split; [exact Hrun|].
  destruct (Hall _ _ Hrun) as (ops & samples & stats & before & rest & _ & _ & Hsum & _ & _ & _ & _ & _ &
    Hst & Hout).
  eexists ops, samples, stats, before, _. split; [exact Hsum|]. split; [exact Hst|].
  rewrite Hout, Hsum. reflexivity.
Defined.

End RealBenchWitnesses.
