(* ===== verification/RcuBench.v ===== *)
(** * RcuBench: three ways to share a route table

    [tools/rcu_benchmark.cc]: a table behind an atomic pointer (RCU), a [shared_mutex]
    or a [mutex], as one transition system over the threads' steps; the threads of
    [RunLatencyBench] on it and the samples they take; the percentiles of the read
    latencies; the report. A [shared_ptr] to a table that nobody changes is the table's
    value. *)

From S2P Require Import Prelude CppString Threads Doubles StdSort OStream.

(** ** The table *)

Abbreviation RouteTable := (gmap bytes (list bytes)).

(** ["/Service" + std::to_string(i) + "/Method"], ["10.0.0." + std::to_string(j) + ":8000"]. *)
Definition service_path (i : nat) : bytes :=
  lit "/Service" ++ to_string (Z.of_nat i) ++ lit "/Method".
Definition node (j : nat) : bytes := lit "10.0.0." ++ to_string (Z.of_nat j) ++ lit ":8000".
Definition ten_nodes : list bytes := node <$> seq 0 10.

Definition MakeTestTable : RouteTable :=
  fold_left (fun (t : RouteTable) i => <[service_path i := ten_nodes]> t) (seq 0 100) ∅.
Definition InitPaths (g_query_paths : list bytes) : list bytes :=
  g_query_paths ++ (service_path <$> seq 0 100).

(** [{"10.0.0.1:8000", "10.0.0.2:8000"}]. *)
Definition two_nodes : list bytes := [lit "10.0.0.1:8000"; lit "10.0.0.2:8000"].

(** The look-up, and the copy with one entry replaced, that all three share. *)
Definition find_nodes (t : RouteTable) (path : bytes) : list bytes :=
  match t !! path with Some nodes => nodes | None => [] end.
Definition with_path (path : bytes) (t : RouteTable) : RouteTable := <[path := two_nodes]> t.

(** ** The three benches, step by step *)

Inductive scheme := RCUBench | RwLockBench | MutexBench.

(** Where a thread is in [Read] or [Write]. Read: not started; with the lock; with the
    pointer loaded and the lock still held; with the pointer loaded and no lock held;
    with the result and the lock still held; returned. Write: not started; with the
    lock; with the changed copy; stored, with the lock; returned. *)
Inductive rpc :=
| RStart (path : bytes) | RLocked (path : bytes) | RLoaded (path : bytes) (local : RouteTable)
| RHave (path : bytes) (local : RouteTable) | RFound (path : bytes) (nodes : list bytes)
| RDone (path : bytes) (nodes : list bytes)
| WStart (path : bytes) | WLocked (path : bytes) | WCopied (path : bytes) (n : RouteTable)
| WStored (path : bytes) | WDone (path : bytes).

(** The shared state: the pointer, the lock ([mutex]es have a writer only), and, for the
    statements, the paths written so far. *)
Record Shared := mk_Shared {
  table : RouteTable;
  readers : nat;
  writer : bool;
  written : list bytes
}.
Definition Shared_new : Shared := mk_Shared MakeTestTable 0 false [].

Inductive rcu_step (k : scheme) : Shared -> rpc -> Shared -> rpc -> Prop :=
(* RCUBench::Read: [std::atomic_load(&table)] *)
| rcu_load s path :
    k = RCUBench -> rcu_step k s (RStart path) s (RHave path (table s))
(* RwLockBench::Read: [shared_lock], the copy of the pointer, [lk.unlock()] *)
| lock_shared s path :
    k = RwLockBench -> writer s = false ->
    rcu_step k s (RStart path) {| s with readers := S (readers s) |} (RLocked path)
| unlock_shared s path local :
    k = RwLockBench ->
    rcu_step k s (RLoaded path local) {| s with readers := pred (readers s) |} (RHave path local)
(* MutexBench::Read: [lock_guard], the copy, the look-up, the end of the scope *)
| lock_read s path :
    k = MutexBench -> writer s = false ->
    rcu_step k s (RStart path) {| s with writer := true |} (RLocked path)
| find_locked s path local :
    k = MutexBench ->
    rcu_step k s (RLoaded path local) s (RFound path (find_nodes local path))
| unlock_read s path nodes :
    k = MutexBench ->
    rcu_step k s (RFound path nodes) {| s with writer := false |} (RDone path nodes)
(* the read of [table] under a lock, and the look-up without one *)
| load_locked s path :
    rcu_step k s (RLocked path) s (RLoaded path (table s))
| find_unlocked s path local :
    rcu_step k s (RHave path local) s (RDone path (find_nodes local path))
(* Write: the exclusive lock, the changed copy, the store, the end of the scope *)
| lock_write s path :
    writer s = false -> readers s = 0%nat ->
    rcu_step k s (WStart path) {| s with writer := true |} (WLocked path)
| copy s path :
    rcu_step k s (WLocked path) s (WCopied path (with_path path (table s)))
| store_table s path n :
    rcu_step k s (WCopied path n) {| s with table := n; written := written s ++ [path] |} (WStored path)
| unlock_write s path :
    rcu_step k s (WStored path) {| s with writer := false |} (WDone path).

Inductive rcu_threads (k : scheme) : Shared * list rpc -> Shared * list rpc -> Prop :=
| a_thread_steps s ts i pc s' pc' :
    ts !! i = Some pc -> rcu_step k s pc s' pc' -> rcu_threads k (s, ts) (s', <[i := pc']> ts).

Definition not_started (pc : rpc) : Prop :=
  match pc with RStart _ | WStart _ => True | _ => False end.
Definition returned (pc : rpc) : Prop :=
  match pc with RDone _ _ | WDone _ => True | _ => False end.
Definition write_of (pc : rpc) : list bytes :=
  match pc with
  | WStart p | WLocked p | WCopied p _ | WStored p | WDone p => [p] | _ => [] end.

(** ** The operations one after the other *)

Definition Read (path : bytes) (s : Shared) : list bytes := find_nodes (table s) path.
Definition Write (path : bytes) (s : Shared) : Shared :=
  {| s with table := with_path path (table s); written := written s ++ [path] |}.

(** ** Percentiles *)

Record LatencyStats := mk_LatencyStats {
  p50_ns : double;
  p99_ns : double;
  p999_ns : double;
  avg_ns : double;
  max_ns : double;
  count : Z
}.
Definition LatencyStats_zero : LatencyStats :=
  mk_LatencyStats d_zero d_zero d_zero d_zero d_zero 0.

Definition percentiles_of (samples : list Z) : outcome LatencyStats :=
  let count := zlen samples in
  sum ← for_each (fun sum v => in_llong (sum + v)) 0 samples;
  let avg_ns := d_div (d_of_Z sum) (d_of_Z count) in
  max ← at_index samples (count - 1);
  i50 ← quantile_index count 50 100;
  p50 ← at_index samples i50;
  i99 ← quantile_index count 99 100;
  p99 ← at_index samples i99;
  i999 ← quantile_index count 999 1000;
  p999 ← at_index samples i999;
  mret (mk_LatencyStats (d_of_Z p50) (d_of_Z p99) (d_of_Z p999) avg_ns (d_of_Z max) count).

Definition ComputePercentiles `{StdSort} (samples : list Z) : outcome LatencyStats :=
  match samples with
  | [] => mret LatencyStats_zero
  | _ => percentiles_of (std_sort Z.ltb samples)
  end.

(** ** RunLatencyBench *)

(** One reader: number [t], for [n] rounds of its loop, with the clock's readings before
    and after each read; the paths it reads and the samples it appends. [pi] and
    [sample_counter] are [int]s. *)
Fixpoint reader_loop (n : nat) (pi sample_counter : Z) (g_query_paths : list bytes)
    (clock : nat -> Z * Z) (k : nat) : outcome (list bytes * list Z) :=
  match n with
  | O => mret ([], [])
  | S n =>
      path ← at_index g_query_paths (Z.rem pi 100);
      let '(t0, t1) := clock k in
      pi ← in_int (pi + 1);
      sample_counter ← in_int (sample_counter + 1);
      '(paths, latency_ns) ← reader_loop n pi sample_counter g_query_paths clock (S k);
      mret (path :: paths,
        if Z.rem sample_counter 1000 =? 0 then (t1 - t0) :: latency_ns else latency_ns)
  end.
Definition reader (t : Z) (n : nat) (g_query_paths : list bytes) (clock : nat -> Z * Z) :
    outcome (list bytes * list Z) :=
  reader_loop n (t * 13) 0 g_query_paths clock 0.

(** How long the writer sleeps after a write that took [elapsed] microseconds. *)
Definition sleep_us (writes_per_sec elapsed : Z) : outcome Z :=
  if writes_per_sec =? 0 then Undefined
  else mret (Z.max 0 (i32 (Z.quot 1000000 writes_per_sec - elapsed))).

(** The writer: the paths it writes in [n] rounds, and its sleeps. The clock's readings
    before and after each write are in nanoseconds. *)
Fixpoint writer_loop (n : nat) (idx writes_per_sec : Z) (g_query_paths : list bytes)
    (clock : nat -> Z * Z) (k : nat) : outcome (list (bytes * Z)) :=
  match n with
  | O => mret []
  | S n =>
      let '(t0, t1) := clock k in
      path ← at_index g_query_paths (Z.rem idx 100);
      idx ← in_int (idx + 1);
      let elapsed := Z.quot (t1 - t0) 1000 in
      us ← sleep_us writes_per_sec elapsed;
      rest ← writer_loop n idx writes_per_sec g_query_paths clock (S k);
      mret ((path, us) :: rest)
  end.

(** [latency_ns.push_back(ns)], under [samples_mutex]. *)
Definition push_sample (ns : Z) (latency_ns : list Z) : list Z := latency_ns ++ [ns].

(** The whole: [rounds t] rounds of reader [t] and [writes] of the writer before they see
    [running] cleared; the samples in the order the readers append them; and the bench
    after the reads and writes, which may interleave in any way (those of one thread
    are in order, which the theorems do not need). *)
Inductive RunLatencyBench (k : scheme) (readers writes_per_sec : Z) (g_query_paths : list bytes)
    (rounds : nat -> nat) (writes : nat) : list Z -> Shared -> list rpc -> Prop :=
| a_latency_bench clocks wclock (runs : list (list bytes * list Z)) written latency_ns s ts :
    length runs = Z.to_nat readers ->
    (forall t r, runs !! t = Some r ->
       reader (Z.of_nat t) (rounds t) g_query_paths (clocks t) = Returns r) ->
    writer_loop writes 0 writes_per_sec g_query_paths wclock 0 = Returns written ->
    runs_to push_sample runs.*2 [] latency_ns ->
    rtc (rcu_threads k)
      (Shared_new, (WStart <$> written.*1) ++ (RStart <$> concat runs.*1)) (s, ts) ->
    Forall returned ts ->
    RunLatencyBench k readers writes_per_sec g_query_paths rounds writes latency_ns s ts.

Lemma MakeTestTable_lookup i : (i < 100)%nat -> MakeTestTable !! service_path i = Some ten_nodes.
Proof.
  intros Hi. assert (i ∈ seq 0 100) as Hin by (apply elem_of_seq; lia). clear Hi.
  unfold MakeTestTable. revert Hin. generalize (∅ : RouteTable). generalize (seq 0 100).
  intros l. induction l as [|j l IH] using rev_ind; intros t Hin; [by apply not_elem_of_nil in Hin|].
  rewrite fold_left_app. cbn [fold_left].
  destruct (decide (service_path i = service_path j)) as [->|Hne]; [by rewrite lookup_insert_eq|].
  rewrite lookup_insert_ne by done. apply IH. apply elem_of_app in Hin as [|Hin]; [done|].
  apply list_elem_of_singleton in Hin. by subst.
Qed.

#[local] Opaque MakeTestTable.

(** ** The lock and the table *)

(** The threads that hold the shared lock, and the exclusive one. *)
Definition holds_shared (k : scheme) (pc : rpc) : Z :=
  match pc, k with RLocked _, RwLockBench | RLoaded _ _, RwLockBench => 1 | _, _ => 0 end.
Definition holds_exclusive (k : scheme) (pc : rpc) : Z :=
  match pc, k with
  | RLocked _, RwLockBench | RLoaded _ _, RwLockBench => 0
  | RLocked _, _ | RLoaded _ _, _ | RFound _ _, _ | WLocked _, _ | WCopied _ _, _ | WStored _, _ => 1
  | _, _ => 0
  end.

(** The table after some writes. *)
Definition table_after (l : list bytes) : RouteTable := fold_left (fun t p => with_path p t) l MakeTestTable.

Arguments table_after : simpl never.
Arguments with_path : simpl never.

Definition stored_path (pc : rpc) : list bytes :=
  match pc with WStored p | WDone p => [p] | _ => [] end.

(** What a thread holds of the table is what it was at some moment; a copy about to be
    stored is of the table as it is. *)
Definition pc_ok (s : Shared) (pc : rpc) : Prop :=
  match pc with
  | RLoaded _ local | RHave _ local => exists l, l `prefix_of` written s /\ local = table_after l
  | RFound p nodes | RDone p nodes =>
      exists l, l `prefix_of` written s /\ nodes = find_nodes (table_after l) p
  | WCopied p n => n = with_path p (table s)
  | _ => True
  end.

Record rcu_inv (k : scheme) (s : Shared) (ts : list rpc) : Prop := {
  inv_readers : Z.of_nat (readers s) = sum_by (holds_shared k) ts;
  inv_writer : (if writer s then 1 else 0) = sum_by (holds_exclusive k) ts;
  inv_lock : writer s = true -> readers s = 0%nat;
  inv_table : table s = table_after (written s);
  inv_written : written s ≡ₚ (ts ≫= stored_path);
  inv_pcs : Forall (pc_ok s) ts
}.

Lemma pc_ok_same s s' pc :
  table s' = table s -> written s' = written s -> pc_ok s pc -> pc_ok s' pc.
Proof. destruct pc; cbn; intros Ht Hw; rewrite ?Ht, ?Hw; done. Qed.

Lemma bind_insert {A B} (f : A -> list B) l i a a' :
  l !! i = Some a -> f a = [] -> (<[i := a']> l ≫= f) ≡ₚ f a' ++ (l ≫= f).
Proof.
  revert i. induction l as [|b l IH]; intros [|i] Hi Ha; simplify_eq/=; [by rewrite Ha|].
  rewrite (IH i Hi Ha), !(assoc_L (++)). by rewrite (Permutation_app_comm (f b)).
Qed.

Lemma bind_insert_same {A B} (f : A -> list B) l i a a' :
  l !! i = Some a -> f a' = f a -> (<[i := a']> l ≫= f) = (l ≫= f).
Proof.
  revert i. induction l as [|b l IH]; intros [|i] Hi Ha; simplify_eq/=; [by rewrite Ha|].
  by rewrite (IH i Hi Ha).
Qed.

(** At most one thread holds the exclusive lock. *)
Lemma one_exclusive k ts i j pi pj :
  ts !! i = Some pi -> ts !! j = Some pj -> i <> j ->
  holds_exclusive k pi = 1 -> holds_exclusive k pj = 1 -> 2 <= sum_by (holds_exclusive k) ts.
Proof.
  intros Hi Hj Hne Ei Ej.
  pose proof (sum_by_insert (holds_exclusive k) ts i pi (RStart []) Hi) as H1.
  pose proof (sum_by_insert (holds_exclusive k) (<[i := RStart []]> ts) j pj (RStart [])
    ltac:(by rewrite list_lookup_insert_ne)) as H2.
  assert (0 <= sum_by (holds_exclusive k) (<[j := RStart []]> (<[i := RStart []]> ts))).
  { apply sum_by_nonneg, Forall_true. intros []; by destruct k. }
  cbn in H1, H2. lia.
Qed.

Lemma rcu_inv_start k ts : Forall not_started ts -> rcu_inv k Shared_new ts.
Proof.
  intros Hts.
  assert (sum_by (holds_shared k) ts = 0 /\ sum_by (holds_exclusive k) ts = 0 /\
    (ts ≫= stored_path) = [] /\ Forall (pc_ok Shared_new) ts) as (H1 & H2 & H3 & H4).
  { induction Hts as [|pc ts Hpc _ (I1 & I2 & I3 & I4)]; [by repeat split|].
    rewrite !sum_by_cons, I1, I2. cbn [mbind list_bind]. rewrite I3.
    destruct pc; try done; (split; [done|]); (split; [done|]); (split; [done|]); by constructor. }
  split; cbn; rewrite ?H1, ?H2, ?H3; done.
Qed.

(** A step that leaves the table alone. *)
Lemma rcu_inv_local k s ts i pc s' pc' :
  rcu_inv k s ts -> ts !! i = Some pc ->
  table s' = table s -> written s' = written s ->
  Z.of_nat (readers s') = Z.of_nat (readers s) - holds_shared k pc + holds_shared k pc' ->
  (if writer s' then 1 else 0) =
    (if writer s then 1 else 0) - holds_exclusive k pc + holds_exclusive k pc' ->
  (writer s' = true -> readers s' = 0%nat) ->
  stored_path pc' = stored_path pc -> pc_ok s' pc' ->
  rcu_inv k s' (<[i := pc']> ts).
Proof.
  intros [H1 H2 H3 H4 H5 H6] Hi Ht Hw Hr He Hl Hs Hp. split.
  - rewrite (sum_by_insert _ _ _ _ _ Hi). lia.
  - rewrite (sum_by_insert _ _ _ _ _ Hi). lia.
  - done.
  - by rewrite Ht, Hw.
  - by rewrite Hw, (bind_insert_same _ _ _ _ _ Hi Hs).
  - apply Forall_insert; [|done]. eapply Forall_impl; [exact H6|]. intros q. by apply pc_ok_same.
Qed.

Lemma table_after_snoc l p : table_after (l ++ [p]) = with_path p (table_after l).
Proof. unfold table_after. by rewrite fold_left_app. Qed.

(** The store: the only step that changes the table. *)
Lemma rcu_inv_store k s ts i path n :
  rcu_inv k s ts -> ts !! i = Some (WCopied path n) ->
  rcu_inv k {| s with table := n; written := written s ++ [path] |} (<[i := WStored path]> ts).
Proof.
  intros [H1 H2 H3 H4 H5 H6] Hi.
  pose proof (Forall_lookup_1 _ _ _ _ H6 Hi) as Hn. cbn in Hn.
  split; cbn.
  - rewrite (sum_by_insert _ _ _ _ _ Hi). cbn. destruct k; lia.
  - rewrite (sum_by_insert _ _ _ _ _ Hi). cbn. destruct k; lia.
  - done.
  - by rewrite table_after_snoc, Hn, H4.
  - rewrite (bind_insert _ _ _ _ _ Hi eq_refl). cbn. rewrite H5. by rewrite Permutation_app_comm.
  - apply Forall_lookup. intros j q Hj. destruct (decide (i = j)) as [<-|Hne].
    { rewrite list_lookup_insert_eq in Hj by (by eapply lookup_lt_Some). by injection Hj as <-. }
    rewrite list_lookup_insert_ne in Hj by done.
    pose proof (Forall_lookup_1 _ _ _ _ H6 Hj) as Hq.
    assert (holds_exclusive k q <> 1) as Hq1.
    { intros Hq1. pose proof (one_exclusive k ts i j _ _ Hi Hj Hne ltac:(by destruct k) Hq1).
      destruct (writer s); lia. }
    destruct q; cbn in *; try done; try (by destruct k);
      destruct Hq as (l & Hl & ->); exists l; (split; [by apply prefix_app_r|done]).
Qed.

Lemma rcu_inv_step k s ts s' ts' :
  rcu_inv k s ts -> rcu_threads k (s, ts) (s', ts') -> rcu_inv k s' ts'.
Proof.
  intros Hinv Hstep. inversion Hstep as [? ? i pc ? pc' Hi Hpc]; subst.
  pose proof Hinv as [H1 H2 H3 H4 H5 H6].
  pose proof (Forall_lookup_1 _ _ _ _ H6 Hi) as Hok.
  assert (0 <= sum_by (holds_shared k) ts) as Hs0
    by (apply sum_by_nonneg, Forall_true; intros []; by destruct k).
  pose proof (sum_by_insert (holds_shared k) ts i pc (RStart []) Hi) as Hs1.
  pose proof (sum_by_insert (holds_exclusive k) ts i pc (RStart []) Hi) as He1.
  assert (0 <= sum_by (holds_shared k) (<[i := RStart []]> ts)) as Hs2
    by (apply sum_by_nonneg, Forall_true; intros []; by destruct k).
  assert (0 <= sum_by (holds_exclusive k) (<[i := RStart []]> ts)) as He2
    by (apply sum_by_nonneg, Forall_true; intros []; by destruct k).
  inversion Hpc; subst; cbn in Hs1, He1, Hok;
    try (by eapply rcu_inv_store);
    (eapply rcu_inv_local; [exact Hinv|exact Hi|reflexivity|reflexivity|..]; cbn; try done;
     try (destruct k; cbn; try done; lia)); try lia;
    try (destruct (writer _) eqn:Ew; lia || congruence);
    try (exists (written s'); by rewrite ?H4);
    try (destruct Hok as (l & Hl & ->); by exists l).
  intros _. assert (sum_by (holds_shared MutexBench) ts = 0) as Hz.
  { rewrite (sum_by_const _ 0); [lia|]. apply Forall_true. by intros []. }
  lia.
Qed.

Lemma rcu_inv_reachable k ts0 s ts :
  Forall not_started ts0 -> rtc (rcu_threads k) (Shared_new, ts0) (s, ts) -> rcu_inv k s ts.
Proof.
  intros Hts Hr.
  apply (rtc_invariant (rcu_threads k) (fun x => rcu_inv k x.1 x.2)) in Hr; [exact Hr| |].
  - by apply rcu_inv_start.
  - intros [] [] Hi Hs. by eapply rcu_inv_step.
Qed.

(** ** What the three schemes promise *)

(** Two accesses to the pointer [table] at once, one of them a store, where the accesses
    are not atomic (in RCU they are [atomic_load] and [atomic_store]). *)
Definition about_to_load (pc : rpc) : Prop :=
  match pc with RLocked _ | WLocked _ => True | _ => False end.
Definition about_to_store (pc : rpc) : Prop := match pc with WCopied _ _ => True | _ => False end.
Definition data_race (ts : list rpc) : Prop :=
  exists i j pi pj, i <> j /\ ts !! i = Some pi /\ ts !! j = Some pj /\
    about_to_store pi /\ (about_to_load pj \/ about_to_store pj).

Lemma sum_by_member {A} (f : A -> Z) l i a :
  (forall a, 0 <= f a) -> l !! i = Some a -> f a <= sum_by f l.
Proof.
  intros Hf. revert i. induction l as [|b l IH]; intros [|i] Hi; simplify_eq/=.
  - pose proof (sum_by_nonneg f l (Forall_true _ l Hf)). lia.
  - pose proof (IH i Hi). pose proof (Hf b). lia.
Qed.

Lemma table_after_lookup l p :
  table_after l !! p = if decide (p ∈ l) then Some two_nodes else MakeTestTable !! p.
Proof.
  induction l as [|q l IH] using rev_ind; [done|]. rewrite table_after_snoc. unfold with_path.
  destruct (decide (p = q)) as [->|Hne].
  - rewrite lookup_insert_eq, decide_True; [done|]. apply elem_of_app. right. apply list_elem_of_here.
  - rewrite lookup_insert_ne, IH by done.
    apply decide_ext. rewrite elem_of_app, list_elem_of_singleton. split; [by left|by intros [|]].
Qed.

(** A look-up of one of the query paths finds ten nodes or two. *)
Lemma query_finds l path :
  path ∈ InitPaths [] -> find_nodes (table_after l) path = ten_nodes \/
    find_nodes (table_after l) path = two_nodes.
Proof.
  intros (i & -> & Hi)%list_elem_of_fmap. apply elem_of_seq in Hi. unfold find_nodes.
  rewrite table_after_lookup. case_decide; [by right|].
  rewrite MakeTestTable_lookup by lia. by left.
Qed.

(** C11. Whatever the interleaving of readers and writers, under each of the three schemes:
    no plain store of the pointer meets another plain access of it (the atomic loads and
    stores of the RCU scheme cannot race); every read that returns has looked
    its path up in the table as some of the writes, in the order they were stored, had
    left it, and has ten nodes or two if it is one of the query paths; and no write is
    lost: the table is what the writes stored so far, each
    applied to the result of the one before, have made of the first. *)
Theorem reads_see_whole_tables k ts0 s ts :
  Forall not_started ts0 -> rtc (rcu_threads k) (Shared_new, ts0) (s, ts) ->
  ~ data_race ts /\
  (forall path nodes, RDone path nodes ∈ ts ->
     (exists l, l `prefix_of` written s /\ nodes = find_nodes (table_after l) path) /\
     (path ∈ InitPaths [] -> nodes = ten_nodes \/ nodes = two_nodes)) /\
  table s = table_after (written s) /\ written s ≡ₚ (ts ≫= stored_path).
Proof.
  intros Hts Hr. destruct (rcu_inv_reachable k ts0 s ts Hts Hr) as [H1 H2 H3 H4 H5 H6].
  split; [|split; [|done]].
  - intros (i & j & pi & pj & Hne & Hi & Hj & Hst & Hac).
    assert (holds_exclusive k pi = 1) as Ei by (destruct pi; try done; by destruct k).
    destruct (decide (holds_exclusive k pj = 1)) as [Ej|Ej].
    { pose proof (one_exclusive k ts i j _ _ Hi Hj Hne Ei Ej). destruct (writer s); lia. }
    assert (holds_shared k pj = 1) as Sj
      by (destruct Hac, pj; try done; destruct k; done).
    pose proof (sum_by_member (holds_exclusive k) ts i pi ltac:(intros []; by destruct k) Hi).
    pose proof (sum_by_member (holds_shared k) ts j pj ltac:(intros []; by destruct k) Hj).
    destruct (writer s); [|lia]. rewrite (H3 eq_refl) in H1. lia.
  - intros path nodes [i Hi]%list_elem_of_lookup.
    destruct (Forall_lookup_1 _ _ _ _ H6 Hi) as (l & Hl & ->).
    split; [by exists l|]. apply query_finds.
Qed.

(** What the steps of a thread do not change is the same for all threads together. *)
Lemma steps_keep {A} (f : rpc -> list A) k :
  (forall s pc s' pc', rcu_step k s pc s' pc' -> f pc' = f pc) ->
  forall ts0 s0 s ts, rtc (rcu_threads k) (s0, ts0) (s, ts) -> (ts ≫= f) = (ts0 ≫= f).
Proof.
  intros Hf ts0 s0 s ts Hr. remember (s0, ts0) as x eqn:Ex. remember (s, ts) as y eqn:Ey.
  generalize dependent ts0. generalize dependent s0.
  induction Hr as [|x [s1 ts1] z Hs _ IH]; intros s0 ts0 ->; [by simplify_eq|].
  inversion Hs as [? ? i pc ? pc' Hi Hpc]; subst. rewrite (IH eq_refl _ _ eq_refl).
  by apply (bind_insert_same _ _ _ _ _ Hi), (Hf _ _ _ _ Hpc).
Qed.

Lemma written_all ts0 k s ts :
  rtc (rcu_threads k) (Shared_new, ts0) (s, ts) -> (ts ≫= write_of) = (ts0 ≫= write_of).
Proof. apply steps_keep. by inversion 1. Qed.

Lemma returned_stored ts : Forall returned ts -> (ts ≫= stored_path) = (ts ≫= write_of).
Proof. induction 1 as [|pc ts Hpc _ IH]; [done|]. cbn. rewrite IH. by destruct pc. Qed.

(** The path a thread reads. *)
Definition read_of (pc : rpc) : list bytes :=
  match pc with
  | RStart p | RLocked p | RLoaded p _ | RHave p _ | RFound p _ | RDone p _ => [p] | _ => [] end.

Lemma read_all ts0 k s ts :
  rtc (rcu_threads k) (Shared_new, ts0) (s, ts) -> (ts ≫= read_of) = (ts0 ≫= read_of).
Proof. apply steps_keep. by inversion 1. Qed.

(** C12. The three schemes end with the same table: when all threads have returned, whatever
    the interleaving, each path written by some thread has the two nodes and every
    other path what it had. *)
Theorem schemes_agree k k' ts0 s ts s' ts' :
  Forall not_started ts0 ->
  rtc (rcu_threads k) (Shared_new, ts0) (s, ts) -> Forall returned ts ->
  rtc (rcu_threads k') (Shared_new, ts0) (s', ts') -> Forall returned ts' ->
  table s = table s' /\
  forall p, table s !! p = if decide (p ∈ ts0 ≫= write_of) then Some two_nodes else MakeTestTable !! p.
Proof.
  intros Hts.
  assert (forall k s ts, rtc (rcu_threads k) (Shared_new, ts0) (s, ts) -> Forall returned ts ->
    forall p, table s !! p = if decide (p ∈ ts0 ≫= write_of) then Some two_nodes else MakeTestTable !! p)
    as Hall.
  { clear -Hts. intros k s ts Hr Hret p. destruct (rcu_inv_reachable k ts0 s ts Hts Hr) as [_ _ _ -> Hw _].
    rewrite table_after_lookup. rewrite <- (written_all ts0 k s ts Hr).
    rewrite <- (returned_stored ts Hret). destruct (decide (p ∈ written s)) as [Hin|Hin];
      rewrite Hw in Hin; [by rewrite decide_True|by rewrite decide_False]. }
  intros Hr Hret Hr' Hret'. pose proof (Hall k s ts Hr Hret) as H1.
  pose proof (Hall k' s' ts' Hr' Hret') as H2. split; [|done].
  apply map_eq. intros p. by rewrite H1, H2.
Qed.

(** The points of [Read] that belong to a scheme. *)
Definition of_scheme (k : scheme) (pc : rpc) : Prop :=
  match pc with
  | RLocked _ | RLoaded _ _ => k <> RCUBench
  | RFound _ _ => k = MutexBench
  | _ => True
  end.

Lemma of_scheme_reachable k ts0 s ts :
  Forall not_started ts0 -> rtc (rcu_threads k) (Shared_new, ts0) (s, ts) -> Forall (of_scheme k) ts.
Proof.
  intros Hts Hr. apply (rtc_invariant (rcu_threads k) (fun x => Forall (of_scheme k) x.2)) in Hr; [exact Hr| |].
  - eapply Forall_impl; [exact Hts|]. by intros [].
  - intros [s1 ts1] [s2 ts2] Hall Hs. inversion Hs as [? ? i pc ? pc' Hi Hpc]; subst. cbn in *.
    apply Forall_insert; [done|]. pose proof (Forall_lookup_1 _ _ _ _ Hall Hi) as Hok.
    inversion Hpc; subst; cbn in *; done || congruence.
Qed.

Lemma in_progress_steps k s pc :
  of_scheme k pc -> not_started pc \/ returned pc \/ exists s' pc', rcu_step k s pc s' pc'.
Proof.
  intros Hk. destruct pc; cbn in *; auto; right; right; try (destruct k; try done); eexists _, _;
    first [by apply load_locked|by apply unlock_shared|by apply find_locked|by apply find_unlocked|
           by apply unlock_read|by apply copy|by apply store_table|by apply unlock_write].
Qed.

(** No deadlock: while a thread has not returned, some thread can take a step. *)
Lemma threads_progress k ts0 s ts :
  Forall not_started ts0 -> rtc (rcu_threads k) (Shared_new, ts0) (s, ts) ->
  Forall returned ts \/ exists x, rcu_threads k (s, ts) x.
Proof.
  intros Hts Hr. destruct (rcu_inv_reachable k ts0 s ts Hts Hr) as [H1 H2 _ _ _ _].
  pose proof (of_scheme_reachable k ts0 s ts Hts Hr) as Hsch.
  assert (forall pc, Decision (not_started pc \/ returned pc)) as Hdec
    by (intros []; cbn; apply _).
  destruct (decide (Forall (fun pc => not_started pc \/ returned pc) ts)) as [Hall|Hex].
  - assert (sum_by (holds_shared k) ts = 0 /\ sum_by (holds_exclusive k) ts = 0) as [Z1 Z2].
    { split; rewrite (sum_by_const _ 0); try lia; (eapply Forall_impl; [exact Hall|]);
        intros [] [|]; try done; by destruct k. }
    assert (writer s = false) as Hw by (destruct (writer s); [lia|done]).
    assert (readers s = 0%nat) as Hrd by lia.
    assert (forall pc, Decision (returned pc)) as Hdec' by (intros []; cbn; apply _).
    destruct (decide (Forall returned ts)) as [|Hn]; [by left|right].
    apply not_Forall_Exists, Exists_exists in Hn as (pc & [i Hi]%list_elem_of_lookup & Hnr); [|done].
    destruct (Forall_lookup_1 _ _ _ _ Hall Hi) as [Hns|]; [|done].
    assert (exists s' pc', rcu_step k s pc s' pc') as (s' & pc' & Hs).
    { destruct pc; try done; [destruct k|]; eexists _, _;
        [by apply rcu_load|by apply lock_shared|by apply lock_read|by apply lock_write]. }
    eexists. by econstructor.
  - right. apply not_Forall_Exists, Exists_exists in Hex as (pc & [i Hi]%list_elem_of_lookup & Hn); [|done].
    pose proof (Forall_lookup_1 _ _ _ _ Hsch Hi) as Hok.
    destruct (in_progress_steps k s pc Hok) as [|[|(s' & pc' & Hs)]]; [naive_solver..|].
    eexists. by econstructor.
Qed.

(** The steps that a thread has still to take, at most. *)
Definition steps_left (pc : rpc) : Z :=
  match pc with
  | RStart _ | WStart _ => 4
  | RLocked _ | WLocked _ => 3
  | RLoaded _ _ | WCopied _ _ => 2
  | RHave _ _ | RFound _ _ | WStored _ => 1
  | RDone _ _ | WDone _ => 0
  end.

Lemma steps_left_nonneg ts : 0 <= sum_by steps_left ts.
Proof. apply sum_by_nonneg, Forall_true. by intros []. Qed.

Lemma step_decreases k s ts s' ts' :
  rcu_threads k (s, ts) (s', ts') -> sum_by steps_left ts' + 1 <= sum_by steps_left ts.
Proof.
  inversion 1 as [? ? i pc ? pc' Hi Hpc]; subst. rewrite (sum_by_insert steps_left ts i pc pc' Hi).
  inversion Hpc; simpl; lia.
Qed.

Lemma can_end k ts0 s ts :
  Forall not_started ts0 -> rtc (rcu_threads k) (Shared_new, ts0) (s, ts) ->
  exists s' ts', rtc (rcu_threads k) (s, ts) (s', ts') /\ Forall returned ts'.
Proof.
  intros Hts. revert s.
  induction ts as [ts IH] using (induction_ltof1 _ (fun ts => Z.to_nat (sum_by steps_left ts))).
  intros s Hr. destruct (threads_progress k ts0 s ts Hts Hr) as [Hret|([s1 ts1] & Hs)].
  { by exists s, ts. }
  pose proof (step_decreases _ _ _ _ _ Hs). pose proof (steps_left_nonneg ts1).
  destruct (IH ts1 ltac:(unfold ltof; lia) s1) as (s' & ts' & Hr' & Hret).
  { eapply rtc_r; [exact Hr|exact Hs]. }
  exists s', ts'. split; [|exact Hret]. by eapply rtc_l.
Qed.

Lemma run_bound k n x y :
  nsteps (rcu_threads k) n x y -> sum_by steps_left y.2 + Z.of_nat n <= sum_by steps_left x.2.
Proof.
  induction 1 as [x|n [s1 ts1] [s2 ts2] z Hs _ IH]; [lia|].
  apply step_decreases in Hs. simpl in *. lia.
Qed.

(** C23. Every run ends, and with every thread returned: a run of [n] threads has at most [4n]
    steps, it stops only when all threads have returned, and from every state it
    reaches it can be continued until they have. *)
Theorem benches_terminate k ts0 s ts m :
  Forall not_started ts0 -> nsteps (rcu_threads k) m (Shared_new, ts0) (s, ts) ->
  (m <= 4 * length ts0)%nat /\
  (Forall returned ts \/ exists x, rcu_threads k (s, ts) x) /\
  exists s' ts', rtc (rcu_threads k) (s, ts) (s', ts') /\ Forall returned ts'.
Proof.
  intros Hts Hm. pose proof (rtc_nsteps_2 _ _ _ Hm) as Hr. split; [|split].
  - apply run_bound in Hm. simpl in Hm. pose proof (steps_left_nonneg ts).
    assert (sum_by steps_left ts0 = zlen ts0 * 4) as E; [|lia].
    apply sum_by_const. eapply Forall_impl; [exact Hts|]. by intros [].
  - by apply (threads_progress k ts0).
  - by apply (can_end k ts0).
Qed.

(** ** Output *)

Definition ns2us (ns : double) : double := d_div ns (d_of_Z 1000).

(** [s.p50_ns > 0 ? s.p999_ns / s.p50_ns : 0]. *)
Definition tail_factor (s : LatencyStats) : double :=
  if d_gt (p50_ns s) d_zero then d_div (p999_ns s) (p50_ns s) else d_zero.
Definition tail_verdict (factor : double) : item :=
  if d_gt factor (d_of_Z 10) then txt " ⚠️  严重长尾"
  else if d_gt factor (d_of_Z 3) then txt " ⚡ 中等长尾"
  else txt " ✓ 健康".

Definition PrintSection (title : item) (s : LatencyStats) : list item :=
  [txt "  "; title; txt " ("; Int (count s); txt " samples):"; endline;
   txt "    avg="; Fixed; SetPrecision 1; Dbl (ns2us (avg_ns s));
   txt "us  P50="; Dbl (ns2us (p50_ns s));
   txt "us  P99="; Dbl (ns2us (p99_ns s));
   txt "us  P999="; Dbl (ns2us (p999_ns s));
   txt "us  max="; Dbl (ns2us (max_ns s)); txt "us"; endline;
   txt "    tail-ratio(P999/P50)="; Fixed; SetPrecision 1; Dbl (tail_factor s); txt "x";
   tail_verdict (tail_factor s); endline; endline].

(** [srcu.p999_ns / std::max(srcu.p50_ns, 1.0)]. *)
Definition ratio (s : LatencyStats) : double := d_div (p999_ns s) (d_max (p50_ns s) (d_of_Z 1)).

(** The scheme the conclusion names. *)
Definition best (srcu srwl smtx : LatencyStats) : scheme :=
  if d_le (ratio srcu) (ratio srwl) && d_le (ratio srcu) (ratio smtx) then RCUBench
  else if d_le (ratio srwl) (ratio srcu) && d_le (ratio srwl) (ratio smtx) then RwLockBench
  else MutexBench.
Definition conclusion_items (srcu srwl smtx : LatencyStats) : list item :=
  match best srcu srwl smtx with
  | RCUBench => [txt "RCU 长尾控制最好 (P999/P50="; Dbl (ratio srcu); txt "x)"; endline; endline]
  | RwLockBench => [txt "RwLock 长尾控制最好 (P999/P50="; Dbl (ratio srwl); txt "x)"; endline; endline]
  | MutexBench => [txt "Mutex 长尾控制最好 (P999/P50="; Dbl (ratio smtx); txt "x)"; endline; endline]
  end.

Record BenchConfig := mk_BenchConfig { wps : Z; config_label : item }.
Definition configs : list BenchConfig :=
  [mk_BenchConfig 500 (txt "高写压力 (500/s)"); mk_BenchConfig 100 (txt "中写压力 (100/s)");
   mk_BenchConfig 1 (txt "低写压力 (1/s)")].
Definition kReaders : Z := 8.
Definition kDur : Z := 5.

Definition title_items : list item :=
  [endline; txt "╔══════════════════════════════════════════════════════════════════╗"; endline;
   txt "║  RCU vs RwLock vs Mutex — 读延迟分析（写操作对读的长尾影响）    ║"; endline;
   txt "║  读线程: "; Int kReaders; txt "  测试时长: "; Int kDur;
   txt "s/轮  采样间隔: 1/1000               ║"; endline;
   txt "╚══════════════════════════════════════════════════════════════════╝"; endline; endline].

Definition config_title (cfg : BenchConfig) : list item :=
  [txt "━━━━━━━━━━━━━━━━━━━━━━━━━━━━━━━━━━━━━━━━━━━━━━━"; endline;
   txt "  "; config_label cfg; endline;
   txt "━━━━━━━━━━━━━━━━━━━━━━━━━━━━━━━━━━━━━━━━━━━━━━━"; endline;
   txt "  [RCU]  测量中..."; txt " 完成"; endline;
   txt "  [RwLock] 测量中..."; txt " 完成"; endline;
   txt "  [Mutex] 测量中..."; txt " 完成"; endline; endline].

Definition comparison_items (srcu srwl smtx : LatencyStats) : list item :=
  [txt "  ╔══════════╦═══════════╦═══════════╦═══════════╦══════════╗"; endline;
   txt "  ║          ║    P50    ║    P99    ║   P999    ║ P999/P50 ║"; endline;
   txt "  ╠══════════╬═══════════╬═══════════╬═══════════╬══════════╣"; endline;
   txt "  ║ RCU      ║ "; Setw 7; Fixed; SetPrecision 1; Dbl (ns2us (p50_ns srcu)); txt "us ║ ";
   Setw 7; Dbl (ns2us (p99_ns srcu)); txt "us ║ "; Setw 7; Dbl (ns2us (p999_ns srcu)); txt "us ║ ";
   Setw 6; Dbl (tail_factor srcu); txt "x ║"; endline;
   txt "  ║ RwLock   ║ "; Setw 7; Dbl (ns2us (p50_ns srwl)); txt "us ║ ";
   Setw 7; Dbl (ns2us (p99_ns srwl)); txt "us ║ "; Setw 7; Dbl (ns2us (p999_ns srwl)); txt "us ║ ";
   Setw 6; Dbl (tail_factor srwl); txt "x ║"; endline;
   txt "  ║ Mutex    ║ "; Setw 7; Dbl (ns2us (p50_ns smtx)); txt "us ║ ";
   Setw 7; Dbl (ns2us (p99_ns smtx)); txt "us ║ "; Setw 7; Dbl (ns2us (p999_ns smtx)); txt "us ║ ";
   Setw 6; Dbl (tail_factor smtx); txt "x ║"; endline;
   txt "  ╚══════════╩═══════════╩═══════════╩═══════════╩══════════╝"; endline; endline].

Definition closing_items : list item :=
  [txt "════════════════════════════════════════════════════════════"; endline;
   txt "注意: macOS libc++ 上 std::atomic_load<shared_ptr> 使用了"; endline;
   txt "全局 spinlock，导致 RCU 读路径仍有内部锁竞争。在 Linux"; endline;
   txt "libstdc++ 上该操作是 lock-free 的，RCU 优势会更加明显。"; endline;
   txt "════════════════════════════════════════════════════════════"; endline; endline].

Section Main.
Context `{StdSort}.

(** One round: the samples the three benches have collected. *)
Definition config_items (cfg : BenchConfig) (rcu_lat rwl_lat mtx_lat : list Z) : outcome (list item) :=
  srcu ← ComputePercentiles rcu_lat;
  srwl ← ComputePercentiles rwl_lat;
  smtx ← ComputePercentiles mtx_lat;
  mret (config_title cfg ++ PrintSection (txt "RCU") srcu ++ PrintSection (txt "RwLock") srwl ++
        PrintSection (txt "Mutex") smtx ++ comparison_items srcu srwl smtx ++
        [txt "  💡 分析: "] ++ conclusion_items srcu srwl smtx).

Fixpoint all_configs (lats : list (BenchConfig * (list Z * list Z * list Z))) : outcome (list item) :=
  match lats with
  | [] => mret []
  | (cfg, (rcu_lat, rwl_lat, mtx_lat)) :: lats =>
      items ← config_items cfg rcu_lat rwl_lat mtx_lat;
      rest ← all_configs lats;
      mret (items ++ rest)
  end.

(** The samples of one bench of a round. *)
Definition measured (k : scheme) (cfg : BenchConfig) (latency_ns : list Z) : Prop :=
  exists rounds writes s ts,
    RunLatencyBench k kReaders (wps cfg) (InitPaths []) rounds writes latency_ns s ts.

(** [main]: the three rounds, each with a new bench of every scheme. *)
Inductive rcu_main : Z -> list item -> Prop :=
| a_rcu_main lats items :
    Forall2 (fun cfg lat => measured RCUBench cfg lat.1.1 /\ measured RwLockBench cfg lat.1.2 /\
                            measured MutexBench cfg lat.2) configs lats ->
    all_configs (zip configs lats) = Returns items ->
    rcu_main 0 (title_items ++ items ++ closing_items).

End Main.

(** ** The percentiles do not depend on the sort *)

Lemma sum_llong l acc :
  Forall (fun v => 0 <= v) l -> 0 <= acc -> acc + sum_by id l < 2 ^ 63 ->
  for_each (fun sum v => in_llong (sum + v)) acc l = Returns (acc + sum_by id l).
Proof.
  intros Hl. revert acc. induction Hl as [|v l Hv Hl IH]; intros acc Ha Hs; cbn [for_each].
  { cbn. by rewrite Z.add_0_r. }
  rewrite sum_by_cons in *. pose proof (sum_by_nonneg id l Hl). unfold id in *.
  rewrite (in_llong_ok (acc + v)) by lia. cbn [mbind outcome_bind]. rewrite IH by lia. f_equal. lia.
Qed.

(** On latencies that are not negative and whose sum is a [long long], the percentiles
    are the same for every sorting function that sorts, and they are the values at the
    code's ranks of the samples in ascending order. *)
Theorem rcu_percentiles (S1 S2 : StdSort) samples :
  @StdSortLaws S1 -> @StdSortLaws S2 ->
  samples <> [] -> zlen samples < 2 ^ 53 -> Forall (fun v => 0 <= v) samples ->
  sum_by id samples < 2 ^ 63 ->
  let n := zlen samples in
  exists s, @ComputePercentiles S1 samples = Returns s /\ @ComputePercentiles S2 samples = Returns s /\
    count s = n /\ avg_ns s = d_div (d_of_Z (sum_by id samples)) (d_of_Z n) /\
    exists l p50 p99 p999 mx, l ≡ₚ samples /\ sorted Z.ltb l /\
      l !! Z.to_nat (n * 50 / 100) = Some p50 /\ p50_ns s = d_of_Z p50 /\
      l !! Z.to_nat (n * 99 / 100) = Some p99 /\ p99_ns s = d_of_Z p99 /\
      l !! Z.to_nat (n * 999 / 1000) = Some p999 /\ p999_ns s = d_of_Z p999 /\
      l !! Z.to_nat (n - 1) = Some mx /\ max_ns s = d_of_Z mx.
Proof.
  intros L1 L2 Hne Hlen Hnn Hsum n.
  pose proof (@std_sort_perm S1 L1 Z Z.ltb samples (strict_weak_ltb _)) as P1.
  pose proof (@std_sort_sorted S1 L1 Z Z.ltb samples (strict_weak_ltb _)) as O1.
  assert (@std_sort S2 Z Z.ltb samples = @std_sort S1 Z Z.ltb samples) as E.
  { apply sorted_ltb_unique; [apply (@std_sort_sorted S2 L2), strict_weak_ltb|done|].
    rewrite P1. apply (@std_sort_perm S2 L2), strict_weak_ltb. }
  assert (forall S : StdSort, @ComputePercentiles S samples = percentiles_of (@std_sort S Z Z.ltb samples))
    as Hc by (intros; by destruct samples).
  rewrite !Hc, E. clear Hc E. set (l := @std_sort S1 Z Z.ltb samples) in *.
  assert (zlen l = n) as Hl by (unfold n; by rewrite P1).
  assert (0 < n) by (unfold n; destruct samples; [done|simpl; lia]).
  assert (sum_by id l = sum_by id samples) as Hs by by apply sum_by_perm.
  assert (Forall (fun v => 0 <= v) l) as Hnn' by by rewrite P1.
  unfold percentiles_of. rewrite (sum_llong l 0 Hnn') by lia. rewrite Hl, Hs.
  destruct (quantile_index_ok n 50 100 ltac:(lia) ltac:(lia) ltac:(lia)) as [E50 B50].
  destruct (quantile_index_ok n 99 100 ltac:(lia) ltac:(lia) ltac:(lia)) as [E99 B99].
  destruct (quantile_index_ok n 999 1000 ltac:(lia) ltac:(lia) ltac:(lia)) as [E999 B999].
  destruct (at_index_ok l (n - 1) ltac:(lia)) as (mx & Lm & Em).
  destruct (at_index_ok l (n * 50 / 100) ltac:(lia)) as (p50 & L50 & F50).
  destruct (at_index_ok l (n * 99 / 100) ltac:(lia)) as (p99 & L99 & F99).
  destruct (at_index_ok l (n * 999 / 1000) ltac:(lia)) as (p999 & L999 & F999).
  rewrite E50, E99, E999. cbn [mbind outcome_bind]. rewrite Em. cbn [mbind outcome_bind].
  rewrite F50. cbn [mbind outcome_bind]. rewrite F99. cbn [mbind outcome_bind]. rewrite F999.
  eexists. split; [reflexivity|]. split; [reflexivity|]. split; [done|]. split; [done|].
  by exists l, p50, p99, p999, mx.
Qed.

(** ** The conclusion *)

Definition ratio_of (k : scheme) (srcu srwl smtx : LatencyStats) : double :=
  ratio (match k with RCUBench => srcu | RwLockBench => srwl | MutexBench => smtx end).

(** [ratio] of percentiles that are integers is a number. *)
Lemma ratio_number s a b : p999_ns s = d_of_Z a -> p50_ns s = d_of_Z b -> - 2 ^ 63 <= b < 2 ^ 63 ->
  is_nan (ratio s) = false.
Proof.
  intros Ha Hb Hr. unfold ratio. apply d_div_not_nan; [|rewrite Ha; apply d_of_Z_not_nan].
  rewrite Hb. destruct (decide (b <= 0)) as [Hle|Hgt].
  - unfold d_max. rewrite d_nonpos_lt; [done|by apply d_of_Z_nonpos|done].
  - destruct (d_of_Z_bounds 63 b ltac:(lia) ltac:(lia)) as [Hn _].
    destruct (d_max_cases (d_of_Z b) (d_of_Z 1)) as [-> | ->]; [by eapply d_normal_posfin|done].
Qed.

(** The conclusion names a scheme whose ratio is not larger than any of the three, when
    the percentiles are latencies in nanoseconds. *)
Theorem conclusion_best srcu srwl smtx :
  (forall s, s ∈ [srcu; srwl; smtx] -> exists a b, p999_ns s = d_of_Z a /\ p50_ns s = d_of_Z b /\
     - 2 ^ 63 <= b < 2 ^ 63) ->
  forall k, d_le (ratio_of (best srcu srwl smtx) srcu srwl smtx) (ratio_of k srcu srwl smtx) = true.
Proof.
  intros Hs. assert (forall s, s ∈ [srcu; srwl; smtx] -> is_nan (ratio s) = false) as Hn.
  { intros s (a & b & Ha & Hb & Hr)%Hs. by eapply ratio_number. }
  assert (is_nan (ratio srcu) = false) as N1 by (apply Hn; set_solver).
  assert (is_nan (ratio srwl) = false) as N2 by (apply Hn; set_solver).
  assert (is_nan (ratio smtx) = false) as N3 by (apply Hn; set_solver).
  clear Hs Hn. intros k. unfold best.
  destruct (d_le (ratio srcu) (ratio srwl) && d_le (ratio srcu) (ratio smtx)) eqn:E1.
  { apply andb_true_iff in E1 as [? ?]. destruct k; try done. by apply d_le_refl. }
  destruct (d_le (ratio srwl) (ratio srcu) && d_le (ratio srwl) (ratio smtx)) eqn:E2.
  { apply andb_true_iff in E2 as [? ?]. destruct k; try done. by apply d_le_refl. }
  assert (d_le (ratio smtx) (ratio srcu) = true /\ d_le (ratio smtx) (ratio srwl) = true) as [? ?].
  { destruct (d_le (ratio srcu) (ratio srwl)) eqn:E.
    - apply (d_le_total _ _ N1 N3) in E1. split; [done|]. by eapply d_le_trans; [..|exact E1|exact E].
    - apply (d_le_total _ _ N1 N2) in E. rewrite E in E2. apply (d_le_total _ _ N2 N3) in E2.
      split; [|done]. by eapply d_le_trans; [..|exact E2|exact E]. }
  destruct k; try done. by apply d_le_refl.
Qed.

(** ** The loops of RunLatencyBench *)

(** A reader stays within the query paths, as long as its counters fit an [int], and
    samples one read in a thousand. *)
Theorem reader_samples t n g_query_paths clock :
  0 <= t -> zlen g_query_paths = 100 -> t * 13 + Z.of_nat n < 2 ^ 31 ->
  exists paths latency_ns, reader t n g_query_paths clock = Returns (paths, latency_ns) /\
    length paths = n /\ paths ⊆ g_query_paths /\ zlen latency_ns = Z.of_nat n / 1000.
Proof.
  intros Ht Hl Hn. unfold reader.
  cut (forall n pi c k, 0 <= pi -> 0 <= c -> pi + Z.of_nat n < 2 ^ 31 -> c + Z.of_nat n < 2 ^ 31 ->
    exists paths latency_ns, reader_loop n pi c g_query_paths clock k = Returns (paths, latency_ns) /\
      length paths = n /\ paths ⊆ g_query_paths /\
      zlen latency_ns = (c + Z.of_nat n) / 1000 - c / 1000).
  { intros Hcut. destruct (Hcut n (t * 13) 0 0%nat) as (p & l & ? & ? & ? & Hlen); [lia..|].
    exists p, l. split; [done|]. split; [done|]. split; [done|]. rewrite Hlen, Z.add_0_l.
    change (0 / 1000) with 0. lia. }
  clear t n Ht Hn. induction n as [|n IH]; intros pi c k Hpi Hc Hpn Hcn; cbn [reader_loop].
  { exists [], []. split; [done|]. split; [done|]. split; [by intros ? ?%not_elem_of_nil|].
    rewrite Z.add_0_r. cbn [length]. lia. }
  pose proof (Z.rem_bound_pos pi 100 Hpi ltac:(lia)).
  destruct (at_index_ok g_query_paths (Z.rem pi 100) ltac:(lia)) as (path & Hp & ->).
  cbn [mbind outcome_bind]. destruct (clock k) as [t0 t1].
  rewrite (in_int_ok (pi + 1)), (in_int_ok (c + 1)) by lia. cbn [mbind outcome_bind].
  destruct (IH (pi + 1) (c + 1) (S k)) as (paths & lat & -> & Hlen & Hsub & Hcount); [lia..|].
  cbn [mbind outcome_bind]. eexists _, _. split; [reflexivity|]. split; [cbn; by rewrite Hlen|].
  split; [intros q [->|Hq]%elem_of_cons; [by eapply list_elem_of_lookup_2|by apply Hsub]|].
  rewrite Nat2Z.inj_succ. replace (c + Z.succ (Z.of_nat n)) with (c + 1 + Z.of_nat n) by lia.
  cut ((if Z.rem (c + 1) 1000 =? 0 then 1 else 0) = (c + 1) / 1000 - c / 1000).
  { intros Hone. case_if; cbn [length]; lia. }
  rewrite Z.rem_mod_nonneg by lia.
  pose proof (Z_div_mod_eq_full (c + 1) 1000). pose proof (Z.mod_pos_bound (c + 1) 1000 ltac:(lia)).
  case_if; zbool.
  - rewrite <- (Z.div_unique c 1000 ((c + 1) / 1000 - 1) 999); lia.
  - rewrite <- (Z.div_unique c 1000 ((c + 1) / 1000) ((c + 1) mod 1000 - 1)); lia.
Qed.

Lemma writes_read_nothing (l : list bytes) : ((WStart <$> l) ≫= read_of) = [].
Proof. by induction l. Qed.
Lemma starts_read (l : list bytes) : ((RStart <$> l) ≫= read_of) = l.
Proof. induction l as [|p l IH]; [done|]. cbn. by f_equal. Qed.
Lemma writes_write (l : list bytes) : ((WStart <$> l) ≫= write_of) = l.
Proof. induction l as [|p l IH]; [done|]. cbn. by f_equal. Qed.
Lemma starts_write (l : list bytes) : ((RStart <$> l) ≫= write_of) = [].
Proof. by induction l. Qed.

Lemma writer_loop_length n : forall idx wps paths clock k l,
  writer_loop n idx wps paths clock k = Returns l -> length l = n.
Proof.
  induction n as [|n IH]; intros idx wps paths clock k l; cbn [writer_loop]; [by intros [= <-]|].
  destruct (clock k) as [t0 t1]. destruct (at_index paths _); try done. cbn [mbind outcome_bind].
  destruct (in_int _) as [idx'| | | |]; try done. cbn [mbind outcome_bind].
  destruct (sleep_us _ _); try done. cbn [mbind outcome_bind].
  destruct (writer_loop n idx' wps paths clock (S k)) eqn:E; try done.
  cbn [mbind outcome_bind mret outcome_ret]. intros [= <-]. cbn. f_equal. by eapply IH.
Qed.

Lemma length_concat_sum {A} (l : list (list A)) : zlen (concat l) = sum_by (fun l => zlen l) l.
Proof. induction l as [|a l IH]; [done|]. cbn [concat]. rewrite length_app, sum_by_cons. lia. Qed.

Lemma sum_ones {A} (l : list A) : sum_by (fun _ => 1) l = zlen l.
Proof. rewrite (sum_by_const _ 1); [lia|by apply Forall_true]. Qed.

(** A run of one bench, as long as no reader's counter leaves its type: a thousandth of
    each reader's rounds is sampled, every round has read, every write is stored, and
    every read has found ten nodes or two. *)
Theorem latency_bench_accounts k readers wps rounds writes latency_ns s ts :
  (forall t, Z.of_nat t < readers -> Z.of_nat t * 13 + Z.of_nat (rounds t) < 2 ^ 31) ->
  RunLatencyBench k readers wps (InitPaths []) rounds writes latency_ns s ts ->
  let readers := seq 0 (Z.to_nat readers) in
  zlen latency_ns = sum_by (fun t => Z.of_nat (rounds t) / 1000) readers /\
  zlen (ts ≫= read_of) = sum_by (fun t => Z.of_nat (rounds t)) readers /\
  length (written s) = writes /\
  (forall path nodes, RDone path nodes ∈ ts -> nodes = ten_nodes \/ nodes = two_nodes).
Proof.
  intros Hb Hrun. destruct Hrun as [clocks wclock runs wr latency_ns s ts Hl Hreaders Hw Hsam Hr Hret].
  assert (forall t r, runs !! t = Some r -> zlen r.1 = Z.of_nat (rounds t) /\ r.1 ⊆ InitPaths [] /\
    zlen r.2 = Z.of_nat (rounds t) / 1000) as Hok.
  { intros t r Ht. pose proof (lookup_lt_Some _ _ _ Ht).
    destruct (reader_samples (Z.of_nat t) (rounds t) (InitPaths []) (clocks t))
      as (p & l & E & Hp & Hsub & Hlat); [lia|reflexivity|apply Hb; lia|].
    rewrite (Hreaders t r Ht) in E. injection E as ->. simpl. rewrite Hp. done. }
  assert (Forall not_started ((WStart <$> wr.*1) ++ (RStart <$> concat runs.*1))) as Hns.
  { apply Forall_app. split; apply Forall_fmap, Forall_true; done. }
  cbv zeta. rewrite <- Hl. split; [|split; [|split]].
  - rewrite (runs_to_sum push_sample (fun l => zlen l) (fun _ => 1) runs.*2 [] latency_ns); [|by
      intros; unfold push_sample; rewrite length_app; cbn [length]; lia|done].
    rewrite sum_by_fmap. change (zlen []) with 0. rewrite Z.add_0_l.
    apply sum_by_lookup. intros t r Ht. rewrite sum_ones. apply (Hok t r Ht).
  - rewrite (read_all _ _ _ _ Hr), bind_app, writes_read_nothing, app_nil_l, starts_read, length_concat_sum, sum_by_fmap.
    apply sum_by_lookup. intros t r Ht. apply (Hok t r Ht).
  - destruct (rcu_inv_reachable k _ s ts Hns Hr) as [_ _ _ _ -> _].
    rewrite (returned_stored ts Hret), (written_all _ _ _ _ Hr), bind_app, writes_write, starts_write.
    rewrite app_nil_r, length_fmap. by apply writer_loop_length in Hw.
  - intros path nodes Hin.
    destruct (rcu_inv_reachable k _ s ts Hns Hr) as [_ _ _ _ _ Hpc].
    destruct (proj1 (Forall_forall _ _) Hpc _ Hin) as (l & _ & ->). apply query_finds.
    assert (path ∈ ts ≫= read_of) as Hp by (apply list_elem_of_bind; exists (RDone path (find_nodes (table_after l) path)); split; [by apply list_elem_of_singleton|done]).
    rewrite (read_all _ _ _ _ Hr), bind_app, writes_read_nothing, app_nil_l, starts_read in Hp.
    apply list_elem_of_In, in_concat in Hp as (ps & Hps%list_elem_of_In & Hp%list_elem_of_In).
    apply list_elem_of_fmap in Hps as (r & -> & [t Ht]%list_elem_of_lookup). by apply (Hok t r Ht).
Qed.

(** ** Witnesses *)

Definition path0 : bytes := service_path 0.
Definition reader_and_writer : list rpc := [RStart path0; WStart path0].

(** The reader copies the pointer, the writer stores, the reader looks up: it finds the
    old table. *)
Lemma reads_see_whole_tables_witness :
  exists s ts, rtc (rcu_threads RwLockBench) (Shared_new, reader_and_writer) (s, ts) /\
    ts = [RDone path0 (find_nodes MakeTestTable path0); WStored path0] /\ ~ data_race ts /\
    table s = table_after (written s) /\ written s ≡ₚ [path0].
Proof.
  assert (exists s, rtc (rcu_threads RwLockBench) (Shared_new, reader_and_writer)
    (s, [RDone path0 (find_nodes MakeTestTable path0); WStored path0])) as (s & Hr).
  { eexists.
    eapply rtc_l; [eapply (a_thread_steps _ _ _ 0); [reflexivity|by apply lock_shared]|].
    eapply rtc_l; [eapply (a_thread_steps _ _ _ 0); [reflexivity|by apply load_locked]|].
    eapply rtc_l; [eapply (a_thread_steps _ _ _ 0); [reflexivity|by apply unlock_shared]|].
    eapply rtc_l; [eapply (a_thread_steps _ _ _ 1); [reflexivity|by apply lock_write]|].
    eapply rtc_l; [eapply (a_thread_steps _ _ _ 1); [reflexivity|by apply copy]|].
    eapply rtc_l; [eapply (a_thread_steps _ _ _ 1); [reflexivity|by apply store_table]|].
    eapply rtc_l; [eapply (a_thread_steps _ _ _ 0); [reflexivity|by apply find_unlocked]|].
    apply rtc_refl. }
  exists s, [RDone path0 (find_nodes MakeTestTable path0); WStored path0].
  destruct (reads_see_whole_tables RwLockBench reader_and_writer s _ ltac:(repeat constructor) Hr)
    as (Hrace & _ & Ht & Hw).
  split; [exact Hr|]. split; [reflexivity|]. split; [exact Hrace|]. split; [exact Ht|exact Hw].
Defined.

Lemma one_write_runs k : exists s, rtc (rcu_threads k) (Shared_new, [WStart path0]) (s, [WDone path0]).
Proof.
  eexists.
  eapply rtc_l; [eapply (a_thread_steps _ _ _ 0); [reflexivity|by apply lock_write]|].
  eapply rtc_l; [eapply (a_thread_steps _ _ _ 0); [reflexivity|by apply copy]|].
  eapply rtc_l; [eapply (a_thread_steps _ _ _ 0); [reflexivity|by apply store_table]|].
  eapply rtc_l; [eapply (a_thread_steps _ _ _ 0); [reflexivity|by apply unlock_write]|].
  apply rtc_refl.
Qed.

Lemma schemes_agree_witness :
  exists s s', rtc (rcu_threads RCUBench) (Shared_new, [WStart path0]) (s, [WDone path0]) /\
    rtc (rcu_threads MutexBench) (Shared_new, [WStart path0]) (s', [WDone path0]) /\
    table s = table s'.
Proof.
  destruct (one_write_runs RCUBench) as (s & Hr). destruct (one_write_runs MutexBench) as (s' & Hr').
  exists s, s'. split; [exact Hr|]. split; [exact Hr'|].
  apply (schemes_agree RCUBench MutexBench [WStart path0] s [WDone path0] s' [WDone path0]);
    [repeat constructor|exact Hr|repeat constructor|exact Hr'|repeat constructor].
Defined.

Lemma benches_terminate_witness :
  exists s ts, rtc (rcu_threads RwLockBench) (Shared_new, reader_and_writer) (s, ts) /\
    Forall returned ts.
Proof.
  destruct (benches_terminate RwLockBench reader_and_writer Shared_new reader_and_writer 0)
    as (_ & _ & s & ts & Hr & Hret); [repeat constructor|constructor|].
  exists s, ts. split; [exact Hr|exact Hret].
Defined.

(** Two readers of 1500 and 999 rounds, and one write. *)
Definition two_rounds (t : nat) : nat := match t with O => 1500 | _ => 999 end.
Definition two_clocks (t k : nat) : Z * Z := (Z.of_nat k, Z.of_nat k + 7).

Lemma latency_bench_accounts_witness :
  exists latency_ns s ts,
    RunLatencyBench RwLockBench 2 500 (InitPaths []) two_rounds 1 latency_ns s ts /\
    zlen latency_ns = 1 /\ zlen (ts ≫= read_of) = 2499 /\ length (written s) = 1%nat.
Proof.
  assert (forall t : nat, Z.of_nat t < 2 -> Z.of_nat t * 13 + Z.of_nat (two_rounds t) < 2 ^ 31) as Hb.
  { intros [|[|t]]; cbn; lia. }
  destruct (reader_samples 0 1500 (InitPaths []) (two_clocks 0) ltac:(lia) ltac:(reflexivity) ltac:(lia))
    as (p0 & l0 & E0 & _).
  destruct (reader_samples 1 999 (InitPaths []) (two_clocks 1) ltac:(lia) ltac:(reflexivity) ltac:(lia))
    as (p1 & l1 & E1 & _).
  set (runs := [(p0, l0); (p1, l1)]).
  set (ops := (WStart <$> [path0]) ++ (RStart <$> concat runs.*1)).
  destruct (can_end RwLockBench ops Shared_new ops) as (s & ts & Hr & Hret);
    [apply Forall_app; split; apply Forall_fmap, Forall_true; done|apply rtc_refl|].
  pose proof (sequential_run push_sample runs.*2 []) as Hsam.
  assert (RunLatencyBench RwLockBench 2 500 (InitPaths []) two_rounds 1
    (acts push_sample (concat runs.*2) []) s ts) as Hrun.
  { apply (a_latency_bench RwLockBench 2 500 (InitPaths []) two_rounds 1 two_clocks (two_clocks 0) runs
      [(path0, 2000)]); [reflexivity| |vm_compute; reflexivity|exact Hsam|exact Hr|exact Hret].
    intros [|[|t]] r Ht; [| |done]; injection Ht as <-; [exact E0|exact E1]. }
  destruct (latency_bench_accounts RwLockBench 2 500 two_rounds 1 _ s ts Hb Hrun) as (H1 & H2 & H3 & _).
  exists (acts push_sample (concat runs.*2) []), s, ts. split; [exact Hrun|]. split; [exact H1|].
  split; [exact H2|exact H3].
Defined.

Lemma rcu_percentiles_witness :
  exists s, @ComputePercentiles insertion_sort [30; 10; 20] = Returns s /\ count s = 3.
Proof.
  destruct (rcu_percentiles insertion_sort insertion_sort [30; 10; 20] _ _ ltac:(discriminate)
    ltac:(vm_compute; reflexivity) ltac:(repeat constructor; discriminate) ltac:(vm_compute; reflexivity))
    as (s & E & _ & Hc & _).
  exists s. split; [exact E|exact Hc].
Defined.

Definition demo_stats (p50 p999 : Z) : LatencyStats :=
  mk_LatencyStats (d_of_Z p50) (d_of_Z p50) (d_of_Z p999) (d_of_Z p50) (d_of_Z p999) 1000.

Lemma conclusion_best_witness :
  best (demo_stats 100 900) (demo_stats 100 300) (demo_stats 200 800) = RwLockBench /\
  d_le (ratio_of RwLockBench (demo_stats 100 900) (demo_stats 100 300) (demo_stats 200 800))
       (ratio_of MutexBench (demo_stats 100 900) (demo_stats 100 300) (demo_stats 200 800)) = true.
Proof.
  split; [reflexivity|].
  apply (conclusion_best (demo_stats 100 900) (demo_stats 100 300) (demo_stats 200 800)).
  intros s Hs. rewrite !elem_of_cons in Hs. destruct Hs as [->|[->|[->|Hs]]];
    [..|by apply not_elem_of_nil in Hs]; eexists _, _; (split; [reflexivity|split; [reflexivity|lia]]).
Defined.

Lemma reader_samples_witness :
  exists paths latency_ns,
    reader 2 1500 (InitPaths []) (fun k => (Z.of_nat k, Z.of_nat k + 7)) = Returns (paths, latency_ns) /\
    length paths = 1500%nat /\ zlen latency_ns = 1.
Proof.
  destruct (reader_samples 2 1500 (InitPaths []) (fun k => (Z.of_nat k, Z.of_nat k + 7)) ltac:(lia)
    ltac:(reflexivity) ltac:(lia)) as (paths & lat & E & Hl & _ & Hc).
  exists paths, lat. split; [exact E|]. split; [exact Hl|]. exact Hc.
Defined.
