(* ===== verification/QpsMonitor.v ===== *)
(** * QpsMonitor: benchmark threads and the thread that watches them

    The part that [tools/qps_benchmark.cc], [example/caller/client.cc] and
    [example/caller/bench_client.cc] share: workers that add to atomic counters, a
    monitor thread that reads them every now and then and prints the difference, and
    [main], which joins the workers, clears [running] and joins the monitor. The
    three differ in a few statements, which the definitions distinguish by [tool]. *)

From S2P Require Import Prelude Threads Doubles OStream.

Inductive tool := QpsBenchmark | Client | BenchClient.

(** ** The counters *)

Record Counters := mk_Counters { success_count : Z; fail_count : Z; total_latency_us : Z }.
Definition Counters_zero : Counters := mk_Counters 0 0 0.

Inductive count_act := CSuccess | CFail | CLatency (us : Z).

Definition count_do (a : count_act) (c : Counters) : Counters :=
  match a with
  | CSuccess => {| c with success_count := i64 (success_count c + 1) |}
  | CFail => {| c with fail_count := i64 (fail_count c + 1) |}
  | CLatency us => {| c with total_latency_us := i64 (total_latency_us c + us) |}
  end.

(** ** A line of the monitor *)

Record Row := mk_Row {
  elapsed_sec : Z;
  delta_success : Z;
  delta_fail : Z;
  interval_qps : double;
  cumulative_qps : double;
  succ_qps : double;
  fail_qps : double;
  rate : double
}.

Definition milli_s : double := d_dec 1 3.

(** The success rate of an interval without calls. *)
Definition idle_rate (t : tool) : double :=
  match t with Client => d_zero | _ => d_of_Z 100 end.

(** The clock's readings are in nanoseconds. *)
Definition make_row (t : tool) (start_time prev_time now : Z)
    (prev_success prev_fail cur_success cur_fail : Z) : outcome Row :=
  let from_start := chrono_s (now - start_time) in
  let interval := chrono_s (now - prev_time) in
  let cur_total := cur_success + cur_fail in
  let delta_success := cur_success - prev_success in
  let delta_fail := cur_fail - prev_fail in
  let delta_total := delta_success + delta_fail in
  let interval_qps := d_div (d_of_Z delta_total) interval in
  let cumulative_qps := d_div (d_of_Z cur_total) (d_max milli_s from_start) in
  let succ_qps := d_div (d_of_Z delta_success) interval in
  let fail_qps := d_div (d_of_Z delta_fail) interval in
  let rate :=
    if delta_total >? 0 then
      d_div (d_mul (d_of_Z 100) (d_of_Z delta_success)) (d_of_Z delta_total)
    else idle_rate t in
  elapsed_sec ← to_int from_start;
  mret (mk_Row elapsed_sec delta_success delta_fail interval_qps cumulative_qps succ_qps fail_qps rate).

Definition delta_total (r : Row) : Z := delta_success r + delta_fail r.

(** ** The monitor's variables *)

Record Monitor := mk_Monitor {
  prev_time : Z;
  prev_success : Z;
  prev_fail : Z;
  rows : list Row;                  (* what it has printed *)
  qps_history : list double;
  success_rate_history : list double;
  latency_history : list double;    (* of qps_benchmark only *)
  peak_qps : double;                (* the next four of client.cc only *)
  min_qps : double;
  qps_sum : double;
  qps_samples : Z
}.

(** [1e18] and [1e17]. *)
Definition d_1e18 : double := d_of_Z (10 ^ 18).
Definition d_1e17 : double := d_of_Z (10 ^ 17).

Definition Monitor_new (start_time : Z) : Monitor :=
  mk_Monitor start_time 0 0 [] [] [] [] d_zero d_1e18 d_zero 0.

(** [if (interval.count() < 0.001) continue;], which [client.cc] does not have. *)
Definition too_short (t : tool) (m : Monitor) (now : Z) : bool :=
  match t with Client => false | _ => d_lt (chrono_s (now - prev_time m)) milli_s end.

(** [lat_us / 1000.0 / cur_success]. *)
Definition average_latency (lat_us cur_success : Z) : double :=
  if cur_success >? 0 then d_div (d_div (d_of_Z lat_us) (d_of_Z 1000)) (d_of_Z cur_success)
  else d_zero.

(** What is kept of an interval with calls. *)
Definition record_row (t : tool) (r : Row) (lat_us cur_success : Z) (m : Monitor) : Monitor :=
  let m := {| m with qps_history := qps_history m ++ [interval_qps r];
                     success_rate_history := success_rate_history m ++ [rate r] |} in
  match t with
  | QpsBenchmark =>
      {| m with latency_history := latency_history m ++ [average_latency lat_us cur_success] |}
  | Client =>
      {| m with peak_qps := d_max (peak_qps m) (interval_qps r);
                min_qps := d_min (min_qps m) (interval_qps r);
                qps_sum := d_add (qps_sum m) (interval_qps r);
                qps_samples := qps_samples m + 1 |}
  | BenchClient => m
  end.

(** The rest of the loop's body, given what it has loaded. *)
Definition tick (t : tool) (start_time : Z) (m : Monitor) (now cur_success cur_fail lat_us : Z) :
    outcome Monitor :=
  if too_short t m now then mret m
  else
    r ← make_row t start_time (prev_time m) now (prev_success m) (prev_fail m) cur_success cur_fail;
    let m := if delta_total r >? 0 then record_row t r lat_us cur_success m else m in
    mret {| m with rows := rows m ++ [r]; prev_time := now; prev_success := cur_success;
                   prev_fail := cur_fail |}.

(** ** The threads *)

(** Where the monitor is: at the loop's condition; asleep; with the clock read; with the
    successes loaded; with both loaded; returned. *)
Inductive monitor_pc :=
| MTop | MAsleep | MNow (now : Z) | MHaveS (now s : Z) | MHaveF (now s f : Z) | MEnd.

Record Sys := mk_Sys {
  workers : list (list count_act);
  counters : Counters;
  running : bool;
  monitor : Monitor;
  mpc : monitor_pc
}.

(** Does the monitor look at [running] again after its sleep? *)
Definition rechecks (t : tool) : bool := match t with QpsBenchmark => true | _ => false end.
(** Does it look at the interval before it loads the counters? *)
Definition checks_first (t : tool) : bool := match t with BenchClient => true | _ => false end.

(** The clock does not go back before the start, and a benchmark ends within nine
    years. *)
Definition uptime_ok (start_time now : Z) : Prop := start_time <= now < start_time + 2 ^ 58.

Inductive sys_step (t : tool) (start_time : Z) : Sys -> Sys -> Prop :=
| worker_acts ts c ts' c' run m pc :
    threads_step count_do (ts, c) (ts', c') ->
    sys_step t start_time (mk_Sys ts c run m pc) (mk_Sys ts' c' run m pc)
| monitor_goes_on ts c m :
    sys_step t start_time (mk_Sys ts c true m MTop) (mk_Sys ts c true m MAsleep)
| monitor_ends ts c m :
    sys_step t start_time (mk_Sys ts c false m MTop) (mk_Sys ts c false m MEnd)
| monitor_breaks ts c m :
    rechecks t = true ->
    sys_step t start_time (mk_Sys ts c false m MAsleep) (mk_Sys ts c false m MEnd)
| monitor_wakes ts c run m now :
    (rechecks t = true -> run = true) -> uptime_ok start_time now ->
    sys_step t start_time (mk_Sys ts c run m MAsleep) (mk_Sys ts c run m (MNow now))
| monitor_skips ts c run m now :
    checks_first t = true -> too_short t m now = true ->
    sys_step t start_time (mk_Sys ts c run m (MNow now)) (mk_Sys ts c run m MTop)
| monitor_loads_success ts c run m now :
    (checks_first t = true -> too_short t m now = false) ->
    sys_step t start_time (mk_Sys ts c run m (MNow now))
      (mk_Sys ts c run m (MHaveS now (success_count c)))
| monitor_loads_fail ts c run m now s :
    sys_step t start_time (mk_Sys ts c run m (MHaveS now s))
      (mk_Sys ts c run m (MHaveF now s (fail_count c)))
| monitor_ticks ts c run m now s f m' :
    tick t start_time m now s f (total_latency_us c) = Returns m' ->
    sys_step t start_time (mk_Sys ts c run m (MHaveF now s f)) (mk_Sys ts c run m' MTop)
| main_stops ts c m pc :
    all_ended ts ->
    sys_step t start_time (mk_Sys ts c true m pc) (mk_Sys ts c false m pc).

(** The state when the threads have been started, and the states in which [main] has
    joined them all. *)
Definition Sys_start (start_time : Z) (ts : list (list count_act)) : Sys :=
  mk_Sys ts Counters_zero true (Monitor_new start_time) MTop.
Definition joined (x : Sys) : Prop := all_ended (workers x) /\ running x = false /\ mpc x = MEnd.

(** ** The counters *)

Definition success_of (a : count_act) : Z := match a with CSuccess => 1 | _ => 0 end.
Definition fail_of (a : count_act) : Z := match a with CFail => 1 | _ => 0 end.
Definition successes (ts : list (list count_act)) : Z := sum_by (sum_by success_of) ts.
Definition failures (ts : list (list count_act)) : Z := sum_by (sum_by fail_of) ts.

Lemma sum_step ts c ts' c' :
  threads_step count_do (ts, c) (ts', c') ->
  exists a, c' = count_do a c /\
    forall w, sum_by (sum_by w) ts = w a + sum_by (sum_by w) ts'.
Proof.
  inversion 1 as [? ? i a rest Hi]; subst. exists a. split; [done|]. intros w.
  rewrite (sum_by_insert _ _ _ _ _ Hi). simpl. lia.
Qed.

Lemma weights_nonneg ts : 0 <= successes ts /\ 0 <= failures ts.
Proof.
  split; apply sum_by_nonneg, Forall_true; intros l; apply sum_by_nonneg, Forall_true; by intros [].
Qed.

(** What has been counted and what is left to count make the total; the counters do not
    wrap around, so they only grow. *)
Definition counted (ts0 ts : list (list count_act)) (c : Counters) : Prop :=
  0 <= success_count c /\ 0 <= fail_count c /\
  success_count c + successes ts = successes ts0 /\ fail_count c + failures ts = failures ts0.

Lemma counted_step ts0 ts c ts' c' :
  successes ts0 < 2 ^ 63 -> failures ts0 < 2 ^ 63 ->
  counted ts0 ts c -> threads_step count_do (ts, c) (ts', c') ->
  counted ts0 ts' c' /\ success_count c <= success_count c' /\ fail_count c <= fail_count c'.
Proof.
  intros Hs Hf (H1 & H2 & H3 & H4) Hstep. destruct (weights_nonneg ts') as [H5 H6].
  destruct (sum_step _ _ _ _ Hstep) as (a & -> & Ha).
  pose proof (Ha success_of) as Ha1. pose proof (Ha fail_of) as Ha2.
  unfold counted, successes, failures in *.
  destruct a; cbn in *; rewrite ?i64_small by (unfold i64_ok; lia); lia.
Qed.

(** ** The monitor's state *)

Definition rows_success (m : Monitor) : Z := sum_by delta_success (rows m).
Definition rows_fail (m : Monitor) : Z := sum_by delta_fail (rows m).

(** The rows of the intervals with calls. *)
Definition busy (rs : list Row) : list Row := filter (fun r => (delta_total r >? 0) = true) rs.

(** A row of a non-negative number of calls, with the numbers the code computes of them
    and an interval that is positive. *)
Definition row_ok (t : tool) (r : Row) : Prop :=
  0 <= delta_success r /\ 0 <= delta_fail r /\
  (t <> Client -> d_nonneg (interval_qps r) = true).

Record monitor_ok (t : tool) (start_time : Z) (m : Monitor) : Prop := {
  ok_success : rows_success m = prev_success m;
  ok_fail : rows_fail m = prev_fail m;
  ok_rows : Forall (row_ok t) (rows m);
  ok_time : prev_time m = start_time \/ uptime_ok start_time (prev_time m);
  ok_qps : qps_history m = interval_qps <$> busy (rows m);
  ok_rate : success_rate_history m = rate <$> busy (rows m);
  ok_latency : length (latency_history m) =
    match t with QpsBenchmark => length (busy (rows m)) | _ => 0%nat end;
  ok_client : t = Client ->
    peak_qps m = fold_left d_max (qps_history m) d_zero /\
    min_qps m = fold_left d_min (qps_history m) d_1e18 /\
    qps_sum m = fold_left d_add (qps_history m) d_zero /\
    qps_samples m = zlen (qps_history m)
}.

Lemma monitor_ok_new t start_time : monitor_ok t start_time (Monitor_new start_time).
Proof. split; cbn; auto; try constructor; by destruct t. Qed.

Lemma busy_snoc rs r : busy (rs ++ [r]) = busy rs ++ (if delta_total r >? 0 then [r] else []).
Proof. unfold busy. rewrite filter_app, filter_cons, filter_nil. by destruct (delta_total r >? 0). Qed.

Lemma tick_ok t start_time m now s f lat m' :
  monitor_ok t start_time m -> uptime_ok start_time now -> prev_success m <= s -> prev_fail m <= f ->
  tick t start_time m now s f lat = Returns m' ->
  monitor_ok t start_time m' /\ prev_success m' <= s /\ prev_fail m' <= f.
Proof.
  intros Hm Hnow Hs Hf. unfold tick. destruct (too_short t m now) eqn:Eshort.
  { intros [= <-]. done. }
  destruct Hm as [H1 H2 H3 H4 H5 H6 H7 H8].
  unfold make_row. destruct (to_int _) as [sec| | | |]; try done. cbn [mbind outcome_bind].
  set (r := mk_Row _ _ _ _ _ _ _ _). intros [= <-].
  assert (row_ok t r) as Hr.
  { split; [cbn; lia|]. split; [cbn; lia|]. intros Ht. cbn. apply d_div_nonneg.
    - destruct t; [|done|]; cbn in Eshort; apply (chrono_s_positive _ milli_s); try done;
        unfold uptime_ok in *; lia.
    - apply d_of_Z_nonneg. lia. }
  assert (delta_success r = s - prev_success m) as Ds by done.
  assert (delta_fail r = f - prev_fail m) as Df by done. clearbody r.
  split; [|cbn; lia].
  assert (Forall (row_ok t) (rows m ++ [r])) as Hrows by (apply Forall_app; rewrite Forall_singleton; done).
  assert (sum_by delta_success (rows m ++ [r]) = s) as Hss
    by (rewrite sum_by_app; unfold rows_success in *; simpl; lia).
  assert (sum_by delta_fail (rows m ++ [r]) = f) as Hff
    by (rewrite sum_by_app; unfold rows_fail in *; simpl; lia).
  destruct (delta_total r >? 0) eqn:Ed; destruct t; split; cbn; rewrite ?busy_snoc, ?Ed, ?app_nil_r,
    ?fmap_app, ?length_app, ?H5, ?H6, ?H7, ?fold_left_app; auto; try done; intros ?;
    destruct (H8 eq_refl) as (-> & -> & -> & ->); cbn; rewrite H5; repeat split; simpl; lia.
Qed.

(** ** The whole system *)

(** What the monitor holds of the counters is not ahead of them. *)
Definition pc_ok (start_time : Z) (m : Monitor) (c : Counters) (pc : monitor_pc) : Prop :=
  prev_success m <= success_count c /\ prev_fail m <= fail_count c /\
  match pc with
  | MNow now => uptime_ok start_time now
  | MHaveS now s => uptime_ok start_time now /\ prev_success m <= s <= success_count c
  | MHaveF now s f =>
      uptime_ok start_time now /\ prev_success m <= s <= success_count c /\
      prev_fail m <= f <= fail_count c
  | _ => True
  end.

Record sys_inv (t : tool) (start_time : Z) (ts0 : list (list count_act)) (x : Sys) : Prop := {
  inv_counted : counted ts0 (workers x) (counters x);
  inv_monitor : monitor_ok t start_time (monitor x);
  inv_pc : pc_ok start_time (monitor x) (counters x) (mpc x);
  inv_stopped : running x = false -> all_ended (workers x);
  inv_end : mpc x = MEnd -> running x = false
}.

Section System.
Context (t : tool) (start_time : Z) (ts0 : list (list count_act)).
Context (Hsuccess : successes ts0 < 2 ^ 63) (Hfail : failures ts0 < 2 ^ 63).

Lemma sys_inv_start : sys_inv t start_time ts0 (Sys_start start_time ts0).
Proof.
  split; cbn; try done. apply monitor_ok_new.
Qed.

Lemma sys_inv_step x y :
  sys_inv t start_time ts0 x -> sys_step t start_time x y -> sys_inv t start_time ts0 y.
Proof.
  intros [Hc Hm Hpc Hs He] Hstep.
  inversion Hstep as [ts c ts' c' run m pc Hw|ts c m|ts c m|ts c m Hr|ts c run m now Hr Hu|
    ts c run m now Hf Hsh|ts c run m now Hf|ts c run m now s|ts c run m now s f m' Ht|ts c m pc Hend];
    subst; cbn in *.
  - destruct (counted_step ts0 _ _ _ _ Hsuccess Hfail Hc Hw) as (Hc' & H1 & H2).
    split; cbn; try done.
    + destruct Hpc as (? & ? & Hpc). split; [lia|]. split; [lia|].
      destruct pc; first [done|lia|intuition lia].
    + intros ->. pose proof (Hs eq_refl) as Hend. inversion Hw as [? ? i a rest Hi]; subst.
      by apply (Forall_lookup_1 _ _ _ _ Hend) in Hi.
  - by split.
  - by split.
  - by split.
  - split; try done. destruct Hpc as (? & ? & _). by split.
  - split; try done. destruct Hpc as (? & ? & _). by split.
  - split; try done. destruct Hpc as (? & ? & Hu). split; [done|]. split; [done|]. cbn in *. split; [done|lia].
  - split; try done. destruct Hpc as (? & ? & Hu & ?). split; [done|]. split; [done|].
    split; [done|]. split; [done|]. cbn in *. lia.
  - destruct Hpc as (? & ? & Hu & ? & ?).
    destruct (tick_ok t start_time m now s f _ m' Hm Hu ltac:(lia) ltac:(lia) Ht) as (Hm' & ? & ?).
    split; try done. cbn. unfold pc_ok. lia.
  - split; try done.
Qed.

Lemma sys_inv_reachable x : rtc (sys_step t start_time) (Sys_start start_time ts0) x ->
  sys_inv t start_time ts0 x.
Proof. apply rtc_invariant; [apply sys_inv_start|apply sys_inv_step]. Qed.

End System.

(** C20. The monitor never shows more than has happened. At any moment of any interleaving,
    the successes and failures of the lines it has printed add up to the values that its
    last line was made from, which are at most the counters; no line has a negative number of
    calls; the histories are those of the lines with calls; and when all threads have
    been joined the counters are exactly the successes and failures of the workers. *)
Theorem monitor_accounts t start_time ts0 x :
  successes ts0 < 2 ^ 63 -> failures ts0 < 2 ^ 63 ->
  rtc (sys_step t start_time) (Sys_start start_time ts0) x ->
  rows_success (monitor x) = prev_success (monitor x) /\
  prev_success (monitor x) <= success_count (counters x) <= successes ts0 /\
  rows_fail (monitor x) = prev_fail (monitor x) /\
  prev_fail (monitor x) <= fail_count (counters x) <= failures ts0 /\
  Forall (row_ok t) (rows (monitor x)) /\
  qps_history (monitor x) = interval_qps <$> busy (rows (monitor x)) /\
  success_rate_history (monitor x) = rate <$> busy (rows (monitor x)) /\
  (joined x -> success_count (counters x) = successes ts0 /\ fail_count (counters x) = failures ts0).
Proof.
  intros Hs Hf Hr. destruct (sys_inv_reachable t start_time ts0 Hs Hf x Hr) as [Hc [] Hpc _ _].
  destruct Hc as (? & ? & ? & ?), Hpc as (? & ? & _). destruct (weights_nonneg (workers x)).
  do 7 (split; [done || lia|]). intros (He%all_ended_concat & _).
  assert (successes (workers x) = 0 /\ failures (workers x) = 0) as [? ?].
  { unfold successes, failures. rewrite <- !sum_by_concat, He. done. }
  lia.
Qed.

(** ** The joins *)

Section Joins.
Context (t : tool) (start_time : Z).

Lemma tick_returns m now s f lat :
  uptime_ok start_time now -> exists m', tick t start_time m now s f lat = Returns m'.
Proof.
  intros Hu. unfold tick, make_row. destruct (too_short t m now); [by eexists|].
  destruct (chrono_s_int (now - start_time)) as (z & -> & _); [unfold uptime_ok in *; lia|].
  by eexists.
Qed.

(** Once [running] is false the monitor reaches its end. *)
Lemma monitor_reaches_end ts c m pc :
  pc_ok start_time m c pc ->
  exists m', rtc (sys_step t start_time) (mk_Sys ts c false m pc) (mk_Sys ts c false m' MEnd).
Proof.
  assert (forall m, rtc (sys_step t start_time) (mk_Sys ts c false m MTop) (mk_Sys ts c false m MEnd)) as Htop
    by (intros; apply rtc_once; constructor).
  assert (forall m now s f, uptime_ok start_time now -> exists m',
    rtc (sys_step t start_time) (mk_Sys ts c false m (MHaveF now s f)) (mk_Sys ts c false m' MEnd)) as HF.
  { intros m0 now s f Hu. destruct (tick_returns m0 now s f (total_latency_us c) Hu) as (m' & Hm').
    exists m'. eapply rtc_l; [by econstructor|apply Htop]. }
  assert (forall m now s, uptime_ok start_time now -> exists m',
    rtc (sys_step t start_time) (mk_Sys ts c false m (MHaveS now s)) (mk_Sys ts c false m' MEnd)) as HS.
  { intros m0 now s Hu. destruct (HF m0 now s (fail_count c) Hu) as (m' & Hm').
    exists m'. eapply rtc_l; [by constructor|exact Hm']. }
  assert (forall m now, uptime_ok start_time now -> exists m',
    rtc (sys_step t start_time) (mk_Sys ts c false m (MNow now)) (mk_Sys ts c false m' MEnd)) as HN.
  { intros m0 now Hu. destruct (HS m0 now (success_count c) Hu) as (m' & Hm').
    destruct (checks_first t && too_short t m0 now) eqn:E.
    - apply andb_true_iff in E as [E1 E2]. exists m0. eapply rtc_l; [by constructor|apply Htop].
    - exists m'. eapply rtc_l; [|exact Hm']. constructor. intros E1. by rewrite E1 in E. }
  intros (_ & _ & Hpc). destruct pc as [| |now|now s|now s f|].
  - exists m. apply Htop.
  - destruct (rechecks t) eqn:E.
    + exists m. apply rtc_once. by constructor.
    + destruct (HN m start_time) as (m' & Hm'); [unfold uptime_ok; lia|].
      exists m'. eapply rtc_l; [|exact Hm']. constructor; [by rewrite E|unfold uptime_ok; lia].
  - by apply HN.
  - apply HS, Hpc.
  - apply HF, Hpc.
  - by exists m.
Qed.

Lemma workers_run_on ts c ts' c' run m pc :
  rtc (threads_step count_do) (ts, c) (ts', c') ->
  rtc (sys_step t start_time) (mk_Sys ts c run m pc) (mk_Sys ts' c' run m pc).
Proof.
  intros H. remember (ts, c) as x eqn:Ex. remember (ts', c') as y eqn:Ey. revert ts c Ex.
  induction H as [|x [ts1 c1] y Hs _ IH]; intros ts c ->; [by simplify_eq|].
  eapply rtc_l; [by apply worker_acts|by apply IH].
Qed.

End Joins.

(** C38. [main] is never stuck in its joins: from every state that is reached, the workers
    can run to their end, after which [main] clears [running], and the monitor
    returns. *)
Theorem main_can_join t start_time ts0 x :
  successes ts0 < 2 ^ 63 -> failures ts0 < 2 ^ 63 ->
  rtc (sys_step t start_time) (Sys_start start_time ts0) x ->
  exists y, rtc (sys_step t start_time) x y /\ joined y.
Proof.
  intros Hs Hf Hr. destruct (sequential_run count_do (workers x) (counters x)) as (ts' & Hw & Hend).
  destruct x as [ts c run m pc]. cbn in *. set (c' := acts count_do (concat ts) c) in *.
  pose proof (workers_run_on t start_time ts c ts' c' run m pc Hw) as H1.
  destruct (sys_inv_reachable t start_time ts0 Hs Hf (mk_Sys ts' c' run m pc)) as [_ _ Hpc _ _];
    [by etransitivity|]. cbn in Hpc.
  destruct (monitor_reaches_end t start_time ts' c' m pc Hpc) as (m' & H2).
  exists (mk_Sys ts' c' false m' MEnd). split; [|done]. etransitivity; [exact H1|].
  destruct run; [|exact H2]. eapply rtc_l; [by apply main_stops|exact H2].
Qed.

(** ** Witnesses *)

Definition two_workers : list (list count_act) := [[CSuccess; CLatency 250; CFail]; [CSuccess]].

(** One success is counted before the monitor wakes after two seconds, another between
    its two loads. *)
Lemma monitor_accounts_witness :
  exists x, rtc (sys_step QpsBenchmark 0) (Sys_start 0 two_workers) x /\
    success_count (counters x) = 2 /\ prev_success (monitor x) = 1 /\
    rows_success (monitor x) = prev_success (monitor x) /\
    prev_success (monitor x) <= success_count (counters x) <= 2.
Proof.
  assert (exists x, rtc (sys_step QpsBenchmark 0) (Sys_start 0 two_workers) x /\
    success_count (counters x) = 2 /\ prev_success (monitor x) = 1) as (x & Hx & H2 & H1).
  { eexists. split.
    - eapply rtc_l; [apply worker_acts, (a_thread_acts _ _ _ 0 CSuccess); reflexivity|].
      eapply rtc_l; [apply monitor_goes_on|].
      eapply rtc_l; [apply (monitor_wakes _ _ _ _ _ _ 2000000000); [done|unfold uptime_ok; lia]|].
      eapply rtc_l; [apply monitor_loads_success; discriminate|].
      eapply rtc_l; [apply worker_acts, (a_thread_acts _ _ _ 1 CSuccess); reflexivity|].
      eapply rtc_l; [apply monitor_loads_fail|].
      eapply rtc_l; [apply monitor_ticks; vm_compute; reflexivity|]. apply rtc_refl.
    - split; reflexivity. }
  exists x. split; [exact Hx|]. split; [exact H2|]. split; [exact H1|].
  destruct (monitor_accounts QpsBenchmark 0 two_workers x) as (Ha & Hb & _);
    [vm_compute; reflexivity|vm_compute; reflexivity|exact Hx|].
  split; [exact Ha|exact Hb].
Defined.

Lemma main_can_join_witness :
  exists y, rtc (sys_step Client 0) (Sys_start 0 two_workers) y /\ joined y.
Proof.
  apply (main_can_join Client 0 two_workers);
    [vm_compute; reflexivity|vm_compute; reflexivity|apply rtc_refl].
Defined.
