(* ===== verification/QpsStats.v ===== *)
(** * QpsStats: statistics of the sampled throughput

    What the benchmark clients compute of the monitor's history when all threads have
    been joined: peak, minimum, mean, deviation and stability, and the averages over
    segments of the history. [tools/qps_benchmark.cc], [example/caller/client.cc] and
    [example/caller/bench_client.cc] differ in details, which [tool] distinguishes. *)

From S2P Require Import Prelude CppString Threads Doubles OStream QpsMonitor.

(** ** Peak, minimum, deviation *)

(** The loop [for (double q : qps_history)]. *)
Definition history_peak (history : list double) : double := fold_left d_max history d_zero.
Definition history_min (history : list double) : double := fold_left d_min history d_1e18.
Definition history_sum (history : list double) : double := fold_left d_add history d_zero.

Record QpsStats := mk_QpsStats {
  st_samples : Z;
  st_peak : double;
  st_min : double;
  st_avg : double;
  st_stddev : double;
  st_stability : double
}.

(** The sum of the squared distances from the mean. *)
Definition squares (avg : double) (history : list double) : double :=
  fold_left (fun v q => d_add v (d_mul (d_sub q avg) (d_sub q avg))) history d_zero.

(** [avg > 0 ? (1.0 - stddev / avg) * 100.0 : 0.0]. *)
Definition stability_of (avg stddev : double) : double :=
  if d_gt avg d_zero then d_mul (d_sub (d_of_Z 1) (d_div stddev avg)) (d_of_Z 100) else d_zero.

(** [qps_benchmark.cc] and [bench_client.cc]: the sample deviation. *)
Definition sample_stats (qps_history : list double) : QpsStats :=
  let samples := i32 (zlen qps_history) in
  let avg := if samples >? 0 then d_div (history_sum qps_history) (d_of_Z samples) else d_zero in
  let variance := squares avg qps_history in
  let variance := if samples >? 1 then d_div variance (d_of_Z (samples - 1)) else variance in
  let stddev := d_sqrt variance in
  mk_QpsStats samples (history_peak qps_history) (history_min qps_history) avg stddev
    (stability_of avg stddev).

(** [client.cc], with at least one sample: the monitor's own peak, minimum and sum, and
    the population deviation. *)
Definition client_stats (m : Monitor) : QpsStats :=
  let avg := d_div (qps_sum m) (d_of_Z (qps_samples m)) in
  let stddev := d_sqrt (d_div (squares avg (qps_history m)) (d_of_Z (qps_samples m))) in
  mk_QpsStats (qps_samples m) (peak_qps m) (min_qps m) avg stddev (stability_of avg stddev).

(** [min_qps < 1e17 ? min_qps : 0.0]. *)
Definition shown_min (min_qps : double) : double :=
  if d_lt min_qps d_1e17 then min_qps else d_zero.

(** ** Segments *)

(** [qps_benchmark.cc], with five samples or more: the first and the last-but-one index
    of each segment; the last segment is the rest. *)
Definition bench_segments (samples : Z) : list (Z * Z) :=
  let seg_count := Z.min 5 samples in
  let seg_size := Z.quot samples seg_count in
  (fun seg : nat =>
     let start := Z.of_nat seg * seg_size in
     (start, if Z.of_nat seg =? seg_count - 1 then samples else start + seg_size))
  <$> seq 0 (Z.to_nat seg_count).

(** [client.cc]: the loop [for (seg = 0; seg < 5 && seg * samples_per_segment <
    qps_samples; ++seg)], from segment [seg] with [5 - seg] rounds left. *)
Fixpoint client_segments_from (rounds : nat) (seg samples_per_segment qps_samples size : Z) :
    list (Z * Z) :=
  match rounds with
  | O => []
  | S rounds =>
      if seg * samples_per_segment <? qps_samples then
        let start_idx := seg * samples_per_segment in
        (start_idx, Z.min (start_idx + samples_per_segment) size) ::
        client_segments_from rounds (seg + 1) samples_per_segment qps_samples size
      else []
  end.
Definition samples_per_segment (qps_samples : Z) : Z := Z.max 1 (Z.quot (i32 qps_samples) 5).
Definition client_segments (qps_samples size : Z) : list (Z * Z) :=
  client_segments_from 5 0 (samples_per_segment qps_samples) qps_samples size.

(** The indices [start <= j < end]. *)
Definition indices (seg : Z * Z) : list Z :=
  (fun k : nat => seg.1 + Z.of_nat k) <$> seq 0 (Z.to_nat (seg.2 - seg.1)).

(** The sum of the elements of a segment. *)
Definition seg_sum (v : list double) (seg : Z * Z) : outcome double :=
  for_each (fun sum j => q ← at_index v j; mret (d_add sum q)) d_zero (indices seg).

(** The number of marks: [std::min(std::max(bar_len, 1), 20)] of a part of the peak. *)
Definition bar_of (part : double) : outcome Z :=
  bar_len ← to_int part; mret (Z.min (Z.max bar_len 1) 20).
Definition bar_text (bar_len : Z) : item := Str (replicate (Z.to_nat bar_len) Byte.x23).

(** [seg_avg / std::max(0.1, peak_qps) * 20], and [client.cc]'s
    [seg_avg / (std::max(0.1, peak_qps) / 20)]. *)
Definition bench_part (seg_avg peak : double) : double :=
  d_mul (d_div seg_avg (d_max (d_dec 1 1) peak)) (d_of_Z 20).
Definition client_part (seg_avg peak : double) : double :=
  d_div seg_avg (d_div (d_max (d_dec 1 1) peak) (d_of_Z 20)).

(** ** Peak and minimum *)

Lemma fold_max_ok l : forall a, is_nan a = false -> Forall (fun q => is_nan q = false) l ->
  is_nan (fold_left d_max l a) = false /\ fold_left d_max l a ∈ a :: l /\
  forall q, q ∈ a :: l -> d_le q (fold_left d_max l a) = true.
Proof.
  induction l as [|b l IH]; intros a Ha Hl; simpl.
  { split; [done|]. split; [apply list_elem_of_here|].
    intros q ->%list_elem_of_singleton. by apply d_le_refl. }
  apply Forall_cons in Hl as [Hb Hl].
  assert (is_nan (d_max a b) = false) as Hm by (destruct (d_max_cases a b) as [-> | ->]; done).
  destruct (IH (d_max a b) Hm Hl) as (Hn & Hin & Hle). split; [done|].
  destruct (d_max_ub a b Ha Hb) as [Hma Hmb]. split.
  - apply elem_of_cons in Hin as [->|Hin]; [|set_solver].
    destruct (d_max_cases a b) as [-> | ->]; set_solver.
  - pose proof (Hle _ (list_elem_of_here _ _)) as Hd.
    intros q [->|[->|Hq]%elem_of_cons]%elem_of_cons.
    + by eapply d_le_trans; [..|exact Hma|].
    + by eapply d_le_trans; [..|exact Hmb|].
    + apply Hle. by apply list_elem_of_further.
Qed.

Lemma fold_min_ok l : forall a, is_nan a = false -> Forall (fun q => is_nan q = false) l ->
  is_nan (fold_left d_min l a) = false /\ fold_left d_min l a ∈ a :: l /\
  forall q, q ∈ a :: l -> d_le (fold_left d_min l a) q = true.
Proof.
  induction l as [|b l IH]; intros a Ha Hl; simpl.
  { split; [done|]. split; [apply list_elem_of_here|].
    intros q ->%list_elem_of_singleton. by apply d_le_refl. }
  apply Forall_cons in Hl as [Hb Hl].
  assert (is_nan (d_min a b) = false) as Hm by (destruct (d_min_cases a b) as [-> | ->]; done).
  destruct (IH (d_min a b) Hm Hl) as (Hn & Hin & Hle). split; [done|].
  destruct (d_min_lb a b Ha Hb) as [Hma Hmb]. split.
  - apply elem_of_cons in Hin as [->|Hin]; [|set_solver].
    destruct (d_min_cases a b) as [-> | ->]; set_solver.
  - pose proof (Hle _ (list_elem_of_here _ _)) as Hd.
    intros q [->|[->|Hq]%elem_of_cons]%elem_of_cons.
    + by eapply d_le_trans; [..|exact Hma].
    + by eapply d_le_trans; [..|exact Hmb].
    + apply Hle. by apply list_elem_of_further.
Qed.

(** The peak and the minimum of the report. In every state the monitor reaches, for the
    two tools that skip short intervals, each sample of the history is a number that is
    not negative, at most the peak and at least the minimum; the peak is a sample, or
    0; the minimum is a sample, or the 1e18 it starts from. *)
Theorem peak_and_minimum t start_time ts0 x :
  t <> Client -> successes ts0 < 2 ^ 63 -> failures ts0 < 2 ^ 63 ->
  rtc (sys_step t start_time) (Sys_start start_time ts0) x ->
  let history := qps_history (monitor x) in let st := sample_stats history in
  (forall q, q ∈ history ->
     d_le d_zero q = true /\ d_le (st_min st) q = true /\ d_le q (st_peak st) = true) /\
  (st_peak st = d_zero \/ st_peak st ∈ history) /\
  (st_min st = d_1e18 \/ st_min st ∈ history).
Proof.
  intros Ht Hs Hf Hr history st.
  destruct (sys_inv_reachable t start_time ts0 Hs Hf x Hr) as [_ [_ _ Hrows _ Hq _ _ _] _ _ _].
  assert (Forall (fun q => d_nonneg q = true) history) as Hnn.
  { unfold history. rewrite Hq. apply Forall_fmap, Forall_forall. intros r [_ Hin]%list_elem_of_filter.
    rewrite Forall_forall in Hrows. destruct (Hrows r Hin) as (_ & _ & H). by apply H. }
  assert (Forall (fun q => is_nan q = false) history) as Hn
    by (eapply Forall_impl; [exact Hnn|]; apply d_nonneg_not_nan).
  destruct (fold_max_ok history d_zero eq_refl Hn) as (_ & Hpin & Hple).
  destruct (fold_min_ok history d_1e18 eq_refl Hn) as (_ & Hmin & Hmle).
  split; [|split].
  - intros q Hin. split; [|split].
    + rewrite Forall_forall in Hnn. by apply d_nonneg_zero_le, Hnn.
    + by apply Hmle, list_elem_of_further.
    + by apply Hple, list_elem_of_further.
  - by apply elem_of_cons in Hpin.
  - by apply elem_of_cons in Hmin.
Qed.

(** ** Segments *)

(** The part of a history that a segment covers. *)
Definition segment {A} (v : list A) (seg : Z * Z) : list A := slice v seg.1 (seg.2 - seg.1).

Lemma slice_join {A} (v : list A) a b c :
  0 <= a <= b -> b <= c -> slice v a (b - a) ++ slice v b (c - b) = slice v a (c - a).
Proof.
  intros Hab Hbc. unfold slice.
  replace (Z.to_nat (c - a)) with (Z.to_nat (b - a) + Z.to_nat (c - b))%nat by lia.
  replace (Z.to_nat b) with (Z.to_nat a + Z.to_nat (b - a))%nat by lia.
  rewrite <- drop_drop. apply take_take_drop.
Qed.

Lemma for_each_at (v : list double) (start : nat) n : forall sum,
  (start + n <= length v)%nat ->
  for_each (fun sum j => q ← at_index v j; mret (d_add sum q)) sum
    ((fun k : nat => Z.of_nat start + Z.of_nat k) <$> seq 0 n) =
  Returns (fold_left d_add (take n (drop start v)) sum).
Proof.
  revert start. induction n as [|n IH]; intros start sum Hn; [done|].
  assert (is_Some (v !! start)) as [q Hq] by (apply lookup_lt_is_Some_2; lia).
  rewrite (drop_S v q start Hq). cbn [seq fmap list_fmap for_each take fold_left].
  assert (at_index v (Z.of_nat start + Z.of_nat 0) = Returns q) as ->
    by (unfold at_index; rewrite (proj2 (Z.ltb_ge _ _)) by lia;
        replace (Z.to_nat (Z.of_nat start + Z.of_nat 0)) with start by lia; by rewrite Hq).
  cbn [mbind outcome_bind mret outcome_ret].
  rewrite <- (IH (S start)) by lia. f_equal. rewrite <- fmap_S_seq, <- list_fmap_compose.
  apply list_fmap_ext. intros _ k _. cbn. lia.
Qed.

(** No index of a segment inside the history is out of bounds. *)
Lemma seg_sum_ok v seg :
  0 <= seg.1 <= seg.2 -> seg.2 <= zlen v ->
  seg_sum v seg = Returns (fold_left d_add (segment v seg) d_zero).
Proof.
  destruct seg as [a b]. cbn. intros Ha Hb. unfold seg_sum, indices, segment, slice. cbn [fst snd].
  rewrite <- for_each_at by lia. f_equal. apply list_fmap_ext. intros _ k _. lia.
Qed.

Lemma bench_segments_five n : 5 <= n ->
  let k := n / 5 in
  bench_segments n =
    [(0, k); (1 * k, 1 * k + k); (2 * k, 2 * k + k); (3 * k, 3 * k + k); (4 * k, n)].
Proof.
  intros Hn k. unfold bench_segments. by rewrite Z.min_l, Z.quot_div_nonneg by lia.
Qed.

(** The segments of [qps_benchmark.cc] are five parts of the history in order: none
    empty, none out of bounds, nothing twice and nothing left out. *)
Theorem bench_segments_partition (v : list double) :
  5 <= zlen v ->
  concat (segment v <$> bench_segments (zlen v)) = v /\ length (bench_segments (zlen v)) = 5%nat /\
  Forall (fun seg => segment v seg <> [] /\
    seg_sum v seg = Returns (fold_left d_add (segment v seg) d_zero)) (bench_segments (zlen v)).
Proof.
  intros Hn. pose proof (bench_segments_five (zlen v) Hn) as E. cbv zeta in E.
  set (n := zlen v) in *. set (k := n / 5) in *. rewrite !Z.mul_1_l in E. rewrite E.
  assert (0 < k) by (apply Z.div_str_pos; lia).
  assert (5 * k <= n) by (pose proof (Z_div_mod_eq_full n 5); pose proof (Z.mod_pos_bound n 5); lia).
  split; [|split; [done|]].
  - cbn [fmap list_fmap concat]. rewrite app_nil_r. unfold segment. cbn [fst snd].
    replace (3 * k + k - 3 * k) with (4 * k - 3 * k) by lia.
    replace (2 * k + k - 2 * k) with (3 * k - 2 * k) by lia.
    replace (k + k - k) with (2 * k - k) by lia.
    rewrite !slice_join by lia. apply slice_all; lia.
  - assert (forall a b, 0 <= a < b -> b <= n -> segment v (a, b) <> [] /\
      seg_sum v (a, b) = Returns (fold_left d_add (segment v (a, b)) d_zero)) as Hseg.
    { intros a b Ha Hb. split; [|apply seg_sum_ok; cbn; lia].
      unfold segment, slice. cbn [fst snd]. intros Hnil%(f_equal length).
      rewrite length_take, length_drop in Hnil. cbn in Hnil. lia. }
    repeat constructor; apply Hseg; lia.
Qed.

(** [client.cc] has no rest: with [n] samples, its segments are [Z.max 1 (n / 5)]
    samples each, and what follows the fifth is in none. *)
Lemma client_segments_from_covers {A} (v : list A) k n rounds : forall seg,
  0 < k -> 0 <= seg -> zlen v = n ->
  concat (segment v <$> client_segments_from rounds seg k n n) =
  slice v (seg * k) (Z.min n ((seg + Z.of_nat rounds) * k) - seg * k).
Proof.
  induction rounds as [|rounds IH]; intros seg Hk Hseg Hn; cbn [client_segments_from].
  { cbn. unfold slice. replace (Z.to_nat _) with 0%nat; [done|]. nia. }
  case_if; zbool.
  - cbn [fmap list_fmap concat]. rewrite IH by lia. unfold segment. cbn [fst snd].
    rewrite Nat2Z.inj_succ. replace (seg + Z.succ (Z.of_nat rounds)) with (seg + 1 + Z.of_nat rounds) by lia.
    destruct (decide (n <= seg * k + k)) as [Hle|Hgt].
    + rewrite (Z.min_r (seg * k + k)) by lia. rewrite (Z.min_l n) by nia.
      unfold slice at 2. rewrite (drop_ge v) by lia. rewrite take_nil, app_nil_r. done.
    + rewrite (Z.min_l (seg * k + k)) by lia. replace ((seg + 1) * k) with (seg * k + k) by lia.
      apply slice_join; nia.
  - unfold slice. rewrite drop_ge by lia. by rewrite take_nil.
Qed.

(** The averages of [client.cc]'s segments leave out the last samples: with five or more
    of them, the segments together cover only the first [5 * (n / 5)]; with fewer,
    each sample is a segment. *)
Theorem client_segments_cover {A} (v : list A) :
  zlen v < 2 ^ 31 ->
  let n := zlen v in
  concat (segment v <$> client_segments n n) =
    if n <? 5 then v else take (Z.to_nat (5 * (n / 5))) v.
Proof.
  intros Hlt n. unfold client_segments, samples_per_segment. rewrite i32_small by lia.
  rewrite Z.quot_div_nonneg by lia. rewrite (client_segments_from_covers v) by lia.
  rewrite Z.mul_0_l, Z.sub_0_r, Z.add_0_l.
  pose proof (Z_div_mod_eq_full n 5). pose proof (Z.mod_pos_bound n 5 ltac:(lia)).
  case_if; zbool.
  - apply slice_all; lia.
  - rewrite Z.max_r by lia. unfold slice. rewrite drop_0. f_equal. lia.
Qed.

Lemma bar_of_bounds part b : bar_of part = Returns b -> 1 <= b <= 20.
Proof. unfold bar_of. destruct (to_int part); try done. intros [= <-]. lia. Qed.

(** ** Witnesses *)

Lemma peak_and_minimum_witness :
  exists x, rtc (sys_step BenchClient 0) (Sys_start 0 two_workers) x /\
    length (qps_history (monitor x)) = 1%nat /\
    forall q, q ∈ qps_history (monitor x) ->
      d_le d_zero q = true /\ d_le (st_min (sample_stats (qps_history (monitor x)))) q = true /\
      d_le q (st_peak (sample_stats (qps_history (monitor x)))) = true.
Proof.
  assert (exists x, rtc (sys_step BenchClient 0) (Sys_start 0 two_workers) x /\
    length (qps_history (monitor x)) = 1%nat) as (x & Hx & H1).
  { eexists. split.
    - eapply rtc_l; [apply worker_acts, (a_thread_acts _ _ _ 0 CSuccess); reflexivity|].
      eapply rtc_l; [apply monitor_goes_on|].
      eapply rtc_l; [apply (monitor_wakes _ _ _ _ _ _ 1000000000); [done|unfold uptime_ok; lia]|].
      eapply rtc_l; [apply monitor_loads_success; reflexivity|].
      eapply rtc_l; [apply monitor_loads_fail|].
      eapply rtc_l; [apply monitor_ticks; vm_compute; reflexivity|]. apply rtc_refl.
    - reflexivity. }
  exists x. split; [exact Hx|]. split; [exact H1|].
  apply (peak_and_minimum BenchClient 0 two_workers x);
    [discriminate|vm_compute; reflexivity|vm_compute; reflexivity|exact Hx].
Defined.

Lemma bench_segments_partition_witness :
  concat (segment (d_of_Z <$> [3; 1; 4; 1; 5; 9; 2]) <$> bench_segments 7) =
    d_of_Z <$> [3; 1; 4; 1; 5; 9; 2].
Proof.
  destruct (bench_segments_partition (d_of_Z <$> [3; 1; 4; 1; 5; 9; 2])) as (E & _); [simpl; lia|].
  exact E.
Defined.

Lemma client_segments_cover_witness :
  concat (segment [3; 1; 4; 1; 5; 9; 2] <$> client_segments 7 7) = [3; 1; 4; 1; 5].
Proof.
  etransitivity; [apply (client_segments_cover [3; 1; 4; 1; 5; 9; 2]); simpl; lia|]. reflexivity.
Defined.
