(* ===== verification/QpsBench.v ===== *)
(** * QpsBench: the simulated throughput benchmark

    [tools/qps_benchmark.cc]: the latency simulator, the worker threads and the final
    report; the monitor and the threads' interleaving are [QpsMonitor], the statistics
    [QpsStats]. The pseudo-random generators and distributions of <random> are the
    library's: [Random] gives the value each draw yields. *)

From S2P Require Import Prelude CppString MiniMains Threads Doubles OStream QpsMonitor QpsStats.

(** ** LatencySimulator *)

(** The distribution objects of the simulator. *)
Inductive dist :=
| zk_dist | cache_dist | lb_dist | conn_dist | ser_dist | enc_dist | net_dist | dec_dist
| des_dist | tail_trigger | tail_dist.

(** A generator with the state of its distributions: seeded, and after a draw. *)
Class Random := {
  rng : Type;
  rng_seed : Z -> rng;
  rng_draw : dist -> rng -> double * rng;
  (* [std::uniform_real_distribution<>(0, 1)] of the worker's own generator *)
  rng_unit : rng -> double * rng
}.

Section Bench.
Context `{Random}.

Record LatencySimulator := mk_LatencySimulator { gen : rng; zk_hit : bool }.
Definition LatencySimulator_new (seed : Z) : LatencySimulator :=
  mk_LatencySimulator (rng_seed seed) false.

(** [total += std::abs(d(gen_))]. *)
Definition add_stage (d : dist) (total : double) (g : rng) : double * rng :=
  let '(x, g) := rng_draw d g in (d_add total (d_abs x), g).

Definition SimulateCall (sim : LatencySimulator) : double * LatencySimulator :=
  let total := d_zero in
  let g := gen sim in
  (* 1. discovery, 2. balancing *)
  let '(total, g) := add_stage (if zk_hit sim then cache_dist else zk_dist) total g in
  let '(total, g) := add_stage lb_dist total g in
  (* 3. connecting, the first time *)
  let '(total, g) := if zk_hit sim then (total, g) else add_stage conn_dist total g in
  (* 4. - 8. *)
  let '(total, g) := add_stage ser_dist total g in
  let '(total, g) := add_stage enc_dist total g in
  let '(total, g) := add_stage net_dist total g in
  let '(total, g) := add_stage dec_dist total g in
  let '(total, g) := add_stage des_dist total g in
  (* the long tail *)
  let '(trigger, g) := rng_draw tail_trigger g in
  let '(total, g) :=
    if d_lt trigger (d_dec 3 2) then
      let '(x, g) := rng_draw tail_dist g in (d_add total x, g)
    else (total, g) in
  (total, mk_LatencySimulator g true).

(** ** WorkerThread *)

(** The calls of one thread: what each does to the counters. The conversion of the
    latency to nanoseconds, for the sleep, and to microseconds is undefined when the
    value does not fit. *)
Fixpoint calls_loop (calls : nat) (sim : LatencySimulator) (fail_gen : rng) :
    outcome (list count_act) :=
  match calls with
  | O => mret []
  | S calls =>
      let '(latency_ms, sim) := SimulateCall sim in
      _ ← to_llong (d_mul latency_ms (d_of_Z 1000000));
      let '(u, fail_gen) := rng_unit fail_gen in
      acts ← (if d_lt u (d_dec 5 3) then mret [CFail]
              else
                us ← to_llong (d_mul latency_ms (d_of_Z 1000));
                mret [CSuccess; CLatency us]);
      rest ← calls_loop calls sim fail_gen;
      mret (acts ++ rest)
  end.

Definition WorkerThread (thread_id calls_per_thread : Z) : outcome (list count_act) :=
  calls_loop (Z.to_nat calls_per_thread) (LatencySimulator_new (42 + thread_id * 10007))
    (rng_seed (thread_id * 131)).

(** ** Output *)

Definition banner_items (thread_count calls_per_thread total_requests monitor_interval_ms : Z) :
    list item :=
  [endline;
   txt "╔══════════════════════════════════════════════════╗"; endline;
   txt "║       XRPC QPS Benchmark Tool v2.0              ║"; endline;
   txt "╠══════════════════════════════════════════════════╣"; endline;
   txt "║  Threads:       "; Setw 8; Int thread_count; txt "                       ║"; endline;
   txt "║  Calls/Thread:  "; Setw 8; Int calls_per_thread; txt "                       ║"; endline;
   txt "║  Total Calls:   "; Setw 8; Int total_requests; txt "                       ║"; endline;
   txt "║  Monitor Intvl: "; Setw 8; Int monitor_interval_ms; txt "ms                     ║"; endline;
   txt "╚══════════════════════════════════════════════════╝"; endline; endline].

Definition table_items : list item :=
  [txt "┌────────┬────────────┬────────────┬────────────┬────────────┬──────────────┐"; endline;
   txt "│  Time  │  Interval  │ Cumul. Avg │  Success   │    Fail    │ Success Rate │"; endline;
   txt "│   (s)  │    QPS     │    QPS     │    QPS     │    QPS     │              │"; endline;
   txt "├────────┼────────────┼────────────┼────────────┼────────────┼──────────────┤"; endline].

Definition row_items (r : Row) : list item :=
  [txt "│ "; Setw 6; Int (elapsed_sec r);
   txt " │ "; Setw 10; Fixed; SetPrecision 1; Dbl (interval_qps r);
   txt " │ "; Setw 10; Fixed; SetPrecision 1; Dbl (cumulative_qps r);
   txt " │ "; Setw 10; Fixed; SetPrecision 1; Dbl (succ_qps r);
   txt " │ "; Setw 10; Fixed; SetPrecision 1; Dbl (fail_qps r);
   txt " │ "; Setw 5; Fixed; SetPrecision 1; Dbl (rate r); txt "%       │"; endline].

(** The lines of the segments, with at least five samples. *)
Definition segment_items (m : Monitor) (peak : double) (seg : nat) (bounds : Z * Z) :
    outcome (list item) :=
  sum ← seg_sum (qps_history m) bounds;
  rate_sum ← seg_sum (success_rate_history m) bounds;
  lat_sum ← seg_sum (latency_history m) bounds;
  let seg_n := d_of_Z (bounds.2 - bounds.1) in
  let seg_avg := d_div sum seg_n in
  let seg_rate := d_div rate_sum seg_n in
  let seg_lat := d_div lat_sum seg_n in
  bar_len ← bar_of (bench_part seg_avg peak);
  mret [txt "║    Seg"; Int (Z.of_nat seg + 1);
        txt " ["; Setw 2; Int (bounds.1 + 1); txt "s-"; Setw 2; Int bounds.2; txt "s] ";
        Setw 8; Fixed; SetPrecision 1; Dbl seg_avg;
        txt " QPS  │ rate "; Setw 5; SetPrecision 1; Dbl seg_rate;
        txt "% │ lat "; Setw 6; SetPrecision 2; Dbl seg_lat;
        txt "ms │ "; bar_text bar_len; txt " ║"; endline].

Fixpoint all_segments (m : Monitor) (peak : double) (seg : nat) (bounds : list (Z * Z)) :
    outcome (list item) :=
  match bounds with
  | [] => mret []
  | b :: bounds =>
      line ← segment_items m peak seg b;
      rest ← all_segments m peak (S seg) bounds;
      mret (line ++ rest)
  end.

Definition segments_block (m : Monitor) (st : QpsStats) : outcome (list item) :=
  if st_samples st >=? 5 then
    let seg_count := Z.min 5 (st_samples st) in
    lines ← all_segments m (st_peak st) 0 (bench_segments (st_samples st));
    mret ([txt "║  [Segmented QPS Analysis — "; Int seg_count; txt " segments]"; endline] ++ lines)
  else mret [].

(** ** The report *)

(** What [main] has computed when it prints. *)
Record Report := mk_Report {
  final_success : Z;
  final_fail : Z;
  elapsed : double;
  overall_qps : double;
  success_qps : double;
  success_rate : double;
  avg_latency_ms : double;
  stats : QpsStats
}.
Definition final_total (r : Report) : Z := final_success r + final_fail r.

Definition make_report (c : Counters) (m : Monitor) (elapsed_ns : Z) : Report :=
  let s := success_count c in
  let f := fail_count c in
  let total := s + f in
  let elapsed := chrono_s elapsed_ns in
  mk_Report s f elapsed (d_div (d_of_Z total) elapsed) (d_div (d_of_Z s) elapsed)
    (if total >? 0 then d_div (d_mul (d_of_Z 100) (d_of_Z s)) (d_of_Z total) else d_zero)
    (average_latency (total_latency_us c) s) (sample_stats (qps_history m)).

Definition basic_items (total_requests : Z) (r : Report) : list item :=
  [txt "└────────┴────────────┴────────────┴────────────┴────────────┴──────────────┘"; endline; endline;
   txt "╔══════════════════════════════════════════════════════════════════╗"; endline;
   txt "║               QPS Benchmark — Final Report                      ║"; endline;
   txt "╠══════════════════════════════════════════════════════════════════╣"; endline;
   txt "║  [Basic Metrics]"; endline;
   txt "║    Total Requests:   "; Setw 12; Int total_requests; txt "                    ║"; endline;
   txt "║    Completed:        "; Setw 12; Int (final_total r); txt "                    ║"; endline;
   txt "║    Success:          "; Setw 12; Int (final_success r); txt "                    ║"; endline;
   txt "║    Fail:             "; Setw 12; Int (final_fail r); txt "                    ║"; endline;
   txt "║    Elapsed:          "; Setw 9; Fixed; SetPrecision 3; Dbl (elapsed r);
   txt " s                   ║"; endline;
   txt "║    Success Rate:     "; Setw 9; Fixed; SetPrecision 2; Dbl (success_rate r);
   txt " %                  ║"; endline;
   txt "║    Avg Latency:      "; Setw 9; Fixed; SetPrecision 3; Dbl (avg_latency_ms r);
   txt " ms                 ║"; endline;
   txt "╠══════════════════════════════════════════════════════════════════╣"; endline].

(** The coefficient of variation. *)
Definition cv (st : QpsStats) : double :=
  if d_gt (st_avg st) d_zero then d_mul (d_div (st_stddev st) (st_avg st)) (d_of_Z 100) else d_zero.

Definition qps_items (r : Report) : list item :=
  let st := stats r in
  [txt "║  [QPS Metrics]"; endline;
   txt "║    Overall QPS:      "; Setw 12; Fixed; SetPrecision 1; Dbl (overall_qps r);
   txt "  req/s            ║"; endline;
   txt "║    Success QPS:      "; Setw 12; Fixed; SetPrecision 1; Dbl (success_qps r);
   txt "  req/s            ║"; endline;
   txt "║    Peak QPS:         "; Setw 12; Fixed; SetPrecision 1; Dbl (st_peak st);
   txt "  req/s            ║"; endline;
   txt "║    Min QPS:          "; Setw 12; Fixed; SetPrecision 1; Dbl (shown_min (st_min st));
   txt "  req/s            ║"; endline;
   txt "║    Avg Interval QPS: "; Setw 12; Fixed; SetPrecision 1; Dbl (st_avg st);
   txt "  req/s            ║"; endline;
   txt "║    QPS StdDev:       "; Setw 12; Fixed; SetPrecision 1; Dbl (st_stddev st);
   txt "  req/s            ║"; endline;
   txt "║    QPS Stability:    "; Setw 9; Fixed; SetPrecision 1; Dbl (st_stability st);
   txt " %                  ║"; endline;
   txt "║    CV (波动系数):    "; Setw 9; Fixed; SetPrecision 1; Dbl (cv st);
   txt " %                  ║"; endline;
   txt "╠══════════════════════════════════════════════════════════════════╣"; endline].

(** The verdicts of the conclusions. *)
Definition stability_verdict (stability : double) : item :=
  if d_gt stability (d_of_Z 90) then
    txt "   → Excellent: QPS is very stable with minimal fluctuation."
  else if d_gt stability (d_of_Z 75) then
    txt "   → Good: QPS has moderate variation, acceptable for production."
  else txt "   → Warning: High QPS variance may indicate bottlenecks.".

Definition peak_min_ratio (st : QpsStats) : double :=
  if d_gt (st_min st) d_zero then d_div (st_peak st) (st_min st) else d_zero.
Definition consistent (st : QpsStats) : bool :=
  d_gt (st_min st) d_zero && d_lt (d_div (st_peak st) (st_min st)) (d_dec 13 1).
Definition jitter_verdict (st : QpsStats) : item :=
  if consistent st then txt "   → Consistent throughput, no significant jitter."
  else txt "   → Throughput varies between sampling intervals.".

Definition reliability_verdict (success_rate : double) : item :=
  if d_gt success_rate (d_dec 999 1) then txt "   → Service is highly reliable."
  else if d_gt success_rate (d_of_Z 99) then txt "   → Acceptable reliability with minor failures."
  else txt "   → Failure rate needs investigation.".

Definition theoretical_qps (thread_count : Z) (avg : double) : double :=
  d_div (d_mul (d_of_Z thread_count) (d_of_Z 1000)) (d_max (d_dec 1 2) avg).
Definition efficiency (thread_count : Z) (r : Report) : double :=
  if d_gt (avg_latency_ms r) (d_dec 1 2) then
    d_mul (d_div (d_div (d_mul (overall_qps r) (avg_latency_ms r)) (d_of_Z thread_count)) (d_of_Z 1000))
      (d_of_Z 100)
  else d_zero.

Definition conclusion_items (thread_count : Z) (r : Report) : list item :=
  [txt "=== Analysis & Conclusions ==="; endline; endline;
   txt "1. Average QPS: "; Fixed; SetPrecision 1; Dbl (overall_qps r); txt " req/s"; endline;
   txt "   (Effective success QPS: "; Dbl (success_qps r); txt " req/s)"; endline; endline;
   txt "2. QPS Stability: "; SetPrecision 1; Dbl (st_stability (stats r)); txt "%"; endline;
   stability_verdict (st_stability (stats r)); endline;
   endline; txt "3. Peak/Min Ratio: "; SetPrecision 1; Dbl (peak_min_ratio (stats r)); txt "x"; endline;
   jitter_verdict (stats r); endline;
   endline; txt "4. Average Latency: "; SetPrecision 2; Dbl (avg_latency_ms r); txt " ms"; endline;
   txt "   → Theoretical max QPS ("; Int thread_count; txt " threads): ";
   SetPrecision 0; Dbl (theoretical_qps thread_count (avg_latency_ms r));
   txt " req/s (Little's Law)"; endline;
   txt "   → Concurrency Efficiency: "; SetPrecision 1; Dbl (efficiency thread_count r); txt "%"; endline;
   endline; txt "5. Success Rate: "; SetPrecision 2; Dbl (success_rate r); txt "%"; endline;
   reliability_verdict (success_rate r); endline;
   endline; txt "=== Benchmark Complete ==="; endline].

(** ** main *)

Record Settings := mk_Settings { thread_count : Z; calls_per_thread : Z; monitor_interval_ms : Z }.
Definition settings (argv : list bytes) : Settings :=
  mk_Settings (int_arg argv 1 100) (int_arg argv 2 10000) (int_arg argv 3 1000).
Definition total_requests (s : Settings) : Z := thread_count s * calls_per_thread s.

Definition workers_of (s : Settings) (ops : list (list count_act)) : Prop :=
  length ops = Z.to_nat (thread_count s) /\
  forall i l, ops !! i = Some l -> WorkerThread (Z.of_nat i) (calls_per_thread s) = Returns l.

Definition final_items (s : Settings) (r : Report) (segs : list item) : list item :=
  basic_items (total_requests s) r ++ qps_items r ++ segs ++
  [txt "╚══════════════════════════════════════════════════════════════════╝"; endline; endline] ++
  conclusion_items (thread_count s) r.

(** What is printed before it: the banner, and the monitor's table ([main] prints nothing
    while the monitor runs). *)
Definition monitor_items (s : Settings) (rs : list Row) : list item :=
  banner_items (thread_count s) (calls_per_thread s) (total_requests s) (monitor_interval_ms s) ++
  table_items ++ concat (row_items <$> rs).

(** A run of [main], which returns 0: its settings, the workers' calls, the interleaving
    of the threads up to the joins, the monitor's rows and the whole output. *)
Inductive qps_main (argv : list bytes) (global_start global_end : Z) : list Row -> list item -> Prop :=
| qps_main_run ops x segs :
    let s := settings argv in
    workers_of s ops ->
    rtc (sys_step QpsBenchmark global_start) (Sys_start global_start ops) x -> joined x ->
    let r := make_report (counters x) (monitor x) (global_end - global_start) in
    segments_block (monitor x) (stats r) = Returns segs ->
    qps_main argv global_start global_end (rows (monitor x))
      (monitor_items s (rows (monitor x)) ++ final_items s r segs).

(** ** Accounting *)

Lemma calls_loop_accounts n : forall sim g l,
  calls_loop n sim g = Returns l -> sum_by success_of l + sum_by fail_of l = Z.of_nat n.
Proof.
  induction n as [|n IH]; intros sim g l; cbn [calls_loop]; [by injection 1 as <-|].
  destruct (SimulateCall sim) as [ms sim']. destruct (to_llong (d_mul ms (d_of_Z 1000000))); try done.
  cbn [mbind outcome_bind]. destruct (rng_unit g) as [u g']. rewrite Nat2Z.inj_succ.
  destruct (d_lt u (d_dec 5 3)); cbn [mbind outcome_bind mret outcome_ret].
  - destruct (calls_loop n sim' g') as [rest| | | |] eqn:E; try done.
    cbn [mbind outcome_bind mret outcome_ret]. intros Hl. injection Hl as <-. apply IH in E. simpl. lia.
  - destruct (to_llong (d_mul ms (d_of_Z 1000))); try done. cbn [mbind outcome_bind].
    destruct (calls_loop n sim' g') as [rest| | | |] eqn:E; try done.
    cbn [mbind outcome_bind mret outcome_ret]. intros Hl. injection Hl as <-. apply IH in E. simpl. lia.
Qed.

Lemma workers_account s ops :
  0 <= calls_per_thread s < 2 ^ 31 -> thread_count s < 2 ^ 31 -> workers_of s ops ->
  successes ops + failures ops = Z.max 0 (thread_count s) * calls_per_thread s /\
  successes ops < 2 ^ 63 /\ failures ops < 2 ^ 63.
Proof.
  intros Hc Ht [Hl Hw].
  assert (successes ops + failures ops = Z.max 0 (thread_count s) * calls_per_thread s) as Hsum.
  { unfold successes, failures.
    rewrite <- (sum_by_plus (fun l => sum_by success_of l + sum_by fail_of l)) by done.
    rewrite (sum_by_const _ (calls_per_thread s)); [f_equal; lia|].
    apply Forall_lookup. intros i l Hi. apply Hw, calls_loop_accounts in Hi. lia. }
  destruct (weights_nonneg ops). nia.
Qed.

(** The final report of the benchmark. In every run that returns, whatever the
    interleaving of workers and monitor, the successes and failures it reports add up
    to the total of the banner, and the lines of the monitor show, without negative
    numbers, at most those successes and failures. *)
Theorem qps_report_accounts argv global_start global_end rs out :
  let s := settings argv in
  0 <= thread_count s < 2 ^ 31 -> 0 <= calls_per_thread s < 2 ^ 31 ->
  qps_main argv global_start global_end rs out ->
  exists r segs, out = monitor_items s rs ++ final_items s r segs /\
    final_total r = total_requests s /\ 0 <= final_success r /\ 0 <= final_fail r /\
    Forall (fun row => 0 <= delta_success row /\ 0 <= delta_fail row) rs /\
    sum_by delta_success rs <= final_success r /\ sum_by delta_fail rs <= final_fail r.
Proof.
  intros s Ht Hc Hrun. inversion Hrun as [ops x segs s' Hw Hr Hj r Hsegs]; subst.
  destruct (workers_account s ops Hc ltac:(lia) Hw) as (Hsum & Hs & Hf).
  destruct (sys_inv_reachable QpsBenchmark global_start ops Hs Hf x Hr) as [Hcnt [Hms Hmf Hrows _ _ _ _ _] Hpc _ _].
  destruct Hcnt as (? & ? & ? & ?), Hpc as (? & ? & _).
  destruct Hj as (He%all_ended_concat & _).
  assert (successes (workers x) = 0 /\ failures (workers x) = 0) as [? ?]
    by (unfold successes, failures; rewrite <- !sum_by_concat, He; done).
  exists r, segs. split; [done|]. unfold final_total, total_requests. cbn [r make_report final_success final_fail].
  unfold rows_success, rows_fail in *.
  split; [lia|]. do 2 (split; [lia|]). split; [|lia].
  eapply Forall_impl; [exact Hrows|]. intros row (? & ? & _). lia.
Qed.

(** Without samples the report prints a peak of 0 and a minimum of 0, and yet concludes
    that the throughput is consistent: the conclusion takes the 1e18 that the minimum
    starts from for a measurement. *)
Theorem no_samples_consistent c m elapsed_ns :
  qps_history m = [] ->
  let st := stats (make_report c m elapsed_ns) in
  st_peak st = d_zero /\ shown_min (st_min st) = d_zero /\ st_samples st = 0 /\
  jitter_verdict st = txt "   → Consistent throughput, no significant jitter.".
Proof. intros Hq. unfold make_report. cbn [stats]. rewrite Hq. vm_compute. auto. Qed.

(** ** The simulated latency *)

(** A call's latency is a number that is not negative when the library's draws are
    numbers and the tail's are not negative; and the discovery is paid for once. *)
Lemma add_stage_nonneg d total g :
  (forall d g, is_nan (rng_draw d g).1 = false) -> d_nonneg total = true ->
  d_nonneg (add_stage d total g).1 = true.
Proof.
  intros Hn Ht. unfold add_stage. pose proof (Hn d g) as Hx. destruct (rng_draw d g) as [x g'].
  apply d_add_nonneg; [done|]. by destruct x as [| | |].
Qed.

Lemma SimulateCall_nonneg sim :
  (forall d g, is_nan (rng_draw d g).1 = false) ->
  (forall g, d_nonneg (rng_draw tail_dist g).1 = true) ->
  d_nonneg (SimulateCall sim).1 = true /\ zk_hit (SimulateCall sim).2 = true.
Proof.
  intros Hn Htail. unfold SimulateCall.
  assert (d_nonneg d_zero = true) as Ht by done. generalize dependent d_zero. intros total Ht.
  generalize (gen sim). intros g.
  assert (forall d total g, d_nonneg total = true ->
    exists total' g', add_stage d total g = (total', g') /\ d_nonneg total' = true) as Hs.
  { intros d t g0 H0. pose proof (add_stage_nonneg d t g0 Hn H0) as H1.
    destruct (add_stage d t g0) as [t' g']. by exists t', g'. }
  destruct (Hs (if zk_hit sim then cache_dist else zk_dist) _ g Ht) as (t1 & g1 & -> & H1).
  destruct (Hs lb_dist _ g1 H1) as (t2 & g2 & -> & H2).
  assert (exists t3 g3, (if zk_hit sim then (t2, g2) else add_stage conn_dist t2 g2) = (t3, g3) /\
    d_nonneg t3 = true) as (t3 & g3 & -> & H3) by (destruct (zk_hit sim); [by exists t2, g2|by apply Hs]).
  destruct (Hs ser_dist _ g3 H3) as (t4 & g4 & -> & H4). destruct (Hs enc_dist _ g4 H4) as (t5 & g5 & -> & H5).
  destruct (Hs net_dist _ g5 H5) as (t6 & g6 & -> & H6). destruct (Hs dec_dist _ g6 H6) as (t7 & g7 & -> & H7).
  destruct (Hs des_dist _ g7 H7) as (t8 & g8 & -> & H8).
  destruct (rng_draw tail_trigger g8) as [u g9]. destruct (d_lt u (d_dec 3 2)); [|done].
  pose proof (Htail g9) as Hx. destruct (rng_draw tail_dist g9) as [x g10]. split; [|done].
  by apply d_add_nonneg.
Qed.

End Bench.

(** ** Witnesses *)

(** Draws in turn 1, 2, 3, ... hundredths. *)
Definition demo_random : Random := {|
  rng := nat;
  rng_seed z := 0%nat;
  rng_draw d g := (d_dec (Z.of_nat (g mod 7 + 1)) 2, S g);
  rng_unit g := (d_dec (Z.of_nat (g mod 2)) 1, S g)
|}.

Section QpsBenchWitnesses.
#[local] Existing Instance demo_random.

Definition demo_argv : list bytes := [lit "qps_benchmark"; lit "2"; lit "2"].
Definition demo_ops : list (list count_act) :=
  (fun i => match WorkerThread i 2 with Returns l => l | _ => [] end) <$> [0; 1].

Lemma demo_workers : workers_of (settings demo_argv) demo_ops.
Proof.
  split; [reflexivity|]. intros i l Hi. destruct i as [|[|i]]; vm_compute in Hi; [| |done];
    injection Hi as <-; vm_compute; reflexivity.
Qed.

Lemma qps_report_accounts_witness :
  exists out, qps_main demo_argv 0 1000000000 [] out /\
    exists r segs, out = monitor_items (settings demo_argv) [] ++ final_items (settings demo_argv) r segs /\
      final_total r = 4.
Proof.
  destruct (sequential_run count_do demo_ops Counters_zero) as (ts & Hrun & Hend).
  set (c := acts count_do (concat demo_ops) Counters_zero) in *.
  assert (exists out, qps_main demo_argv 0 1000000000 [] out) as (out & H).
  { eexists.
    apply (qps_main_run demo_argv 0 1000000000 demo_ops (mk_Sys ts c false (Monitor_new 0) MEnd) []).
    - apply demo_workers.
    - etransitivity; [by apply workers_run_on|].
      eapply rtc_l; [by apply main_stops|]. eapply rtc_l; [apply monitor_ends|]. apply rtc_refl.
    - split; [exact Hend|]. split; reflexivity.
    - reflexivity. }
  exists out. split; [exact H|].
  destruct (qps_report_accounts demo_argv 0 1000000000 _ _ ltac:(vm_compute; split; [discriminate|reflexivity])
    ltac:(vm_compute; split; [discriminate|reflexivity]) H) as (r & segs & E & Htot & _).
  exists r, segs. split; [exact E|]. etransitivity; [exact Htot|]. reflexivity.
Defined.

Lemma no_samples_consistent_witness :
  jitter_verdict (stats (make_report Counters_zero (Monitor_new 0) 1)) =
    txt "   → Consistent throughput, no significant jitter.".
Proof. apply (no_samples_consistent Counters_zero (Monitor_new 0) 1). reflexivity. Defined.

End QpsBenchWitnesses.
