(* ===== verification/Logger.v ===== *)
(** * Logger: the project's stand-in for glog

    [src/src/include/xrpc/common/logger.h] ([stub_logger.h] and
    [tools/include/xrpc/common/logger.h] repeat it). A log statement builds its own
    stream and writes one line to the standard output when it ends; the flags are
    stored, and nothing reads them. The process's state is its output and its
    flags. *)

From S2P Require Import Prelude OStream.

Inductive LogSeverity := INFO | WARNING | ERROR | FATAL.

#[export] Instance LogSeverity_eq_dec : EqDecision LogSeverity.
Proof. solve_decision. Defined.

(** The enumerators' values. *)
Definition severity_value (severity : LogSeverity) : Z :=
  match severity with INFO => 0 | WARNING => 1 | ERROR => 2 | FATAL => 3 end.

(** [labels[severity]]. *)
Definition label (severity : LogSeverity) : bytes :=
  nth (Z.to_nat (severity_value severity)) [lit "I"; lit "W"; lit "E"; lit "F"] [].

Record Process := mk_Process {
  cout : bytes;
  FLAGS_colorlogtostderr : bool;
  FLAGS_logtostderr : bool;
  FLAGS_minloglevel : Z
}.
Definition Process_new : Process := mk_Process [] false true 0.

(** A log statement before it is written: its severity and what is put in it. *)
Definition LogLine : Type := LogSeverity * list item.

Section Logger.
Context `{GeneralFormat}.

(** The constructor, the statement's [<<]s on [stream()] and the destructor. *)
Definition LogMessage (line : LogLine) (p : Process) : Process :=
  let stream_ := [txt "["; Str (label line.1); txt "] "] ++ line.2 ++ [endline] in
  {| p with cout := cout p ++ render stream_ |}.

(** [LOG_IF(severity, condition)]. *)
Definition LOG_IF (condition : bool) (line : LogLine) (p : Process) : Process :=
  if negb condition then p else LogMessage line p.

Definition log_all (lines : list LogLine) (p : Process) : Process :=
  fold_left (fun p line => LogMessage line p) lines p.

(** [Logger(argv0)], its destructor and its functions. *)
Definition InitGoogleLogging (p : Process) : Process := p.
Definition ShutdownGoogleLogging (p : Process) : Process := p.
Definition Logger_ctor (p : Process) : Process :=
  let p := InitGoogleLogging p in
  {| p with FLAGS_colorlogtostderr := true; FLAGS_logtostderr := true;
            FLAGS_minloglevel := severity_value INFO |}.
Definition Logger_dtor (p : Process) : Process := ShutdownGoogleLogging p.
Definition Info (message : bytes) : Process -> Process := LogMessage (INFO, [Str message]).
Definition Warning (message : bytes) : Process -> Process := LogMessage (WARNING, [Str message]).
Definition Error (message : bytes) : Process -> Process := LogMessage (ERROR, [Str message]).
Definition Fatal (message : bytes) : Process -> Process := LogMessage (FATAL, [Str message]).

(** ** Lemmas *)

Lemma render_strings_then (a : bytes) (items : list item) :
  render (Str a :: items) = a ++ render items.
Proof.
  unfold render. change (puts ostate_new (Str a :: items)) with
    (let '(s', os) := puts ostate_new items in (pad_left Byte.x20 0 a ++ s', os)).
  unfold pad_left. replace (Z.to_nat (0 - zlen a)) with 0%nat by lia.
  by destruct (puts ostate_new items).
Qed.

(** A message goes out as it is, on a line of its own, with its severity's letter;
    nothing filters it, and even a fatal one returns to the caller. *)
Lemma message_line severity message p :
  cout (LogMessage (severity, [Str message]) p) =
    cout p ++ lit "[" ++ label severity ++ lit "] " ++ message ++ [Byte.x0a].
Proof.
  cbn [LogMessage cout fst snd]. unfold txt. cbn [app]. rewrite !render_strings_then.
  done.
Qed.

Lemma log_all_app lines lines' p : log_all (lines ++ lines') p = log_all lines' (log_all lines p).
Proof. apply fold_left_app. Qed.

End Logger.

Lemma label_injective s s' : label s = label s' -> s = s'.
Proof. destruct s, s'; done. Qed.
