(* ===== verification/RuntimeStats.v ===== *)
(** * RuntimeStats: per-stage timing statistics

    [src/src/monitor/runtime_stats.cc], [runtime_stats.h]. The first part has the
    operations as one thread runs them; the second interleaves the atomic
    operations of any number of threads in [Record] on one stage. An index outside
    the histogram is undefined, a step that a thread then cannot take
    ([recorders_not_stuck]: no thread comes to it). The report is in [StatsReport]. *)

From S2P Require Import Prelude Doubles Stages.

(** ** Constants *)

(** [1'000'000.0], [0.1] (its nearest double), [0.5], [0.95], [0.99]. *)
Definition million : double := d_of_Z 1000000.
Definition kBucketWidthMs : double := d_dec 1 1.
Definition d_half : double := d_dec 5 1.
Definition d_095 : double := d_dec 95 2.
Definition d_099 : double := d_dec 99 2.

(** ** State *)

Definition kHistBucketCount : Z := 300.
Definition STAGES_COUNT : Z := 9.

(** The counters of one stage. *)
Record StageStats := mk_StageStats {
  m_counts : Z;
  m_total_times : Z;
  m_max_times : Z;
  m_hist : list Z
}.

Definition StageStats_zero : StageStats := mk_StageStats 0 0 0 (repeat 0 300).

(** The constructor: every counter of every stage is 0. *)
Definition RuntimeStats : Type := list StageStats.
Definition RuntimeStats_new : RuntimeStats := repeat StageStats_zero 9.

(** ** Record *)

(** [static_cast<long long>(duration_ms * 1'000'000.0)]. *)
Definition to_ns (duration_ms : double) : outcome Z := to_llong (d_mul duration_ms million).

(** The histogram bucket of a duration. *)
Definition bucket_of (duration_ms : double) : outcome Z :=
  bucket ← to_int (d_div duration_ms kBucketWidthMs);
  let bucket := if bucket >=? kHistBucketCount then kHistBucketCount - 1 else bucket in
  mret (if bucket <? 0 then 0 else bucket).

(** [m_hist[stage][bucket]] is indexed without a check: an index that is not a
    bucket's is undefined. *)
Definition hist_add (h : list Z) (bucket : Z) : outcome (list Z) :=
  if bucket <? 0 then Undefined
  else
    match h !! Z.to_nat bucket with
    | None => Undefined
    | Some c => mret (<[Z.to_nat bucket := i64 (c + 1)]> h)
    end.

(** The atomic operations of [Record] on its stage. *)
Definition add_count (st : StageStats) : StageStats :=
  {| st with m_counts := i64 (m_counts st + 1) |}.
Definition add_total (ns : Z) (st : StageStats) : StageStats :=
  {| st with m_total_times := i64 (m_total_times st + ns) |}.
Definition add_hist (bucket : Z) (st : StageStats) : outcome StageStats :=
  h ← hist_add (m_hist st) bucket; mret {| st with m_hist := h |}.

(** The compare-and-swap loop when no other thread interferes: at most one swap. *)
Definition raise_max (ns : Z) (st : StageStats) : StageStats :=
  if ns >? m_max_times st then {| st with m_max_times := ns |} else st.

Definition Record_stage (st : StageStats) (duration_ms : double) : outcome StageStats :=
  let st := add_count st in
  ns ← to_ns duration_ms;
  let st := add_total ns st in
  let st := raise_max ns st in
  bucket ← bucket_of duration_ms;
  add_hist bucket st.

Definition Record_ (s : RuntimeStats) (stage : Stage) (duration_ms : double) : outcome RuntimeStats :=
  match s !! stage_value stage with
  | None => Undefined
  | Some st => st ← Record_stage st duration_ms; mret (<[stage_value stage := st]> s)
  end.

(** [ScopedTimer]: its stage and the clock at its construction, in nanoseconds; the
    destructor records the milliseconds until the clock it reads. *)
Record ScopedTimer := mk_ScopedTimer { stage : Stage; start_ns : Z }.
Definition elapsed_ms (start_ns end_ns : Z) : double := d_div (d_of_Z (end_ns - start_ns)) million.
Definition ScopedTimer_dtor (t : ScopedTimer) (end_ns : Z) (s : RuntimeStats) : outcome RuntimeStats :=
  Record_ s (stage t) (elapsed_ms (start_ns t) end_ns).

(** ** ComputePercentiles *)

Record PercentileResult := mk_Percentiles {
  p50_ms : double;
  p95_ms : double;
  p99_ms : double;
  max_ms : double;
  avg_ms : double;
  count : Z
}.

Definition PercentileResult_zero : PercentileResult :=
  mk_Percentiles d_zero d_zero d_zero d_zero d_zero 0.

(** [(i + 0.5) * kBucketWidthMs]. *)
Definition midpoint (i : Z) : double := d_mul (d_add (d_of_Z i) d_half) kBucketWidthMs.

(** The loop over the buckets: the bucket in which each target is reached ([None]:
    not found), with the [break] at the last of them. *)
Record Found := mk_Found { found_p50 : option Z; found_p95 : option Z; found_p99 : option Z }.

Definition reach (found : option Z) (cumulative target i : Z) : option Z :=
  match found with
  | Some b => Some b
  | None => if cumulative >=? target then Some i else None
  end.

Fixpoint percentile_loop (hist : list Z) (i cumulative t50 t95 t99 : Z) (f : Found) : Found :=
  match hist with
  | [] => f
  | bucket_count :: hist =>
      let cumulative := cumulative + bucket_count in
      let f := mk_Found (reach (found_p50 f) cumulative t50 i)
        (reach (found_p95 f) cumulative t95 i) (reach (found_p99 f) cumulative t99 i) in
      match found_p99 f with
      | Some _ => f
      | None => percentile_loop hist (i + 1) cumulative t50 t95 t99 f
      end
  end.

Definition ms_of (found : option Z) : double :=
  match found with Some i => midpoint i | None => d_zero end.

(** The three target ranks. *)
Definition targets (count : Z) : outcome (Z * Z * Z) :=
  p50_target ← to_llong (d_mul (d_of_Z count) d_half);
  p95_target ← to_llong (d_mul (d_of_Z count) d_095);
  p99_target ← to_llong (d_mul (d_of_Z count) d_099);
  mret (p50_target, p95_target, p99_target).

Definition ComputePercentiles (st : StageStats) : outcome PercentileResult :=
  if m_counts st =? 0 then mret PercentileResult_zero
  else
    let c := d_of_Z (m_counts st) in
    let avg := d_div (d_div (d_of_Z (m_total_times st)) million) c in
    let max := d_div (d_of_Z (m_max_times st)) million in
    '(p50_target, p95_target, p99_target) ← targets (m_counts st);
    let f := percentile_loop (m_hist st) 0 0 p50_target p95_target p99_target
      (mk_Found None None None) in
    mret (mk_Percentiles (ms_of (found_p50 f)) (ms_of (found_p95 f)) (ms_of (found_p99 f))
      max avg (m_counts st)).

(** ** Record with threads

    The atomic operations of [Record] on one stage, interleaved. A thread is at the
    count, the total, the load of the maximum, the loop's condition and
    compare-and-swap with the value [old_max] it has seen, the histogram, or done. *)

Inductive record_pc := RCount | RTotal | RLoad | RCas (old_max : Z) | RHist | RDone.

Record recorder := mk_recorder { r_ns : Z; r_bucket : Z; r_pc : record_pc }.

(** What the thread does at its next operation. [compare_exchange_weak] writes when
    the maximum is [old_max] and may fail even then; when it fails it reloads. *)
Inductive record_step (ns bucket : Z) : StageStats -> record_pc -> StageStats -> record_pc -> Prop :=
| step_count st : record_step ns bucket st RCount (add_count st) RTotal
| step_total st : record_step ns bucket st RTotal (add_total ns st) RLoad
| step_load st : record_step ns bucket st RLoad st (RCas (m_max_times st))
| step_exit st old_max : ns <= old_max -> record_step ns bucket st (RCas old_max) st RHist
| step_swap st :
    ns > m_max_times st ->
    record_step ns bucket st (RCas (m_max_times st)) {| st with m_max_times := ns |} RHist
| step_retry st old_max :
    ns > old_max -> record_step ns bucket st (RCas old_max) st (RCas (m_max_times st))
| step_hist st st' : add_hist bucket st = Returns st' -> record_step ns bucket st RHist st' RDone.

Definition RecSys : Type := StageStats * list recorder.

Inductive recorders_step : RecSys -> RecSys -> Prop :=
| a_recorder_steps st rs i r st' pc' :
    rs !! i = Some r ->
    record_step (r_ns r) (r_bucket r) st (r_pc r) st' pc' ->
    recorders_step (st, rs) (st', <[i := {| r with r_pc := pc' |}]> rs).

Definition start (job : Z * Z) : recorder := mk_recorder job.1 job.2 RCount.
Definition finished (r : recorder) : Prop := r_pc r = RDone.

(** The same calls one after the other. *)
Fixpoint record_seq (st : StageStats) (durations : list double) : outcome StageStats :=
  match durations with
  | [] => mret st
  | d :: durations => st ← Record_stage st d; record_seq st durations
  end.

(** The nanoseconds and the bucket of a duration. *)
Definition job_of (d : double) (job : Z * Z) : Prop :=
  to_ns d = Returns job.1 /\ bucket_of d = Returns job.2.

(** Every counter holds a [long long]. *)
Definition stats_wf (st : StageStats) : Prop :=
  m_counts st = i64 (m_counts st) /\ m_total_times st = i64 (m_total_times st) /\
  Forall (fun c => c = i64 c) (m_hist st).

(** ** Lemmas: Record *)

(** The histogram operation on a bucket that is there. *)
Definition bump (h : list Z) (bucket : Z) : list Z :=
  alter (fun c => i64 (c + 1)) (Z.to_nat bucket) h.
Definition put_hist (bucket : Z) (st : StageStats) : StageStats :=
  {| st with m_hist := bump (m_hist st) bucket |}.
Definition bucket_in (h : list Z) (bucket : Z) : Prop := 0 <= bucket < zlen h.

Lemma length_bump h bucket : length (bump h bucket) = length h.
Proof. apply length_alter. Qed.

Lemma add_hist_spec bucket st :
  (bucket_in (m_hist st) bucket /\ add_hist bucket st = Returns (put_hist bucket st)) \/
  (~ bucket_in (m_hist st) bucket /\ add_hist bucket st = Undefined).
Proof.
  unfold add_hist, put_hist, hist_add, bump, bucket_in. case_if as E; [right; split; [lia|done]|].
  destruct (m_hist st !! Z.to_nat bucket) as [c|] eqn:Hc; cbn.
  - left. apply lookup_lt_Some in Hc as Hlt. split; [lia|]. do 3 f_equal.
    apply list_eq. intros k. destruct (decide (Z.to_nat bucket = k)) as [<-|Hne].
    + by rewrite list_lookup_insert_eq, list_lookup_alter_eq, Hc.
    + by rewrite list_lookup_insert_ne, list_lookup_alter_ne.
  - right. apply lookup_ge_None in Hc. split; [lia|done].
Qed.

Lemma add_hist_in bucket st :
  bucket_in (m_hist st) bucket -> add_hist bucket st = Returns (put_hist bucket st).
Proof. by destruct (add_hist_spec bucket st) as [[_ ?]|[? _]]. Qed.

Lemma add_hist_inv bucket st st' :
  add_hist bucket st = Returns st' ->
  bucket_in (m_hist st) bucket /\ st' = put_hist bucket st.
Proof. destruct (add_hist_spec bucket st) as [[? ->]|[_ ->]]; [by intros [= <-]|done]. Qed.

(** One sequential call, given the duration's nanoseconds and bucket. *)
Definition record_job (st : StageStats) (job : Z * Z) : StageStats :=
  put_hist job.2 (raise_max job.1 (add_total job.1 (add_count st))).
Definition record_all (st : StageStats) (jobs : list (Z * Z)) : StageStats :=
  fold_left record_job jobs st.

Lemma m_hist_job st job : m_hist (record_job st job) = bump (m_hist st) job.2.
Proof. unfold record_job, raise_max. simpl. by case_if. Qed.

Lemma Record_stage_job st d job :
  job_of d job -> bucket_in (m_hist st) job.2 -> Record_stage st d = Returns (record_job st job).
Proof.
  intros [Hns Hb] Hin. unfold Record_stage. rewrite Hns, Hb. simpl.
  rewrite add_hist_in; [done|]. unfold raise_max. by case_if.
Qed.

Lemma record_seq_all durations jobs :
  Forall2 job_of durations jobs ->
  forall st, Forall (fun job => bucket_in (m_hist st) job.2) jobs ->
  record_seq st durations = Returns (record_all st jobs).
Proof.
  induction 1 as [|d job durations jobs Hj _ IH]; intros st Hin; [done|]. simpl.
  apply Forall_cons in Hin as [Hin Hrest]. rewrite (Record_stage_job _ _ job) by done. simpl.
  apply IH. unfold bucket_in in *. by rewrite m_hist_job, length_bump.
Qed.

Definition bucket_ok (job : Z * Z) : Prop := 0 <= job.2 < kHistBucketCount.

Lemma bucket_of_range d b : bucket_of d = Returns b -> 0 <= b < kHistBucketCount.
Proof.
  unfold bucket_of, kHistBucketCount. destruct (to_int _) as [z| | | |]; try done.
  cbn [mbind outcome_bind]. intros [= <-]. repeat case_if; lia.
Qed.

Lemma job_of_ok d job : job_of d job -> bucket_ok job.
Proof. intros [_ H]. exact (bucket_of_range _ _ H). Qed.

(** What the threads that have passed an operation have contributed. *)
Definition counted (r : recorder) : Z := match r_pc r with RCount => 0 | _ => 1 end.
Definition totalled (r : recorder) : Z :=
  match r_pc r with RCount | RTotal => 0 | _ => r_ns r end.
Definition in_hist (k : nat) (r : recorder) : Z :=
  match r_pc r with
  | RDone => if decide (Z.to_nat (r_bucket r) = k) then 1 else 0
  | _ => 0
  end.
Definition max_ok (m : Z) (r : recorder) : Prop :=
  match r_pc r with RCas old_max => old_max <= m | RHist | RDone => r_ns r <= m | _ => True end.

Arguments counted !r /.
Arguments totalled !r /.
Arguments in_hist k !r /.

Record rec_inv (b : StageStats) (st : StageStats) (rs : list recorder) : Prop := {
  inv_count : m_counts st = i64 (m_counts b + sum_by counted rs);
  inv_total : m_total_times st = i64 (m_total_times b + sum_by totalled rs);
  inv_length : length (m_hist st) = length (m_hist b);
  inv_hist k c : m_hist b !! k = Some c ->
    m_hist st !! k = Some (i64 (c + sum_by (in_hist k) rs));
  inv_ge : m_max_times b <= m_max_times st;
  inv_reached : m_max_times st = m_max_times b \/
    exists r, r ∈ rs /\ m_max_times st = r_ns r;
  inv_ok : Forall (max_ok (m_max_times st)) rs
}.

Lemma max_ok_le m m' rs : m <= m' -> Forall (max_ok m) rs -> Forall (max_ok m') rs.
Proof.
  intros Hle H. eapply Forall_impl; [exact H|].
  intros r. unfold max_ok. destruct (r_pc r); lia.
Qed.

Lemma hist_lookup h k bucket c :
  h !! k = Some c ->
  bump h bucket !! k = Some (if decide (Z.to_nat bucket = k) then i64 (c + 1) else c).
Proof.
  intros Hc. unfold bump. destruct (decide (Z.to_nat bucket = k)) as [->|Hne].
  - by rewrite list_lookup_alter_eq, Hc.
  - by rewrite list_lookup_alter_ne, Hc.
Qed.

(** One operation of a thread. *)
Lemma rec_inv_step b st rs i r st' pc' :
  rs !! i = Some r -> record_step (r_ns r) (r_bucket r) st (r_pc r) st' pc' ->
  rec_inv b st rs -> rec_inv b st' (<[i := {| r with r_pc := pc' |}]> rs).
Proof.
  intros Hi Hstep [Hc Ht Hl Hh Hg Hm Ho].
  pose proof (Forall_lookup_1 _ _ _ _ Ho Hi) as Hr.
  destruct r as [ns bucket pc]; simpl in *.
  assert (Hsum : forall f pc', sum_by f (<[i := mk_recorder ns bucket pc']> rs) =
      sum_by f rs - f (mk_recorder ns bucket pc) + f (mk_recorder ns bucket pc'))
    by (intros; by apply sum_by_insert).
  assert (Hin : forall st pc', (m_max_times st = m_max_times b \/
        exists r, r ∈ rs /\ m_max_times st = r_ns r) ->
      m_max_times st = m_max_times b \/
        exists r, r ∈ <[i := mk_recorder ns bucket pc']> rs /\ m_max_times st = r_ns r).
  { intros st0 pc0 [|[r [[j Hj]%list_elem_of_lookup Hr']]]; [by left|right].
    destruct (decide (i = j)) as [<-|Hne].
    - rewrite Hi in Hj. injection Hj as <-. exists (mk_recorder ns bucket pc0). split; [|done].
      apply list_elem_of_lookup. exists i. apply list_lookup_insert_eq.
      by apply lookup_lt_Some in Hi.
    - exists r. split; [|done]. apply list_elem_of_lookup. exists j.
      by rewrite list_lookup_insert_ne. }
  assert (Hok : forall m pc', m_max_times st <= m -> max_ok m (mk_recorder ns bucket pc') ->
      Forall (max_ok m) (<[i := mk_recorder ns bucket pc']> rs)).
  { intros. apply Forall_insert; [by eapply max_ok_le|done]. }
  inversion Hstep as [| | | | | |? ? Hadd]; subst;
    try (apply add_hist_inv in Hadd as [_ ->]); split; simpl; rewrite ?Hsum, ?Hc, ?Ht, ?length_bump; simpl;
    rewrite ?i64_add; try (f_equal; lia); auto; try lia;
    try (intros k c Hk; rewrite Hsum; simpl);
    try (rewrite (Hh k c Hk); do 2 f_equal; lia);
    try (apply Hok; unfold max_ok in *; simpl in *; lia).
  - right. exists (mk_recorder ns bucket RHist). split; [|done].
    apply list_elem_of_lookup. exists i. apply list_lookup_insert_eq.
    by apply lookup_lt_Some in Hi.
  - rewrite (hist_lookup _ _ _ _ (Hh k c Hk)).
    case_decide; [rewrite i64_add|]; do 2 f_equal; lia.
Qed.

Lemma sum_by_start f jobs :
  (forall job, f (start job) = 0) -> sum_by f (start <$> jobs) = 0.
Proof. intros Hf. induction jobs as [|job jobs IH]; simpl; [done|]. rewrite Hf. exact IH. Qed.

Lemma rec_inv_start b jobs : stats_wf b -> rec_inv b b (start <$> jobs).
Proof.
  intros (Hc & Ht & Hh). split; rewrite ?sum_by_start, ?Z.add_0_r by done; auto; try lia.
  - intros k c Hk. rewrite sum_by_start, Z.add_0_r by done.
    rewrite Hk. f_equal. eapply Forall_lookup_1 in Hh; eauto.
  - apply Forall_fmap, Forall_forall. intros job _. done.
Qed.

Definition done_ (job : Z * Z) : recorder := mk_recorder job.1 job.2 RDone.

(** One sequential call. *)
Lemma rec_inv_job b st rs job :
  rec_inv b st rs -> rec_inv b (record_job st job) (rs ++ [done_ job]).
Proof.
  intros [Hc Ht Hl Hh Hg Hm Ho]. destruct job as [ns bucket].
  assert (Hmax : m_max_times (record_job st (ns, bucket)) = Z.max ns (m_max_times st)).
  { unfold record_job, raise_max, put_hist, add_total, add_count. simpl.
    case_if; simpl; lia. }
  split; rewrite ?sum_by_app, ?Hmax; try lia.
  - unfold record_job, raise_max. simpl. case_if; simpl; rewrite Hc, i64_add; f_equal; lia.
  - unfold record_job, raise_max. simpl. case_if; simpl; rewrite Ht, i64_add; f_equal; lia.
  - unfold record_job, raise_max. simpl. case_if; simpl; by rewrite length_bump.
  - intros k c Hk. rewrite sum_by_app.
    rewrite m_hist_job, (hist_lookup _ _ _ _ (Hh k c Hk)). simpl.
    case_decide; [rewrite i64_add|]; do 2 f_equal; lia.
  - destruct (Z.max_spec ns (m_max_times st)) as [[? ->]|[? ->]].
    + destruct Hm as [|[r [Hr ?]]]; [by left|right; exists r].
      split; [|done]. apply elem_of_app. by left.
    + right. exists (done_ (ns, bucket)). split; [|done].
      apply elem_of_app. right. by apply list_elem_of_singleton.
  - apply Forall_app. split; [by eapply max_ok_le; [|exact Ho]; lia|].
    apply Forall_singleton. unfold max_ok. simpl. lia.
Qed.

Lemma rec_inv_all b jobs st rs :
  rec_inv b st rs -> rec_inv b (record_all st jobs) (rs ++ (done_ <$> jobs)).
Proof.
  revert st rs. induction jobs as [|job jobs IH]; intros st rs H; simpl.
  { by rewrite app_nil_r. }
  rewrite cons_middle, (assoc_L (++)). by apply IH, rec_inv_job.
Qed.

(** With all threads done the invariant determines the counters. *)
Lemma rec_inv_unique b st st' rs :
  Forall finished rs -> rec_inv b st rs -> rec_inv b st' rs -> st = st'.
Proof.
  intros Hf [Hc Ht Hl Hh Hg Hm Ho] [Hc' Ht' Hl' Hh' Hg' Hm' Ho'].
  assert (Hle : forall st m, (m_max_times st = m_max_times b \/
      exists r, r ∈ rs /\ m_max_times st = r_ns r) ->
    Forall (max_ok m) rs -> m_max_times b <= m -> m_max_times st <= m).
  { intros st0 m [->|[r [Hr ->]]] HF ?; [done|]. rewrite Forall_forall in HF, Hf.
    specialize (HF r Hr). unfold max_ok in HF. by rewrite (Hf r Hr) in HF. }
  destruct st as [c t m h], st' as [c' t' m' h']. simpl in *.
  assert (m = m') as <- by (apply Z.le_antisymm;
    [apply (Hle (mk_StageStats c t m h) m')|apply (Hle (mk_StageStats c' t' m' h') m)]; done).
  f_equal; try congruence.
  apply list_eq. intros k. destruct (m_hist b !! k) as [x|] eqn:Hk.
  { by rewrite (Hh k x Hk), (Hh' k x Hk). }
  apply lookup_ge_None in Hk. rewrite !lookup_ge_None_2; lia || done.
Qed.

(** The threads' durations do not change. *)
Definition job_at (r : recorder) : Z * Z := (r_ns r, r_bucket r).

Lemma recorders_jobs s s' :
  rtc recorders_step s s' ->
  job_at <$> s'.2 = job_at <$> s.2.
Proof.
  induction 1 as [|s1 s2 s3 Hstep _ IH]; [done|]. rewrite IH. clear IH.
  destruct Hstep as [st rs i r st' pc' Hi _]. simpl. rewrite list_fmap_insert.
  apply list_insert_id. by rewrite list_lookup_fmap, Hi.
Qed.

Lemma finished_done rs :
  Forall finished rs -> rs = done_ <$> (job_at <$> rs).
Proof.
  induction 1 as [|r rs Hr _ IH]; [done|].
  rewrite !fmap_cons, <- IH. f_equal. destruct r. unfold finished in Hr. simpl in Hr. by subst.
Qed.

Definition all_done (s : RecSys) : Prop := Forall finished s.2.

(** The histogram keeps its length, and a thread that is done had a bucket in it. *)
Lemma recorders_in b jobs s :
  rtc recorders_step (b, start <$> jobs) s ->
  length (m_hist s.1) = length (m_hist b) /\
  Forall (fun r => finished r -> bucket_in (m_hist b) (r_bucket r)) s.2.
Proof.
  intros Hrun. refine (rtc_invariant _ (fun s => length (m_hist s.1) = length (m_hist b) /\
    Forall (fun r => finished r -> bucket_in (m_hist b) (r_bucket r)) s.2) _ _ _ _ Hrun).
  { split; [done|]. by apply Forall_fmap, Forall_forall. }
  intros s1 s2 [Hl Hf] Hstep. destruct Hstep as [st rs i r st' pc' Hi Hs]. cbn [fst snd] in *.
  assert (length (m_hist st') = length (m_hist st) /\
    (pc' = RDone -> bucket_in (m_hist st) (r_bucket r))) as [Hl' Hd].
  { inversion Hs as [| | | | | |? ? Hadd]; subst; try done.
    apply add_hist_inv in Hadd as [Hin ->]. split; [apply length_bump|done]. }
  split; [congruence|]. apply Forall_insert; [done|]. intros Hfin. unfold bucket_in in *.
  rewrite <- Hl. by apply Hd.
Qed.

(** With the buckets in the histogram no operation is undefined: whatever has been
    interleaved, every thread that is not done has a next operation. *)
Lemma recorders_not_stuck b jobs st rs i r :
  Forall (fun job => bucket_in (m_hist b) job.2) jobs ->
  rtc recorders_step (b, start <$> jobs) (st, rs) -> rs !! i = Some r -> ~ finished r ->
  exists s', recorders_step (st, rs) s'.
Proof.
  intros Hin Hrun Hi Hnd. destruct (recorders_in _ _ _ Hrun) as [Hl _]. cbn [fst] in Hl.
  assert (bucket_in (m_hist st) (r_bucket r)) as Hb.
  { apply recorders_jobs in Hrun. cbn [snd] in Hrun.
    assert (job_at r ∈ job_at <$> rs) as Hj by (by eapply list_elem_of_fmap_2, list_elem_of_lookup_2).
    rewrite Hrun, <- list_fmap_compose in Hj. apply list_elem_of_fmap in Hj as (job & E & Hjob).
    rewrite Forall_forall in Hin. specialize (Hin job Hjob). injection E as _ E.
    unfold bucket_in in *. by rewrite Hl, E. }
  assert (exists st' pc', record_step (r_ns r) (r_bucket r) st (r_pc r) st' pc') as (st' & pc' & Hs).
  { destruct r as [ns bucket pc]. unfold finished in Hnd. cbn in *.
    destruct pc; try (by do 2 eexists; constructor); try done.
    - destruct (Z.le_gt_cases ns old_max); do 2 eexists; [by apply step_exit|apply step_retry; lia].
    - do 2 eexists. apply step_hist. by apply add_hist_in. }
  eexists. by eapply a_recorder_steps.
Qed.

(** C7. Any number of threads record durations of one stage at the same time, their
    atomic operations interleaved in any way and the weak compare-and-swap failing
    whenever it likes: when they have all returned, the count, the total, the
    maximum and every bucket of the histogram are what the same calls made one
    after the other, in the order of the threads, give. No update is lost. *)
Theorem record_linearizable (b st : StageStats) durations jobs rs :
  stats_wf b -> Forall2 job_of durations jobs ->
  rtc recorders_step (b, start <$> jobs) (st, rs) -> all_done (st, rs) ->
  record_seq b durations = Returns st.
Proof.
  intros Hwf Hjobs Hrun Hdone.
  assert (Hinv : rec_inv b st rs).
  { refine (rtc_invariant _ (fun s => rec_inv b s.1 s.2) _ _ _ _ Hrun).
    - by apply rec_inv_start.
    - intros s1 s2 H Hstep. destruct Hstep as [st0 rs0 i r st' pc' Hi Hs].
      exact (rec_inv_step _ _ _ _ _ _ _ Hi Hs H). }
  unfold all_done in Hdone. simpl in Hdone.
  pose proof (recorders_jobs _ _ Hrun) as Hj. simpl in Hj.
  destruct (recorders_in _ _ _ Hrun) as [_ Hin]. simpl in Hin.
  pose proof (finished_done _ Hdone) as Hrs. rewrite Hj in Hrs.
  assert (Hid : job_at <$> (start <$> jobs) = jobs).
  { clear. induction jobs as [|[ns bucket] jobs IH]; [done|].
    change ((ns, bucket) :: (job_at <$> (start <$> jobs)) = (ns, bucket) :: jobs).
    by rewrite IH. }
  rewrite Hid in Hrs. rewrite (record_seq_all _ _ Hjobs).
  2: { rewrite Hrs, Forall_fmap in Hin. eapply Forall_impl; [exact Hin|]. intros job Hb. by apply Hb. }
  f_equal. eapply rec_inv_unique; [exact Hdone| |exact Hinv]. rewrite Hrs.
  apply (rec_inv_all b jobs b []). by apply (rec_inv_start b []).
Qed.

(** Two threads, the second raising the maximum between the first one's load and its
    compare-and-swap. *)
Ltac rec_step i c :=
  eapply rtc_l; [eapply (a_recorder_steps _ _ i); [reflexivity|simpl; eapply c]|simpl].
Ltac rec_hist i :=
  eapply rtc_l;
    [eapply (a_recorder_steps _ _ i); [reflexivity|apply step_hist; reflexivity]|simpl].

Example record_linearizable_witness :
  let jobs := [(1500000, 15); (500000, 5)] in
  stats_wf StageStats_zero /\
  record_seq StageStats_zero [d_lit 3 (-1); d_lit 1 (-1)] =
    Returns (record_all StageStats_zero jobs).
Proof.
  split.
  { repeat split. apply Forall_forall. intros x Hx.
    apply list_elem_of_In, repeat_spec in Hx. by subst. }
  apply (record_linearizable StageStats_zero _ _ [(1500000, 15); (500000, 5)]
    (done_ <$> [(1500000, 15); (500000, 5)])).
  - repeat split. apply Forall_forall. intros x Hx.
    apply list_elem_of_In, repeat_spec in Hx. by subst.
  - repeat constructor.
  - rec_step 0%nat step_count. rec_step 1%nat step_count. rec_step 0%nat step_total.
    rec_step 0%nat step_load. rec_step 1%nat step_total. rec_step 1%nat step_load.
    eapply rtc_l. { eapply (a_recorder_steps _ _ 1); [reflexivity|]. by apply step_swap. } simpl.
    eapply rtc_l. { eapply (a_recorder_steps _ _ 0); [reflexivity|]. by apply step_retry. } simpl.
    eapply rtc_l. { eapply (a_recorder_steps _ _ 0); [reflexivity|]. by apply step_swap. } simpl.
    rec_hist 1%nat. rec_hist 0%nat.
    vm_compute. apply rtc_refl.
  - repeat constructor.
Defined.

(** ** The types of the counters *)


(** Every counter holds a [long long], and there are 300 buckets and nine stages. *)
Record stage_typed (st : StageStats) : Prop := {
  typed_counts : i64_ok (m_counts st);
  typed_total : i64_ok (m_total_times st);
  typed_max : i64_ok (m_max_times st);
  typed_length : length (m_hist st) = 300%nat;
  typed_hist : Forall i64_ok (m_hist st)
}.
Definition stats_typed (s : RuntimeStats) : Prop := length s = 9%nat /\ Forall stage_typed s.


Lemma stage_typed_zero : stage_typed StageStats_zero.
Proof.
  split; cbn [StageStats_zero m_counts m_total_times m_max_times m_hist]; try (unfold i64_ok; lia).
  - apply repeat_length.
  - apply Forall_forall. intros x Hx. apply list_elem_of_In, repeat_spec in Hx. subst.
    unfold i64_ok. lia.
Qed.

Lemma to_ns_typed d ns : to_ns d = Returns ns -> i64_ok ns.
Proof.
  unfold to_ns, to_llong, in_llong, i64_ok. destruct (d_trunc _); [|done]. case_if; [|done].
  intros [= <-]. lia.
Qed.

Lemma Record_at (s : RuntimeStats) stage d st :
  s !! stage_value stage = Some st ->
  Record_ s stage d = (st ← Record_stage st d; mret (<[stage_value stage := st]> s)).
Proof. intros Hs. unfold Record_. by rewrite Hs. Qed.

(** The samples of a stage. *)
Definition count_at (i : Stage) (s : list StageStats) : Z :=
  match s !! stage_value i with Some st => m_counts st | None => 0 end.

Lemma count_insert (s : list StageStats) i j st :
  (stage_value j < length s)%nat ->
  count_at i (<[stage_value j := st]> s) = if decide (j = i) then m_counts st else count_at i s.
Proof.
  intros Hj. unfold count_at. destruct (decide (j = i)) as [->|Hne].
  - by rewrite list_lookup_insert_eq.
  - rewrite list_lookup_insert_ne; [done|]. intros Heq. by apply Hne, stage_value_inj.
Qed.

Lemma record_count s stage d s' i :
  Record_ s stage d = Returns s' -> i64_ok (count_at i s) ->
  count_at i s' = i64 (count_at i s + stage_is i stage).
Proof.
  unfold Record_, stage_is. destruct (s !! stage_value stage) as [st|] eqn:E; [|done].
  destruct (Record_stage st d) as [st'| | | |] eqn:Er; try done. cbn [mbind outcome_bind].
  intros [= <-] Hi.
  etransitivity; [apply (count_insert s); by eapply lookup_lt_Some|].
  destruct (decide (stage = i)) as [->|Hne]; [|by rewrite Z.add_0_r, i64_small].
  assert (count_at i s = m_counts st) as -> by (unfold count_at; change (list StageStats) with RuntimeStats; by rewrite E).
  unfold Record_stage in Er. destruct (to_ns d); try done. cbn in Er.
  destruct (bucket_of d); try done. cbn in Er. apply add_hist_inv in Er as [_ ->].
  unfold raise_max. by case_if.
Qed.

Lemma stats_typed_new : stats_typed RuntimeStats_new.
Proof. split; [done|]. repeat constructor; apply stage_typed_zero. Qed.

Lemma job_typed st job :
  stage_typed st -> i64_ok job.1 -> stage_typed (record_job st job).
Proof.
  intros [Hc Ht Hm Hl Hh] Hns.
  assert (Forall i64_ok (m_hist (record_job st job))).
  { rewrite m_hist_job. apply Forall_alter; [done|]. intros. apply i64_ok_i64. }
  split; [| | | |done]; unfold record_job, raise_max; case_if; cbn;
    auto using i64_ok_i64; by rewrite length_bump.
Qed.

(** The quotient of a duration by the width of a bucket, before it is limited. *)
Definition raw_bucket (d : double) : outcome Z := to_int (d_div d kBucketWidthMs).

Lemma bucket_of_raw d raw :
  raw_bucket d = Returns raw -> bucket_of d = Returns (Z.max 0 (Z.min raw 299)).
Proof.
  unfold raw_bucket, bucket_of, kHistBucketCount. intros ->. cbn [mbind outcome_bind mret outcome_ret].
  cbv zeta. f_equal. destruct (raw >=? 300) eqn:E; case_if; zbool; lia.
Qed.

Lemma record_job_spec st job :
  0 <= job.2 ->
  let st' := record_job st job in
  m_counts st' = i64 (m_counts st + 1) /\ m_total_times st' = i64 (m_total_times st + job.1) /\
  m_max_times st' = Z.max (m_max_times st) job.1 /\
  forall i c, m_hist st !! i = Some c ->
    m_hist st' !! i = Some (if decide (Z.of_nat i = job.2) then i64 (c + 1) else c).
Proof.
  intros H0 st'. split; [|split; [|split]].
  1-3: unfold st', record_job, raise_max; cbn; case_if; cbn; done || lia.
  intros i c Hc. unfold st'. rewrite m_hist_job, (hist_lookup _ _ _ _ Hc). f_equal.
  repeat case_decide; done || lia.
Qed.

(** C31. What [Record] does to the statistics. With nine stages of 300 buckets and
    every counter a [long long], as the constructor leaves them, a duration whose
    nanoseconds fit a [long long] and whose quotient by the bucket width fits an
    [int] is recorded: on its stage the count grows by one and the total by the
    nanoseconds (wrapping around), the maximum is raised to the nanoseconds if it was
    less, and of the buckets the one of that quotient, limited to 0 and 299, grows by
    one and the others stay; no other stage changes, and the statistics keep their
    type. For any other duration the call is undefined (the conversion is made
    before the bucket is limited). *)
Theorem record_keeps_types s stage d st :
  stats_typed s -> s !! stage_value stage = Some st ->
  (exists ns raw s' st',
     to_ns d = Returns ns /\ raw_bucket d = Returns raw /\
     Record_ s stage d = Returns s' /\ stats_typed s' /\
     s' !! stage_value stage = Some st' /\
     m_counts st' = i64 (m_counts st + 1) /\ m_total_times st' = i64 (m_total_times st + ns) /\
     m_max_times st' = Z.max (m_max_times st) ns /\
     (forall i c, m_hist st !! i = Some c ->
        m_hist st' !! i =
          Some (if decide (Z.of_nat i = Z.max 0 (Z.min raw 299)) then i64 (c + 1) else c)) /\
     forall stage', stage' <> stage -> s' !! stage_value stage' = s !! stage_value stage') \/
  (Record_ s stage d = Undefined /\ (to_ns d = Undefined \/ raw_bucket d = Undefined)).
Proof.
  intros [Hl Hs] Hst. pose proof (Forall_lookup_1 _ _ _ _ Hs Hst) as Hty.
  rewrite (Record_at _ _ _ _ Hst).
  assert (to_ns d = Undefined \/ exists ns, to_ns d = Returns ns) as [E|[ns E]].
  { unfold to_ns, to_llong, in_llong. destruct (d_trunc _); [case_if|]; eauto. }
  { right. unfold Record_stage. rewrite E. auto. }
  assert (raw_bucket d = Undefined \/ exists raw, raw_bucket d = Returns raw) as [Eb|[raw Eb]].
  { unfold raw_bucket, to_int. destruct (d_trunc _); [case_if|]; eauto. }
  { right. unfold Record_stage, bucket_of. fold (raw_bucket d). rewrite E, Eb. auto. }
  left. set (job := (ns, Z.max 0 (Z.min raw 299))).
  assert (Record_stage st d = Returns (record_job st job)) as Er.
  { apply Record_stage_job; [by split; [|apply bucket_of_raw]|].
    unfold bucket_in. rewrite (typed_length _ Hty). unfold job. cbn. lia. }
  destruct (record_job_spec st job) as (H1 & H2 & H3 & H4); [unfold job; cbn; lia|].
  rewrite Er. do 4 eexists. split; [exact E|]. split; [exact Eb|]. split; [reflexivity|].
  split; [|split; [apply list_lookup_insert_eq; by eapply lookup_lt_Some|]].
  - split; [etransitivity; [apply length_insert|done]|]. apply Forall_insert; [done|].
    apply job_typed; [done|]. by eapply to_ns_typed.
  - do 4 (split; [done|]). intros stage' Hne. apply list_lookup_insert_ne.
    intros E'. by apply stage_value_inj in E'.
Qed.

(** A duration of 40 ms, beyond the last bucket, and one that is not a number. *)
Example record_keeps_types_witness :
  (exists s' st', Record_ RuntimeStats_new NET_IO (d_of_Z 40) = Returns s' /\ stats_typed s' /\
     s' !! stage_value NET_IO = Some st' /\ m_counts st' = 1 /\ m_total_times st' = 40000000 /\
     m_max_times st' = 40000000 /\ m_hist st' !! 299%nat = Some 1 /\
     m_hist st' !! 298%nat = Some 0 /\ s' !! stage_value ENCODE_REQ = Some StageStats_zero) /\
  Record_ RuntimeStats_new NET_IO (d_div d_zero d_zero) = Undefined.
Proof.
  split.
  - destruct (record_keeps_types RuntimeStats_new NET_IO (d_of_Z 40) StageStats_zero stats_typed_new)
      as [(ns & raw & s' & st' & Ens & Er & Hr & Hty & Hst & Hc & Ht & Hm & Hh & Ho)|[_ [E|E]]];
      [reflexivity| |vm_compute in E; discriminate..].
    assert (ns = 40000000) as -> by (vm_compute in Ens; congruence).
    assert (raw = 400) as -> by (vm_compute in Er; congruence).
    exists s', st'. split; [exact Hr|]. split; [exact Hty|]. split; [exact Hst|].
    split; [exact Hc|]. split; [exact Ht|]. split; [exact Hm|].
    split; [exact (Hh 299%nat 0 eq_refl)|]. split; [exact (Hh 298%nat 0 eq_refl)|].
    exact (Ho ENCODE_REQ ltac:(discriminate)).
  - destruct (record_keeps_types RuntimeStats_new NET_IO (d_div d_zero d_zero) StageStats_zero
      stats_typed_new) as [(ns & raw & s' & st' & Ens & _)|[E _]];
      [reflexivity|vm_compute in Ens; discriminate|exact E].
Defined.

(** A timer that runs for less than two hours records. *)
Lemma scoped_timer_records st ns :
  length (m_hist st) = 300%nat ->
  0 <= ns < 2 ^ 43 -> exists st', Record_stage st (elapsed_ms 0 ns) = Returns st'.
Proof.
  intros Hl Hns. unfold elapsed_ms. rewrite Z.sub_0_r.
  enough (exists a b, job_of (d_div (d_of_Z ns) million) (a, b)) as (a & b & Hj).
  { eexists. apply (Record_stage_job _ _ _ Hj). unfold bucket_in. rewrite Hl.
    apply (job_of_ok _ _ Hj). }
  unfold job_of. destruct (decide (ns = 0)) as [->|]; [by exists 0, 0|].
  destruct (d_of_Z_bounds 43 ns ltac:(lia) ltac:(lia)) as [Hn _].
  assert (d_normal (-33) (-33) million) as Hmil by (by apply d_normal_b_true).
  assert (d_normal (-56) (-56) kBucketWidthMs) as Hw by (by apply d_normal_b_true).
  pose proof (d_div_normal _ _ _ _ _ _ Hn Hmil ltac:(lia) ltac:(lia)) as Hd.
  pose proof (d_div_normal _ _ _ _ _ _ Hd Hw ltac:(lia) ltac:(lia)) as Hb.
  destruct (d_mul_bounds _ _ _ _ _ _ Hd Hmil ltac:(lia) ltac:(lia) ltac:(lia) ltac:(lia)) as [Hm _].
  destruct (d_trunc_bound _ _ _ Hm ltac:(lia) ltac:(lia)) as (a & Ha & Hab).
  destruct (d_trunc_bound _ _ _ Hb ltac:(lia) ltac:(lia)) as (b & Hb' & Hbb).
  unfold to_ns, to_llong, in_llong, bucket_of, to_int. rewrite Ha, Hb'. cbn in Hab, Hbb.
  decide_cmp. cbn [mbind outcome_bind mret outcome_ret]. eauto.
Qed.

(** ** Lemmas: ComputePercentiles *)

(** The samples in the buckets up to and including bucket [i]. *)
Definition samples_upto (hist : list Z) (i : nat) : Z := foldr Z.add 0 (take (S i) hist).

(** Bucket [i] is the first in which [target] samples are reached. *)
Definition first_reaching (hist : list Z) (target : Z) (i : nat) : Prop :=
  (i < length hist)%nat /\ target <= samples_upto hist i /\
  forall j, (j < i)%nat -> samples_upto hist j < target.

(** The loop's result for one target, from an offset [i] and a sum [acc]. *)
Fixpoint search (hist : list Z) (acc target : Z) : option nat :=
  match hist with
  | [] => None
  | c :: hist => if acc + c >=? target then Some 0%nat else S <$> search hist (acc + c) target
  end.

Definition offset (i : Z) (found : option nat) : option Z := (fun b => i + Z.of_nat b) <$> found.

Lemma search_spec hist target : forall acc,
  match search hist acc target with
  | Some i => (i < length hist)%nat /\ target <= acc + samples_upto hist i /\
      forall j, (j < i)%nat -> acc + samples_upto hist j < target
  | None => forall j, (j < length hist)%nat -> acc + samples_upto hist j < target
  end.
Proof.
  induction hist as [|c hist IH]; intros acc; simpl; [lia|].
  unfold samples_upto in *. case_if; zbool; simpl.
  { split; [lia|]. split; [lia|]. lia. }
  specialize (IH (acc + c)).
  destruct (search hist (acc + c) target) as [i|]; simpl.
  - destruct IH as (H1 & H2 & H3). split; [lia|]. split; [simpl in *; lia|].
    intros [|j] Hj; simpl; [lia|]. specialize (H3 j ltac:(lia)). simpl in H3. lia.
  - intros [|j] Hj; simpl; [lia|]. specialize (IH j ltac:(lia)). simpl in IH. lia.
Qed.

Lemma search_le hist t t' : forall acc b',
  t <= t' -> search hist acc t' = Some b' ->
  exists b, search hist acc t = Some b /\ (b <= b')%nat.
Proof.
  induction hist as [|c hist IH]; intros acc b' Hle; simpl; [done|].
  destruct (acc + c >=? t') eqn:E'; zbool.
  { intros [= <-]. exists 0%nat. decide_cmp. split; [done|lia]. }
  destruct (search hist (acc + c) t') as [k|] eqn:Ek; [|done]. intros [= <-].
  case_if; zbool; [exists 0%nat; split; [done|lia]|].
  destruct (IH _ _ Hle Ek) as (b & -> & ?). exists (S b). split; [done|lia].
Qed.

Lemma offset_S i found : offset i (S <$> found) = offset (i + 1) found.
Proof. destruct found; [|done]. simpl. f_equal. lia. Qed.

Definition or_else (f g : option Z) : option Z := match f with Some _ => f | None => g end.

(** When the targets are in order, the early [break] loses none of them. *)
Lemma percentile_loop_search t50 t95 t99 : t50 <= t95 -> t95 <= t99 ->
  forall hist i acc f50 f95 b99,
  search hist acc t99 = Some b99 ->
  percentile_loop hist i acc t50 t95 t99 (mk_Found f50 f95 None) =
  mk_Found (or_else f50 (offset i (search hist acc t50)))
    (or_else f95 (offset i (search hist acc t95))) (offset i (Some b99)).
Proof.
  intros H1 H2. induction hist as [|c hist IH]; intros i acc f50 f95 b99; simpl; [done|].
  unfold reach. destruct (acc + c >=? t99) eqn:E99; zbool.
  { intros [= <-]. decide_cmp. simpl. rewrite Z.add_0_r. by destruct f50, f95. }
  destruct (search hist (acc + c) t99) as [k|] eqn:Ek; [|done]. intros [= <-].
  cbn [found_p50 found_p95 found_p99]. rewrite (IH _ _ _ _ _ Ek). f_equal.
  - destruct f50; [done|]. destruct (acc + c >=? t50); simpl; [f_equal; lia|].
    by rewrite offset_S.
  - destruct f95; [done|]. destruct (acc + c >=? t95); simpl; [f_equal; lia|].
    by rewrite offset_S.
  - simpl. f_equal. lia.
Qed.

Lemma search_first hist target i :
  search hist 0 target = Some i -> first_reaching hist target i.
Proof.
  intros E. pose proof (search_spec hist target 0) as H. rewrite E in H.
  destruct H as (H1 & H2 & H3). split; [done|]. split; [lia|].
  intros j Hj. specialize (H3 j Hj). lia.
Qed.

(** The percentiles of a stage with samples: when the target ranks are in order
    and the histogram holds as many samples as the last of them, each percentile is
    the midpoint of the first bucket in which its rank is reached, and P50 is in a
    bucket no later than P95's, which is no later than P99's. *)
Theorem percentiles_first_buckets st t50 t95 t99 :
  m_counts st <> 0 -> targets (m_counts st) = Returns (t50, t95, t99) ->
  t50 <= t95 -> t95 <= t99 -> m_hist st <> [] ->
  t99 <= samples_upto (m_hist st) (length (m_hist st) - 1) ->
  exists r b50 b95 b99,
    ComputePercentiles st = Returns r /\
    p50_ms r = midpoint (Z.of_nat b50) /\ first_reaching (m_hist st) t50 b50 /\
    p95_ms r = midpoint (Z.of_nat b95) /\ first_reaching (m_hist st) t95 b95 /\
    p99_ms r = midpoint (Z.of_nat b99) /\ first_reaching (m_hist st) t99 b99 /\
    (b50 <= b95)%nat /\ (b95 <= b99)%nat.
Proof.
  intros Hc Ht H1 H2 Hne Hsum. unfold ComputePercentiles.
  rewrite (proj2 (Z.eqb_neq _ _) Hc), Ht. cbn -[percentile_loop midpoint].
  destruct (search (m_hist st) 0 t99) as [b99|] eqn:E99.
  2: { pose proof (search_spec (m_hist st) t99 0) as H. rewrite E99 in H.
       destruct (m_hist st) as [|c h]; [done|].
       specialize (H (length (c :: h) - 1)%nat ltac:(simpl; lia)). lia. }
  destruct (search_le _ _ _ _ _ H2 E99) as (b95 & E95 & ?).
  destruct (search_le _ _ _ _ _ H1 E95) as (b50 & E50 & ?).
  rewrite (percentile_loop_search _ _ _ H1 H2 _ _ _ _ _ _ E99), E95, E50.
  eexists _, b50, b95, b99. split; [reflexivity|]. cbn -[midpoint].
  do 7 (split; [first [reflexivity|by apply search_first|done]|]). done.
Qed.

(** A hundred samples, one slower than the rest. *)
Definition hundred_samples : StageStats :=
  mk_StageStats 100 (99 * 1050000 + 25000000) 25000000
    (<[250%nat := 1]> (<[10%nat := 99]> (repeat 0 300))).

Example percentiles_first_buckets_witness :
  exists r b50 b95 b99, ComputePercentiles hundred_samples = Returns r /\
    p50_ms r = midpoint (Z.of_nat b50) /\ first_reaching (m_hist hundred_samples) 50 b50 /\
    p95_ms r = midpoint (Z.of_nat b95) /\ first_reaching (m_hist hundred_samples) 95 b95 /\
    p99_ms r = midpoint (Z.of_nat b99) /\ first_reaching (m_hist hundred_samples) 99 b99 /\
    (b50 <= b95)%nat /\ (b95 <= b99)%nat.
Proof.
  apply (percentiles_first_buckets hundred_samples 50 95 99);
    vm_compute; first [reflexivity|discriminate].
Defined.

(** ** Percentiles of recorded durations *)

Lemma normal_const lo hi m e :
  2 ^ 52 <= Z.pos m < 2 ^ 53 -> lo <= e <= hi -> d_normal lo hi (S754_finite false m e).
Proof. intros. by exists m, e. Qed.

(** The target ranks of any positive count are defined and in order. *)
Lemma targets_ok n :
  0 < n < 2 ^ 63 ->
  exists t50 t95 t99, targets n = Returns (t50, t95, t99) /\
    0 <= t50 /\ t50 <= t95 /\ t95 <= t99 /\ t99 <= n.
Proof.
  intros Hn. destruct (d_of_Z_bounds 63 n Hn ltac:(done)) as [Hc Hcb]. pose proof d_scale_pos as HW.
  unfold targets. change d_half with (S754_finite false 4503599627370496 (-53)).
  change d_095 with (S754_finite false 8556839292003942 (-53)).
  change d_099 with (S754_finite false 8917127262193582 (-53)).
  set (c := d_of_Z n) in *. set (u := 2 ^ 1047).
  assert (forall m, d_scaled (S754_finite false m (-53)) = Z.pos m * u) as Hs by done.
  assert (d_scale = 2 ^ 53 * u) as HWu by (unfold d_scale, u; by rewrite <- Z.pow_add_r).
  clearbody u. assert (0 < u) as Hu by lia.
  assert (forall m, 2 ^ 52 <= Z.pos m < 2 ^ 53 ->
      let d := d_mul c (S754_finite false m (-53)) in d_normal (-105) 12 d /\
      (2 ^ 52 - 1) * (d_scaled c * Z.pos m) <= 2 ^ 105 * d_scaled d <=
        (2 ^ 52 + 1) * (d_scaled c * Z.pos m)) as Hmul.
  { intros m Hm d. destruct (d_mul_bounds (-52) 11 (-53) (-53) c (S754_finite false m (-53)))
      as [H1 H2]; [done|by apply normal_const|lia..|]. split; [exact H1|].
    rewrite Hs, HWu in H2. fold d in H2. nia. }
  assert (0 < d_scaled c) as Hcp by (by apply (d_scaled_pos (-52) 11)).
  destruct (Hmul 4503599627370496%positive ltac:(lia)) as [N50 B50].
  destruct (Hmul 8556839292003942%positive ltac:(lia)) as [N95 B95].
  destruct (Hmul 8917127262193582%positive ltac:(lia)) as [N99 B99].
  destruct (d_trunc_mono (-105) 12 (-105) 12 _ _ ltac:(lia) ltac:(lia) N50 N95 ltac:(lia))
    as (t50 & t95 & T50 & T95 & ?).
  destruct (d_trunc_mono (-105) 12 (-105) 12 _ _ ltac:(lia) ltac:(lia) N95 N99 ltac:(lia))
    as (t95' & t99 & T95' & T99 & ?). simplify_eq.
  assert (t99 <= n).
  { rewrite (d_trunc_scaled (-105) 12 _ ltac:(lia) N99) in T99. simplify_eq.
    apply Z.div_le_upper_bound; [done|]. lia. }
  exists t50, t95, t99. unfold to_llong, in_llong. rewrite T50, T95, T99. decide_cmp. cbn. split; [done|lia].
Qed.

(** How many of the durations are in the buckets up to [i]. *)
Definition at_most (jobs : list (Z * Z)) (i : nat) : Z :=
  zlen (filter (fun job : Z * Z => (Z.to_nat job.2 <= i)%nat) jobs).

(** [b] is the first bucket up to which there are [target] of the durations. *)
Definition rank_bucket (jobs : list (Z * Z)) (target : Z) (b : nat) : Prop :=
  target <= at_most jobs b /\ forall b', (b' < b)%nat -> at_most jobs b' < target.

Lemma at_most_cons job jobs i :
  at_most (job :: jobs) i = at_most jobs i + (if decide (Z.to_nat job.2 <= i)%nat then 1 else 0).
Proof. unfold at_most. rewrite filter_cons. case_decide; simpl; lia. Qed.

Lemma at_most_le jobs i : 0 <= at_most jobs i <= zlen jobs.
Proof. unfold at_most. pose proof (length_filter (fun j : Z * Z => (Z.to_nat j.2 <= i)%nat) jobs). lia. Qed.

Lemma samples_upto_cons c h i : samples_upto (c :: h) (S i) = c + samples_upto h i.
Proof. done. Qed.

Lemma sum_bump h bucket : forall i,
  (Z.to_nat bucket < length h)%nat -> Forall (fun c => 0 <= c < 2 ^ 63 - 1) h ->
  samples_upto (bump h bucket) i =
  samples_upto h i + (if decide (Z.to_nat bucket <= i)%nat then 1 else 0).
Proof.
  unfold bump. generalize (Z.to_nat bucket) as b. clear bucket.
  induction h as [|c h IH]; intros b i Hb Hh; [simpl in Hb; lia|].
  apply Forall_cons in Hh as [Hc Hh].
  assert (i64 (c + 1) = c + 1) as Hi by (unfold i64; rewrite Z.mod_small; lia).
  destruct b as [|b]; [unfold samples_upto; simpl; rewrite Hi; lia|].
  change (alter ?f (S b) (c :: h)) with (c :: alter f b h).
  destruct i as [|i]; [unfold samples_upto; simpl; lia|]. specialize (IH b i ltac:(simpl in Hb; lia) Hh).
  rewrite !samples_upto_cons, IH. repeat case_decide; lia.
Qed.

(** What [n] recorded durations leave in a stage. *)
Record recorded (jobs : list (Z * Z)) (st : StageStats) : Prop := {
  rec_counts : m_counts st = zlen jobs;
  rec_length : length (m_hist st) = 300%nat;
  rec_range : Forall (fun c => 0 <= c <= zlen jobs) (m_hist st);
  rec_hist i : samples_upto (m_hist st) i = at_most jobs i
}.

Lemma recorded_zero : recorded [] StageStats_zero.
Proof.
  split; [done|done| |].
  - apply Forall_forall. intros x Hx. apply list_elem_of_In, repeat_spec in Hx. by subst.
  - intros i. change (m_hist StageStats_zero) with (repeat 0 300).
    change (at_most [] i) with 0. generalize 300%nat. unfold samples_upto.
    intros n. generalize (S i). induction n as [|n IH]; intros [|k]; simpl; [done..|].
    by rewrite IH.
Qed.

Lemma recorded_job jobs st job :
  recorded jobs st -> bucket_ok job -> zlen jobs < 2 ^ 63 - 1 ->
  recorded (job :: jobs) (record_job st job).
Proof.
  intros [Hc Hl Hr Hh] Hb Hlen. unfold bucket_ok, kHistBucketCount in Hb.
  split; rewrite ?m_hist_job.
  - unfold record_job, raise_max. simpl. case_if; simpl; rewrite Hc;
      (unfold i64; rewrite Z.mod_small; lia).
  - by rewrite length_bump.
  - apply Forall_lookup. intros k c Hk.
    destruct (m_hist st !! k) as [c0|] eqn:E.
    2: { apply lookup_ge_None in E. apply lookup_lt_Some in Hk. rewrite length_bump in Hk. lia. }
    rewrite (hist_lookup _ _ _ _ E) in Hk. simplify_eq.
    pose proof (Forall_lookup_1 _ _ _ _ Hr E) as Hc0. cbn beta in Hc0. simpl length.
    case_decide; [unfold i64; rewrite Z.mod_small; lia|lia].
  - intros i. rewrite sum_bump, Hh, at_most_cons; [done|lia|].
    eapply Forall_impl; [exact Hr|]. cbn beta. lia.
Qed.

Lemma recorded_all jobs : forall prev st,
  recorded prev st -> Forall bucket_ok jobs -> zlen (rev jobs ++ prev) < 2 ^ 63 ->
  recorded (rev jobs ++ prev) (record_all st jobs).
Proof.
  induction jobs as [|job jobs IH]; intros prev st Hst Hok Hlen; simpl; [done|].
  apply Forall_cons in Hok as [Hj Hok]. simpl in Hlen.
  rewrite <- (assoc_L (++)) in *. simpl in *. apply IH; [|done..].
  apply recorded_job; [done..|]. rewrite length_app in Hlen. simpl in Hlen. lia.
Qed.

Lemma at_most_rev jobs i : at_most (rev jobs) i = at_most jobs i.
Proof.
  unfold at_most. f_equal. apply Permutation_length, filter_Permutation.
  symmetry. apply Permutation_rev.
Qed.

Definition midpoint_ok (i : Z) : bool :=
  d_normal_b (-57) (-48) (midpoint i) && d_le (midpoint i) (midpoint (i + 1)) &&
  d_gt (midpoint i) (d_dec 1 3).

Lemma midpoints_ok : forallb midpoint_ok (Z.of_nat <$> seq 0 300) = true.
Proof. vm_compute. reflexivity. Qed.

Lemma midpoint_spec i : (i < 300)%nat ->
  d_normal (-57) (-48) (midpoint (Z.of_nat i)) /\
  d_le (midpoint (Z.of_nat i)) (midpoint (Z.of_nat (S i))) = true /\
  d_gt (midpoint (Z.of_nat i)) (d_dec 1 3) = true.
Proof.
  intros Hi. pose proof midpoints_ok as H. rewrite forallb_forall in H.
  specialize (H (Z.of_nat i) ltac:(apply in_map, in_seq; lia)).
  unfold midpoint_ok in H. rewrite !andb_true_iff in H. destruct H as [[H1 H2] H3].
  replace (Z.of_nat (S i)) with (Z.of_nat i + 1) by lia.
  split; [by apply d_normal_b_true|done].
Qed.

Lemma midpoint_not_nan i : (i < 300)%nat -> is_nan (midpoint (Z.of_nat i)) = false.
Proof. intros Hi. by eapply d_normal_not_nan, midpoint_spec. Qed.

Lemma midpoint_step i : (i < 300)%nat ->
  d_le (midpoint (Z.of_nat i)) (midpoint (Z.of_nat (S i))) = true.
Proof. intros Hi. by apply midpoint_spec. Qed.

Lemma midpoint_mono i j : (i <= j < 300)%nat ->
  d_le (midpoint (Z.of_nat i)) (midpoint (Z.of_nat j)) = true.
Proof.
  intros [Hle Hj]. induction Hle as [|j Hle IH]; [by apply d_le_refl, midpoint_not_nan|].
  apply (d_le_trans _ (midpoint (Z.of_nat j)));
    try apply midpoint_not_nan; try apply midpoint_step; try apply IH; lia.
Qed.

Lemma rank_bucket_first jobs st t b :
  recorded (rev jobs) st -> first_reaching (m_hist st) t b ->
  rank_bucket jobs t b /\ (b < 300)%nat.
Proof.
  intros [Hc Hl _ Hh] (H1 & H2 & H3). rewrite Hl in H1.
  split; [|done]. split; [by rewrite <- at_most_rev, <- Hh|].
  intros b' Hb'. rewrite <- at_most_rev, <- Hh. by apply H3.
Qed.

Lemma at_most_all jobs : Forall bucket_ok jobs -> at_most jobs 299 = zlen jobs.
Proof.
  induction 1 as [|job jobs Hj _ IH]; [done|]. rewrite at_most_cons, IH.
  unfold bucket_ok, kHistBucketCount in Hj. case_decide; simpl; lia.
Qed.

(** The percentiles of a stage that holds durations. *)
Lemma recorded_percentiles jobs st :
  recorded (rev jobs) st -> Forall bucket_ok jobs -> 0 < zlen jobs < 2 ^ 63 ->
  exists r t50 t95 t99 b50 b95 b99,
    ComputePercentiles st = Returns r /\ count r = zlen jobs /\
    targets (zlen jobs) = Returns (t50, t95, t99) /\
    0 <= t50 <= t95 /\ t95 <= t99 <= zlen jobs /\
    p50_ms r = midpoint (Z.of_nat b50) /\ rank_bucket jobs t50 b50 /\
    p95_ms r = midpoint (Z.of_nat b95) /\ rank_bucket jobs t95 b95 /\
    p99_ms r = midpoint (Z.of_nat b99) /\ rank_bucket jobs t99 b99 /\
    (b50 <= b95)%nat /\ (b95 <= b99 < 300)%nat.
Proof.
  intros Hrec Hok Hlen. pose proof Hrec as [Hc Hlh _ Hh]. rewrite length_rev in Hc.
  destruct (targets_ok (zlen jobs)) as (t50 & t95 & t99 & Ht & H0 & H1 & H2 & H3); [lia|].
  destruct (percentiles_first_buckets st t50 t95 t99)
    as (r & b50 & b95 & b99 & Hr & E50 & F50 & E95 & F95 & E99 & F99 & L1 & L2);
    [lia|by rewrite Hc|lia|lia|by intros E; rewrite E in Hlh| |].
  { rewrite Hlh, Hh, at_most_rev. cbn [Nat.sub]. rewrite at_most_all by done. lia. }
  apply (rank_bucket_first jobs) in F50 as [F50 _]; [|done].
  apply (rank_bucket_first jobs) in F95 as [F95 ?]; [|done].
  apply (rank_bucket_first jobs) in F99 as [F99 ?]; [|done].
  exists r, t50, t95, t99, b50, b95, b99. split; [done|]. split; [|done].
  revert Hr. unfold ComputePercentiles. rewrite Hc, (proj2 (Z.eqb_neq _ _)), Ht by lia.
  cbn -[percentile_loop]. by intros [= <-].
Qed.

Lemma recorded_durations durations jobs :
  Forall2 job_of durations jobs -> zlen durations < 2 ^ 63 ->
  Forall bucket_ok jobs /\ exists st,
    record_seq StageStats_zero durations = Returns st /\ recorded (rev jobs) st.
Proof.
  intros Hjobs Hlen. pose proof (Forall2_length _ _ _ Hjobs) as Hl.
  assert (Forall bucket_ok jobs) as Hok.
  { clear -Hjobs. induction Hjobs; constructor; [by eapply job_of_ok|done]. }
  split; [done|]. exists (record_all StageStats_zero jobs).
  split; [by apply record_seq_all|]. rewrite <- (app_nil_r (rev jobs)).
  apply recorded_all; [apply recorded_zero|done|]. rewrite app_nil_r, length_rev. lia.
Qed.

(** C17. The percentiles of any recorded durations, one or more: recording them on an
    empty stage and asking for the percentiles returns, the count is theirs, the
    target ranks exist and are in order, P50 (P95, P99) is the midpoint of the first
    bucket up to which there are as many of the durations as the target rank, and as
    doubles P50 <= P95 <= P99. *)
Theorem percentiles_of_durations durations jobs :
  Forall2 job_of durations jobs -> durations <> [] -> zlen durations < 2 ^ 63 ->
  exists st r t50 t95 t99 b50 b95 b99,
    record_seq StageStats_zero durations = Returns st /\
    ComputePercentiles st = Returns r /\ count r = zlen durations /\
    targets (zlen durations) = Returns (t50, t95, t99) /\
    0 <= t50 <= t95 /\ t95 <= t99 <= zlen durations /\
    p50_ms r = midpoint (Z.of_nat b50) /\ rank_bucket jobs t50 b50 /\
    p95_ms r = midpoint (Z.of_nat b95) /\ rank_bucket jobs t95 b95 /\
    p99_ms r = midpoint (Z.of_nat b99) /\ rank_bucket jobs t99 b99 /\
    d_le (p50_ms r) (p95_ms r) = true /\ d_le (p95_ms r) (p99_ms r) = true.
Proof.
  intros Hjobs Hne Hlen. rewrite (Forall2_length _ _ _ Hjobs) in Hlen |- *.
  destruct (recorded_durations _ _ Hjobs) as (Hok & st & Hst & Hrec);
    [by rewrite (Forall2_length _ _ _ Hjobs)|].
  assert (0 < zlen jobs) by (destruct Hjobs; [done|simpl; lia]).
  destruct (recorded_percentiles jobs st Hrec Hok ltac:(lia))
    as (r & t50 & t95 & t99 & b50 & b95 & b99 & Hr & Hc & Ht & H0 & H1 & E50 & R50 & E95 &
        R95 & E99 & R99 & L1 & L2).
  exists st, r, t50, t95, t99, b50, b95, b99. do 12 (split; [done|]).
  rewrite E50, E95, E99. split; apply midpoint_mono; lia.
Qed.

Example percentiles_of_durations_witness :
  exists st r t50 t95 t99 b50 b95 b99,
    record_seq StageStats_zero [d_lit 3 (-1); d_lit 1 (-1); d_lit 25 0] = Returns st /\
    ComputePercentiles st = Returns r /\ count r = 3 /\
    targets 3 = Returns (t50, t95, t99) /\ 0 <= t50 <= t95 /\ t95 <= t99 <= 3 /\
    p50_ms r = midpoint (Z.of_nat b50) /\
    rank_bucket [(1500000, 15); (500000, 5); (25000000, 250)] t50 b50 /\
    p95_ms r = midpoint (Z.of_nat b95) /\
    rank_bucket [(1500000, 15); (500000, 5); (25000000, 250)] t95 b95 /\
    p99_ms r = midpoint (Z.of_nat b99) /\
    rank_bucket [(1500000, 15); (500000, 5); (25000000, 250)] t99 b99 /\
    d_le (p50_ms r) (p95_ms r) = true /\ d_le (p95_ms r) (p99_ms r) = true.
Proof.
  apply (percentiles_of_durations [d_lit 3 (-1); d_lit 1 (-1); d_lit 25 0]
    [(1500000, 15); (500000, 5); (25000000, 250)]).
  - repeat constructor; vm_compute; reflexivity.
  - done.
  - done.
Defined.

(** A stage with one sample: the target ranks of all percentiles are 0, which the
    first bucket always reaches, so the report gives 0.05 ms as P50, P95 and P99
    whatever was measured. *)
Theorem percentiles_single_sample d st :
  Record_stage StageStats_zero d = Returns st ->
  exists r, ComputePercentiles st = Returns r /\ count r = 1 /\
    p50_ms r = midpoint 0 /\ p95_ms r = midpoint 0 /\ p99_ms r = midpoint 0.
Proof.
  unfold Record_stage. destruct (to_ns d) as [ns| | | |]; try done. simpl.
  destruct (bucket_of d) as [b| | | |]; try done. simpl. intros [_ ->]%add_hist_inv.
  set (st := put_hist _ _).
  assert (Hc : m_counts st = 1) by (unfold st, raise_max; by case_if).
  assert (Hh : exists c h, m_hist st = c :: h /\ 0 <= c).
  { unfold st, raise_max. case_if; simpl; unfold bump;
      change (repeat 0 300) with (0 :: repeat 0 299);
      destruct (Z.to_nat b); simpl; eexists _, _; (split; [done|]); by vm_compute. }
  destruct Hh as (c & h & Hh & Hpos). unfold ComputePercentiles. rewrite Hc, Hh.
  assert (Ht : targets 1 = Returns (0, 0, 0)) by by vm_compute.
  change (1 =? 0) with false. cbv iota. rewrite Ht. cbn -[midpoint d_div].
  unfold reach. simpl found_p50. simpl found_p95. simpl found_p99. decide_cmp.
  eexists. split; [reflexivity|]. cbn -[midpoint]. auto.
Qed.

Example percentiles_single_sample_witness :
  exists st, Record_stage StageStats_zero (d_lit 25 0) = Returns st /\
  exists r, ComputePercentiles st = Returns r /\ count r = 1 /\
    p50_ms r = midpoint 0 /\ p95_ms r = midpoint 0 /\ p99_ms r = midpoint 0.
Proof.
  eexists. split; [vm_compute; reflexivity|].
  apply (percentiles_single_sample (d_lit 25 0)). vm_compute. reflexivity.
Defined.
