(* ===== verification/StatsReport.v ===== *)
(** * StatsReport: the performance report

    [RuntimeStats::PrintDetailedReport] of [src/src/monitor/runtime_stats.cc]: the
    table of the stages with samples, the bottleneck analysis and the warning of a
    long tail, as the log statements it makes (what each puts in its stream). The
    counters do not change while it runs. *)

From S2P Require Import Prelude CppString Doubles StdSort OStream Logger Stages RuntimeStats.

(** ** The report *)

Definition log_info (items : list item) : LogLine := (INFO, items).

Definition report_header : list LogLine := log_info <$> [
  [txt ""];
  [txt "╔══════════════════════════════════════════════════════════════════════════════╗"];
  [txt "║                     XRPC Performance Statistics Report                      ║"];
  [txt "╠══════════════════╦══════════╦══════════╦══════════╦══════════╦══════════════╣"];
  [txt "║ Stage            ║   Count  ║  Avg ms  ║  P50 ms  ║  P95 ms  ║  P99 / Max  ║"];
  [txt "╠══════════════════╬══════════╬══════════╬══════════╬══════════╬══════════════╣"]].

Definition report_footer : LogLine := log_info
  [txt "╚══════════════════╩══════════╩══════════╩══════════╩══════════╩══════════════╝"].

(** The line of a stage; TOTAL has its maximum as well. *)
Definition report_row (i : Stage) (r : PercentileResult) : LogLine := log_info (
  [txt "║ "; Setw 16; Left; Str (stage_name i);
   txt " ║ "; Setw 8; Right; Int (count r);
   txt " ║ "; Setw 8; Fixed; SetPrecision 3; Dbl (avg_ms r);
   txt " ║ "; Setw 8; Fixed; SetPrecision 3; Dbl (p50_ms r);
   txt " ║ "; Setw 8; Fixed; SetPrecision 3; Dbl (p95_ms r)] ++
  (if bool_decide (i = TOTAL) then
     [txt " ║ "; Setw 5; Fixed; SetPrecision 3; Dbl (p99_ms r); txt " / "; Setw 5; Dbl (max_ms r); txt " ║"]
   else
     [txt " ║ "; Setw 12; Fixed; SetPrecision 3; Dbl (p99_ms r); txt " ║"])).

(** [ComputePercentiles(static_cast<Stage>(i))]. *)
Definition stage_percentiles (s : RuntimeStats) (i : Stage) : outcome PercentileResult :=
  match s !! stage_value i with None => Undefined | Some st => ComputePercentiles st end.

Fixpoint report_rows (s : RuntimeStats) (ids : list Stage) : outcome (list LogLine) :=
  match ids with
  | [] => mret []
  | i :: ids =>
      r ← stage_percentiles s i;
      rest ← report_rows s ids;
      mret (if count r =? 0 then rest else report_row i r :: rest)
  end.

(** ** Bottlenecks *)

Record StageWeight := mk_StageWeight { w_name : Stage; w_p50_ms : double; w_pct : double }.

Definition call_stages : list Stage := take 8 stages.
Definition d_milli : double := d_dec 1 3.

Fixpoint stage_weights (s : RuntimeStats) (total : PercentileResult) (ids : list Stage) :
    outcome (list StageWeight) :=
  match ids with
  | [] => mret []
  | i :: ids =>
      r ← stage_percentiles s i;
      let pct := if d_gt (p50_ms total) d_milli
        then d_mul (d_div (p50_ms r) (p50_ms total)) (d_of_Z 100) else d_zero in
      rest ← stage_weights s total ids;
      mret (mk_StageWeight i (p50_ms r) pct :: rest)
  end.

Definition heavier (a b : StageWeight) : bool := d_gt (w_p50_ms a) (w_p50_ms b).

(** [std::min(std::max(bar_len, 1), 50)]. *)
Definition weight_bar (w : StageWeight) : outcome Z :=
  bar_len ← to_int (d_div (w_pct w) (d_of_Z 2));
  mret (Z.min (Z.max bar_len 1) 50).

Definition weight_line (w : StageWeight) (bar_len : Z) : LogLine := log_info
  [txt "  "; Setw 16; Left; Str (stage_name (w_name w));
   txt " "; Setw 6; Right; Fixed; SetPrecision 2; Dbl (w_p50_ms w); txt "ms | ";
   Setw 5; Fixed; SetPrecision 1; Dbl (w_pct w); txt "% ";
   Str (concat (replicate (Z.to_nat bar_len) (lit "█")))].

Fixpoint weight_lines (ws : list StageWeight) : outcome (list LogLine) :=
  match ws with
  | [] => mret []
  | w :: ws =>
      if d_gt (w_p50_ms w) d_milli then
        bar_len ← weight_bar w;
        rest ← weight_lines ws;
        mret (weight_line w bar_len :: rest)
      else weight_lines ws
  end.

Section Report.
Context `{StdSort}.

Definition bottleneck_lines (s : RuntimeStats) (total : PercentileResult) : outcome (list LogLine) :=
  if d_gt (p50_ms total) d_zero then
    weights ← stage_weights s total call_stages;
    lines ← weight_lines (std_sort heavier weights);
    mret ([log_info [txt ""]; log_info [txt "--- Bottleneck Analysis (P50-based) ---"]] ++
          lines ++ [log_info [txt ""]])
  else mret [].

(** The warning of a long tail. *)
Definition has_long_tail (total : PercentileResult) : bool :=
  d_gt (p99_ms total) (d_mul (p95_ms total) (d_of_Z 3)) && d_gt (p99_ms total) (d_of_Z 1).

Definition long_tail_lines (total : PercentileResult) : list LogLine :=
  if has_long_tail total then
    [(WARNING, [txt "⚠️  Long-tail detected: P99 ("; Fixed; SetPrecision 2; Dbl (p99_ms total);
       txt "ms) >> P95 ("; Dbl (p95_ms total); txt "ms), ratio="; Fixed; SetPrecision 1;
       Dbl (d_div (p99_ms total) (p95_ms total)); txt "x"])]
  else [].

Definition PrintDetailedReport (s : RuntimeStats) : outcome (list LogLine) :=
  rows ← report_rows s stages;
  total ← stage_percentiles s TOTAL;
  bottlenecks ← bottleneck_lines s total;
  mret (report_header ++ rows ++ [report_footer] ++ bottlenecks ++ long_tail_lines total).

(** [PrintReport]. *)
Definition PrintReport (s : RuntimeStats) : outcome (list LogLine) := PrintDetailedReport s.

End Report.

(** ** What a stage's percentiles look like *)

(** Calls of [Record] one after the other. *)
Definition record_calls : RuntimeStats -> list (Stage * double) -> outcome RuntimeStats :=
  for_each (fun s call => Record_ s call.1 call.2).

(** The count of a stage is the number of its calls. *)
Lemma record_calls_count i calls : forall s s',
  record_calls s calls = Returns s' -> i64_ok (count_at i s) ->
  count_at i s' = i64 (count_at i s + sum_by (stage_is i) (fst <$> calls)).
Proof.
  unfold record_calls. induction calls as [|[stage d] calls IH]; intros s s'; cbn [for_each fst snd].
  { intros [= <-] Hi. by rewrite Z.add_0_r, i64_small. }
  destruct (Record_ s stage d) as [s1| | | |] eqn:E; try done. cbn [mbind outcome_bind].
  intros Hr Hi. pose proof (record_count s stage d s1 i E Hi) as Hc.
  rewrite (IH s1 s' Hr) by (rewrite Hc; apply i64_ok_i64).
  rewrite fmap_cons, sum_by_cons, Hc, i64_add. f_equal. cbn. lia.
Qed.

(** The nanoseconds and buckets of calls, and those of one stage. *)
Definition jobs_of (calls : list (Stage * double)) (js : list (Stage * (Z * Z))) : Prop :=
  Forall2 (fun call j => call.1 = j.1 /\ job_of call.2 j.2) calls js.
Definition jobs_at (js : list (Stage * (Z * Z))) (i : Stage) : list (Z * Z) :=
  snd <$> filter (fun j : Stage * (Z * Z) => j.1 = i) js.

(** A stage that holds the durations [jobs]. *)
Definition holds (st : StageStats) (jobs : list (Z * Z)) : Prop :=
  recorded (rev jobs) st /\ Forall bucket_ok jobs /\ zlen jobs < 2 ^ 63.

(** Nine stages that hold durations, TOTAL at least one. *)
Definition stats_of (s : RuntimeStats) (jobs : Stage -> list (Z * Z)) : Prop :=
  (forall i, exists st, s !! stage_value i = Some st /\ holds st (jobs i)) /\ jobs TOTAL <> [].

(** The percentiles are those of an empty stage or midpoints in order. *)
Definition plausible (r : PercentileResult) : Prop :=
  r = PercentileResult_zero \/
  exists b50 b95 b99 : nat, 0 < count r /\
    p50_ms r = midpoint (Z.of_nat b50) /\ p95_ms r = midpoint (Z.of_nat b95) /\
    p99_ms r = midpoint (Z.of_nat b99) /\ (b50 <= b95)%nat /\ (b95 <= b99 < 300)%nat.

Lemma holds_percentiles st jobs :
  holds st jobs ->
  exists r, ComputePercentiles st = Returns r /\ count r = zlen jobs /\ plausible r.
Proof.
  intros (Hrec & Hok & Hlen). destruct (decide (jobs = [])) as [->|Hne].
  - exists PercentileResult_zero. split; [|by split; [|left]].
    destruct Hrec as [Hc _ _ _]. cbn in Hc. unfold ComputePercentiles. by rewrite Hc.
  - assert (0 < zlen jobs) by (destruct jobs; [done|simpl; lia]).
    destruct (recorded_percentiles jobs st Hrec Hok ltac:(lia))
      as (r & t50 & t95 & t99 & b50 & b95 & b99 & Hr & Hc & _ & _ & _ & E50 & _ & E95 & _ &
          E99 & _ & L1 & L2).
    exists r. split; [done|]. split; [done|]. right. exists b50, b95, b99.
    split; [lia|done].
Qed.

Lemma stage_percentiles_ok s jobs i :
  stats_of s jobs ->
  exists r, stage_percentiles s i = Returns r /\ count r = zlen (jobs i) /\ plausible r.
Proof.
  intros [Hs _]. destruct (Hs i) as (st & Hst & Hh). unfold stage_percentiles.
  rewrite Hst. by apply holds_percentiles.
Qed.

Lemma record_calls_ok calls js :
  jobs_of calls js -> forall s sts,
  (forall i, s !! stage_value i = Some (sts i) /\ length (m_hist (sts i)) = 300%nat) ->
  exists s', record_calls s calls = Returns s' /\
    forall i, s' !! stage_value i = Some (record_all (sts i) (jobs_at js i)).
Proof.
  induction 1 as [|[i d] [i' job] calls js [E Hj] _ IH]; intros s sts Hs;
    [exists s; split; [done|]; apply Hs|].
  simpl in E, Hj. subst i'. unfold record_calls in *. cbn [for_each fst snd].
  destruct (Hs i) as [Hi Hl]. rewrite (Record_at _ _ _ _ Hi), (Record_stage_job _ _ _ Hj)
    by (unfold bucket_in; rewrite Hl; apply (job_of_ok _ _ Hj)).
  cbn [mbind outcome_bind mret outcome_ret].
  destruct (IH (<[stage_value i := record_job (sts i) job]> s)
    (fun k => if decide (k = i) then record_job (sts i) job else sts k)) as (s' & Hr & Hs').
  { intros k. case_decide as Hk; subst.
    - rewrite m_hist_job, length_bump. split; [|done]. apply list_lookup_insert_eq.
      by eapply lookup_lt_Some.
    - destruct (Hs k) as [<- ?]. split; [|done]. apply list_lookup_insert_ne.
      intros E. by apply Hk, stage_value_inj. }
  exists s'. split; [exact Hr|]. intros k. rewrite Hs'. unfold jobs_at. rewrite filter_cons.
  cbn [fst snd]. destruct (decide (k = i)) as [->|Hk]; [by rewrite decide_True|].
  by rewrite decide_False.
Qed.

Lemma stats_of_calls calls js :
  jobs_of calls js -> zlen calls < 2 ^ 63 -> jobs_at js TOTAL <> [] ->
  exists s, record_calls RuntimeStats_new calls = Returns s /\ stats_of s (jobs_at js).
Proof.
  intros Hjs Hlen Ht.
  destruct (record_calls_ok calls js Hjs RuntimeStats_new (fun _ => StageStats_zero)) as (s & Hs & Hi).
  { by intros []. }
  exists s. split; [done|]. split; [|done]. intros i. eexists. split; [apply Hi|].
  assert (Forall bucket_ok (jobs_at js i)) as Hok.
  { unfold jobs_at. apply Forall_fmap, Forall_forall. intros [i' job] [_ Hin]%list_elem_of_filter.
    destruct (list_elem_of_lookup_1 _ _ Hin) as [k Hk].
    destruct (Forall2_lookup_r _ _ _ _ _ Hjs Hk) as (call & _ & _ & Hj). by eapply job_of_ok. }
  assert (zlen (jobs_at js i) < 2 ^ 63).
  { unfold jobs_at. rewrite length_fmap, (Forall2_length _ _ _ Hjs) in *.
    pose proof (length_filter (fun j : Stage * (Z * Z) => j.1 = i) js). lia. }
  split; [|done]. rewrite <- (app_nil_r (rev _)).
  apply recorded_all; [apply recorded_zero|done|]. rewrite app_nil_r, length_rev. done.
Qed.

(** The percentiles of every stage as a function. *)
Definition percentiles_are (s : RuntimeStats) (ps : Stage -> PercentileResult) : Prop :=
  forall i, stage_percentiles s i = Returns (ps i).

Lemma percentiles_exist s jobs :
  stats_of s jobs ->
  exists ps, percentiles_are s ps /\ forall i, count (ps i) = zlen (jobs i) /\ plausible (ps i).
Proof.
  intros Hs.
  exists (fun i => match stage_percentiles s i with Returns r => r | _ => PercentileResult_zero end).
  split; intros i; destruct (stage_percentiles_ok s jobs i Hs) as (r & -> & H); [done|exact H].
Qed.

Lemma plausible_p50 r :
  plausible r ->
  is_nan (p50_ms r) = false /\
  (d_gt (p50_ms r) d_milli = negb (count r =? 0)) /\
  ((count r =? 0) = false -> d_normal (-57) (-48) (p50_ms r)).
Proof.
  intros [->|(b50 & b95 & b99 & Hc & -> & _ & _ & L1 & L2)]; [done|].
  split; [apply midpoint_not_nan; lia|]. rewrite (proj2 (Z.eqb_neq _ _)) by lia.
  split; [|intros _]; apply midpoint_spec; lia.
Qed.

(** ** The rows *)

Lemma report_rows_ok s ps ids :
  percentiles_are s ps ->
  report_rows s ids =
    Returns ((fun i => report_row i (ps i)) <$> filter (fun i => count (ps i) <> 0) ids).
Proof.
  intros Hps. induction ids as [|i ids IH]; [done|]. cbn [report_rows]. rewrite Hps.
  cbn [mbind outcome_bind]. rewrite IH. cbn [mbind outcome_bind mret outcome_ret].
  rewrite filter_cons. destruct (Z.eqb_spec (count (ps i)) 0); case_decide; done.
Qed.

(** ** The bars *)

Definition weight_of (ps : Stage -> PercentileResult) (i : Stage) : StageWeight :=
  mk_StageWeight i (p50_ms (ps i)) (d_mul (d_div (p50_ms (ps i)) (p50_ms (ps TOTAL))) (d_of_Z 100)).

Lemma stage_weights_ok s ps ids :
  percentiles_are s ps -> d_gt (p50_ms (ps TOTAL)) d_milli = true ->
  stage_weights s (ps TOTAL) ids = Returns (weight_of ps <$> ids).
Proof.
  intros Hps Ht. induction ids as [|i ids IH]; [done|]. cbn [stage_weights]. rewrite Hps, Ht.
  cbn [mbind outcome_bind]. rewrite IH. done.
Qed.

(** A bar has 1 to 50 characters; the conversion of its length is defined. *)
Lemma weight_bar_ok ps i :
  (forall i, plausible (ps i)) -> count (ps i) <> 0 -> count (ps TOTAL) <> 0 ->
  exists n, weight_bar (weight_of ps i) = Returns n /\ 1 <= n <= 50.
Proof.
  intros Hps Hi Ht.
  destruct (plausible_p50 _ (Hps i)) as (_ & _ & Hni). destruct (plausible_p50 _ (Hps TOTAL)) as (_ & _ & Hnt).
  specialize (Hni ltac:(lia)). specialize (Hnt ltac:(lia)).
  assert (d_normal (-46) (-46) (d_of_Z 100)) as H100 by (by apply d_normal_b_true).
  assert (d_normal (-51) (-51) (d_of_Z 2)) as H2 by (by apply d_normal_b_true).
  pose proof (d_div_normal _ _ _ _ _ _ Hni Hnt ltac:(lia) ltac:(lia)) as Hd.
  destruct (d_mul_bounds _ _ _ _ _ _ Hd H100 ltac:(lia) ltac:(lia) ltac:(lia) ltac:(lia)) as [Hm _].
  pose proof (d_div_normal _ _ _ _ _ _ Hm H2 ltac:(lia) ltac:(lia)) as Hb.
  destruct (d_trunc_bound _ _ _ Hb ltac:(lia) ltac:(lia)) as (z & Hz & Hzb).
  unfold weight_bar, to_int, weight_of. cbn [w_pct]. rewrite Hz. cbn in Hzb. decide_cmp.
  cbn [mbind outcome_bind mret outcome_ret]. eexists. split; [done|lia].
Qed.

(** The line of a stage, given its bar. *)
Definition bar_line (ps : Stage -> PercentileResult) (ib : Stage * Z) : LogLine :=
  weight_line (weight_of ps ib.1) ib.2.

Lemma weight_lines_ok ps ids :
  (forall i, plausible (ps i)) -> count (ps TOTAL) <> 0 ->
  exists bars, weight_lines (weight_of ps <$> ids) = Returns (bar_line ps <$> bars) /\
    bars.*1 = filter (fun i => count (ps i) <> 0) ids /\ Forall (fun ib => 1 <= ib.2 <= 50) bars.
Proof.
  intros Hps Ht. induction ids as [|i ids (bars & IH & Hb & HF)]; [by exists []|].
  rewrite fmap_cons. cbn [weight_lines]. cbn [weight_of w_p50_ms].
  destruct (plausible_p50 _ (Hps i)) as (_ & Hgt & _). rewrite Hgt, filter_cons.
  destruct (Z.eqb_spec (count (ps i)) 0) as [E|E]; cbn [negb].
  - exists bars. rewrite decide_False by lia. done.
  - destruct (weight_bar_ok ps i Hps E Ht) as (n & Hn & Hnb). change (weight_bar _ ≫= ?f)
      with (weight_bar (weight_of ps i) ≫= f). rewrite Hn. cbn [mbind outcome_bind].
    rewrite IH. cbn [mbind outcome_bind mret outcome_ret].
    exists ((i, n) :: bars). rewrite decide_True by done. cbn. rewrite Hb.
    split; [done|]. split; [done|]. by constructor.
Qed.

(** ** The order of the bottlenecks *)

Lemma heavier_strict_weak ps ids :
  (forall i, plausible (ps i)) -> strict_weak heavier (weight_of ps <$> ids).
Proof.
  intros Hps. assert (forall w, w ∈ weight_of ps <$> ids -> is_nan (w_p50_ms w) = false) as Hn.
  { intros w (i & -> & _)%list_elem_of_fmap. apply (plausible_p50 _ (Hps i)). }
  unfold heavier, d_gt. split.
  - intros a Ha%Hn. apply not_true_is_false. intros E.
    pose proof (d_lt_asym _ _ Ha Ha E) as E'. unfold d_lt in E'. congruence.
  - intros a b Ha%Hn Hb%Hn. by apply d_lt_asym.
  - intros a b c Ha%Hn Hb%Hn Hc%Hn Hab Hbc. by apply (d_lt_neg_trans _ (w_p50_ms b)).
Qed.

Section Theorems.
Context `{StdSortLaws}.

Lemma sorted_stages ps ids :
  (forall i, plausible (ps i)) ->
  exists ids', std_sort heavier (weight_of ps <$> ids) = weight_of ps <$> ids' /\ ids' ≡ₚ ids /\
    StronglySorted (fun i j => d_lt (p50_ms (ps i)) (p50_ms (ps j)) = false) ids'.
Proof.
  intros Hps. pose proof (heavier_strict_weak ps ids Hps) as Hsw.
  pose proof (std_sort_perm heavier _ Hsw) as Hp. pose proof (std_sort_sorted heavier _ Hsw) as Hs.
  destruct (Permutation_map_inv _ _ Hp) as (ids' & E & Hp'%symmetry).
  exists ids'. change (map (weight_of ps) ids') with (weight_of ps <$> ids') in E.
  rewrite E in Hs |- *. split; [done|]. split; [done|].
  clear -Hs. remember (weight_of ps <$> ids') as ws eqn:E. revert ids' E.
  induction Hs as [|w ws _ IH Hw]; intros [|i ids] E; simplify_eq/=; constructor; [by apply IH|].
  rewrite Forall_fmap in Hw. eapply Forall_impl; [exact Hw|]. done.
Qed.

(** The whole report, given the order of the bottlenecks. *)
Lemma report_lines s ps ids bars :
  percentiles_are s ps -> (forall i, plausible (ps i)) -> count (ps TOTAL) <> 0 ->
  std_sort heavier (weight_of ps <$> call_stages) = weight_of ps <$> ids ->
  weight_lines (weight_of ps <$> ids) = Returns (bar_line ps <$> bars) ->
  PrintDetailedReport s = Returns (
    report_header ++
    ((fun i => report_row i (ps i)) <$> filter (fun i => count (ps i) <> 0) stages) ++
    [report_footer; log_info [txt ""]; log_info [txt "--- Bottleneck Analysis (P50-based) ---"]] ++
    (bar_line ps <$> bars) ++ [log_info [txt ""]] ++ long_tail_lines (ps TOTAL)).
Proof.
  intros Hps Hpl Ht Esort Ebars. destruct (plausible_p50 _ (Hpl TOTAL)) as (_ & Htm & Htn).
  unfold PrintDetailedReport. rewrite (report_rows_ok _ _ _ Hps), (Hps TOTAL).
  cbn [mbind outcome_bind]. unfold bottleneck_lines.
  assert (d_gt (p50_ms (ps TOTAL)) d_zero = true) as ->.
  { destruct (Htn ltac:(lia)) as (m & e & -> & _). done. }
  rewrite (stage_weights_ok _ _ _ Hps) by (rewrite Htm; lia).
  cbn [mbind outcome_bind]. rewrite Esort, Ebars. cbn [mbind outcome_bind mret outcome_ret].
  do 2 f_equal. by rewrite <- !(assoc_L (++)).
Qed.

Lemma ordered_filter ps (P : Stage -> Prop) `{!forall i, Decision (P i)} ids :
  StronglySorted (fun i j => d_lt (p50_ms (ps i)) (p50_ms (ps j)) = false) ids ->
  StronglySorted (fun i j => d_lt (p50_ms (ps i)) (p50_ms (ps j)) = false) (filter P ids).
Proof.
  exact (sorted_filter (fun a b => d_lt (p50_ms (ps b)) (p50_ms (ps a))) P ids).
Qed.

(** C29. The report of the durations that calls of [Record] have recorded is complete and in
    order. With any durations per stage, TOTAL at least one, recording and reporting
    return. The report has exactly one row for each stage with samples, in the order
    of the stages, with its count and percentiles; then the bottlenecks list exactly
    the stages of a call (TOTAL is not one) that have samples, each once, by
    non-increasing P50, each with a bar of 1 to 50 characters. *)
Theorem report_complete calls js :
  jobs_of calls js -> zlen calls < 2 ^ 63 -> jobs_at js TOTAL <> [] ->
  exists s ps bars,
    record_calls RuntimeStats_new calls = Returns s /\
    percentiles_are s ps /\ (forall i, count (ps i) = zlen (jobs_at js i)) /\
    PrintDetailedReport s = Returns (
      report_header ++
      ((fun i => report_row i (ps i)) <$> filter (fun i => jobs_at js i <> []) stages) ++
      [report_footer; log_info [txt ""]; log_info [txt "--- Bottleneck Analysis (P50-based) ---"]] ++
      (bar_line ps <$> bars) ++ [log_info [txt ""]] ++ long_tail_lines (ps TOTAL)) /\
    bars.*1 ≡ₚ filter (fun i => jobs_at js i <> []) call_stages /\
    StronglySorted (fun i j => d_lt (p50_ms (ps i)) (p50_ms (ps j)) = false) bars.*1 /\
    Forall (fun ib => 1 <= ib.2 <= 50) bars.
Proof.
  intros Hjs Hlen Htot. destruct (stats_of_calls calls js Hjs Hlen Htot) as (s & Hrec & Hs).
  destruct (percentiles_exist s _ Hs) as (ps & Hps & Hcp).
  assert (forall i, plausible (ps i)) as Hpl by (intros i; apply Hcp).
  assert (forall i, count (ps i) <> 0 <-> jobs_at js i <> []) as Hne.
  { intros i. rewrite (proj1 (Hcp i)). destruct (jobs_at js i); simpl; split; intros; done || lia. }
  assert (count (ps TOTAL) <> 0) as Ht by apply Hne, Hs.
  destruct (sorted_stages ps call_stages Hpl) as (ids' & Esort & Hperm & Hord).
  destruct (weight_lines_ok ps ids' Hpl Ht) as (bars & Ebars & Hbars & HF).
  exists s, ps, bars. split; [done|]. split; [done|]. split; [apply Hcp|].
  split; [|split; [|split; [|done]]].
  - rewrite (report_lines s ps ids' bars Hps Hpl Ht Esort Ebars).
    by rewrite (list_filter_iff _ _ stages Hne).
  - by rewrite Hbars, Hperm, (list_filter_iff _ _ call_stages Hne).
  - rewrite Hbars. by apply ordered_filter.
Qed.

End Theorems.

(** A stage of a call and its total. *)
#[local] Existing Instance insertion_sort.

Definition demo_calls : list (Stage * double) :=
  [(NET_IO, d_dec 5 1); (ENCODE_REQ, d_dec 15 1); (TOTAL, d_dec 21 1)].
Definition demo_js : list (Stage * (Z * Z)) :=
  [(NET_IO, (500000, 5)); (ENCODE_REQ, (1500000, 15)); (TOTAL, (2100000, 21))].

Example report_complete_witness :
  exists s ps bars,
    record_calls RuntimeStats_new demo_calls = Returns s /\
    percentiles_are s ps /\ (forall i, count (ps i) = zlen (jobs_at demo_js i)) /\
    PrintDetailedReport s = Returns (
      report_header ++
      ((fun i => report_row i (ps i)) <$> filter (fun i => jobs_at demo_js i <> []) stages) ++
      [report_footer; log_info [txt ""]; log_info [txt "--- Bottleneck Analysis (P50-based) ---"]] ++
      (bar_line ps <$> bars) ++ [log_info [txt ""]] ++ long_tail_lines (ps TOTAL)) /\
    bars.*1 ≡ₚ filter (fun i => jobs_at demo_js i <> []) call_stages /\
    StronglySorted (fun i j => d_lt (p50_ms (ps i)) (p50_ms (ps j)) = false) bars.*1 /\
    Forall (fun ib => 1 <= ib.2 <= 50) bars.
Proof.
  apply (report_complete demo_calls demo_js); [|done|done].
  repeat constructor; vm_compute; reflexivity.
Defined.

(** ** The warning *)

(** The ratio of the midpoints of buckets [j] and [i] is [(2 j + 1) / (2 i + 1)]. *)
Definition tail_ok (i : nat) : bool :=
  (* beyond three times the midpoint of bucket [i]: bucket [3 i + 2] *)
  ((299 <? 3 * i + 2)%nat ||
   d_gt (midpoint (Z.of_nat (3 * i + 2))) (d_mul (midpoint (Z.of_nat i)) (d_of_Z 3))) &&
  (* not beyond: bucket [3 i], or the last one *)
  negb (d_gt (midpoint (Z.of_nat (Nat.min (3 * i) 299))) (d_mul (midpoint (Z.of_nat i)) (d_of_Z 3))) &&
  negb (is_nan (d_mul (midpoint (Z.of_nat i)) (d_of_Z 3))).

Lemma tails_ok : forallb tail_ok (seq 0 300) = true.
Proof. vm_compute. reflexivity. Qed.

Lemma d_gt_mono (i j : nat) x :
  (i <= j < 300)%nat -> is_nan x = false ->
  d_gt (midpoint (Z.of_nat i)) x = true -> d_gt (midpoint (Z.of_nat j)) x = true.
Proof.
  intros Hij Hx Hi. apply not_false_iff_true. intros Hj. revert Hi. apply not_true_iff_false.
  pose proof (midpoint_mono i j Hij) as Hm.
  pose proof (midpoint_not_nan i ltac:(lia)). pose proof (midpoint_not_nan j ltac:(lia)).
  rewrite d_le_lt, negb_true_iff in Hm by done. unfold d_gt in *.
  by apply (d_lt_neg_trans _ (midpoint (Z.of_nat j))).
Qed.

(** The long-tail warning, which is to report a P99 of more than three times P95 and of
    more than 1 ms, is given for the buckets of the two percentiles that make it so:
    whenever P99's midpoint exceeds three times P95's by a bucket and is 1.05 ms or
    more, and never when it is below three times P95's or under 1 ms. (Between the two,
    at a ratio of exactly three, the rounding of the products decides.) *)
Theorem long_tail_warning r (b95 b99 : nat) :
  p95_ms r = midpoint (Z.of_nat b95) -> p99_ms r = midpoint (Z.of_nat b99) ->
  (b95 <= b99 < 300)%nat ->
  ((3 * b95 + 2 <= b99)%nat -> (10 <= b99)%nat -> has_long_tail r = true) /\
  (has_long_tail r = true -> (3 * b95 + 1 <= b99)%nat /\ (10 <= b99)%nat).
Proof.
  intros E95 E99 Hb. unfold has_long_tail. rewrite E95, E99.
  pose proof tails_ok as Hall. rewrite forallb_forall in Hall.
  specialize (Hall b95 ltac:(apply in_seq; lia)). unfold tail_ok in Hall.
  rewrite !andb_true_iff, !negb_true_iff in Hall. destruct Hall as [[H1 H2] H3].
  assert (is_nan (d_of_Z 1) = false) as Hn1 by done.
  split.
  - intros H3b H10. apply andb_true_iff. split.
    + apply (d_gt_mono (3 * b95 + 2)); [lia|done|].
      apply orb_true_iff in H1 as [H1|H1]; [lia|done].
    + apply (d_gt_mono 10); [lia|done|]. by vm_compute.
  - rewrite andb_true_iff. intros [Hgt Hone]. split.
    + destruct (decide (3 * b95 + 1 <= b99)%nat) as [|Hlt]; [done|]. exfalso.
      apply (d_gt_mono b99 (Nat.min (3 * b95) 299)) in Hgt; [congruence|lia|done].
    + destruct (decide (10 <= b99)%nat) as [|Hlt]; [done|]. exfalso.
      apply (d_gt_mono b99 9) in Hone; [|lia|done]. by vm_compute in Hone.
Qed.

Example long_tail_warning_witness :
  let r := mk_Percentiles (midpoint 5) (midpoint 10) (midpoint 250) d_zero d_zero 100 in
  ((3 * 10 + 2 <= 250)%nat -> (10 <= 250)%nat -> has_long_tail r = true) /\
  (has_long_tail r = true -> (3 * 10 + 1 <= 250)%nat /\ (10 <= 250)%nat).
Proof. apply (long_tail_warning _ 10 250); [reflexivity|reflexivity|lia]. Defined.
