(* ===== verification/ClientMains.v ===== *)
(** * ClientMains: the benchmark mains of the example clients

    [main] of [src/example/caller/client.cc] and [src/example/caller/bench_client.cc]:
    the threads of [ExampleClients] under the monitor of [QpsMonitor], the statistics
    that the channels' timers record, and the final reports. Each thread runs in the
    environment it finds (its sockets, the route table); the threads' effects on each
    other's route table are not modelled, those on the counters are. The output is that
    of [main] and the monitor: the lines the library logs meanwhile are left out. *)

From S2P Require Import Prelude CppString Buffer Wire Proto Message Codec LegacyCodec XRpcCodec CodecFactory Config Application LoadBalancer ZookeeperClient RouteManager Channel ChannelSpec UserProto LoginCall ExampleClients MiniMains Threads Doubles StdSort OStream Logger Stages RuntimeStats StatsReport QpsMonitor QpsStats.

(** What a thread leaves behind: what it has counted, and the stages its timers have
    recorded. *)
Record ThreadRun := mk_ThreadRun { tally : Tally; timed_stages : list Stage }.

(** The operations of a thread on the counters: one for each call, in some order. *)
Definition ops_of (r : ThreadRun) (l : list count_act) : Prop :=
  l ≡ₚ replicate (Z.to_nat (succeeded (tally r))) CSuccess ++
       replicate (Z.to_nat (failed (tally r))) CFail.

(** What [RuntimeStats] holds when the threads have ended: some duration for each timer,
    recorded in some order (threads that record at once have the effect of one after the
    other: [RuntimeStats.recorders_jobs]). *)
Definition stats_recorded (runs : list ThreadRun) (stats : RuntimeStats) : Prop :=
  exists calls, calls.*1 ≡ₚ concat (timed_stages <$> runs) /\
    record_calls RuntimeStats_new calls = Returns stats.

(** ** [client.cc]: output *)

(** The line of the monitor. *)
Definition client_row_line (r : Row) : LogLine := log_info
  [txt "║ "; Setw 6; Right; Int (elapsed_sec r);
   txt " ║ "; Setw 8; Right; Fixed; SetPrecision 1; Dbl (interval_qps r);
   txt " ║ "; Setw 8; Right; Fixed; SetPrecision 1; Dbl (cumulative_qps r);
   txt " ║ "; Setw 8; Right; Fixed; SetPrecision 1; Dbl (succ_qps r);
   txt " ║ "; Setw 8; Right; Fixed; SetPrecision 1; Dbl (fail_qps r);
   txt " ║ "; Setw 4; Right; Fixed; SetPrecision 1; Dbl (rate r); txt "%         ║"].

Definition client_table_lines : list LogLine := log_info <$> [
  [txt ""];
  [txt "╔"; txt "══════════════════════════════════════════════════════════════════════╗"];
  [txt "║              Real-time QPS Monitor Started                          ║"];
  [txt "╠"; txt "════════╦══════════╦══════════╦══════════╦══════════╦════════════════╣"];
  [txt "║  Time  ║ Interval ║ Cumul.   ║ Success  ║   Fail   ║  Success Rate ║"];
  [txt "║   (s)  ║   QPS    ║   QPS    ║   QPS    ║   QPS    ║               ║"];
  [txt "╠"; txt "════════╬══════════╬══════════╬══════════╬══════════╬════════════════╣"]].

Definition rule_line : LogLine := log_info
  [txt "╠"; txt "══════════════════════════════════════════════════════════════════════╣"].

(** The counts and rates of the final report. *)
Record Totals := mk_Totals {
  t_success : Z;
  t_fail : Z;
  t_elapsed : double;
  t_overall_qps : double;
  t_success_qps : double;
  t_fail_qps : double;
  t_success_rate : double
}.
Definition make_totals (c : Counters) (elapsed_ns : Z) : Totals :=
  let s := success_count c in
  let f := fail_count c in
  let elapsed := chrono_s elapsed_ns in
  mk_Totals s f elapsed (d_div (d_of_Z (s + f)) elapsed) (d_div (d_of_Z s) elapsed)
    (d_div (d_of_Z f) elapsed)
    (if s + f >? 0 then d_div (d_mul (d_of_Z 100) (d_of_Z s)) (d_of_Z (s + f)) else d_zero).

Definition client_totals_lines (total_requests : Z) (t : Totals) : list LogLine :=
  [log_info [txt "╚"; txt "════════╩══════════╩══════════╩══════════╩══════════╩════════════════╝"];
   log_info [txt ""];
   log_info [txt "╔"; txt "══════════════════════════════════════════════════════════════════════╗"];
   log_info [txt "║                   QPS Benchmark Final Report                        ║"];
   rule_line;
   log_info [txt "║  Total Requests:     "; Setw 10; Int total_requests; txt "                          ║"];
   log_info [txt "║  Success Count:      "; Setw 10; Int (t_success t); txt "                          ║"];
   log_info [txt "║  Fail Count:         "; Setw 10; Int (t_fail t); txt "                          ║"];
   log_info [txt "║  Elapsed Time:       "; Setw 8; Fixed; SetPrecision 3; Dbl (t_elapsed t);
             txt " s                       ║"];
   rule_line;
   log_info [txt "║  >> Overall QPS:     "; Setw 10; Fixed; SetPrecision 1; Dbl (t_overall_qps t);
             txt "  req/s                  ║"];
   log_info [txt "║  >> Success QPS:     "; Setw 10; Fixed; SetPrecision 1; Dbl (t_success_qps t);
             txt "  req/s                  ║"];
   log_info [txt "║  >> Fail QPS:        "; Setw 10; Fixed; SetPrecision 1; Dbl (t_fail_qps t);
             txt "  req/s                  ║"];
   log_info [txt "║  >> Success Rate:    "; Setw 8; Fixed; SetPrecision 2; Dbl (t_success_rate t);
             txt " %                      ║"];
   rule_line].

Definition client_stats_lines (st : QpsStats) : list LogLine :=
  [log_info [txt "║  Peak QPS:           "; Setw 10; Fixed; SetPrecision 1; Dbl (st_peak st);
             txt "  req/s                  ║"];
   log_info [txt "║  Min QPS:            "; Setw 10; Fixed; SetPrecision 1; Dbl (shown_min (st_min st));
             txt "  req/s                  ║"];
   log_info [txt "║  Avg Interval QPS:   "; Setw 10; Fixed; SetPrecision 1; Dbl (st_avg st);
             txt "  req/s                  ║"];
   log_info [txt "║  QPS StdDev:         "; Setw 10; Fixed; SetPrecision 1; Dbl (st_stddev st);
             txt "  req/s                  ║"];
   log_info [txt "║  QPS Stability:      "; Setw 8; Fixed; SetPrecision 1; Dbl (st_stability st);
             txt " %                       ║"];
   rule_line].

(** [seg_count > 0 ? sum / seg_count : 0.0]. *)
Definition seg_average (sum : double) (seg : Z * Z) : double :=
  let seg_count := zlen (indices seg) in
  if seg_count >? 0 then d_div sum (d_of_Z seg_count) else d_zero.

Definition client_segment_line (m : Monitor) (seg : nat) (bounds : Z * Z) : outcome LogLine :=
  sum ← seg_sum (qps_history m) bounds;
  success_sum ← seg_sum (success_rate_history m) bounds;
  let seg_avg_qps := seg_average sum bounds in
  let seg_avg_rate := seg_average success_sum bounds in
  bar_len ← bar_of (client_part seg_avg_qps (peak_qps m));
  mret (log_info
    [txt "║  Seg "; Int (Z.of_nat seg + 1); txt " ["; Setw 2; Int (bounds.1 + 1);
     txt "s-"; Setw 2; Int bounds.2; txt "s]: "; Setw 8; Fixed; SetPrecision 1; Dbl seg_avg_qps;
     txt " QPS, rate="; Setw 5; SetPrecision 1; Dbl seg_avg_rate; txt "% "; bar_text bar_len;
     txt "  ║"]).

Fixpoint client_segment_lines (m : Monitor) (seg : nat) (bounds : list (Z * Z)) :
    outcome (list LogLine) :=
  match bounds with
  | [] => mret []
  | b :: bounds =>
      line ← client_segment_line m seg b;
      rest ← client_segment_lines m (S seg) bounds;
      mret (line :: rest)
  end.

(** The analysis of the samples, if there are any. *)
Definition client_analysis (m : Monitor) : outcome (list LogLine) :=
  if qps_samples m >? 0 then
    segs ← client_segment_lines m 0 (client_segments (qps_samples m) (i32 (zlen (qps_history m))));
    mret (client_stats_lines (client_stats m) ++
      [log_info [txt "║  Segmented QPS Analysis ("; Int (Z.min 5 (i32 (qps_samples m)));
                 txt " segments):                    ║"]] ++ segs)
  else mret [].

Definition client_end_lines : list LogLine := log_info <$> [
  [txt "╚"; txt "══════════════════════════════════════════════════════════════════════╝"];
  [txt ""]].

(** ** [bench_client.cc]: output *)

Definition bench_usage_items (prog : bytes) : list item :=
  [txt "Usage: "; Str prog;
   txt " <server_ip> <server_port> [threads=100] [calls_per_thread=10000] [monitor_interval_ms=1000]";
   endline].

Definition bench_banner_items (server_ip : bytes) (server_port thread_count calls_per_thread total : Z) :
    list item :=
  [endline; txt "+================================================+"; endline;
   txt "|    XRPC Real-Link QPS Benchmark (Direct)       |"; endline;
   txt "+================================================+"; endline;
   txt "| Server:   "; Str server_ip; txt ":"; Int server_port; endline;
   txt "| Threads:  "; Int thread_count; endline;
   txt "| Calls/T:  "; Int calls_per_thread; endline;
   txt "| Total:    "; Int total; endline;
   txt "+================================================+"; endline; endline].

Definition bench_table_items : list item :=
  [txt "+------+------------+------------+------------+------------+--------------+"; endline;
   txt "| Time | Interval   | Cumul Avg  | Success    | Fail       | Success Rate |"; endline;
   txt "| (s)  | QPS        | QPS        | QPS        | QPS        |              |"; endline;
   txt "+------+------------+------------+------------+------------+--------------+"; endline].

(** The monitor's [printf]. *)
Definition bench_row_items (r : Row) : list item :=
  [txt "| "; Setw 4; Int (elapsed_sec r); txt "s | "; Fixed; SetPrecision 1;
   Setw 10; Dbl (interval_qps r); txt " | "; Setw 10; Dbl (cumulative_qps r);
   txt " | "; Setw 10; Dbl (succ_qps r); txt " | "; Setw 10; Dbl (fail_qps r);
   txt " | "; Setw 7; Dbl (rate r); txt "%      |"; endline].

Definition bench_final_items (total_requests : Z) (t : Totals) (st : QpsStats) : list item :=
  [txt "+------+------------+------------+------------+------------+--------------+"; endline; endline;
   txt "============================================================"; endline;
   txt "        Real-Link QPS Benchmark — Final Report"; endline;
   txt "============================================================"; endline;
   txt " Total Requests:  "; Int total_requests; endline;
   txt " Completed:       "; Int (t_success t + t_fail t); endline;
   txt " Success:         "; Int (t_success t); endline;
   txt " Fail:            "; Int (t_fail t); endline;
   txt " Elapsed:         "; Fixed; SetPrecision 3; Dbl (t_elapsed t); txt " s"; endline;
   txt " Success Rate:    "; SetPrecision 2; Dbl (t_success_rate t); txt "%"; endline;
   txt "------------------------------------------------------------"; endline;
   txt " >> Overall QPS:  "; SetPrecision 1; Dbl (t_overall_qps t); txt " req/s"; endline;
   txt " >> Success QPS:  "; Dbl (t_success_qps t); txt " req/s"; endline;
   txt " >> Peak QPS:     "; Dbl (st_peak st); txt " req/s"; endline;
   txt " >> Min QPS:      "; Dbl (shown_min (st_min st)); txt " req/s"; endline;
   txt " >> Avg Intv QPS: "; Dbl (st_avg st); txt " req/s"; endline;
   txt " >> QPS StdDev:   "; Dbl (st_stddev st); txt " req/s"; endline;
   txt " >> Stability:    "; Dbl (st_stability st); txt "%"; endline;
   txt "============================================================"; endline; endline].

Definition connecting_items (thread_count : Z) : list item :=
  [txt "[Info] Connecting "; Int thread_count; txt " channels..."; endline].

Section Mains.

Context `{Host} `{Proto RpcHeader} `{!ProtoLaws RpcHeader}
  `{Proto RequestProtocol} `{Proto ResponseProtocol} `{!ProtoLaws ResponseProtocol}
  `{Proto LoginRequest} `{Proto LoginResponse} `{ZooApi Zk} `{Generator G} `{StdSort}.
Context (getopt : list bytes -> list (byte * bytes)) (fopen : bytes -> option bytes).

(** ** [client.cc]: main *)

(** A thread of [requests] requests that returns. *)
Definition client_thread (config : Config) (requests : nat) (r : ThreadRun) : Prop :=
  exists port0 e s', Channel.m_config e = config /\ log e = [] /\
    send_request (Zk := Zk) (G := G) port0 requests e = Returns (tally r, s') /\
    timed_stages r = timers (log (env s')).

(** The part after [Init], for a number of threads and of requests for each: the
    monitor's rows, the lines logged, and the statistics at the end. *)
Inductive client_run (thread_count requests_per_thread : nat) (config : Config)
    (start_time end_time : Z) : list Row -> list LogLine -> RuntimeStats -> Prop :=
| a_client_run runs ops x stats analysis report :
    length runs = thread_count -> Forall (client_thread config requests_per_thread) runs ->
    Forall2 ops_of runs ops ->
    rtc (sys_step Client start_time) (Sys_start start_time ops) x -> joined x ->
    stats_recorded runs stats ->
    client_analysis (monitor x) = Returns analysis ->
    PrintReport stats = Returns report ->
    client_run thread_count requests_per_thread config start_time end_time
      (rows (monitor x))
      (client_table_lines ++ (client_row_line <$> rows (monitor x)) ++
       client_totals_lines (Z.of_nat thread_count * Z.of_nat requests_per_thread)
         (make_totals (counters x) (end_time - start_time)) ++
       analysis ++ client_end_lines ++ report) stats.

(** [main]: 100 threads of 10000 requests. It may also end in [Init]. *)
Inductive client_main (argv : list bytes) (start_time end_time : Z) :
    outcome (list LogLine) -> Prop :=
| client_main_exits status :
    Init getopt fopen ∅ argv = Exits status ->
    client_main argv start_time end_time (Exits status)
| client_main_runs config rs lines stats :
    Init getopt fopen ∅ argv = Returns config ->
    client_run 100 (Z.to_nat 10000) config start_time end_time rs lines stats ->
    client_main argv start_time end_time (Returns lines).

(** ** [bench_client.cc]: main *)

(** A channel as [main] makes it, and the worker's run on it. *)
Definition direct_worker (server_ip : bytes) (server_port : Z) (calls : nat) (e : Env) :
    outcome (Tally * St (G := G)) :=
  '(_, s) ← RpcChannel_direct server_ip server_port false
    (mk_St (RpcChannel_lazy server_port false) Controller_new e);
  worker (Zk := Zk) calls s.

Definition bench_thread (server_ip : bytes) (server_port : Z) (calls : nat) (r : ThreadRun) : Prop :=
  exists e s', log e = [] /\ direct_worker server_ip server_port calls e = Returns (tally r, s') /\
    timed_stages r = timers (log (env s')).

(** What the monitor prints, statement by statement, with [main]'s line about the
    channels somewhere among it. *)
Definition bench_monitor_items (thread_count : Z) (rs : list Row) (k : nat) : list item :=
  let printed := bench_table_items :: (bench_row_items <$> rs) in
  concat (take k printed ++ [connecting_items thread_count] ++ drop k printed).

(** Exit status, monitor's rows, what is printed (the usage on [std::cerr]), the lines
    logged after it, and the statistics at the end. *)
Inductive bench_main (argv : list bytes) (start_time end_time : Z) :
    Z -> list Row -> list item -> list LogLine -> RuntimeStats -> Prop :=
| bench_main_usage prog :
    zlen argv < 3 -> argv !! 0%nat = Some prog ->
    bench_main argv start_time end_time 1 [] (bench_usage_items prog) [] RuntimeStats_new
| bench_main_runs server_ip runs ops x stats k report :
    3 <= zlen argv -> argv !! 1%nat = Some server_ip ->
    let server_port := int_arg argv 2 0 in
    let thread_count := int_arg argv 3 100 in
    let calls_per_thread := int_arg argv 4 10000 in
    let total_requests := thread_count * calls_per_thread in
    length runs = Z.to_nat thread_count ->
    Forall (bench_thread server_ip server_port (Z.to_nat calls_per_thread)) runs ->
    Forall2 ops_of runs ops ->
    rtc (sys_step BenchClient start_time) (Sys_start start_time ops) x -> joined x ->
    stats_recorded runs stats ->
    PrintReport stats = Returns report ->
    bench_main argv start_time end_time 0 (rows (monitor x))
      (bench_banner_items server_ip server_port thread_count calls_per_thread total_requests ++
       bench_monitor_items thread_count (rows (monitor x)) k ++
       bench_final_items total_requests (make_totals (counters x) (end_time - start_time))
         (sample_stats (qps_history (monitor x))))
      report stats.

(** ** Accounting *)

(** A thread that returns has counted each call once and timed each call once. *)
Definition thread_ok (n : nat) (r : ThreadRun) : Prop :=
  0 <= succeeded (tally r) /\ 0 <= failed (tally r) /\
  succeeded (tally r) + failed (tally r) = Z.of_nat n /\
  sum_by (stage_is TOTAL) (timed_stages r) = Z.of_nat n.

Lemma tally_call_grows c response t :
  succeeded t <= succeeded (tally_call c response t) /\ failed t <= failed (tally_call c response t).
Proof. unfold tally_call, add_success, add_failure. repeat case_if; simpl; lia. Qed.

(** Both loops: what [n] calls add. *)
Definition counts_calls (n : nat) (t t' : Tally) (s s' : St (G := G)) : Prop :=
  succeeded t <= succeeded t' /\ failed t <= failed t' /\
  succeeded t' + failed t' = succeeded t + failed t + Z.of_nat n /\ calls_timed n s s'.

Lemma counts_calls_none t s : counts_calls 0 t t s s.
Proof. split; [lia|]. split; [lia|]. split; [lia|]. exists []. by rewrite app_nil_r. Qed.

Lemma counts_calls_one n c response r t t' (s s1 s1' s' : St) :
  Stub_Login the_request s = Returns (r, s1) -> env s1' = env s1 ->
  counts_calls n (tally_call c response t) t' s1' s' -> counts_calls (S n) t t' s s'.
Proof.
  intros Hcall%call_timed He (H1' & H2' & H3' & Ht). pose proof (tally_call_grows c response t).
  rewrite (tally_call_total c response t) in H3'. split; [lia|]. split; [lia|]. split; [lia|].
  unfold calls_timed in Ht. rewrite He in Ht. by apply (calls_timed_trans 1 n s s1 s').
Qed.

Lemma send_request_loop_counts n : forall response t s t' s',
  send_request_loop (Zk := Zk) n response t s = Returns (t', s') -> counts_calls n t t' s s'.
Proof.
  induction n as [|n IH]; intros response t s t' s'; cbn [send_request_loop].
  { intros [= <- <-]. apply counts_calls_none. }
  destruct (Stub_Login the_request s) as [[r s1]| | | |] eqn:E; try done. cbn [mbind outcome_bind].
  intros Hl%IH. by eapply counts_calls_one.
Qed.

Lemma worker_loop_counts n : forall response t s t' s',
  worker_loop (Zk := Zk) n response t s = Returns (t', s') -> counts_calls n t t' s s'.
Proof.
  induction n as [|n IH]; intros response t s t' s'; cbn [worker_loop].
  { intros [= <- <-]. apply counts_calls_none. }
  destruct (Stub_Login the_request s) as [[r s1]| | | |] eqn:E; try done. cbn [mbind outcome_bind].
  intros Hl%IH. by eapply counts_calls_one.
Qed.

(** A thread's loop after a part that makes no calls. *)
Lemma counted_thread n r (s0 s s' : St (G := G)) :
  log (env s0) = [] -> calls_timed 0 s0 s -> counts_calls n tally_zero (tally r) s s' ->
  timed_stages r = timers (log (env s')) -> thread_ok n r.
Proof.
  intros Hlog Hs0 (H1' & H2' & H3' & Ht) Er.
  destruct (calls_timed_trans 0 n _ _ _ Hs0 Ht) as (l & Hl & Hn).
  rewrite Hlog in Hl. cbn in H1', H2', H3', Hl, Hn. split; [lia|]. split; [lia|]. split; [lia|].
  by rewrite Er, Hl.
Qed.

Lemma client_thread_ok config n r : client_thread config n r -> thread_ok n r.
Proof.
  intros (port0 & e & s' & _ & Hlog & E & Er). unfold send_request in E.
  set (s0 := mk_St _ _ _) in E.
  change (RpcChannel_ctor port0 false false s0) with (Returns (Some tt, s0)) in E.
  cbn [mbind outcome_bind] in E.
  apply (counted_thread n r s0 s0 s'); [exact Hlog| |by apply send_request_loop_counts in E|exact Er].
  exists []. by rewrite app_nil_r.
Qed.

Lemma bench_thread_ok ip port n r : bench_thread ip port n r -> thread_ok n r.
Proof.
  intros (e & s' & Hlog & E & Er). unfold direct_worker in E. set (s0 := mk_St _ _ _) in E.
  destruct (RpcChannel_direct ip port false s0) as [[u s]| | | |] eqn:Ed; try done.
  cbn [mbind outcome_bind] in E.
  eapply (counted_thread n r s0 {| s with ctl := Controller_new |});
    [exact Hlog| |by eapply worker_loop_counts|exact Er].
  eapply calls_timed_none in Ed; [exact Ed|].
  apply reports_bind; [apply reports_set_chan|]. intros _.
  apply reports_bind; [apply reports_newConnect|]. intros _. apply reports_ret.
Qed.

(** The totals of threads that make [n] calls each. *)
Lemma runs_account (runs : list ThreadRun) ops n :
  Forall (thread_ok n) runs -> Forall2 ops_of runs ops ->
  successes ops = sum_by (fun r => succeeded (tally r)) runs /\
  failures ops = sum_by (fun r => failed (tally r)) runs /\
  successes ops + failures ops = zlen runs * Z.of_nat n /\
  sum_by (stage_is TOTAL) (concat (timed_stages <$> runs)) = zlen runs * Z.of_nat n.
Proof.
  intros Hn Hops. revert Hn. unfold successes, failures.
  induction Hops as [|r l runs ops Hl _ IH]; intros Hn; [done|].
  apply Forall_cons in Hn as [(Hs & Hf & Ht & Htm) Hn]. destruct (IH Hn) as (I1 & I2 & I3 & I4).
  cbn [fmap list_fmap concat]. rewrite !sum_by_cons, sum_by_app, I4, Htm.
  rewrite (sum_by_perm success_of _ _ Hl), (sum_by_perm fail_of _ _ Hl), !sum_by_app.
  rewrite !sum_by_replicate. cbn [success_of fail_of length]. lia.
Qed.

Lemma joined_totals t start_time ops x :
  successes ops < 2 ^ 63 -> failures ops < 2 ^ 63 ->
  rtc (sys_step t start_time) (Sys_start start_time ops) x -> joined x ->
  success_count (counters x) = successes ops /\ fail_count (counters x) = failures ops /\
  sum_by delta_success (rows (monitor x)) <= successes ops /\
  sum_by delta_fail (rows (monitor x)) <= failures ops.
Proof.
  intros Hs Hf Hr (He%all_ended_concat & _).
  destruct (sys_inv_reachable t start_time ops Hs Hf x Hr) as [Hc [H1' H2' _ _ _ _ _ _] Hpc _ _].
  destruct Hc as (? & ? & ? & ?), Hpc as (? & ? & _). unfold rows_success, rows_fail in *.
  assert (successes (workers x) = 0 /\ failures (workers x) = 0) as [? ?]
    by (unfold successes, failures; rewrite <- !sum_by_concat, He; done).
  lia.
Qed.

Lemma recorded_total runs stats k :
  stats_recorded runs stats -> sum_by (stage_is TOTAL) (concat (timed_stages <$> runs)) = k ->
  i64_ok k -> count_at TOTAL stats = k.
Proof.
  intros (calls & Hp & Hr) Hk Hok. apply (record_calls_count TOTAL) in Hr; [|by vm_compute].
  rewrite Hr, (sum_by_perm _ _ _ Hp), Hk. by apply i64_small.
Qed.

(** C39. The report of [client.cc] accounts for every request (of a total below 2^63).
    Its threads are runs of the request loop (with the configuration of [Init], each in
    the environment it finds), and with S and F the sums of the successes and of the
    failures these threads counted, the lines that the report prints under these names
    are: total requests, the number of threads times that of requests of each; success
    count, S; fail count, F; the elapsed time; overall QPS, (S + F) / elapsed; success
    and fail QPS, S / elapsed and F / elapsed; success rate, 100 S / (S + F), or 0. S
    and F add up to the total number of requests, as does the number of calls in the
    statistics, which hold the durations of these threads' timers; and the intervals of
    the monitor's lines add up to at most S and F. *)
Theorem client_report_accounts n requests config start_time end_time rs lines stats :
  Z.of_nat n * Z.of_nat requests < 2 ^ 63 ->
  client_run n requests config start_time end_time rs lines stats ->
  exists runs before rest,
    let succ := sum_by (fun r => succeeded (tally r)) runs in
    let fail := sum_by (fun r => failed (tally r)) runs in
    let total := Z.of_nat n * Z.of_nat requests in
    let elapsed := chrono_s (end_time - start_time) in
    length runs = n /\ Forall (client_thread config requests) runs /\
    lines = client_table_lines ++ (client_row_line <$> rs) ++ before ++
      [log_info [txt "║  Total Requests:     "; Setw 10; Int total; txt "                          ║"];
       log_info [txt "║  Success Count:      "; Setw 10; Int succ; txt "                          ║"];
       log_info [txt "║  Fail Count:         "; Setw 10; Int fail; txt "                          ║"];
       log_info [txt "║  Elapsed Time:       "; Setw 8; Fixed; SetPrecision 3; Dbl elapsed;
                 txt " s                       ║"];
       rule_line;
       log_info [txt "║  >> Overall QPS:     "; Setw 10; Fixed; SetPrecision 1;
                 Dbl (d_div (d_of_Z (succ + fail)) elapsed); txt "  req/s                  ║"];
       log_info [txt "║  >> Success QPS:     "; Setw 10; Fixed; SetPrecision 1;
                 Dbl (d_div (d_of_Z succ) elapsed); txt "  req/s                  ║"];
       log_info [txt "║  >> Fail QPS:        "; Setw 10; Fixed; SetPrecision 1;
                 Dbl (d_div (d_of_Z fail) elapsed); txt "  req/s                  ║"];
       log_info [txt "║  >> Success Rate:    "; Setw 8; Fixed; SetPrecision 2;
                 Dbl (if 0 <? succ + fail then d_div (d_mul (d_of_Z 100) (d_of_Z succ)) (d_of_Z (succ + fail))
                      else d_zero); txt " %                      ║"]] ++ rest /\
    succ + fail = total /\ stats_recorded runs stats /\ count_at TOTAL stats = total /\
    sum_by delta_success rs <= succ /\ sum_by delta_fail rs <= fail.
Proof.
  intros Hlt Hrun. destruct Hrun as [runs ops x stats analysis report Hn Ht Hops Hr Hj Hst _ _].
  destruct (runs_account runs ops requests) as (Es & Ef & Etot & Etm); [|done|].
  { eapply Forall_impl; [exact Ht|apply client_thread_ok]. }
  rewrite Hn in Etot, Etm. destruct (weights_nonneg ops).
  destruct (joined_totals Client start_time ops x ltac:(lia) ltac:(lia) Hr Hj) as (E1 & E2 & ? & ?).
  rewrite Es, Ef in *. exists runs, (firstn 5 (client_totals_lines 0 (make_totals Counters_zero 0))),
    ([rule_line] ++ analysis ++ client_end_lines ++ report).
  cbv zeta. split; [done|]. split; [done|].
  split.
  { unfold client_totals_lines, make_totals. cbn [t_success t_fail t_elapsed t_overall_qps t_success_qps
      t_fail_qps t_success_rate]. by rewrite E1, E2, Z.gtb_ltb. }
  split; [done|]. split; [done|].
  split; [by apply (recorded_total runs); [| |unfold i64_ok; lia]|]. done.
Qed.

(** The report of [bench_client.cc] likewise, for any arguments: the total it announces is
    the number of calls it counts, and of those the statistics report. *)
Theorem bench_client_accounts argv start_time end_time rs out report stats :
  let thread_count := int_arg argv 3 100 in
  let calls_per_thread := int_arg argv 4 10000 in
  0 <= thread_count -> 0 <= calls_per_thread -> thread_count * calls_per_thread < 2 ^ 63 ->
  bench_main argv start_time end_time 0 rs out report stats ->
  exists c st k ip,
    out = bench_banner_items ip (int_arg argv 2 0) thread_count calls_per_thread
            (thread_count * calls_per_thread) ++
          bench_monitor_items thread_count rs k ++
          bench_final_items (thread_count * calls_per_thread)
            (make_totals c (end_time - start_time)) st /\
    0 <= success_count c /\ 0 <= fail_count c /\
    success_count c + fail_count c = thread_count * calls_per_thread /\
    count_at TOTAL stats = thread_count * calls_per_thread /\
    sum_by delta_success rs <= success_count c /\ sum_by delta_fail rs <= fail_count c.
Proof.
  intros thread_count calls_per_thread Hn Hc Hlt Hrun.
  inversion Hrun as [|server_ip runs ops x stats' k report' ? ? port n' c' total Hl Ht Hops Hr Hj Hst ?]; subst.
  fold thread_count calls_per_thread in Hl, Ht |- *.
  destruct (runs_account runs ops (Z.to_nat calls_per_thread)) as (Es & Ef & Etot & Etm); [|done|].
  { eapply Forall_impl; [exact Ht|apply bench_thread_ok]. }
  replace (zlen runs) with thread_count in Etot, Etm by (rewrite Hl; fold thread_count; lia).
  rewrite Z2Nat.id in Etot, Etm by done. destruct (weights_nonneg ops).
  destruct (joined_totals BenchClient start_time ops x ltac:(lia) ltac:(lia) Hr Hj) as (E1 & E2 & ? & ?).
  exists (counters x). eexists _, k, server_ip. split; [reflexivity|]. rewrite E1, E2.
  do 3 (split; [lia|]). split; [by apply (recorded_total runs); [| |unfold i64_ok; lia]|]. lia.
Qed.

End Mains.

(** ** Witnesses *)

Section ClientMainsWitnesses.

Import Demo UserDemo.
#[local] Existing Instances RpcHeader_demo RequestProtocol_demo ResponseProtocol_demo
  LoginRequest_demo LoginResponse_demo DemoZk.tree ExampleClients.upper ExampleClients.little
  insertion_sort.

(** One thread that counts two failures; the monitor does not wake before the end. *)
Lemma one_thread_joins t ops :
  exists x, rtc (sys_step t 0) (Sys_start 0 ops) x /\ joined x /\ monitor x = Monitor_new 0.
Proof.
  destruct (sequential_run count_do ops Counters_zero) as (ts & Hrun & Hend).
  exists (mk_Sys ts (acts count_do (concat ops) Counters_zero) false (Monitor_new 0) MEnd).
  split; [|split; [|reflexivity]].
  - etransitivity; [by apply workers_run_on|].
    eapply rtc_l; [by apply main_stops|]. eapply rtc_l; [apply monitor_ends|]. apply rtc_refl.
  - split; [exact Hend|]. split; reflexivity.
Qed.

(** A thread's end, and its timers as calls of [Record] of a tenth of a millisecond. *)
Definition run_of (o : outcome (Tally * St (G := unit))) : option ThreadRun :=
  match o with
  | Returns (t, s) => Some (mk_ThreadRun t (timers (log (env s))))
  | _ => None
  end.
Definition tenths (l : list Stage) : list (Stage * double) := (fun i => (i, d_dec 1 1)) <$> l.
Lemma stages_of_tenths l : (tenths l).*1 = l.
Proof. induction l as [|i l IH]; [done|]. cbn. by f_equal. Qed.

Definition flaky_run : ThreadRun := mk_ThreadRun (mk_Tally 0 2)
  [ZK_QUERY; LOAD_BALANCE; ZK_QUERY; CONNECT; TOTAL;
   CONNECT; SERIALIZE_REQ; ENCODE_REQ; NET_IO; DECODE_RES; DESERIALIZE_RES; TOTAL].

(** The statistics of one thread's timers, and their report. *)
Lemma one_thread_recorded r stats :
  record_calls RuntimeStats_new (tenths (timed_stages r)) = Returns stats -> stats_recorded [r] stats.
Proof.
  intros Hr. exists (tenths (timed_stages r)). split; [|exact Hr].
  rewrite stages_of_tenths. cbn. by rewrite app_nil_r.
Qed.

Definition reports_tenths (l : list Stage) : bool :=
  match (stats ← record_calls RuntimeStats_new (tenths l); PrintReport stats) with
  | Returns _ => true | _ => false end.
Lemma reports_tenths_ok l :
  reports_tenths l = true -> exists stats report,
    record_calls RuntimeStats_new (tenths l) = Returns stats /\ PrintReport stats = Returns report.
Proof.
  unfold reports_tenths. destruct (record_calls RuntimeStats_new (tenths l)) as [stats| | | |]; try done.
  cbn [mbind outcome_bind]. destruct (PrintReport stats) as [report| | | |] eqn:E; try done.
  intros _. by exists stats, report.
Qed.

Lemma client_report_accounts_witness :
  exists lines stats runs,
    client_run 1 2 {[ lit "loadbalancer" := lit "roundrobin" ]} 0 1000000000 [] lines stats /\
    length runs = 1%nat /\ sum_by (fun r => succeeded (tally r)) runs +
      sum_by (fun r => failed (tally r)) runs = 2 /\
    log_info [txt "║  Fail Count:         "; Setw 10; Int (sum_by (fun r => failed (tally r)) runs);
              txt "                          ║"] ∈ lines /\ count_at TOTAL stats = 2.
Proof.
  assert (run_of (send_request 0 2 flaky_env) = Some flaky_run) as Ht by (vm_compute; reflexivity).
  destruct (send_request 0 2 flaky_env) as [[t s']| | | |] eqn:E; try discriminate Ht.
  injection Ht as -> Etm.
  destruct (one_thread_joins Client [[CFail; CFail]]) as (x & Hr & Hj & Hm).
  destruct (reports_tenths_ok (timed_stages flaky_run)) as (stats & report & Hst & Hrep);
    [vm_compute; reflexivity|].
  assert (exists lines, client_run 1 2 {[ lit "loadbalancer" := lit "roundrobin" ]} 0 1000000000
    [] lines stats) as (lines & Hrun).
  { eexists. replace (@nil Row) with (rows (monitor x)) by (by rewrite Hm).
    apply (a_client_run 1 2 _ 0 1000000000 [flaky_run] [[CFail; CFail]] x stats [] report);
      [reflexivity| |by repeat constructor|exact Hr|exact Hj|by apply one_thread_recorded|by rewrite Hm|
       exact Hrep].
    constructor; [|constructor]. exists 0, flaky_env, s'. split; [reflexivity|]. split; [reflexivity|].
    split; [exact E|]. by rewrite Etm. }
  destruct (client_report_accounts 1 2 _ 0 1000000000 [] lines stats ltac:(lia) Hrun)
    as (runs & before & rest & Hn & _ & Hl & Htot & _ & Hc & _).
  exists lines, stats, runs. split; [exact Hrun|]. split; [exact Hn|]. split; [exact Htot|].
  split; [|exact Hc]. rewrite Hl, !elem_of_app. right. right. right. left.
  rewrite !elem_of_cons. right. right. left. reflexivity.
Defined.

(** One thread of one call against a server that answers. *)
Definition one_call_env : Env (G := unit) := mk_Env ∅ ∅ tt
  [DConnected 7 (mk_Sock [the_size] [RData (legacy_response the_answer)])] ∅ [].
Definition one_call_run : ThreadRun := mk_ThreadRun (mk_Tally 1 0)
  [SERIALIZE_REQ; ENCODE_REQ; NET_IO; DECODE_RES; DESERIALIZE_RES; TOTAL].
Definition one_call_argv : list bytes :=
  [lit "bench_client"; lit "10.0.0.7"; lit "8000"; lit "1"; lit "1"].

Lemma bench_client_accounts_witness :
  exists out report stats c st k ip,
    bench_main one_call_argv 0 1000000000 0 [] out report stats /\
    out = bench_banner_items ip 8000 1 1 1 ++ bench_monitor_items 1 [] k ++
          bench_final_items 1 (make_totals c 1000000000) st /\
    success_count c + fail_count c = 1 /\ count_at TOTAL stats = 1.
Proof.
  assert (run_of (direct_worker (lit "10.0.0.7") 8000 1 one_call_env) = Some one_call_run) as Ht
    by (vm_compute; reflexivity).
  destruct (direct_worker (lit "10.0.0.7") 8000 1 one_call_env) as [[t s']| | | |] eqn:E;
    try discriminate Ht.
  injection Ht as -> Etm.
  destruct (one_thread_joins BenchClient [[CSuccess]]) as (x & Hr & Hj & Hm).
  destruct (reports_tenths_ok (timed_stages one_call_run)) as (stats & report & Hst & Hrep);
    [vm_compute; reflexivity|].
  assert (exists out, bench_main one_call_argv 0 1000000000 0 [] out report stats) as (out & Hrun).
  { eexists. replace (@nil Row) with (rows (monitor x)) by (by rewrite Hm).
    apply (bench_main_runs one_call_argv 0 1000000000 (lit "10.0.0.7") [one_call_run] [[CSuccess]] x stats 0 report);
      [cbn; lia|reflexivity|reflexivity| |by repeat constructor|exact Hr|exact Hj|
       by apply one_thread_recorded|exact Hrep].
    constructor; [|constructor]. exists one_call_env, s'. split; [reflexivity|].
    split; [exact E|]. by rewrite Etm. }
  destruct (bench_client_accounts one_call_argv 0 1000000000 [] out report stats)
    as (c & st & k & ip & Hf & _ & _ & Htot & Hc & _);
    [vm_compute; discriminate|vm_compute; discriminate|vm_compute; reflexivity|exact Hrun|].
  exists out, report, stats, c, st, k, ip. split; [exact Hrun|]. split; [exact Hf|].
  split; [exact Htot|exact Hc].
Defined.

End ClientMainsWitnesses.
