(* ===== verification/StatsBench.v ===== *)
(** * StatsBench: the benchmark of the statistics

    [tools/benchmark_stats.cc]: simulated calls, each stage under a [ScopedTimer] of
    [RuntimeStats], from eight threads, and the report. The draws of <random> are those
    of [QpsBench]'s [Random]; the clock is a function of how often it has been read. *)

From S2P Require Import Prelude CppString MiniMains Threads Doubles StdSort OStream Logger Stages RuntimeStats StatsReport QpsMonitor QpsStats QpsBench.

Section Bench.
Context `{Random}.

(** ** LatencySimulator *)

(** [std::abs(d(gen_))]. *)
Definition sample (d : dist) (g : rng) : double * rng :=
  let '(x, g) := rng_draw d g in (d_abs x, g).

Definition ZkQuery (cache_hit : bool) : rng -> double * rng :=
  sample (if cache_hit then cache_dist else zk_dist).
Definition LoadBalance : rng -> double * rng := sample lb_dist.
Definition Connect : rng -> double * rng := sample conn_dist.
Definition SerializeReq : rng -> double * rng := sample ser_dist.
Definition EncodeReq : rng -> double * rng := sample enc_dist.
Definition DecodeRes : rng -> double * rng := sample dec_dist.
Definition DeserializeRes : rng -> double * rng := sample des_dist.

Definition longTail (g : rng) : double * rng :=
  let '(trigger, g) := rng_draw tail_trigger g in
  if d_lt trigger (d_dec 3 2) then rng_draw tail_dist g else (d_zero, g).
(** The order of the two draws is the compiler's choice; here it is that of the text. *)
Definition NetIO (g : rng) : double * rng :=
  let '(x, g) := sample net_dist g in
  let '(tail, g) := longTail g in
  (d_add x tail, g).

(** ** SimulateRpcCall *)

Context (clock : nat -> Z).

(** The generator and the number of readings of the clock. *)
Record SimState := mk_SimState { sim_gen : rng; ticks : nat }.

(** One block: a timer for [stage], a draw, a sleep of that many milliseconds, and the
    timer's destructor, which records. The result is the record. *)
Definition timed (stage : Stage) (draw : rng -> double * rng) (s : SimState) :
    outcome (list (Stage * double) * SimState) :=
  let t := mk_ScopedTimer stage (clock (ticks s)) in
  let '(ms, g) := draw (sim_gen s) in
  _ ← to_llong (d_mul ms million);
  mret ([(stage, elapsed_ms (start_ns t) (clock (S (ticks s))))], mk_SimState g (S (S (ticks s)))).

Fixpoint timed_all (blocks : list (Stage * (rng -> double * rng))) (s : SimState) :
    outcome (list (Stage * double) * SimState) :=
  match blocks with
  | [] => mret ([], s)
  | (stage, draw) :: blocks =>
      '(r, s) ← timed stage draw s;
      '(rest, s) ← timed_all blocks s;
      mret (r ++ rest, s)
  end.

(** The eight stages; the connection only when nothing is cached yet. *)
Definition SimulateRpcCall (call_id : Z) (s : SimState) : outcome (list (Stage * double) * SimState) :=
  let cache_hit := call_id >? 0 in
  timed_all
    ([(ZK_QUERY, ZkQuery cache_hit); (LOAD_BALANCE, LoadBalance)] ++
     (if negb cache_hit then [(CONNECT, Connect)] else []) ++
     [(SERIALIZE_REQ, SerializeReq); (ENCODE_REQ, EncodeReq); (NET_IO, NetIO);
      (DECODE_RES, DecodeRes); (DESERIALIZE_RES, DeserializeRes)]) s.

(** ** WorkerThread *)

(** What a thread does to what it shares: a record of [RuntimeStats], a count of
    [total_calls]. *)
Inductive stats_act := ARecord (call : Stage * double) | ACalled.

(** The calls from number [i] on, each under a timer for TOTAL. *)
Fixpoint calls_from (calls : nat) (i : Z) (s : SimState) : outcome (list stats_act) :=
  match calls with
  | O => mret []
  | S calls =>
      let t := mk_ScopedTimer TOTAL (clock (ticks s)) in
      '(records, s) ← SimulateRpcCall i (mk_SimState (sim_gen s) (S (ticks s)));
      let total := (TOTAL, elapsed_ms (start_ns t) (clock (ticks s))) in
      rest ← calls_from calls (i + 1) (mk_SimState (sim_gen s) (S (ticks s)));
      mret ((ARecord <$> records) ++ [ACalled; ARecord total] ++ rest)
  end.

Definition WorkerThread (thread_id calls_per_thread : Z) : outcome (list stats_act) :=
  calls_from (Z.to_nat calls_per_thread) 0 (mk_SimState (rng_seed (42 + thread_id * 1000)) 0).

End Bench.

(** ** main *)

(** The shared state: the statistics, as long as every conversion in [Record] was
    defined, and the counter. *)
Record StatsShared := mk_StatsShared { the_stats : outcome RuntimeStats; total_calls : Z }.

Definition stats_do (a : stats_act) (s : StatsShared) : StatsShared :=
  match a with
  | ARecord call => {| s with the_stats := st ← the_stats s; Record_ st call.1 call.2 |}
  | ACalled => {| s with total_calls := i64 (total_calls s + 1) |}
  end.

Definition kThreads : Z := 8.
Definition kCallsPerThread : Z := 1250.

Definition head_items : list item :=
  [endline; txt "=== XRPC RuntimeStats Benchmark ==="; endline;
   txt "Threads: "; Int kThreads; txt " | Calls per thread: "; Int kCallsPerThread;
   txt " | Total: "; Int (kThreads * kCallsPerThread); endline;
   txt "Latency model: Normal distribution + 3% long-tail spikes"; endline; endline].

Definition summary_items (total : Z) (elapsed : double) (throughput : Z) : list item :=
  [endline; txt "=== Benchmark Complete ==="; endline;
   txt "Total calls: "; Int total; endline;
   txt "Elapsed: "; Dbl elapsed; txt "s"; endline;
   txt "Throughput: "; Int throughput; txt " calls/s"; endline; endline].

(** A run of the threads, each with its own readings of the clock. *)
Definition stats_run `{Random} (threads calls : Z) (clocks : nat -> nat -> Z) (sh : StatsShared) : Prop :=
  exists ops, length ops = Z.to_nat threads /\
    (forall i l, ops !! i = Some l -> WorkerThread (clocks i) (Z.of_nat i) calls = Returns l) /\
    runs_to stats_do ops (mk_StatsShared (Returns RuntimeStats_new) 0) sh.

Inductive stats_main `{Random} `{StdSort} (clocks : nat -> nat -> Z) (start end_ : Z) :
    list item -> list LogLine -> Prop :=
| a_stats_main sh stats throughput report :
    stats_run kThreads kCallsPerThread clocks sh -> the_stats sh = Returns stats ->
    to_llong (d_div (d_of_Z (total_calls sh)) (chrono_s (end_ - start))) = Returns throughput ->
    PrintDetailedReport stats = Returns report ->
    stats_main clocks start end_
      (head_items ++ summary_items (total_calls sh) (chrono_s (end_ - start)) throughput) report.

(** ** How often each stage is recorded *)

Definition record_of (i : Stage) (a : stats_act) : Z :=
  match a with ARecord call => stage_is i call.1 | ACalled => 0 end.
Definition called_of (a : stats_act) : Z := match a with ACalled => 1 | _ => 0 end.

(** A record whose conversions are not defined is never recovered from. *)
Lemma acts_undefined l : forall sh s',
  (forall s, the_stats sh <> Returns s) -> the_stats (acts stats_do l sh) <> Returns s'.
Proof.
  induction l as [|a l IH]; intros sh s' Hs; [apply Hs|]. apply (IH (stats_do a sh)).
  destruct a as [call|]; [|done]. intros s. cbn.
  destruct (the_stats sh) as [s0| | | |] eqn:E; try done. by destruct (Hs s0).
Qed.

(** After any operations, when every conversion was defined. *)
Lemma acts_count l i : forall sh s s',
  the_stats sh = Returns s -> the_stats (acts stats_do l sh) = Returns s' -> i64_ok (count_at i s) ->
  count_at i s' = i64 (count_at i s + sum_by (record_of i) l).
Proof.
  induction l as [|a l IH]; intros sh s s' Hs Hs' Hi.
  { cbn in Hs'. rewrite Hs in Hs'. injection Hs' as <-. by rewrite Z.add_0_r, i64_small. }
  change (acts stats_do (a :: l) sh) with (acts stats_do l (stats_do a sh)) in Hs'.
  rewrite sum_by_cons. destruct (the_stats (stats_do a sh)) as [s1| | | |] eqn:E1;
    try (exfalso; eapply (acts_undefined l (stats_do a sh)); [|exact Hs']; intros ?; by rewrite E1).
  assert (count_at i s1 = i64 (count_at i s + record_of i a)) as Hc.
  { destruct a as [[stage d]|]; cbn in E1; rewrite Hs in E1.
    - by apply (record_count s stage d).
    - injection E1 as <-. cbn. by rewrite Z.add_0_r, i64_small. }
  rewrite (IH _ s1 s' E1 Hs') by (rewrite Hc; apply i64_ok_i64).
  rewrite Hc, i64_add. f_equal. lia.
Qed.

(** ** What a thread records *)

Definition stage_share (i : Stage) (calls : Z) : Z :=
  match i with CONNECT => Z.min 1 calls | _ => calls end.

Section Worker.
Context `{Random} (clock : nat -> Z).

Lemma timed_all_stages blocks : forall s rs s',
  timed_all clock blocks s = Returns (rs, s') -> fst <$> rs = fst <$> blocks.
Proof.
  induction blocks as [|[stage draw] blocks IH]; intros s rs s'; cbn [timed_all]; [by intros [= <- _]|].
  unfold timed. destruct (draw (sim_gen s)) as [ms g]. destruct (to_llong (d_mul ms million)); try done.
  cbn [mbind outcome_bind mret outcome_ret]. destruct (timed_all clock blocks _) as [[rest s2]| | | |] eqn:E; try done.
  cbn [mbind outcome_bind mret outcome_ret]. intros [= <- _]. cbn. f_equal. by eapply IH.
Qed.

Lemma records_of_stages i rs :
  sum_by (record_of i) (ARecord <$> rs) = sum_by (stage_is i) (fst <$> rs).
Proof. induction rs as [|r rs IH]; [done|]. cbn [fmap list_fmap]. rewrite !sum_by_cons, IH. done. Qed.

Lemma called_of_records rs : sum_by called_of (ARecord <$> rs) = 0.
Proof. induction rs as [|r rs IH]; [done|]. cbn [fmap list_fmap]. rewrite sum_by_cons, IH. done. Qed.

(** A call records every stage once, the connection only if it is the first. *)
Lemma call_records i id s rs s' :
  SimulateRpcCall clock id s = Returns (rs, s') ->
  sum_by (record_of i) (ARecord <$> rs) =
    match i with TOTAL => 0 | CONNECT => if id >? 0 then 0 else 1 | _ => 1 end.
Proof.
  intros Hr%timed_all_stages. rewrite records_of_stages, Hr. by destruct (id >? 0), i.
Qed.

Lemma calls_from_records i n : forall k s l,
  0 <= k -> calls_from clock n k s = Returns l ->
  sum_by (record_of i) l =
    match i with CONNECT => if k =? 0 then Z.min 1 (Z.of_nat n) else 0 | _ => Z.of_nat n end /\
  sum_by called_of l = Z.of_nat n.
Proof.
  induction n as [|n IH]; intros k s l Hk; cbn [calls_from].
  { intros [= <-]. destruct i; try done. by case_if. }
  destruct (SimulateRpcCall clock k _) as [[rs s1]| | | |] eqn:Er; try done. cbn [mbind outcome_bind].
  destruct (calls_from clock n (k + 1) _) as [rest| | | |] eqn:El; try done.
  cbn [mbind outcome_bind mret outcome_ret]. intros Hl. injection Hl as <-.
  destruct (IH (k + 1) _ _ ltac:(lia) El) as [I1 I2]. apply (call_records i) in Er.
  rewrite !sum_by_app, !sum_by_cons, I1, I2, Er, called_of_records. rewrite Nat2Z.inj_succ.
  replace (k + 1 =? 0) with false by lia. split; [|cbn; lia].
  cbn [record_of fst]. assert (0 <= Z.of_nat n) by lia.
  unfold stage_is. destruct i; case_decide; try done; try lia.
  destruct (k >? 0) eqn:Ek, (k =? 0) eqn:E0; zbool; lia.
Qed.

Lemma worker_records i id calls l :
  0 <= calls -> WorkerThread clock id calls = Returns l ->
  sum_by (record_of i) l = stage_share i calls /\ sum_by called_of l = calls.
Proof.
  intros Hc Hl. apply (calls_from_records i) in Hl as [H1 H2]; [|lia].
  rewrite Z2Nat.id in * by lia. split; [|done]. rewrite H1. by destruct i.
Qed.

End Worker.

(** C40. The report's counts. In every run that returns, whatever the interleaving of the
    threads, [total_calls] is threads times calls and so is the count of every stage,
    except that of CONNECT: one per thread that made a call. *)
Theorem stats_run_counts `{Random} threads calls clocks sh stats :
  0 <= threads < 2 ^ 31 -> 0 <= calls < 2 ^ 31 ->
  stats_run threads calls clocks sh -> the_stats sh = Returns stats ->
  total_calls sh = threads * calls /\
  forall i, count_at i stats = threads * stage_share i calls.
Proof.
  intros Ht Hc (ops & Hl & Hw & Hr) Hs.
  assert (forall i, Forall (fun l => sum_by (record_of i) l = stage_share i calls) ops) as Hrec.
  { intros i. apply Forall_lookup. intros j l Hj. by apply (worker_records (clocks j) i (Z.of_nat j) calls l); [lia|apply Hw]. }
  assert (Forall (fun l => sum_by called_of l = calls) ops) as Hcall.
  { apply Forall_lookup. intros j l Hj. by apply (worker_records (clocks j) TOTAL (Z.of_nat j) calls l); [lia|apply Hw]. }
  assert (zlen ops = threads) as Hlen by lia.
  split.
  - rewrite (runs_to_sum_i64 stats_do total_calls called_of ops (mk_StatsShared (Returns RuntimeStats_new) 0) sh);
      [|intros [|] ? ?; cbn; rewrite ?Z.add_0_r; first [done|by rewrite i64_small]|by unfold i64_ok|done].
    rewrite (sum_by_const _ _ _ Hcall), Hlen. cbn [total_calls]. rewrite Z.add_0_l, i64_small; [done|].
    unfold i64_ok. nia.
  - intros i. apply runs_to_acts in Hr as (l & -> & Hp).
    rewrite (acts_count l i (mk_StatsShared (Returns RuntimeStats_new) 0) RuntimeStats_new stats eq_refl Hs).
    2: { destruct i; vm_compute; split; congruence. }
    rewrite (sum_by_perm _ _ _ Hp), sum_by_concat, (sum_by_const _ _ _ (Hrec i)), Hlen.
    replace (count_at i RuntimeStats_new) with 0 by (by destruct i).
    rewrite Z.add_0_l, i64_small; [done|]. unfold i64_ok, stage_share. destruct i; nia.
Qed.

(** ** Witnesses *)

Section StatsBenchWitnesses.
#[local] Existing Instance demo_random.

(** The clock advances a millisecond with each reading. *)
Definition demo_clocks (_ k : nat) : Z := 1000000 * Z.of_nat k.
Definition demo_stats_ops : list (list stats_act) :=
  (fun i => match WorkerThread (demo_clocks i) (Z.of_nat i) 2 with Returns l => l | _ => [] end) <$> [0%nat; 1%nat].

(** Two threads of two calls. *)
Lemma stats_run_counts_witness :
  exists sh stats, stats_run 2 2 demo_clocks sh /\ the_stats sh = Returns stats /\
    total_calls sh = 4 /\ forall i, count_at i stats = 2 * stage_share i 2.
Proof.
  set (sh := acts stats_do (concat demo_stats_ops) (mk_StatsShared (Returns RuntimeStats_new) 0)).
  assert (match the_stats sh with Returns _ => true | _ => false end = true) as Hdef
    by (vm_compute; reflexivity).
  destruct (the_stats sh) as [stats| | | |] eqn:E; try discriminate Hdef.
  assert (stats_run 2 2 demo_clocks sh) as Hrun.
  { exists demo_stats_ops. split; [reflexivity|]. split; [|apply sequential_run].
    intros [|[|i]] l Hi; vm_compute in Hi; [| |discriminate Hi]; injection Hi as <-; vm_compute; reflexivity. }
  exists sh, stats. split; [exact Hrun|]. split; [exact E|].
  exact (stats_run_counts 2 2 demo_clocks sh stats ltac:(lia) ltac:(lia) Hrun E).
Defined.

End StatsBenchWitnesses.
